(* ===== verification/_CoqProject ===== *)
-Q . S2P
Prelude.v
PyBase.v
Models.v
Ddl.v
Migrations.v
PyCodec.v
PyText.v
RedisServer.v
Effects.v
Database.v
TableRows.v
RedisQueue.v
Cron.v
Retry.v
Demo.v
Scheduler.v
Store.v
Executor.v
Careful.v
HttpTasks.v
ShellTask.v
Runner.v
Logging.v
Monitoring.v
Leader.v
WorkerMain.v
WorkerLoop.v
Schemas.v
Crud.v
Responses.v
JobsApi.v
RunsApi.v
Auth.v
Drafts.v
System.v
ReadCommitted.v
Replicas.v
Cancellation.v
Application.v
Refusals.v
EndToEnd.v
