(* ===== verification/Prelude.v ===== *)
(** * Distributed Asynchronous Job Scheduler: a verification development

    The program is a job scheduler of three kinds of processes that share a
    PostgreSQL database and Redis: an HTTP API ([src/backend/api]), where users keep
    jobs and start, retry and cancel runs; scheduler replicas
    ([src/backend/scheduler]), one of which, chosen by an advisory lock, turns due
    schedules into runs once per second; and workers ([src/backend/worker]), which
    take run numbers from a Redis stream, claim the runs in the database and execute
    them.  [src/backend/common] holds the tables, the queue and the helpers they
    share.

    ** Files

    - [Prelude]: this header, scopes, hint databases, bounded loops, lists, tables.
    - [PyBase], [PyCodec], [PyText]: what the sources use of Python itself: [str],
      [repr], [int], [strip], [isdigit], [pathlib], UTF-8, base 64, JSON, [shlex].
    - [Models]: constants.py, config.py and models.py: enumerations, settings, one
      record per table, the database [Db] as five tables with their sequences.
    - [Ddl], [Migrations]: tables with columns, keys and rows, the documented effect of
      the statements that change them, and src/migrations: its four revisions, env.py, and
      the tables of models.py to compare.  [TableRows]: the records of [Db] as rows of
      the migrated tables.
    - [RedisServer]: the interface of the Redis commands (a class whose laws state
      their documented effect on the stream, its consumer group, the delayed set
      and the cancellation channel) and a reference server.
    - [Effects]: exceptions, the [World] (the session's and the committed tables,
      Redis, clock, faults to come, memories of the workers), the actions [M], with
      [commit], [rollback], [session_scope] of common/db.py, and the programs
      [prog] of several actions; two-state invariants ([respects], [presp]).
    - [Database]: the SQL statements with the constraints of the schema and what the types
      of columns and parameters refuse; [evolves], the relation between the tables and
      those after any actions but one; [persists], which that one keeps too.
    - [RedisQueue]: common/redis_queue.py and common/dispatch.py.
    - [Cron]: scheduler/cron.py.  [Retry]: worker/executors/retry.py.
    - [Scheduler]: scheduler/main.py.  [Leader]: scheduler/leader.py.
    - [Store]: worker/store.py.  [Executor]: worker/executors/base.py and the
      registry.  [HttpTasks]: executors/http.py and http_async.py.  [ShellTask]:
      executors/shell.py, and the instance of the contract that the three make.
      [Careful]: the one action that is outside [evolves], the write of
      [create_dependency_run], and programs that only promote what they saw pending.
      [Runner]: worker/runner.py.  [WorkerMain], [WorkerLoop]:
      worker/main.py, its operations and its loop.
    - [Schemas], [Responses]: common/schemas.py, its request and its response models.
      [Crud]: api/crud.py.  [JobsApi], [RunsApi]: api/routers/jobs.py and runs.py.  [Auth]: common/auth.py, api/deps.py and
      api/routers/auth.py.
    - [Logging]: common/logging.py.  [Monitoring]: common/metrics.py, the listeners of
      common/db.py, the middleware of api/main.py and api/routers/health.py.
    - [Drafts]: an uploaded script from the endpoint to its process.
    - [System]: all processes at once.  [ReadCommitted]: the races of
      [create_dependency_run].  [Replicas]: [main] of scheduler/main.py in several replicas.
      [Cancellation]: the cancel listener of worker/main.py, and a cancellation on its way
      through all components.
    - [Application]: api/main.py with the decorators of api/routers: the table of routes,
      and a request's way through route, parameters, user, endpoint and response model.
      [Refusals]: which actions write nothing before they refuse.  [EndToEnd]: a run from
      the request that triggers it to the request that shows it.  [Demo]: sample tables
      for the evaluations.

    ** How code and model correspond

    A function that touches the session, Redis or the clock is an action
    [M A = World -> Res A * World]; [Raise] is a Python exception.  Every commit and
    every Redis command first asks [w_faults] whether it fails.  A function that
    other processes can interleave with (it awaits, or it commits more than once)
    is a [prog], one [Atomic] per database transaction or Redis command;
    [create_dependency_run], whose write does not repeat the condition it has read, has one
    per statement.  Definitions have
    the names of the source, without leading underscores; where two functions share
    a name the endpoint is prefixed with [api_].  Statements flush where the source
    does; [autoflush] is off in db.py.  Time is in microseconds.

    ** What is shown

    - The composition ([System]): in every interleaving of workers, scheduler
      turns and API requests, with calls failing, tasks canceled and processes killed
      anywhere, and threads that go on after a cancellation, the constraints of the schema
      hold and every run moves along its life cycle; no run is executed twice by ordinary
      deliveries; a cancellation stops the task that executes the run, and the run stays
      canceled.  All three are exact about the one race that breaks them: a
      [stale_promotion] of this very run, which must have been pending before; a run that
      never was pending is not affected ([never_stale]).  Replicas of the scheduler
      exclude each other as far as the lock server knows.
    - From end to end ([EndToEnd]): a triggered job's run is queued, taken from the
      stream by a worker's next round, executed to an outcome and shown by the API.
    - The schema: the invariant of the tables is what the keys of the migrated schema
      demand; the migrations build what models.py describes, and what an upgrade and its
      downgrade do to existing rows.
    - Workers: what each transaction of store.py does on every branch; that a
      processed run ends with an outcome, starts each ready dependent once, or gets
      exactly one delayed retry; that no log line is lost; the message handling, the
      bound on concurrency, the graceful shutdown, reclaiming and the routing of
      cancellations.
    - Scheduling: the latest due tick of every schedule is found and inserted
      exactly once; a tick of the scheduler publishes exactly the due retries, the
      new runs and the orphans; at most one live leader.
    - API: exact behaviour of creating jobs, triggering (with the whole dependency
      recursion and its termination), retrying, canceling and importing drafts;
      stored jobs stay valid; values that no column takes are refused without a trace;
      users are isolated; accounts and tokens.  Of all endpoints
      at once: every route is reached by its URLs and hides no other, none but six run
      without a user, a refused request leaves no trace, and every stored run fits its
      response model.
    - Executors: the three executors meet the contract the worker is proved against;
      polling ends by its deadline; a shell task that reports a result has removed the
      directory of its script, unless the script could not be written, and has killed what
      it reports as timed out; an uploaded script is what its job runs.
    - Deviations that the code has are theorems too: [handle_loses_run],
      [handle_loses_output],
      [tick_publishes_waiting_retry], [tick_bad_schedule_blocks],
      [reclaim_takes_over], [background_output_outlives_timeout], [draft_named_sh],
      [dependency_started_twice], [promotion_revives_canceled], [canceled_run_retried],
      [listener_exact].

    ** Bounds

    [due_tick] runs at most one turn per microsecond between the base and now
    ([loop_pos], a binary bound): every fire time lies after the previous one.
    [prepare_trigger_run] gets one level per job and one more: a stack without a
    repeated job cannot be deeper; [trigger_terminates] shows that the bound is never
    reached.  [json_value] gets the length of its text, which bounds nesting and
    element counts.  [poll_loop] gets as many turns as poll intervals fit into the time
    limit, and two; [http_async_deadline] shows that this is enough.  With an interval
    that is not positive only the answers take time, and a process may write without
    end: for these [busy] bounds the turns.  All other recursion is structural.

    ** Parameters

    Redis ([RedisServer]), the order of unordered selections ([Postgres]), croniter
    and the zone database ([Croniter]), advisory locks ([LockServer]), the text of
    exceptions ([ExcText], [ValidationText]), the digests of hashlib ([Digests],
    without laws), FastAPI ([Fastapi]: the first route that fits, the digits of numbers;
    the reading of bodies has no laws), httpx ([HttpClient]), the operating system and the subprocess
    transport ([Subprocess]), the probes of the health endpoints ([Probes]), the digits of
    floats ([FloatText]), the server that executes the migrations ([SqlServer]).
    [Executors] is the contract of the three executors, [task_executors] their instance of
    it.  Each class has an instance on which the theorems are evaluated.

    ** Not modelled, and idealised

    - A transaction is one atomic action, except [create_dependency_run].  The server runs
      READ COMMITTED, so others can commit between two statements of a transaction.  The
      conditional updates of claim, cancel and finish are single statements, atomic on the
      server as well.  The other transactions that read and then write (the scheduler's, a
      trigger, creating and updating a job) insert rows or write columns of the job by its
      key; what is shown of them (one run per missing dependency, no cycle when none is
      read) holds when they do not overlap, while the life cycle of runs does not depend on
      what they read.  No program changes a run that it only has read, but for
      [create_dependency_run].
    - Columns refuse NUL characters and text beyond their length (blanks at the end are cut
      off), parameters are refused beyond [BIGINT] or, for an offset, [INTEGER]; the length
      of names and addresses of users is checked by the request's validation, the range of
      attempts and of the numbers of rows is not limited.
    - Text is one byte per character; lengths are those of ASCII text.  Floats of
      JSON are exact decimals.  Python's recursion limit and its limit of 4300 digits
      of [int] are ignored.
    - A process delivers its lines, its exit, the end of the time limit and a
      cancellation one after the other ([next_event]), each handled to its end.  When a
      pump of a shell task has failed, what the other pump still writes after the
      task has returned is left out.
    - The Prometheus registry is beside the world ([Monitoring] shows that measuring a
      call changes neither its outcome nor its effect), so the other files leave it
      out, and with it the single increments of worker and scheduler metrics.  The lines
      that are logged are left out.  The deployment files and the repository's tests
      carry no logic of the program; [encode_payload] of redis_queue.py has no caller.
      Alembic's choice of the missing revisions is their chain.  A statement that adds a
      constraint checks the rows there are; locks and speed are not considered.
    - In the processes' [main] functions: the length of sleeps and the start of the
      metrics server.
      [System] lets a task start as soon as it is spawned, which allows more
      interleavings than the semaphore of [WorkerLoop].
    - Of a request: CORS and its preflights, HEAD requests, the spelling of URLs
      (trailing slashes, escapes), the closing of the Redis client of [get_redis], and the
      text into which an answer is rendered. *)

From stdpp Require Export base tactics list gmap strings option sorting.
From Stdlib Require Export ZArith Lia.


(** ** Scope, hint databases, tactics *)

Declare Scope sched_scope.
Delimit Scope sched_scope with sched.
#[global] Open Scope Z_scope.
#[global] Open Scope sched_scope.

(** [sched]: facts every component may use.  [respect]: the closure lemmas of
    the two-state invariants (see [Effects]).  [py]: rewriting of Python's
    conversions. *)
Create HintDb sched.
Create HintDb respect discriminated.
Create Rewrite HintDb py.
Create Rewrite HintDb redis.

(** Destructs every [match] of the goal and of the hypotheses. *)
Ltac crush_match :=
  repeat first [ progress simplify_eq/= | case_match ]; try done.

(** ** Lists *)

(** [list(dict.fromkeys(l))]: drops duplicates, keeps the first occurrences in
    their order. *)
Fixpoint dict_fromkeys {A} `{EqDecision A} (l : list A) : list A :=
  match l with
  | [] => []
  | x :: l => x :: filter (λ y, y ≠ x) (dict_fromkeys l)
  end.

(** [LIMIT n OFFSET k] of a result list. *)
Definition limit_offset {A} (limit offset : Z) (l : list A) : list A :=
  take (Z.to_nat limit) (drop (Z.to_nat offset) l).

(** ** Loops

    A Python [while] loop is a step function that either continues with a new
    state ([inl]) or leaves the loop with a result ([inr]).  [loop_pos p] makes
    at most [p] steps; [p] is binary, so a bound of the size of a time span
    costs nothing to write down and a closed loop still evaluates. *)
Fixpoint loop_nat {S R} (n : nat) (step : S → S + R) (s : S) : S + R :=
  match n with
  | O => inl s
  | Datatypes.S n =>
      match step s with inl s' => loop_nat n step s' | inr r => inr r end
  end.

Fixpoint loop_pos {S R} (p : positive) (step : S → S + R) (s : S) : S + R :=
  match p with
  | xH => step s
  | xO p =>
      match loop_pos p step s with
      | inl s' => loop_pos p step s'
      | inr r => inr r
      end
  | xI p =>
      match step s with
      | inl s' =>
          match loop_pos p step s' with
          | inl s'' => loop_pos p step s''
          | inr r => inr r
          end
      | inr r => inr r
      end
  end.

Lemma list_filter_id {A} (P : A → Prop) `{∀ x, Decision (P x)} (l : list A) :
  (∀ x, x ∈ l → P x) → filter P l = l.
Proof.
  induction l as [|y l IH]; intros Hl; [done|].
  rewrite filter_cons_True by set_solver. f_equal. set_solver.
Qed.

Section dict_fromkeys.
Context {A} `{EqDecision A}.
Implicit Types (l : list A) (x : A).

Lemma elem_of_dict_fromkeys l x : x ∈ dict_fromkeys l ↔ x ∈ l.
Proof.
  induction l as [|y l IH]; simpl; [done|].
  rewrite !elem_of_cons, list_elem_of_filter, IH.
  destruct (decide (x = y)); naive_solver.
Qed.

Lemma NoDup_dict_fromkeys l : NoDup (dict_fromkeys l).
Proof.
  induction l as [|y l IH]; simpl; constructor.
  - rewrite list_elem_of_filter. naive_solver.
  - by apply NoDup_filter.
Qed.

Lemma dict_fromkeys_NoDup l : NoDup l → dict_fromkeys l = l.
Proof.
  induction 1 as [|y l Hy _ IH]; simpl; [done|]. rewrite IH. f_equal.
  apply list_filter_id. set_solver.
Qed.

End dict_fromkeys.

#[export] Hint Resolve NoDup_dict_fromkeys : sched.

Section loops.
Context {S R : Type} (step : S → S + R).

Lemma loop_nat_add n m s :
  loop_nat (n + m) step s =
  match loop_nat n step s with inl s' => loop_nat m step s' | inr r => inr r end.
Proof.
  revert s; induction n as [|n IH]; intros s; simpl; [done|].
  destruct (step s); [apply IH|done].
Qed.

Lemma loop_pos_nat p s : loop_pos p step s = loop_nat (Pos.to_nat p) step s.
Proof.
  revert s; induction p as [p IH|p IH|]; intros s; cbn [loop_pos].
  - replace (Pos.to_nat p~1) with (Datatypes.S (Pos.to_nat p + Pos.to_nat p)) by lia.
    cbn [loop_nat]. destruct (step s) as [s'|r]; [|done].
    rewrite loop_nat_add, IH. destruct (loop_nat _ _ s'); [apply IH|done].
  - replace (Pos.to_nat p~0) with (Pos.to_nat p + Pos.to_nat p)%nat by lia.
    rewrite loop_nat_add, IH. destruct (loop_nat _ _ s); [apply IH|done].
  - simpl. by destruct (step s).
Qed.

(** Total correctness: a loop with a decreasing measure returns, and its result
    satisfies what the exits promise. *)
Lemma loop_pos_total (I : S → Prop) (μ : S → Z) (Q : R → Prop) p s :
  I s →
  (∀ s, I s → 0 ≤ μ s) →
  (∀ s, I s → match step s with inl s' => I s' ∧ μ s' < μ s | inr r => Q r end) →
  μ s < Z.pos p →
  ∃ r, loop_pos p step s = inr r ∧ Q r.
Proof.
  intros HI Hpos Hstep Hp. rewrite loop_pos_nat.
  assert (μ s < Z.of_nat (Pos.to_nat p)) as Hn by lia. clear Hp.
  revert s HI Hn. generalize (Pos.to_nat p) as n.
  induction n as [|n IH]; intros s HI Hn; simpl.
  - specialize (Hpos s HI). lia.
  - specialize (Hstep s HI). destruct (step s) as [s'|r]; [|by eauto].
    destruct Hstep as [HI' Hlt]. apply IH; [done|lia].
Qed.

End loops.

(** ** Finite maps *)

(** A property of all rows of a closed table, decided by evaluation. *)
Lemma rows_decide {A} (P : A → Prop) `{∀ x, Decision (P x)} (m : gmap Z A) :
  bool_decide (map_Forall (λ _, P) m) = true → ∀ k x, m !! k = Some x → P x.
Proof. intros Hb%bool_decide_eq_true. exact Hb. Qed.

Lemma filter_nothing {A} (P : A → Prop) `{∀ x, Decision (P x)} (l : list A) :
  (∀ x, x ∉ filter P l) → filter P l = [].
Proof. apply elem_of_nil_inv. Qed.

Lemma map_to_list_snd_filter {A} (P : A → Prop) `{∀ x, Decision (P x)} (m : gmap Z A) x :
  x ∈ filter P (map_to_list m).*2 ↔ ∃ k, m !! k = Some x ∧ P x.
Proof.
  rewrite list_elem_of_filter, list_elem_of_fmap. split.
  - intros [HP [[k y] [-> Hy]]]. apply elem_of_map_to_list in Hy. eauto.
  - intros [k [Hk HP]]. split; [done|]. exists (k, x).
    by rewrite elem_of_map_to_list.
Qed.
