(* ===== verification/PyBase.v ===== *)
(** * Python's own conversions

    What the sources use of the language: [str] of an integer, [int] of a
    string, [str.isdigit], [str.strip].  Strings are ASCII (one [ascii] per
    character). *)

From S2P Require Import Prelude.
From Stdlib Require Import Ascii DecimalString DecimalFacts DecimalPos DecimalZ.

Local Open Scope string_scope.

(** ASCII characters that [str.isspace] accepts: space, the codes 9 to 13 and
    28 to 31. *)
Definition is_space (c : ascii) : bool :=
  let n := N_of_ascii c in
  ((n =? 32) || ((9 <=? n) && (n <=? 13)) || ((28 <=? n) && (n <=? 31)))%N.

Definition is_digit (c : ascii) : bool :=
  let n := N_of_ascii c in ((48 <=? n) && (n <=? 57))%N.

Fixpoint string_forallb (f : ascii → bool) (s : string) : bool :=
  match s with
  | EmptyString => true
  | String c s => f c && string_forallb f s
  end.

Fixpoint lstrip (s : string) : string :=
  match s with
  | EmptyString => ""
  | String c s' => if is_space c then lstrip s' else s
  end.

Fixpoint rstrip (s : string) : string :=
  match s with
  | EmptyString => ""
  | String c s' =>
      match rstrip s' with
      | EmptyString => if is_space c then "" else String c ""
      | r => String c r
      end
  end.

(** [s.strip()] *)
Definition strip (s : string) : string := rstrip (lstrip s).

(** [s.isdigit()]: non-empty and digits only. *)
Definition isdigit (s : string) : bool :=
  match s with EmptyString => false | _ => string_forallb is_digit s end.

(** The digits of an [int()] literal: single underscores may separate digits. *)
Fixpoint ungroup (after_digit : bool) (s : string) : option string :=
  match s with
  | EmptyString => if after_digit then Some "" else None
  | String c s' =>
      if Ascii.eqb c "_" then (if after_digit then ungroup false s' else None)
      else if is_digit c then String c <$> ungroup true s'
      else None
  end.

Definition nat_literal (s : string) : option Z :=
  ds ← ungroup false s; Z.of_uint <$> NilZero.uint_of_string ds.

(** [int(s)] for a string: surrounding white space, an optional sign, digits;
    [None] is [ValueError]. *)
Definition py_int (s : string) : option Z :=
  match strip s with
  | EmptyString => None
  | String c s' =>
      if Ascii.eqb c "-" then Z.opp <$> nat_literal s'
      else if Ascii.eqb c "+" then nat_literal s'
      else nat_literal (String c s')
  end.

(** [sep.join(l)] *)
Definition py_join (sep : string) (l : list string) : string := String.concat sep l.

(** [str(n)] for an integer. *)
Definition py_str (n : Z) : string := NilZero.string_of_int (Z.to_int n).

(** [s.lower()] *)
Definition lower_char (c : ascii) : ascii :=
  let n := N_of_ascii c in
  if ((65 <=? n) && (n <=? 90))%N then ascii_of_N (n + 32) else c.
Fixpoint py_lower (s : string) : string :=
  match s with EmptyString => "" | String c s => String (lower_char c) (py_lower s) end.

(** [s.split(c)] for one character *)
Fixpoint split_on (c : ascii) (s : string) : list string :=
  match s with
  | EmptyString => [""]
  | String a s' =>
      if Ascii.eqb a c then "" :: split_on c s'
      else match split_on c s' with
           | [] => [String a ""]
           | x :: l => String a x :: l
           end
  end.

(** [s.rfind(c)]; [None] is -1. *)
Fixpoint rfind (c : ascii) (s : string) : option nat :=
  match s with
  | EmptyString => None
  | String a s' =>
      match rfind c s' with
      | Some n => Some (S n)
      | None => if Ascii.eqb a c then Some O else None
      end
  end.

(** [pathlib]: [Path(s).name], [.stem] and [.suffix] on POSIX. *)
Definition path_name (s : string) : string :=
  default "" (last (filter (λ p, p ≠ "" ∧ p ≠ ".") (split_on "/" s))).
Definition path_split (s : string) : string * string :=
  let n := path_name s in
  match rfind "." n with
  | Some i => if ((0 <? i) && (i <? String.length n - 1))%nat
              then (String.substring 0 i n, String.substring i (String.length n - i) n) else (n, "")
  | None => (n, "")
  end.
Definition path_stem (s : string) : string := (path_split s).1.
Definition path_suffix (s : string) : string := (path_split s).2.

(** [data.decode("utf-8")] succeeds: no overlong forms, surrogates or code points
    beyond U+10FFFF. *)
Definition byte_in (lo hi : N) (c : ascii) : bool :=
  let n := N_of_ascii c in ((lo <=? n) && (n <=? hi))%N.
Fixpoint utf8_valid (s : string) : bool :=
  match s with
  | EmptyString => true
  | String a s1 =>
    if byte_in 0 127 a then utf8_valid s1
    else match s1 with
    | EmptyString => false
    | String b s2 =>
      if byte_in 194 223 a then byte_in 128 191 b && utf8_valid s2
      else match s2 with
      | EmptyString => false
      | String c s3 =>
        if byte_in 224 239 a then
          byte_in (if byte_in 224 224 a then 160 else 128)
                  (if byte_in 237 237 a then 159 else 191) b
          && byte_in 128 191 c && utf8_valid s3
        else match s3 with
        | EmptyString => false
        | String d s4 =>
          byte_in 240 244 a
          && byte_in (if byte_in 240 240 a then 144 else 128)
                     (if byte_in 244 244 a then 143 else 191) b
          && byte_in 128 191 c && byte_in 128 191 d && utf8_valid s4
        end
      end
    end
  end.

Lemma string_forallb_impl (f g : ascii → bool) s :
  (∀ c, f c = true → g c = true) → string_forallb f s = true → string_forallb g s = true.
Proof.
  intros Hfg. induction s as [|c s IH]; simpl; [done|].
  rewrite !andb_true_iff. naive_solver.
Qed.

Lemma is_digit_not_space c : is_digit c = true → is_space c = false.
Proof.
  unfold is_digit, is_space. destruct (N_of_ascii c) as [|p]; [done|].
  rewrite andb_true_iff, !N.leb_le. intros [??].
  repeat rewrite ?orb_false_iff, ?andb_false_iff, ?N.eqb_neq, ?N.leb_gt. lia.
Qed.

Lemma is_digit_not_underscore c : is_digit c = true → Ascii.eqb c "_" = false.
Proof. intros Hc. apply Ascii.eqb_neq. by intros ->. Qed.

Lemma rstrip_digits s : string_forallb is_digit s = true → rstrip s = s.
Proof.
  induction s as [|c s IH]; simpl; [done|].
  rewrite andb_true_iff. intros [Hc Hs]. rewrite IH by done.
  destruct s; [by rewrite is_digit_not_space|done].
Qed.

Lemma lstrip_digits s : string_forallb is_digit s = true → lstrip s = s.
Proof.
  destruct s as [|c s]; simpl; [done|]. rewrite andb_true_iff. intros [Hc _].
  by rewrite is_digit_not_space.
Qed.

Lemma ungroup_digits b s :
  string_forallb is_digit s = true → (b = true ∨ s ≠ "") → ungroup b s = Some s.
Proof.
  revert b. induction s as [|c s IH]; intros b; simpl.
  - intros _ [->|?]; done.
  - rewrite andb_true_iff. intros [Hc Hs] _.
    rewrite is_digit_not_underscore, Hc, IH by auto. done.
Qed.

Lemma string_of_uint_digits d :
  string_forallb is_digit (NilEmpty.string_of_uint d) = true.
Proof. induction d; simpl; done. Qed.

Lemma string_of_uint_nonempty d : d ≠ Decimal.Nil → NilEmpty.string_of_uint d ≠ "".
Proof. by destruct d. Qed.

Lemma pos_to_uint_nonnil p : Pos.to_uint p ≠ Decimal.Nil.
Proof. intros E. by eapply DecimalPos.Unsigned.to_uint_nonnil. Qed.

Lemma nat_literal_uint d :
  d ≠ Decimal.Nil → nat_literal (NilZero.string_of_uint d) = Some (Z.of_uint d).
Proof.
  intros Hd. unfold nat_literal.
  assert (NilZero.string_of_uint d = NilEmpty.string_of_uint d) as E by by destruct d.
  rewrite E, ungroup_digits;
    [|apply string_of_uint_digits|right; by apply string_of_uint_nonempty].
  simpl. by rewrite <- E, NilZero.usu.
Qed.

Lemma strip_neg s : string_forallb is_digit s = true → s ≠ "" →
  strip (String "-" s) = String "-" s.
Proof. intros Hs Hne. unfold strip. simpl. rewrite rstrip_digits by done. by destruct s. Qed.

Lemma py_int_digits d : d ≠ Decimal.Nil →
  py_int (NilZero.string_of_uint d) = Some (Z.of_uint d).
Proof.
  intros Hd. unfold py_int.
  assert (NilZero.string_of_uint d = NilEmpty.string_of_uint d) as E by by destruct d.
  pose proof (string_of_uint_digits d) as Hdig. rewrite <- E in Hdig.
  unfold strip. rewrite lstrip_digits, rstrip_digits by done.
  rewrite <- (nat_literal_uint d) by done.
  destruct d; done.
Qed.

(** [int(str(n)) == n]: the run id survives the trip through a message. *)
Lemma py_int_str n : py_int (py_str n) = Some n.
Proof.
  unfold py_str. destruct n as [|p|p]; [done| |].
  - simpl. rewrite py_int_digits by apply pos_to_uint_nonnil.
    f_equal. apply (DecimalZ.of_to (Z.pos p)).
  - simpl. unfold py_int.
    pose proof (pos_to_uint_nonnil p) as Hp.
    assert (NilZero.string_of_uint (Pos.to_uint p) = NilEmpty.string_of_uint (Pos.to_uint p))
      as E by by destruct (Pos.to_uint p).
    rewrite strip_neg; [|rewrite E; apply string_of_uint_digits
                        |rewrite E; by apply string_of_uint_nonempty].
    simpl. rewrite nat_literal_uint by done.
    simpl. f_equal. apply (DecimalZ.of_to (Z.neg p)).
Qed.

Lemma py_str_inj n m : py_str n = py_str m → n = m.
Proof. intros E. assert (Some n = Some m) by (by rewrite <- !py_int_str, E). congruence. Qed.

#[export] Hint Rewrite py_int_str : py.

Example py_int_examples :
  (py_int " 42 ", py_int "-7", py_int "1_000", py_int "1__0", py_int "", py_int "x")
  = (Some 42, Some (-7), Some 1000, None, None, None).
Proof. reflexivity. Qed.

Example path_examples :
  (path_stem "a/b.tar.gz", path_suffix "a/b.PY", path_name "x/./", path_stem ".bashrc",
   path_suffix "c.", py_lower "A.Py")
  = ("b.tar", ".PY", "x", ".bashrc", "", "a.py").
Proof. reflexivity. Qed.

(** ** Slices *)

Lemma substring_all n s : (String.length s ≤ n)%nat → String.substring 0 n s = s.
Proof.
  revert s. induction n as [|n IH]; intros [|c s] Hn; simpl in *; try done; [lia|].
  by rewrite IH by lia.
Qed.

Lemma string_app_nil_r s : (s ++ "")%string = s.
Proof. induction s as [|c s IH]; [done|]. exact (f_equal (String c) IH). Qed.

Lemma substring_split n s :
  (String.substring 0 n s ++ String.substring n (String.length s - n) s)%string = s.
Proof.
  revert s. induction n as [|n IH]; intros [|c s]; try done.
  - exact (f_equal (String c) (substring_all (String.length s) s (le_n _))).
  - exact (f_equal (String c) (IH s)).
Qed.
