(* ===== verification/Models.v ===== *)
(** * Constants, configuration and tables

    [backend/common/constants.py], [config.py] and [models.py]: the enumerations,
    the settings, one record per ORM class and the database as the five tables
    with their sequences.  Timestamps are microseconds since the epoch (UTC). *)

From S2P Require Import Prelude PyBase.
From Stdlib Require Import Ascii DecimalString.

Local Open Scope string_scope.

(** ** Enumerations of constants.py *)

Module TaskType.

Definition HTTP : string := "http".
Definition SHELL : string := "shell".
Definition HTTP_ASYNC : string := "http_async".
Definition ALL : list string := [HTTP; SHELL; HTTP_ASYNC].

End TaskType.

Module ScheduleType.

Definition CRON : string := "cron".
Definition INTERVAL : string := "interval".
Definition MANUAL : string := "manual".
Definition ALL : list string := [CRON; INTERVAL; MANUAL].

End ScheduleType.

Inductive TriggerType :=
  | SCHEDULED | MANUAL | DEPENDENCY | RETRY.

Inductive RunStatus :=
  | PENDING | QUEUED | RUNNING | SUCCEEDED | FAILED | TIMED_OUT | CANCELED.

Inductive LogStream :=
  | STDOUT | STDERR | SYSTEM.

Definition status_str (s : RunStatus) : string :=
  match s with
  | PENDING => "pending" | QUEUED => "queued" | RUNNING => "running"
  | SUCCEEDED => "succeeded" | FAILED => "failed" | TIMED_OUT => "timed_out"
  | CANCELED => "canceled"
  end.

(** The strings of the other two enumerations. *)
Definition trigger_str (t : TriggerType) : string :=
  match t with
  | SCHEDULED => "scheduled" | MANUAL => "manual" | DEPENDENCY => "dependency" | RETRY => "retry"
  end.
Definition stream_str (s : LogStream) : string :=
  match s with STDOUT => "stdout" | STDERR => "stderr" | SYSTEM => "system" end.

Definition TERMINAL : list RunStatus := [SUCCEEDED; FAILED; TIMED_OUT; CANCELED].

#[global] Instance TriggerType_eq_dec : EqDecision TriggerType.
Proof. solve_decision. Defined.
#[global] Instance RunStatus_eq_dec : EqDecision RunStatus.
Proof. solve_decision. Defined.
#[global] Instance LogStream_eq_dec : EqDecision LogStream.
Proof. solve_decision. Defined.

(** ** Settings of config.py *)

Class Settings := {
  orphan_requeue_after_sec : Z;
  worker_concurrency : Z;
  worker_read_batch : Z;
  claim_min_idle_ms : Z;
  retry_backoff_max_sec : Z;
  auth_secret_key : string;
  auth_token_expire_minutes : Z
}.

Definition default_settings : Settings := {|
  orphan_requeue_after_sec := 60;
  worker_concurrency := 10;
  worker_read_batch := 20;
  claim_min_idle_ms := 30000;
  retry_backoff_max_sec := 3600;
  auth_secret_key := "dev-change-me";
  auth_token_expire_minutes := 1440
|}.

(** ** JSON values ([JSONB] columns, [dict[str, Any]])

    An object is its list of items in insertion order.  [JFloat m e] is
    [m * 10^e]. *)
Inductive json :=
  | JNull
  | JBool (b : bool)
  | JInt (n : Z)
  | JFloat (m e : Z)
  | JStr (s : string)
  | JArr (l : list json)
  | JObj (l : list (string * json)).

Section json_ind.
Variable P : json → Prop.
Hypothesis (Hnull : P JNull) (Hbool : ∀ b, P (JBool b)) (Hint : ∀ n, P (JInt n))
  (Hfloat : ∀ m e, P (JFloat m e)) (Hstr : ∀ s, P (JStr s))
  (Harr : ∀ l, Forall P l → P (JArr l)) (Hobj : ∀ l, Forall (P ∘ snd) l → P (JObj l)).

(** Induction through the nested lists. *)
Fixpoint json_induction (v : json) : P v :=
  match v with
  | JNull => Hnull
  | JBool b => Hbool b
  | JInt n => Hint n
  | JFloat m e => Hfloat m e
  | JStr s => Hstr s
  | JArr l => Harr l ((fix go l : Forall P l :=
      match l with
      | [] => Forall_nil_2 P
      | x :: l => Forall_cons_2 P x l (json_induction x) (go l)
      end) l)
  | JObj l => Hobj l ((fix go l : Forall (P ∘ snd) l :=
      match l with
      | [] => Forall_nil_2 _
      | x :: l => Forall_cons_2 (P ∘ snd) x l (json_induction x.2) (go l)
      end) l)
  end.

End json_ind.

(** [==] on JSON values that were read the same way. *)
Fixpoint json_eqb (v v' : json) : bool :=
  match v, v' with
  | JNull, JNull => true
  | JBool b, JBool b' => Bool.eqb b b'
  | JInt n, JInt n' => (n =? n')%Z
  | JFloat m e, JFloat m' e' => (m =? m')%Z && (e =? e')%Z
  | JStr s, JStr s' => String.eqb s s'
  | JArr l, JArr l' =>
      (fix go l l' := match l, l' with
        | [], [] => true
        | x :: l, x' :: l' => json_eqb x x' && go l l'
        | _, _ => false end) l l'
  | JObj l, JObj l' =>
      (fix go l l' := match l, l' with
        | [], [] => true
        | (k, x) :: l, (k', x') :: l' => String.eqb k k' && json_eqb x x' && go l l'
        | _, _ => false end) l l'
  | _, _ => false
  end.

Lemma json_eqb_eq v v' : json_eqb v v' = true ↔ v = v'.
Proof.
  revert v'. induction v as [|b|n|m e|s|l IH|l IH] using json_induction; intros v';
    destruct v' as [|b'|n'|m' e'|s'|l'|l']; simpl; try (split; [done|discriminate]); try done.
  - rewrite Bool.eqb_true_iff. naive_solver.
  - rewrite Z.eqb_eq. naive_solver.
  - rewrite andb_true_iff, !Z.eqb_eq. naive_solver.
  - rewrite String.eqb_eq. naive_solver.
  - trans (l = l'); [|naive_solver]. revert l'.
    induction IH as [|x l Hx _ IHl]; intros [|x' l']; try done.
    rewrite andb_true_iff, Hx, IHl. naive_solver.
  - trans (l = l'); [|naive_solver]. revert l'.
    induction IH as [|[k x] l Hx _ IHl]; intros [|[k' x'] l']; try done. simpl in Hx.
    rewrite !andb_true_iff, String.eqb_eq, Hx, IHl. naive_solver.
Qed.

#[global] Instance json_eq_dec : EqDecision json.
Proof.
  intros v v'. destruct (json_eqb v v') eqn:E.
  - left. by apply json_eqb_eq.
  - right. intros Heq%json_eqb_eq. congruence.
Defined.

(** ** Values that a column can hold

    psycopg and the server refuse a statement that would store anything else. *)

Definition in_width (bits n : Z) : bool :=
  ((- 2 ^ (bits - 1) <=? n) && (n <? 2 ^ (bits - 1)))%Z.

(** A text, also inside a JSON value, has no NUL character. *)
Fixpoint text_ok (s : string) : bool :=
  match s with EmptyString => true | String c s => negb (Ascii.eqb c "000") && text_ok s end.
Fixpoint json_ok (v : json) : bool :=
  match v with
  | JStr s => text_ok s
  | JArr l => forallb json_ok l
  | JObj l => forallb (λ e, text_ok e.1 && json_ok e.2) l
  | _ => true
  end.

Lemma text_ok_app s s' : text_ok (s ++ s') = text_ok s && text_ok s'.
Proof.
  induction s as [|c s IH]; [done|]. change (String c s ++ s')%string with (String c (s ++ s')).
  simpl. by rewrite IH, andb_assoc.
Qed.

Lemma text_ok_py_str n : text_ok (py_str n) = true.
Proof.
  assert (∀ d, text_ok (NilEmpty.string_of_uint d) = true) as Hd by (by induction d).
  assert (∀ d, text_ok (NilZero.string_of_uint d) = true) as Hz by (intros []; [done|apply Hd..]).
  unfold py_str. destruct (Z.to_int n); simpl; apply Hz.
Qed.

(** A check of a value that may be NULL. *)
Definition opt_ok {A} (f : A → bool) (o : option A) : bool :=
  match o with None => true | Some x => f x end.

Fixpoint all_blank (s : string) : bool :=
  match s with EmptyString => true | String c s => Ascii.eqb c " " && all_blank s end.

Lemma all_blank_app s s' : all_blank (s ++ s') = all_blank s && all_blank s'.
Proof. induction s as [|c s IH]; [done|]. change (String c s ++ s')%string with (String c (s ++ s')). simpl. by rewrite IH, andb_assoc. Qed.

(** The text that a column [VARCHAR(n)] holds once [s] was assigned to it: blanks beyond
    its length are cut off, anything else is refused. *)
Definition varchar (n : nat) (s : string) : option string :=
  if negb (text_ok s) then None
  else if (String.length s <=? n)%nat then Some s
  else if all_blank (String.substring n (String.length s - n) s) then Some (String.substring 0 n s)
  else None.

(** The same of a column that may be NULL. *)
Definition varchar_opt (n : nat) (o : option string) : option (option string) :=
  match o with None => Some None | Some s => Some <$> varchar n s end.

Lemma varchar_fits n s : text_ok s = true → (String.length s ≤ n)%nat → varchar n s = Some s.
Proof. intros Ht Hn. unfold varchar. by rewrite Ht, (proj2 (Nat.leb_le _ _) Hn). Qed.

Lemma varchar_inv n s s' :
  varchar n s = Some s' → ∃ b, all_blank b = true ∧ s = (s' ++ b)%string.
Proof.
  unfold varchar. destruct (text_ok s); [|done]. simpl. destruct (Nat.leb_spec (String.length s) n).
  - intros [= <-]. exists "". by rewrite string_app_nil_r.
  - destruct (all_blank _) eqn:E; [|done]. intros [= <-]. eexists. split; [exact E|].
    symmetry. apply substring_split.
Qed.

(** [d.get(k)] *)
Fixpoint dict_get (k : string) (d : list (string * json)) : option json :=
  match d with
  | [] => None
  | (k', v) :: d => if decide (k = k') then Some v else dict_get k d
  end.

(** Python truth of a JSON value. *)
Definition truthy (v : json) : bool :=
  match v with
  | JNull => false
  | JBool b => b
  | JInt n => negb (n =? 0)%Z
  | JFloat m _ => negb (m =? 0)%Z
  | JStr s => negb (String.eqb s "")
  | JArr l => match l with [] => false | _ => true end
  | JObj l => match l with [] => false | _ => true end
  end.

(** [dict[str, Any] | None]: what the response model of a run accepts as its result. *)
Definition plain_result (v : option json) : Prop :=
  match v with None | Some (JObj _) => True | Some _ => False end.

(** ** Tables of models.py *)

Record User := {
  user_id : Z;
  username : string;
  email : option string;
  password_hash : string;
  is_active : bool;
  user_created_at : Z;
  user_updated_at : Z
}.

Record Job := {
  job_id : Z;
  owner_user_id : option Z;
  name : string;
  description : option string;
  category : option string;
  task_type : string;
  task_spec : list (string * json);
  schedule_type : string;
  schedule_expr : option string;
  timezone : string;
  enabled : bool;
  max_retries : Z;
  retry_backoff_sec : Z;
  timeout_sec : Z;
  last_scheduled_for : option Z;
  job_created_at : Z;
  job_updated_at : Z
}.

#[global] Instance Job_eq_dec : EqDecision Job.
Proof. solve_decision. Defined.

Record JobDependency := {
  dep_id : Z;
  dep_job_id : Z;
  depends_on_job_id : Z
}.

Record JobRun := {
  run_id : Z;
  run_job_id : Z;
  trigger_type : TriggerType;
  status : RunStatus;
  attempt : Z;
  scheduled_for : option Z;
  started_at : option Z;
  finished_at : option Z;
  exit_code : option Z;
  result : option json;
  error : option string;
  worker_id : option string;
  run_created_at : Z
}.

Record JobRunLog := {
  log_id : Z;
  log_run_id : Z;
  ts : Z;
  stream : LogStream;
  line : string
}.

(** The five tables and their primary-key sequences. *)
Record Db := {
  users : gmap Z User;
  jobs : gmap Z Job;
  deps : gmap Z JobDependency;
  runs : gmap Z JobRun;
  logs : gmap Z JobRunLog;
  users_seq : Z;
  jobs_seq : Z;
  deps_seq : Z;
  runs_seq : Z;
  logs_seq : Z
}.

Definition empty_db : Db := {|
  users := ∅; jobs := ∅; deps := ∅; runs := ∅; logs := ∅;
  users_seq := 1; jobs_seq := 1; deps_seq := 1; runs_seq := 1; logs_seq := 1
|}.

(** ** Field updates *)

Definition set_status (s : RunStatus) (r : JobRun) : JobRun := {|
  run_id := run_id r; run_job_id := run_job_id r; trigger_type := trigger_type r;
  status := s; attempt := attempt r; scheduled_for := scheduled_for r;
  started_at := started_at r; finished_at := finished_at r; exit_code := exit_code r;
  result := result r; error := error r; worker_id := worker_id r;
  run_created_at := run_created_at r |}.

Definition set_started (t : Z) (w : string) (r : JobRun) : JobRun := {|
  run_id := run_id r; run_job_id := run_job_id r; trigger_type := trigger_type r;
  status := status r; attempt := attempt r; scheduled_for := scheduled_for r;
  started_at := Some t; finished_at := finished_at r; exit_code := exit_code r;
  result := result r; error := error r; worker_id := Some w;
  run_created_at := run_created_at r |}.

Definition set_finished (t : Z) (e : option string) (r : JobRun) : JobRun := {|
  run_id := run_id r; run_job_id := run_job_id r; trigger_type := trigger_type r;
  status := status r; attempt := attempt r; scheduled_for := scheduled_for r;
  started_at := started_at r; finished_at := Some t; exit_code := exit_code r;
  result := result r; error := e; worker_id := worker_id r;
  run_created_at := run_created_at r |}.

Definition set_outcome (c : option Z) (v : option json) (r : JobRun) : JobRun := {|
  run_id := run_id r; run_job_id := run_job_id r; trigger_type := trigger_type r;
  status := status r; attempt := attempt r; scheduled_for := scheduled_for r;
  started_at := started_at r; finished_at := finished_at r; exit_code := c;
  result := v; error := error r; worker_id := worker_id r;
  run_created_at := run_created_at r |}.

Definition set_last_scheduled_for (t : Z) (j : Job) : Job := {|
  job_id := job_id j; owner_user_id := owner_user_id j; name := name j;
  description := description j; category := category j; task_type := task_type j;
  task_spec := task_spec j; schedule_type := schedule_type j;
  schedule_expr := schedule_expr j; timezone := timezone j; enabled := enabled j;
  max_retries := max_retries j; retry_backoff_sec := retry_backoff_sec j;
  timeout_sec := timeout_sec j; last_scheduled_for := Some t;
  job_created_at := job_created_at j; job_updated_at := job_updated_at j |}.

Definition set_job_updated_at (t : Z) (j : Job) : Job := {|
  job_id := job_id j; owner_user_id := owner_user_id j; name := name j;
  description := description j; category := category j; task_type := task_type j;
  task_spec := task_spec j; schedule_type := schedule_type j;
  schedule_expr := schedule_expr j; timezone := timezone j; enabled := enabled j;
  max_retries := max_retries j; retry_backoff_sec := retry_backoff_sec j;
  timeout_sec := timeout_sec j; last_scheduled_for := last_scheduled_for j;
  job_created_at := job_created_at j; job_updated_at := t |}.

Definition with_users (t : gmap Z User) (d : Db) : Db :=
  {| users := t; jobs := jobs d; deps := deps d; runs := runs d; logs := logs d;
     users_seq := users_seq d; jobs_seq := jobs_seq d; deps_seq := deps_seq d;
     runs_seq := runs_seq d; logs_seq := logs_seq d |}.
Definition with_jobs (t : gmap Z Job) (d : Db) : Db :=
  {| users := users d; jobs := t; deps := deps d; runs := runs d; logs := logs d;
     users_seq := users_seq d; jobs_seq := jobs_seq d; deps_seq := deps_seq d;
     runs_seq := runs_seq d; logs_seq := logs_seq d |}.
Definition with_deps (t : gmap Z JobDependency) (d : Db) : Db :=
  {| users := users d; jobs := jobs d; deps := t; runs := runs d; logs := logs d;
     users_seq := users_seq d; jobs_seq := jobs_seq d; deps_seq := deps_seq d;
     runs_seq := runs_seq d; logs_seq := logs_seq d |}.
Definition with_runs (t : gmap Z JobRun) (d : Db) : Db :=
  {| users := users d; jobs := jobs d; deps := deps d; runs := t; logs := logs d;
     users_seq := users_seq d; jobs_seq := jobs_seq d; deps_seq := deps_seq d;
     runs_seq := runs_seq d; logs_seq := logs_seq d |}.
Definition with_logs (t : gmap Z JobRunLog) (d : Db) : Db :=
  {| users := users d; jobs := jobs d; deps := deps d; runs := runs d; logs := t;
     users_seq := users_seq d; jobs_seq := jobs_seq d; deps_seq := deps_seq d;
     runs_seq := runs_seq d; logs_seq := logs_seq d |}.

(** A sequence hands out its number and moves on; it is never rolled back. *)
Definition next_users (d : Db) : Db :=
  {| users := users d; jobs := jobs d; deps := deps d; runs := runs d; logs := logs d;
     users_seq := users_seq d + 1; jobs_seq := jobs_seq d; deps_seq := deps_seq d;
     runs_seq := runs_seq d; logs_seq := logs_seq d |}.
Definition next_jobs (d : Db) : Db :=
  {| users := users d; jobs := jobs d; deps := deps d; runs := runs d; logs := logs d;
     users_seq := users_seq d; jobs_seq := jobs_seq d + 1; deps_seq := deps_seq d;
     runs_seq := runs_seq d; logs_seq := logs_seq d |}.
Definition next_deps (d : Db) : Db :=
  {| users := users d; jobs := jobs d; deps := deps d; runs := runs d; logs := logs d;
     users_seq := users_seq d; jobs_seq := jobs_seq d; deps_seq := deps_seq d + 1;
     runs_seq := runs_seq d; logs_seq := logs_seq d |}.
Definition next_runs (d : Db) : Db :=
  {| users := users d; jobs := jobs d; deps := deps d; runs := runs d; logs := logs d;
     users_seq := users_seq d; jobs_seq := jobs_seq d; deps_seq := deps_seq d;
     runs_seq := runs_seq d + 1; logs_seq := logs_seq d |}.
Definition next_logs (d : Db) : Db :=
  {| users := users d; jobs := jobs d; deps := deps d; runs := runs d; logs := logs d;
     users_seq := users_seq d; jobs_seq := jobs_seq d; deps_seq := deps_seq d;
     runs_seq := runs_seq d; logs_seq := logs_seq d + 1 |}.

(** The tables of [old] with the sequences of [new]: what a rollback leaves. *)
Definition keep_sequences (old new : Db) : Db :=
  {| users := users old; jobs := jobs old; deps := deps old; runs := runs old;
     logs := logs old;
     users_seq := users_seq new; jobs_seq := jobs_seq new; deps_seq := deps_seq new;
     runs_seq := runs_seq new; logs_seq := logs_seq new |}.
