(* ===== verification/Ddl.v ===== *)
(** * Tables, constraints and the statements that change them

    What the migrations ask of PostgreSQL: a database is its tables, each with
    columns, keys, indexes and rows; a statement changes them or fails.  Only the
    checks a statement makes on existing rows are made: a new constraint is validated,
    and an [UPDATE] coerces its values to their columns, checks that they fit, and
    checks the constraints on the columns it assigns. *)

From S2P Require Import Prelude PyBase Models.
From Stdlib Require Import Ascii String.

Local Open Scope string_scope.
Local Open Scope Z_scope.
Local Open Scope list_scope.

(** ** Values and rows *)

Inductive Value :=
  | VNull
  | VBool (b : bool)
  | VInt (n : Z)
  | VText (s : string)
  | VJson (v : json)
  | VTime (t : Z).

#[global] Instance Value_eq_dec : EqDecision Value.
Proof. solve_decision. Defined.

(** [sa.BigInteger()], [sa.Integer()], [sa.Boolean()], [sa.DateTime(timezone=True)],
    [sa.Text()], [sa.String(n)], [JSONB] *)
Inductive ColType := BigInteger | Integer | Boolean | DateTime | Text | VarChar (n : nat) | JSONB.

#[global] Instance ColType_eq_dec : EqDecision ColType.
Proof. solve_decision. Defined.

(** The value, not NULL, can be stored in a column of the type. *)
Definition has_type (t : ColType) (v : Value) : bool :=
  match t, v with
  | BigInteger, VInt n => in_width 64 n
  | Integer, VInt n => in_width 32 n
  | Boolean, VBool _ | DateTime, VTime _ | Text, VText _ | JSONB, VJson _ => true
  | VarChar n, VText s => (String.length s <=? n)%nat
  | _, _ => false
  end.

Record Column := {
  col_name : string;
  col_type : ColType;
  nullable : bool;
  server_default : Value
}.

#[global] Instance Column_eq_dec : EqDecision Column.
Proof. solve_decision. Defined.

Inductive OnDelete := CASCADE | SET_NULL | NO_ACTION.

#[global] Instance OnDelete_eq_dec : EqDecision OnDelete.
Proof. solve_decision. Defined.

Record ForeignKey := {
  fk_cols : list string;
  fk_table : string;
  fk_refs : list string;
  on_delete : OnDelete
}.

#[global] Instance ForeignKey_eq_dec : EqDecision ForeignKey.
Proof. solve_decision. Defined.

(** Constraints and indexes by name; an index may be unique. *)
Record Table := {
  columns : list Column;
  pkey : list string;
  uniques : list (string * list string);
  fkeys : list (string * ForeignKey);
  indexes : list (string * (bool * list string))
}.

Notation Row := (gmap string Value).
Definition Database : Type := list (string * (Table * list Row)).

(** ** Constraints *)

(** The value fits its column. *)
Definition cell_ok (c : Column) (v : Value) : bool :=
  match v with VNull => nullable c | _ => has_type (col_type c) v end.

(** Every column has a value that fits, and there are no others. *)
Definition row_ok (t : Table) (r : Row) : Prop :=
  dom r = list_to_set (col_name <$> columns t) ∧
  Forall (λ c, ∃ v, r !! col_name c = Some v ∧ cell_ok c v = true) (columns t).
#[global] Instance row_ok_dec t r : Decision (row_ok t r).
Proof.
  apply and_dec; [apply _|]. apply Forall_dec. intros c.
  destruct (r !! col_name c) as [v|]; [|right; by intros (v & ? & _)].
  destruct (cell_ok c v) eqn:E; [left; eauto|right; intros (v' & Hv & Hc); congruence].
Defined.

(** The values of the columns [cols], unless one of them is NULL. *)
Definition key (cols : list string) (r : Row) : option (list Value) :=
  mapM (λ c, v ← r !! c; match v with VNull => None | _ => Some v end) cols.

(** A unique constraint: NULLs never collide. *)
Definition unique_ok (cols : list string) (rows : list Row) : Prop := NoDup (omap (key cols) rows).

(** A primary key: unique and never NULL. *)
Definition pkey_ok (cols : list string) (rows : list Row) : Prop :=
  unique_ok cols rows ∧ Forall (λ r, is_Some (key cols r)) rows.

Fixpoint get {A} (n : string) (db : list (string * A)) : option A :=
  match db with
  | [] => None
  | (m, x) :: db => if String.eqb n m then Some x else get n db
  end.
Fixpoint put {A} (n : string) (x : A) (db : list (string * A)) : list (string * A) :=
  match db with
  | [] => []
  | (m, y) :: db => if String.eqb n m then (m, x) :: db else (m, y) :: put n x db
  end.
Fixpoint remove {A} (n : string) (db : list (string * A)) : list (string * A) :=
  match db with
  | [] => []
  | (m, y) :: db => if String.eqb n m then db else (m, y) :: remove n db
  end.

Definition rows_in (n : string) (db : Database) : list Row :=
  match get n db with Some (_, rows) => rows | None => [] end.

(** Every reference names an existing row. *)
Definition fkey_ok (db : Database) (fk : ForeignKey) (rows : list Row) : Prop :=
  Forall (λ r, match key (fk_cols fk) r with
               | Some k => Some k ∈ (key (fk_refs fk) <$> rows_in (fk_table fk) db)
               | None => True
               end) rows.
#[global] Instance fkey_ok_dec db fk rows : Decision (fkey_ok db fk rows).
Proof. apply Forall_dec. intros r. destruct (key _ r); apply _. Defined.

(** What primary keys, unique constraints, unique indexes and foreign keys demand. *)
Definition keys_ok (db : Database) (t : Table) (rows : list Row) : Prop :=
  pkey_ok (pkey t) rows ∧
  Forall (λ u, unique_ok u.2 rows) (uniques t) ∧
  Forall (λ i, i.2.1 = true → unique_ok i.2.2 rows) (indexes t) ∧
  Forall (λ f, fkey_ok db f.2 rows) (fkeys t).

Definition db_keys_ok (db : Database) : Prop := Forall (λ e, keys_ok db e.2.1 e.2.2) db.
Definition db_rows_ok (db : Database) : Prop := Forall (λ e, Forall (row_ok e.2.1) e.2.2) db.

(** *** Assignment

    A text too long for its column is cut when only blanks are lost. *)

Definition coerce (t : ColType) (v : Value) : Value :=
  match t, v with
  | VarChar n, VText s =>
      if all_blank (substring n (String.length s - n) s) then VText (substring 0 n s) else v
  | _, _ => v
  end.

Definition coerce_cell (t : Table) (c : string) (v : Value) : Value :=
  match List.find (λ k, String.eqb (col_name k) c) (columns t) with
  | Some k => coerce (col_type k) v
  | None => v
  end.
Definition coerce_row (t : Table) (r : Row) : Row := map_imap (λ c v, Some (coerce_cell t c v)) r.

(** ** Statements *)

Inductive SqlError :=
  | DuplicateObject (n : string)
  | UndefinedObject (n : string)
  | DependentObjects (n : string)
  | IntegrityViolation (n : string)      (* a key, a reference or a NULL *)
  | DataException (n : string).          (* a value that does not fit its column *)

Inductive Constraint := UniqueC | ForeignKeyC.

(** The operations of [alembic.op] that the migrations use. *)
Inductive Op :=
  | create_table (n : string) (t : Table)
  | drop_table (n : string)
  | create_index (ix n : string) (cols : list string)
  | drop_index (ix n : string)
  | add_column (n : string) (c : Column)
  | drop_column (n c : string)
  | create_foreign_key (name n : string) (fk : ForeignKey)
  | create_unique_constraint (name n : string) (cols : list string)
  | drop_constraint (name n : string) (kind : Constraint)
  | update (n : string) (assigned : list string) (f : Row → Row).

(** The relations share one name space. *)
Definition relation_names (db : Database) : list string :=
  flat_map (λ e, e.1 :: (e.1 ++ "_pkey")%string :: (uniques e.2.1).*1 ++ (indexes e.2.1).*1) db.

Definition with_columns (cs : list Column) (t : Table) : Table :=
  {| columns := cs; pkey := pkey t; uniques := uniques t; fkeys := fkeys t; indexes := indexes t |}.
Definition with_uniques (us : list (string * list string)) (t : Table) : Table :=
  {| columns := columns t; pkey := pkey t; uniques := us; fkeys := fkeys t; indexes := indexes t |}.
Definition with_fkeys (fs : list (string * ForeignKey)) (t : Table) : Table :=
  {| columns := columns t; pkey := pkey t; uniques := uniques t; fkeys := fs; indexes := indexes t |}.
Definition with_indexes (ixs : list (string * (bool * list string))) (t : Table) : Table :=
  {| columns := columns t; pkey := pkey t; uniques := uniques t; fkeys := fkeys t; indexes := ixs |}.

(** The columns a constraint or an index of another table, or of this one, uses. *)
Definition referenced (n : string) (db : Database) : bool :=
  existsb (λ e, negb (String.eqb e.1 n) && existsb (λ f, String.eqb (fk_table f.2) n) (fkeys e.2.1)) db.
Definition mem (c : string) (l : list string) : bool := existsb (String.eqb c) l.
Definition has_column (t : Table) (c : string) : bool := mem c (col_name <$> columns t).
Definition references_column (n c : string) (db : Database) : bool :=
  existsb (λ e, existsb (λ f, String.eqb (fk_table f.2) n && mem c (fk_refs f.2)) (fkeys e.2.1)) db.
Definition touches (assigned cols : list string) : bool := existsb (λ c, mem c assigned) cols.

(** A table that must be there. *)
Definition on_table (n : string) (db : Database) (f : Table → list Row → Database + SqlError) :
    Database + SqlError :=
  match get n db with Some (t, rows) => f t rows | None => inr (UndefinedObject n) end.

Definition fresh (n : string) (db : Database) (x : Database + SqlError) : Database + SqlError :=
  if mem n (relation_names db) then inr (DuplicateObject n) else x.

(** [UPDATE]: the rows, and the constraints on the columns it assigns. *)
Definition update_checks (assigned : list string) (t : Table) (db : Database) (rows : list Row) : Prop :=
  Forall (λ u, touches assigned u.2 = true → unique_ok u.2 rows) (uniques t) ∧
  Forall (λ i, i.2.1 = true → touches assigned i.2.2 = true → unique_ok i.2.2 rows) (indexes t) ∧
  Forall (λ f, touches assigned (fk_cols f.2) = true → fkey_ok db f.2 rows) (fkeys t).

(** The documented effect of a statement. *)
Definition documented (o : Op) (db : Database) : Database + SqlError :=
  match o with
  | create_table n t =>
      fresh n db
        (if forallb (λ f, if get (fk_table f.2) db then true else false) (fkeys t)
         then inl (db ++ [(n, (t, []))]) else inr (UndefinedObject n))
  | drop_table n =>
      on_table n db (λ t rows,
        if referenced n db then inr (DependentObjects n) else inl (remove n db))
  | create_index ix n cols =>
      on_table n db (λ t rows, fresh ix db
        (if forallb (has_column t) cols
         then inl (put n (with_indexes (indexes t ++ [(ix, (false, cols))]) t, rows) db)
         else inr (UndefinedObject ix)))
  | drop_index ix n =>
      on_table n db (λ t rows,
        if get ix (indexes t)
        then inl (put n (with_indexes (remove ix (indexes t)) t, rows) db)
        else inr (UndefinedObject ix))
  | add_column n c =>
      on_table n db (λ t rows,
        if has_column t (col_name c) then inr (DuplicateObject (col_name c))
        else if cell_ok c (server_default c) || match rows with [] => true | _ => false end
        then inl (put n (with_columns (columns t ++ [c]) t,
                         insert (col_name c) (server_default c) <$> rows) db)
        else inr (IntegrityViolation (col_name c)))
  | drop_column n c =>
      on_table n db (λ t rows,
        if negb (has_column t c) then inr (UndefinedObject c)
        else if mem c (pkey t) || references_column n c db then inr (DependentObjects c)
        else inl (put n ({| columns := filter (λ k, col_name k ≠ c) (columns t); pkey := pkey t;
                            uniques := filter (λ u, mem c u.2 = false) (uniques t);
                            fkeys := filter (λ f, mem c (fk_cols f.2) = false) (fkeys t);
                            indexes := filter (λ i, mem c i.2.2 = false) (indexes t) |},
                         delete c <$> rows) db))
  | create_foreign_key name n fk =>
      on_table n db (λ t rows,
        if get name (fkeys t) then inr (DuplicateObject name)
        else if decide (fkey_ok db fk rows)
        then inl (put n (with_fkeys (fkeys t ++ [(name, fk)]) t, rows) db)
        else inr (IntegrityViolation name))
  | create_unique_constraint name n cols =>
      on_table n db (λ t rows, fresh name db
        (if decide (unique_ok cols rows)
         then inl (put n (with_uniques (uniques t ++ [(name, cols)]) t, rows) db)
         else inr (IntegrityViolation name)))
  | drop_constraint name n UniqueC =>
      on_table n db (λ t rows,
        if get name (uniques t)
        then inl (put n (with_uniques (remove name (uniques t)) t, rows) db)
        else inr (UndefinedObject name))
  | drop_constraint name n ForeignKeyC =>
      on_table n db (λ t rows,
        if get name (fkeys t)
        then inl (put n (with_fkeys (remove name (fkeys t)) t, rows) db)
        else inr (UndefinedObject name))
  | update n assigned f =>
      on_table n db (λ t rows,
        let rows' := (λ r, coerce_row t (f r)) <$> rows in
        let db' := put n (t, rows') db in
        if decide (Forall (row_ok t) rows') then
          if decide (update_checks assigned t db' rows') then inl db' else inr (IntegrityViolation n)
        else inr (DataException n))
  end.

(** The server that executes the statements is a parameter; this is what the migrations
    rely on. *)
Class SqlServer := {
  execute : Op → Database → Database + SqlError;
  execute_documented : ∀ o db, execute o db = documented o db
}.

(** A server that does what the documentation says. *)
Definition documented_server : SqlServer :=
  {| execute := documented; execute_documented _ _ := eq_refl |}.

Section statements.
Context `{SqlServer}.

(** Statements in order, until one fails. *)
Fixpoint run_ops (l : list Op) (db : Database) : Database + SqlError :=
  match l with
  | [] => inl db
  | o :: l => match execute o db with inl db => run_ops l db | inr e => inr e end
  end.

Lemma run_ops_step o l db db' : documented o db = inl db' → run_ops (o :: l) db = run_ops l db'.
Proof. simpl. rewrite execute_documented. by intros ->. Qed.

Lemma run_ops_fail o l db e : documented o db = inr e → run_ops (o :: l) db = inr e.
Proof. simpl. rewrite execute_documented. by intros ->. Qed.

End statements.

(** ** Rows *)

Lemma key_insert_other cols c v r : c ∉ cols → key cols (<[c := v]> r) = key cols r.
Proof.
  intros Hc. unfold key. induction cols as [|k cols IH]; [done|].
  apply not_elem_of_cons in Hc as [Hk Hc]. simpl. rewrite lookup_insert_ne by done.
  by rewrite (IH Hc).
Qed.

Lemma unique_ok_ext cols rows rows' :
  key cols <$> rows = key cols <$> rows' → unique_ok cols rows → unique_ok cols rows'.
Proof.
  unfold unique_ok. intros E. replace (omap (key cols) rows') with (omap (key cols) rows); [done|].
  revert rows' E. induction rows as [|r rows IH]; intros [|r' rows'] E; [done..|].
  injection E as Hr E. csimpl. rewrite Hr. by rewrite (IH _ E).
Qed.

(** A column that is NULL everywhere: neither constraint can fail. *)
Lemma unique_ok_null cols rows : Forall (λ r, key cols r = None) rows → unique_ok cols rows.
Proof.
  unfold unique_ok. induction 1 as [|r rows Hr _ IH]; csimpl; [constructor|]. by rewrite Hr.
Qed.

Lemma fkey_ok_null db fk rows : Forall (λ r, key (fk_cols fk) r = None) rows → fkey_ok db fk rows.
Proof. unfold fkey_ok. intros Hr. eapply Forall_impl; [exact Hr|]. by intros r ->. Qed.

Lemma cell_of_row t r c v :
  row_ok t r → c ∈ columns t → r !! col_name c = Some v → cell_ok c v = true.
Proof.
  intros [_ Hall] Hc Hv. rewrite Forall_forall in Hall.
  destruct (Hall c Hc) as (v' & Hv' & Hok). congruence.
Qed.

Lemma row_of_column t r c : row_ok t r → c ∈ columns t → is_Some (r !! col_name c).
Proof.
  intros [_ Hall] Hc. rewrite Forall_forall in Hall. destruct (Hall c Hc) as (v & Hv & _). eauto.
Qed.

(** A new value that fits every column of its name. *)
Lemma row_ok_insert t r n v :
  row_ok t r → is_Some (r !! n) → (∀ c, c ∈ columns t → col_name c = n → cell_ok c v = true) →
  row_ok t (<[n := v]> r).
Proof.
  intros [Hdom Hall] Hn Hv. split; [by rewrite dom_insert_lookup_L|].
  rewrite Forall_forall in Hall |- *. intros c Hc. destruct (decide (col_name c = n)) as [<-|Hne].
  - exists v. rewrite lookup_insert_eq. eauto.
  - rewrite lookup_insert_ne by congruence. auto.
Qed.

Lemma has_column_spec t n : has_column t n = true ↔ ∃ c, c ∈ columns t ∧ col_name c = n.
Proof.
  unfold has_column, mem. rewrite existsb_exists. setoid_rewrite String.eqb_eq.
  setoid_rewrite <-list_elem_of_In. setoid_rewrite list_elem_of_fmap. naive_solver.
Qed.

(** A new column, with its value in every row. *)
Lemma row_ok_add_column t r c v :
  row_ok t r → has_column t (col_name c) = false → cell_ok c v = true →
  row_ok (with_columns (columns t ++ [c]) t) (<[col_name c := v]> r).
Proof.
  intros [Hdom Hall] Hnew Hv.
  assert (∀ k, k ∈ columns t → col_name k ≠ col_name c) as Hne.
  { intros k Hk E. enough (has_column t (col_name c) = true) by congruence.
    apply has_column_spec. eauto. }
  split.
  - rewrite dom_insert_L, Hdom. simpl. rewrite fmap_app, list_to_set_app_L. set_solver.
  - simpl. apply Forall_app. split.
    + rewrite Forall_forall in Hall |- *. intros k Hk.
      rewrite lookup_insert_ne by (apply not_eq_sym; auto). auto.
    + constructor; [|constructor]. exists v. rewrite lookup_insert_eq. eauto.
Qed.

(** ** Coercion leaves alone what fits *)

Lemma coerce_fits t v : has_type t v = true → coerce t v = v.
Proof.
  destruct t, v; try done. simpl. intros Hn%Nat.leb_le. rewrite substring_all by done.
  by destruct (all_blank _).
Qed.

Lemma coerce_cell_ok t r c v : row_ok t r → r !! c = Some v → coerce_cell t c v = v.
Proof.
  intros Hr Hv. unfold coerce_cell. destruct (List.find _ _) as [k|] eqn:E; [|done].
  apply List.find_some in E as [Hk%list_elem_of_In Hc%String.eqb_eq]. subst c.
  pose proof (cell_of_row _ _ _ _ Hr Hk Hv) as Hok.
  destruct (decide (v = VNull)) as [->|Hne]; [by destruct (col_type k)|].
  apply coerce_fits. by destruct v.
Qed.

Lemma coerce_row_ok t r : row_ok t r → coerce_row t r = r.
Proof.
  intros Hr. apply map_eq. intros c. unfold coerce_row. rewrite map_lookup_imap.
  destruct (r !! c) as [v|] eqn:E; simpl; [|done]. by rewrite (coerce_cell_ok t r).
Qed.

Lemma coerce_row_insert t r c v :
  coerce_row t (<[c := v]> r) = <[c := coerce_cell t c v]> (coerce_row t r).
Proof.
  apply map_eq. intros k. unfold coerce_row. rewrite map_lookup_imap.
  destruct (decide (c = k)) as [<-|Hne]; [by rewrite !lookup_insert_eq|].
  by rewrite !lookup_insert_ne, map_lookup_imap by done.
Qed.

(** A row whose values are not touched is still good. *)
Lemma coerce_rows_ok t (f : Row → Row) rows :
  Forall (λ r, row_ok t (f r)) rows → (λ r, coerce_row t (f r)) <$> rows = f <$> rows.
Proof.
  induction 1 as [|r rows Hr _ IH]; [done|]. csimpl. by rewrite coerce_row_ok, IH.
Qed.
