(* ===== verification/Migrations.v ===== *)
(** * The migrations: [src/migrations]

    The four revisions as lists of statements, [migrations/env.py] as the transaction
    that runs the missing ones or the script that prints them, and the tables that models.py describes, to compare
    them with what the migrations build. *)

From S2P Require Import Prelude PyBase Models Ddl.
From Stdlib Require Import Ascii.

Local Open Scope string_scope.
Local Open Scope Z_scope.
Local Open Scope list_scope.

(** [sa.Column(n, t, nullable=...)] *)
Definition col (n : string) (t : ColType) (null : bool) : Column :=
  {| col_name := n; col_type := t; nullable := null; server_default := VNull |}.

(** [sa.ForeignKeyConstraint([c], [table.id], ondelete=...)] *)
Definition references (c table : string) (act : OnDelete) : ForeignKey :=
  {| fk_cols := [c]; fk_table := table; fk_refs := ["id"]; on_delete := act |}.

(** ** 0001: initial schema

    PostgreSQL names a constraint without a name after its table and columns. *)

Definition jobs_0001 : Table := {|
  columns := [col "id" BigInteger false; col "name" (VarChar 255) false; col "description" Text true;
    col "task_type" (VarChar 32) false; col "task_spec" JSONB false;
    col "schedule_type" (VarChar 16) false; col "schedule_expr" (VarChar 255) true;
    col "timezone" (VarChar 64) false; col "enabled" Boolean false; col "max_retries" Integer false;
    col "retry_backoff_sec" Integer false; col "timeout_sec" Integer false;
    col "last_scheduled_for" DateTime true; col "created_at" DateTime false;
    col "updated_at" DateTime false];
  pkey := ["id"]; uniques := [("jobs_name_key", ["name"])]; fkeys := []; indexes := [] |}.

Definition job_dependencies_0001 : Table := {|
  columns := [col "id" BigInteger false; col "job_id" BigInteger false;
    col "depends_on_job_id" BigInteger false];
  pkey := ["id"]; uniques := [("uq_job_dependency", ["job_id"; "depends_on_job_id"])];
  fkeys := [("job_dependencies_job_id_fkey", references "job_id" "jobs" CASCADE);
            ("job_dependencies_depends_on_job_id_fkey", references "depends_on_job_id" "jobs" CASCADE)];
  indexes := [] |}.

Definition job_runs_0001 : Table := {|
  columns := [col "id" BigInteger false; col "job_id" BigInteger false;
    col "trigger_type" (VarChar 16) false; col "status" (VarChar 16) false;
    col "attempt" Integer false; col "scheduled_for" DateTime true; col "started_at" DateTime true;
    col "finished_at" DateTime true; col "exit_code" Integer true; col "result" JSONB true;
    col "error" Text true; col "worker_id" (VarChar 255) true; col "created_at" DateTime false];
  pkey := ["id"]; uniques := [("uq_job_run_tick", ["job_id"; "scheduled_for"])];
  fkeys := [("job_runs_job_id_fkey", references "job_id" "jobs" CASCADE)]; indexes := [] |}.

Definition job_run_logs_0001 : Table := {|
  columns := [col "id" BigInteger false; col "run_id" BigInteger false; col "ts" DateTime false;
    col "stream" (VarChar 16) false; col "line" Text false];
  pkey := ["id"]; uniques := [];
  fkeys := [("job_run_logs_run_id_fkey", references "run_id" "job_runs" CASCADE)]; indexes := [] |}.

Definition upgrade_0001 : list Op := [
  create_table "jobs" jobs_0001;
  create_table "job_dependencies" job_dependencies_0001;
  create_index "ix_job_dependencies_job_id" "job_dependencies" ["job_id"];
  create_index "ix_job_dependencies_depends_on_job_id" "job_dependencies" ["depends_on_job_id"];
  create_table "job_runs" job_runs_0001;
  create_index "ix_job_runs_job_id" "job_runs" ["job_id"];
  create_index "ix_job_runs_status" "job_runs" ["status"];
  create_index "ix_job_runs_job_id_created" "job_runs" ["job_id"; "created_at"];
  create_table "job_run_logs" job_run_logs_0001;
  create_index "ix_job_run_logs_run_id" "job_run_logs" ["run_id"];
  create_index "ix_job_run_logs_run_id_ts" "job_run_logs" ["run_id"; "ts"]].

Definition downgrade_0001 : list Op := [
  drop_index "ix_job_run_logs_run_id_ts" "job_run_logs";
  drop_index "ix_job_run_logs_run_id" "job_run_logs";
  drop_table "job_run_logs";
  drop_index "ix_job_runs_job_id_created" "job_runs";
  drop_index "ix_job_runs_status" "job_runs";
  drop_index "ix_job_runs_job_id" "job_runs";
  drop_table "job_runs";
  drop_index "ix_job_dependencies_depends_on_job_id" "job_dependencies";
  drop_index "ix_job_dependencies_job_id" "job_dependencies";
  drop_table "job_dependencies";
  drop_table "jobs"].

(** ** 0002: users *)

Definition users_0002 : Table := {|
  columns := [col "id" BigInteger false; col "username" (VarChar 64) false;
    col "email" (VarChar 255) true; col "password_hash" (VarChar 255) false;
    {| col_name := "is_active"; col_type := Boolean; nullable := false; server_default := VBool true |};
    col "created_at" DateTime false; col "updated_at" DateTime false];
  pkey := ["id"];
  uniques := [("users_username_key", ["username"]); ("users_email_key", ["email"])];
  fkeys := []; indexes := [] |}.

Definition upgrade_0002 : list Op := [
  create_table "users" users_0002;
  create_index "ix_users_username" "users" ["username"];
  create_index "ix_users_email" "users" ["email"]].

Definition downgrade_0002 : list Op := [
  drop_index "ix_users_email" "users";
  drop_index "ix_users_username" "users";
  drop_table "users"].

(** ** 0003: owners *)

(** [UPDATE jobs SET enabled = false WHERE owner_user_id IS NULL] *)
Definition disable_ownerless (r : Row) : Row :=
  match r !! "owner_user_id" with
  | Some VNull => <["enabled" := VBool false]> r
  | _ => r
  end.

Definition upgrade_0003 : list Op := [
  add_column "jobs" (col "owner_user_id" BigInteger true);
  create_index "ix_jobs_owner_user_id" "jobs" ["owner_user_id"];
  create_foreign_key "fk_jobs_owner_user_id_users" "jobs" (references "owner_user_id" "users" SET_NULL);
  drop_constraint "jobs_name_key" "jobs" UniqueC;
  create_unique_constraint "uq_jobs_owner_name" "jobs" ["owner_user_id"; "name"];
  update "jobs" ["enabled"] disable_ownerless].

Definition downgrade_0003 : list Op := [
  drop_constraint "uq_jobs_owner_name" "jobs" UniqueC;
  create_unique_constraint "jobs_name_key" "jobs" ["name"];
  drop_constraint "fk_jobs_owner_user_id_users" "jobs" ForeignKeyC;
  drop_index "ix_jobs_owner_user_id" "jobs";
  drop_column "jobs" "owner_user_id"].

(** ** 0004: categories *)

(** What precedes the first closing bracket, and what follows it. *)
Fixpoint until_bracket (s : string) : option (string * string) :=
  match s with
  | EmptyString => None
  | String c s =>
      if Ascii.eqb c "]" then Some (EmptyString, s)
      else match until_bracket s with Some (a, b) => Some (String c a, b) | None => None end
  end.

(** A match of [^\[([^\]]+)\]]: the text in the brackets, and the rest. *)
Definition match_bracket (s : string) : option (string * string) :=
  match s with
  | String "[" s =>
      match until_bracket s with
      | Some (EmptyString, _) => None
      | o => o
      end
  | _ => None
  end.

(** [\s*], removed *)
Fixpoint skip_blanks (s : string) : string :=
  match s with
  | String c s' =>
      let n := N_of_ascii c in
      if ((n =? 32) || ((9 <=? n) && (n <=? 13)))%N then skip_blanks s' else s
  | EmptyString => ""
  end.

(** [UPDATE jobs SET category = substring(...), description = regexp_replace(...)
    WHERE description ~ ...] *)
Definition backfill_category (r : Row) : Row :=
  match r !! "description" with
  | Some (VText d) =>
      match match_bracket d with
      | Some (category, rest) =>
          <["description" := VText (skip_blanks rest)]> (<["category" := VText category]> r)
      | None => r
      end
  | _ => r
  end.

Definition upgrade_0004 : list Op := [
  add_column "jobs" (col "category" (VarChar 64) true);
  create_index "ix_jobs_category" "jobs" ["category"];
  update "jobs" ["category"; "description"] backfill_category].

Definition downgrade_0004 : list Op := [
  drop_index "ix_jobs_category" "jobs";
  drop_column "jobs" "category"].

(** ** The script directory and env.py *)

Record Migration := {
  revision : string;
  down_revision : option string;
  upgrade : list Op;
  downgrade : list Op
}.

Definition migrations : list Migration := [
  {| revision := "0001"; down_revision := None; upgrade := upgrade_0001; downgrade := downgrade_0001 |};
  {| revision := "0002"; down_revision := Some "0001"; upgrade := upgrade_0002; downgrade := downgrade_0002 |};
  {| revision := "0003"; down_revision := Some "0002"; upgrade := upgrade_0003; downgrade := downgrade_0003 |};
  {| revision := "0004"; down_revision := Some "0003"; upgrade := upgrade_0004; downgrade := downgrade_0004 |}].

Section migrate.
Context `{SqlServer}.

(** A database with its row of [alembic_version]. *)
Definition Versioned : Type := option string * Database.

Definition find_migration (P : Migration → bool) : option Migration := List.find P migrations.
Definition same_revision (a b : option string) : bool := bool_decide (a = b).

(** The revisions after [v], in their order; no chain is longer than the list. *)
Fixpoint pending_after (fuel : nat) (v : option string) : list Migration :=
  match fuel with
  | O => []
  | S fuel =>
      match find_migration (λ m, same_revision (down_revision m) v) with
      | Some m => m :: pending_after fuel (Some (revision m))
      | None => []
      end
  end.

Fixpoint upgrade_all (l : list Migration) (s : Versioned) : Versioned + SqlError :=
  match l with
  | [] => inl s
  | m :: l =>
      match run_ops (upgrade m) s.2 with
      | inl db => upgrade_all l (Some (revision m), db)
      | inr e => inr e
      end
  end.

(** [alembic downgrade -1] *)
Definition downgrade_one (s : Versioned) : Versioned + SqlError :=
  match find_migration (λ m, same_revision (Some (revision m)) s.1) with
  | Some m =>
      match run_ops (downgrade m) s.2 with
      | inl db => inl (down_revision m, db)
      | inr e => inr e
      end
  | None => inl s
  end.

(** [run_migrations_online], for [alembic upgrade head]: one transaction around all
    the missing revisions. *)
Definition run_migrations_online (s : Versioned) : Versioned * option SqlError :=
  match upgrade_all (pending_after (length migrations) s.1) s with
  | inl s' => (s', None)
  | inr e => (s, Some e)
  end.

(** ** The offline mode *)

(** A line of the script: a statement, or the new row of [alembic_version]. *)
Inductive ScriptLine := Sql (o : Op) | Stamp (v : option string).

(** What [context.run_migrations] prints for a revision. *)
Definition print_migration (m : Migration) : list ScriptLine :=
  (Sql <$> upgrade m) ++ [Stamp (Some (revision m))].

(** [run_migrations_offline], for [alembic upgrade v:head --sql]: the script, inside one
    transaction. *)
Definition run_migrations_offline (v : option string) : list ScriptLine :=
  pending_after (length migrations) v ≫= print_migration.

(** The last lines of env.py. *)
Definition env (is_offline_mode : bool) (s : Versioned) : list ScriptLine + Versioned * option SqlError :=
  if is_offline_mode then inl (run_migrations_offline s.1) else inr (run_migrations_online s).

(** The transaction of the script, executed later. *)
Fixpoint run_script (l : list ScriptLine) (s : Versioned) : Versioned + SqlError :=
  match l with
  | [] => inl s
  | Sql o :: l => match execute o s.2 with inl db => run_script l (s.1, db) | inr e => inr e end
  | Stamp v :: l => run_script l (v, s.2)
  end.

Lemma run_script_ops ops l s :
  run_script ((Sql <$> ops) ++ l) s =
    match run_ops ops s.2 with inl db => run_script l (s.1, db) | inr e => inr e end.
Proof.
  revert s. induction ops as [|o ops IH]; intros [v db]; simpl; [done|].
  destruct (execute o db); [apply IH|done].
Qed.

(** Executing the script does what the online mode does, success or failure. *)
Lemma offline_is_online (s : Versioned) :
  match run_script (run_migrations_offline s.1) s with inl s' => (s', None) | inr e => (s, Some e) end =
    run_migrations_online s.
Proof.
  unfold run_migrations_online, run_migrations_offline.
  assert (∀ ms s, run_script (ms ≫= print_migration) s = upgrade_all ms s) as ->; [|done].
  clear s. induction ms as [|m ms IH]; intros s; [done|]. simpl. unfold print_migration.
  rewrite <- app_assoc, run_script_ops. destruct (run_ops (upgrade m) s.2); [apply IH|done].
Qed.

End migrate.

(** ** The tables at each revision *)

Definition with_index (ix : string) (cols : list string) (t : Table) : Table :=
  with_indexes (indexes t ++ [(ix, (false, cols))]) t.

Definition job_dependencies_ix : Table :=
  with_index "ix_job_dependencies_depends_on_job_id" ["depends_on_job_id"]
    (with_index "ix_job_dependencies_job_id" ["job_id"] job_dependencies_0001).
Definition job_runs_ix : Table :=
  with_index "ix_job_runs_job_id_created" ["job_id"; "created_at"]
    (with_index "ix_job_runs_status" ["status"] (with_index "ix_job_runs_job_id" ["job_id"] job_runs_0001)).
Definition job_run_logs_ix : Table :=
  with_index "ix_job_run_logs_run_id_ts" ["run_id"; "ts"]
    (with_index "ix_job_run_logs_run_id" ["run_id"] job_run_logs_0001).
Definition users_ix : Table :=
  with_index "ix_users_email" ["email"] (with_index "ix_users_username" ["username"] users_0002).

Definition jobs_0003 : Table := {|
  columns := columns jobs_0001 ++ [col "owner_user_id" BigInteger true];
  pkey := ["id"]; uniques := [("uq_jobs_owner_name", ["owner_user_id"; "name"])];
  fkeys := [("fk_jobs_owner_user_id_users", references "owner_user_id" "users" SET_NULL)];
  indexes := [("ix_jobs_owner_user_id", (false, ["owner_user_id"]))] |}.
Definition jobs_0004 : Table :=
  with_index "ix_jobs_category" ["category"]
    (with_columns (columns jobs_0003 ++ [col "category" (VarChar 64) true]) jobs_0003).

(** The rows of the five tables. *)
Record Contents := {
  job_rows : list Row;
  dep_rows : list Row;
  run_rows : list Row;
  log_rows : list Row;
  user_rows : list Row
}.
Definition with_job_rows (js : list Row) (c : Contents) : Contents :=
  {| job_rows := js; dep_rows := dep_rows c; run_rows := run_rows c; log_rows := log_rows c;
     user_rows := user_rows c |}.

Definition tables (jobs_table : Table) (c : Contents) : Database := [
  ("jobs", (jobs_table, job_rows c));
  ("job_dependencies", (job_dependencies_ix, dep_rows c));
  ("job_runs", (job_runs_ix, run_rows c));
  ("job_run_logs", (job_run_logs_ix, log_rows c));
  ("users", (users_ix, user_rows c))].

Definition at_0001 (c : Contents) : Database := [
  ("jobs", (jobs_0001, job_rows c));
  ("job_dependencies", (job_dependencies_ix, dep_rows c));
  ("job_runs", (job_runs_ix, run_rows c));
  ("job_run_logs", (job_run_logs_ix, log_rows c))].
Definition at_0002 : Contents → Database := tables jobs_0001.
Definition at_0003 : Contents → Database := tables jobs_0003.
Definition at_0004 : Contents → Database := tables jobs_0004.

Definition no_rows : Contents :=
  {| job_rows := []; dep_rows := []; run_rows := []; log_rows := []; user_rows := [] |}.

(** ** [Base.metadata]: the tables of models.py

    [index=True] makes the index [ix_table_column], unique with [unique=True]; an index
    of [index=True] comes before those of [__table_args__]. *)

Definition metadata_users : Table := {|
  columns := [col "id" BigInteger false; col "username" (VarChar 64) false;
    col "email" (VarChar 255) true; col "password_hash" (VarChar 255) false;
    col "is_active" Boolean false; col "created_at" DateTime false; col "updated_at" DateTime false];
  pkey := ["id"]; uniques := []; fkeys := [];
  indexes := [("ix_users_username", (true, ["username"])); ("ix_users_email", (true, ["email"]))] |}.

Definition metadata_jobs : Table := {|
  columns := [col "id" BigInteger false; col "owner_user_id" BigInteger true;
    col "name" (VarChar 255) false; col "description" Text true; col "category" (VarChar 64) true;
    col "task_type" (VarChar 32) false; col "task_spec" JSONB false;
    col "schedule_type" (VarChar 16) false; col "schedule_expr" (VarChar 255) true;
    col "timezone" (VarChar 64) false; col "enabled" Boolean false; col "max_retries" Integer false;
    col "retry_backoff_sec" Integer false; col "timeout_sec" Integer false;
    col "last_scheduled_for" DateTime true; col "created_at" DateTime false;
    col "updated_at" DateTime false];
  pkey := ["id"]; uniques := [];
  fkeys := [("", references "owner_user_id" "users" SET_NULL)];
  indexes := [("ix_jobs_owner_user_id", (false, ["owner_user_id"]));
              ("ix_jobs_category", (false, ["category"]))] |}.

Definition metadata_job_dependencies : Table := {|
  columns := [col "id" BigInteger false; col "job_id" BigInteger false;
    col "depends_on_job_id" BigInteger false];
  pkey := ["id"]; uniques := [("uq_job_dependency", ["job_id"; "depends_on_job_id"])];
  fkeys := [("", references "job_id" "jobs" CASCADE); ("", references "depends_on_job_id" "jobs" CASCADE)];
  indexes := [("ix_job_dependencies_job_id", (false, ["job_id"]));
              ("ix_job_dependencies_depends_on_job_id", (false, ["depends_on_job_id"]))] |}.

Definition metadata_job_runs : Table := {|
  columns := [col "id" BigInteger false; col "job_id" BigInteger false;
    col "trigger_type" (VarChar 16) false; col "status" (VarChar 16) false;
    col "attempt" Integer false; col "scheduled_for" DateTime true; col "started_at" DateTime true;
    col "finished_at" DateTime true; col "exit_code" Integer true; col "result" JSONB true;
    col "error" Text true; col "worker_id" (VarChar 255) true; col "created_at" DateTime false];
  pkey := ["id"]; uniques := [("uq_job_run_tick", ["job_id"; "scheduled_for"])];
  fkeys := [("", references "job_id" "jobs" CASCADE)];
  indexes := [("ix_job_runs_job_id", (false, ["job_id"])); ("ix_job_runs_status", (false, ["status"]));
              ("ix_job_runs_job_id_created", (false, ["job_id"; "created_at"]))] |}.

Definition metadata_job_run_logs : Table := {|
  columns := [col "id" BigInteger false; col "run_id" BigInteger false; col "ts" DateTime false;
    col "stream" (VarChar 16) false; col "line" Text false];
  pkey := ["id"]; uniques := []; fkeys := [("", references "run_id" "job_runs" CASCADE)];
  indexes := [("ix_job_run_logs_run_id", (false, ["run_id"]));
              ("ix_job_run_logs_run_id_ts", (false, ["run_id"; "ts"]))] |}.

Definition target_metadata : list (string * Table) := [
  ("users", metadata_users); ("jobs", metadata_jobs); ("job_dependencies", metadata_job_dependencies);
  ("job_runs", metadata_job_runs); ("job_run_logs", metadata_job_run_logs)].

(** The revisions create two indexes that are unique in models.py as plain ones, beside a
    constraint on the same column. *)
Definition plain_indexes : list string := ["ix_users_username"; "ix_users_email"].
Definition migrated_index (i : string * (bool * list string)) : string * (bool * list string) :=
  if decide (i.1 ∈ plain_indexes) then (i.1, (false, i.2.2)) else i.

(** What a schema says beyond names of keys, order of columns and defaults: the rows a
    table takes, its indexes (names, columns and uniqueness, but for [plain_indexes]) and
    references, and what its keys demand but for [extra]. *)
Record agree (extra : list Row → Prop) (t t' : Table) : Prop := {
  agree_rows : ∀ r, row_ok t r ↔ row_ok t' r;
  agree_indexes : indexes t = migrated_index <$> indexes t';
  agree_fkeys : (fkeys t).*2 = (fkeys t').*2;
  agree_keys : ∀ db rows, keys_ok db t rows ↔ keys_ok db t' rows ∧ extra rows
}.

Definition owner_name (n : string) (rows : list Row) : Prop :=
  n = "jobs" → unique_ok ["owner_user_id"; "name"] rows.

(** What the revisions 0003 and 0004 make of a job: no owner, disabled, and a
    description that begins with a bracketed category split in two. *)
Definition disowned (r : Row) : Row := <["enabled" := VBool false]> (<["owner_user_id" := VNull]> r).

Definition split_category (r : Row) : option (string * string) :=
  match r !! "description" with
  | Some (VText d) =>
      match match_bracket d with Some (c, rest) => Some (c, skip_blanks rest) | None => None end
  | _ => None
  end.
Definition categorised (r : Row) : Row :=
  match split_category r with
  | Some (c, d) =>
      <["description" := VText d]> (<["category" := coerce (VarChar 64) (VText c)]> r)
  | None => <["category" := VNull]> r
  end.
(** The bracketed text fits the new column. *)
Definition category_fits (r : Row) : bool :=
  match split_category r with
  | Some (c, _) => has_type (VarChar 64) (coerce (VarChar 64) (VText c))
  | None => true
  end.

(** What is left of a job when both revisions are undone. *)
Definition restored (r : Row) : Row :=
  let r' := <["enabled" := VBool false]> r in
  match split_category r with
  | Some (_, d) => <["description" := VText d]> r'
  | None => r'
  end.

(** ** Running the statements *)

Section migrations.
Context `{SqlServer}.

Lemma run_create_foreign_key name n fk db t rows :
  get n db = Some (t, rows) → get name (fkeys t) = None → fkey_ok db fk rows →
  documented (create_foreign_key name n fk) db = inl (put n (with_fkeys (fkeys t ++ [(name, fk)]) t, rows) db).
Proof. intros Ht Hn Hok. simpl. unfold on_table. rewrite Ht, Hn. by rewrite decide_True. Qed.

Lemma run_create_unique name n cols db t rows :
  get n db = Some (t, rows) → mem name (relation_names db) = false →
  documented (create_unique_constraint name n cols) db =
    if decide (unique_ok cols rows)
    then inl (put n (with_uniques (uniques t ++ [(name, cols)]) t, rows) db)
    else inr (IntegrityViolation name).
Proof. intros Ht Hn. simpl. unfold on_table, fresh. by rewrite Ht, Hn. Qed.

(** An [UPDATE] of columns that no constraint uses. *)
Lemma run_update n assigned f db t rows :
  get n db = Some (t, rows) →
  Forall (λ u, touches assigned u.2 = false) (uniques t) →
  Forall (λ i, i.2.1 = false) (indexes t) →
  Forall (λ k, touches assigned (fk_cols k.2) = false) (fkeys t) →
  documented (update n assigned f) db =
    let rows' := (λ r, coerce_row t (f r)) <$> rows in
    if decide (Forall (row_ok t) rows') then inl (put n (t, rows') db) else inr (DataException n).
Proof.
  intros Ht Hu Hi Hf. simpl. unfold on_table. rewrite Ht. simpl.
  destruct (decide (Forall _ _)) as [_|_]; [|done]. apply decide_True. split; [|split].
  - eapply Forall_impl; [exact Hu|]. simpl. intros u -> [=].
  - eapply Forall_impl; [exact Hi|]. simpl. intros i -> [=].
  - eapply Forall_impl; [exact Hf|]. simpl. intros k -> [=].
Qed.

Ltac step := erewrite run_ops_step; [|reflexivity].

(** ** Rows at each revision *)

Lemma row_ok_columns t t' r : columns t = columns t' → row_ok t r → row_ok t' r.
Proof. unfold row_ok. by intros ->. Qed.

(** The columns called [n], for closed tables. *)
Ltac column := let c := fresh in let Hc := fresh in let Hn := fresh in
  intros c Hc Hn; repeat first
    [ apply elem_of_nil in Hc; destruct Hc
    | apply elem_of_cons in Hc; destruct Hc as [->|Hc]; [try discriminate Hn; try reflexivity|] ].

Lemma disowned_ok r : row_ok jobs_0001 r → row_ok jobs_0003 (disowned r).
Proof.
  intros Hr. unfold disowned. apply (row_ok_columns (with_columns (columns jobs_0001 ++ [col "owner_user_id" BigInteger true]) jobs_0001)); [done|].
  apply row_ok_insert.
  - by apply (row_ok_add_column _ _ (col "owner_user_id" BigInteger true)).
  - rewrite lookup_insert_ne by done. apply (row_of_column jobs_0001 r (col "enabled" Boolean false) Hr).
    do 8 right. left.
  - column.
Qed.

Lemma disable_ownerless_new r : disable_ownerless (<["owner_user_id" := VNull]> r) = disowned r.
Proof. unfold disable_ownerless. by rewrite lookup_insert_eq. Qed.

Lemma key_null cols n r : n ∈ cols → key cols (<[n := VNull]> r) = None.
Proof.
  unfold key. induction cols as [|k cols IH]; intros Hn; [by apply elem_of_nil in Hn|].
  simpl. destruct (decide (k = n)) as [->|Hne]; [by rewrite lookup_insert_eq|].
  apply elem_of_cons in Hn as [->|Hn]; [done|]. rewrite (IH Hn).
  by destruct (<[_:=_]> r !! k) as [[]|].
Qed.

(** The last statement of 0003, after its definitions. *)
Lemma disable_run c :
  Forall (row_ok jobs_0001) (job_rows c) →
  documented (update "jobs" ["enabled"] disable_ownerless)
    (at_0003 (with_job_rows (<["owner_user_id" := VNull]> <$> job_rows c) c)) =
  inl (at_0003 (with_job_rows (disowned <$> job_rows c) c)).
Proof.
  intros Hjs. erewrite run_update; [|reflexivity|repeat constructor..]. cbv zeta.
  set (rows := job_rows _).
  assert (disable_ownerless <$> rows = disowned <$> job_rows c) as E.
  { unfold rows. simpl. rewrite <-list_fmap_compose. apply list_fmap_ext. intros i r _.
    apply disable_ownerless_new. }
  assert (Forall (row_ok jobs_0003) (disowned <$> job_rows c)) as Hok.
  { apply Forall_fmap. eapply Forall_impl; [exact Hjs|]. apply disowned_ok. }
  rewrite coerce_rows_ok, E; [apply decide_True, Hok|].
  rewrite <-E in Hok. exact (proj1 (Forall_fmap disable_ownerless _ rows) Hok).
Qed.

Lemma upgrade_0003_run c :
  Forall (row_ok jobs_0001) (job_rows c) →
  run_ops upgrade_0003 (at_0002 c) = inl (at_0003 (with_job_rows (disowned <$> job_rows c) c)).
Proof.
  intros Hjs. unfold upgrade_0003. do 2 step.
  erewrite run_ops_step; [|eapply run_create_foreign_key; [reflexivity|reflexivity|]].
  2:{ apply fkey_ok_null, Forall_fmap, Forall_true. intros r. apply key_null. by left. }
  step.
  erewrite run_ops_step; [|erewrite run_create_unique; [|reflexivity|reflexivity]].
  2:{ apply decide_True, unique_ok_null, Forall_fmap, Forall_true. intros r. apply key_null. by left. }
  erewrite run_ops_step; [|exact (disable_run c Hjs)]. reflexivity.
Qed.

(** ** 0004 *)

Lemma category_cell c : coerce_cell jobs_0004 "category" c = coerce (VarChar 64) c.
Proof. reflexivity. Qed.

Lemma description_cell v : coerce_cell jobs_0004 "description" v = v.
Proof. unfold coerce_cell. simpl. by destruct v. Qed.

Lemma categorised_eq r :
  row_ok jobs_0003 r →
  coerce_row jobs_0004 (backfill_category (<["category" := VNull]> r)) = categorised r.
Proof.
  intros Hr. assert (row_ok jobs_0004 (<["category" := VNull]> r)) as Hnew.
  { apply (row_ok_columns (with_columns (columns jobs_0003 ++ [col "category" (VarChar 64) true]) jobs_0003)); [done|].
    by apply (row_ok_add_column _ _ (col "category" (VarChar 64) true)). }
  unfold backfill_category, categorised, split_category. rewrite lookup_insert_ne by done.
  destruct (r !! "description") as [[| | |d| |]|]; try by apply coerce_row_ok.
  destruct (match_bracket d) as [[ca rest]|]; [|by apply coerce_row_ok].
  rewrite 2!coerce_row_insert, category_cell, description_cell, (coerce_row_ok _ _ Hnew).
  f_equal. by rewrite insert_insert_eq.
Qed.

Lemma categorised_ok r :
  row_ok jobs_0003 r → row_ok jobs_0004 (categorised r) ↔ category_fits r = true.
Proof.
  intros Hr. assert (row_ok jobs_0004 (<["category" := VNull]> r)) as Hnew.
  { apply (row_ok_columns (with_columns (columns jobs_0003 ++ [col "category" (VarChar 64) true]) jobs_0003)); [done|].
    by apply (row_ok_add_column _ _ (col "category" (VarChar 64) true)). }
  unfold categorised, category_fits, split_category.
  destruct (r !! "description") as [[| | |d| |]|] eqn:Hd; try done.
  destruct (match_bracket d) as [[ca rest]|]; [|done].
  set (v := coerce _ _). split.
  - intros Hok. 
    enough (cell_ok (col "category" (VarChar 64) true) v = true) as Hc.
    { unfold cell_ok in Hc. unfold v, coerce in *. simpl in *. by destruct (all_blank _). }
    apply (cell_of_row _ _ (col "category" (VarChar 64) true) _ Hok).
    + do 16 right. left.
    + rewrite lookup_insert_ne by done. by rewrite lookup_insert_eq.
  - intros Hfit. rewrite <-(insert_insert_eq r "category" v VNull).
    apply row_ok_insert; [apply row_ok_insert; [done|by rewrite lookup_insert_eq; eauto|]|..].
    + column. unfold cell_ok. by destruct v.
    + rewrite lookup_insert_ne, lookup_insert_ne by done. eauto.
    + column.
Qed.

Lemma upgrade_0004_run c :
  Forall (row_ok jobs_0003) (job_rows c) →
  run_ops upgrade_0004 (at_0003 c) =
    if decide (Forall (λ r, category_fits r = true) (job_rows c))
    then inl (at_0004 (with_job_rows (categorised <$> job_rows c) c))
    else inr (DataException "jobs").
Proof.
  intros Hjs. unfold upgrade_0004. do 2 step.
  set (c1 := with_job_rows (<["category" := VNull]> <$> job_rows c) c).
  assert (documented (update "jobs" ["category"; "description"] backfill_category) (at_0004 c1) =
    if decide (Forall (row_ok jobs_0004) (categorised <$> job_rows c))
    then inl (at_0004 (with_job_rows (categorised <$> job_rows c) c))
    else inr (DataException "jobs")) as Hup.
  { erewrite run_update; [|reflexivity|repeat constructor..]. cbv zeta.
    enough ((λ r, coerce_row jobs_0004 (backfill_category r)) <$> job_rows c1 =
            categorised <$> job_rows c) as -> by reflexivity.
    unfold c1. simpl. rewrite <-list_fmap_compose. apply list_fmap_ext. intros i r Hr.
    apply categorised_eq. by apply (Forall_lookup_1 _ _ i r Hjs). }
  assert (Forall (row_ok jobs_0004) (categorised <$> job_rows c) ↔
          Forall (λ r, category_fits r = true) (job_rows c)) as Hiff.
  { rewrite Forall_fmap, !Forall_forall. rewrite Forall_forall in Hjs.
    split; intros Hall r Hr; apply (categorised_ok r (Hjs r Hr)), (Hall r Hr). }
  destruct (decide (Forall (λ r, category_fits r = true) (job_rows c))) as [Hfit|Hfit].
  - erewrite run_ops_step; [reflexivity|]. etransitivity; [exact Hup|].
    by rewrite decide_True by by apply Hiff.
  - apply run_ops_fail. etransitivity; [exact Hup|].
    rewrite decide_False; [done|]. by rewrite Hiff.
Qed.

(** ** Going back *)

Lemma downgrade_0004_run c :
  run_ops downgrade_0004 (at_0004 c) =
    inl (at_0003 (with_job_rows (delete "category" <$> job_rows c) c)).
Proof. unfold downgrade_0004. do 2 step. reflexivity. Qed.

Lemma downgrade_0002_run c : run_ops downgrade_0002 (at_0002 c) = inl (at_0001 c).
Proof. unfold downgrade_0002. do 3 step. reflexivity. Qed.

Lemma downgrade_0001_run c : run_ops downgrade_0001 (at_0001 c) = inl [].
Proof. unfold downgrade_0001. do 11 step. reflexivity. Qed.

Lemma unique_ok_delete n rows :
  n ≠ "name" → unique_ok ["name"] (delete n <$> rows) ↔ unique_ok ["name"] rows.
Proof.
  intros Hn. assert (key ["name"] <$> (delete n <$> rows) = key ["name"] <$> rows) as E.
  { rewrite <-list_fmap_compose. apply list_fmap_ext. intros i r _. unfold key. simpl.
    by rewrite lookup_delete_ne. }
  split; apply unique_ok_ext; [exact E|exact (eq_sym E)].
Qed.

Lemma downgrade_0003_run c :
  run_ops downgrade_0003 (at_0003 c) =
    if decide (unique_ok ["name"] (job_rows c))
    then inl (at_0002 (with_job_rows (delete "owner_user_id" <$> job_rows c) c))
    else inr (IntegrityViolation "jobs_name_key").
Proof.
  unfold downgrade_0003. step.
  destruct (decide (unique_ok ["name"] (job_rows c))) as [Hu|Hu].
  - erewrite run_ops_step; [|erewrite run_create_unique by reflexivity; by apply decide_True].
    do 3 step. reflexivity.
  - apply run_ops_fail. erewrite run_create_unique by reflexivity. by apply decide_False.
Qed.

Lemma split_disowned r : split_category (disowned r) = split_category r.
Proof. unfold split_category, disowned. by rewrite !lookup_insert_ne by done. Qed.

Lemma row_ok_absent t r n : row_ok t r → has_column t n = false → r !! n = None.
Proof.
  intros [Hdom _] Hn. apply not_elem_of_dom. rewrite Hdom, elem_of_list_to_set.
  intros (c & -> & Hc)%list_elem_of_fmap. enough (has_column t (col_name c) = true) by congruence.
  apply has_column_spec. eauto.
Qed.

Lemma restored_eq r :
  row_ok jobs_0001 r →
  delete "owner_user_id" (delete "category" (categorised (disowned r))) = restored r.
Proof.
  intros Hr. pose proof (row_ok_absent _ _ "owner_user_id" Hr eq_refl) as Ho.
  pose proof (row_ok_absent _ _ "category" Hr eq_refl) as Hc.
  unfold categorised, restored. rewrite split_disowned. unfold disowned.
  destruct (split_category r) as [[ca d]|]; apply map_eq; intros k;
    destruct (decide (k = "owner_user_id")) as [->|]; [by simplify_map_eq| |by simplify_map_eq|];
    (destruct (decide (k = "category")) as [->|]; [by simplify_map_eq|]);
    rewrite !lookup_delete_ne by done;
    (destruct (decide (k = "description")) as [->|]; [by simplify_map_eq|]);
    (destruct (decide (k = "enabled")) as [->|]; by simplify_map_eq).
Qed.

(** ** The theorems *)

(** Row checks do not depend on the order of the columns, nor on defaults. *)
Lemma row_ok_same t t' r :
  (λ c, (col_name c, col_type c, nullable c)) <$> columns t ≡ₚ
  (λ c, (col_name c, col_type c, nullable c)) <$> columns t' →
  row_ok t r → row_ok t' r.
Proof.
  set (f := λ c, (col_name c, col_type c, nullable c)). intros Hp [Hdom Hall]. split.
  - rewrite Hdom. replace (col_name <$> columns t) with ((λ x : _ * ColType * bool, x.1.1) <$> (f <$> columns t))
      by (by rewrite <-list_fmap_compose).
    replace (col_name <$> columns t') with ((λ x : _ * ColType * bool, x.1.1) <$> (f <$> columns t'))
      by (by rewrite <-list_fmap_compose).
    by rewrite Hp.
  - apply Forall_forall. intros c' Hc'.
    assert (f c' ∈ f <$> columns t) as Hin by (rewrite Hp; by apply list_elem_of_fmap_2).
    apply list_elem_of_fmap in Hin as (c & Heq & Hc). injection Heq as Hn Ht Hnull.
    rewrite Forall_forall in Hall. destruct (Hall c Hc) as (v & Hv & Hok). exists v.
    rewrite Hn. split; [done|]. unfold cell_ok in *. by rewrite Ht, Hnull.
Qed.

Ltac agreement := split;
  [ intros r; split; apply row_ok_same; solve_Permutation
  | reflexivity
  | reflexivity
  | intros db rows; unfold keys_ok, owner_name; simpl; rewrite !Forall_cons, !Forall_nil; simpl;
    intuition discriminate ].

Lemma agree_users : agree (owner_name "users") users_ix metadata_users.
Proof. agreement. Qed.
Lemma agree_jobs : agree (owner_name "jobs") jobs_0004 metadata_jobs.
Proof. agreement. Qed.
Lemma agree_job_dependencies :
  agree (owner_name "job_dependencies") job_dependencies_ix metadata_job_dependencies.
Proof. agreement. Qed.
Lemma agree_job_runs : agree (owner_name "job_runs") job_runs_ix metadata_job_runs.
Proof. agreement. Qed.
Lemma agree_job_run_logs : agree (owner_name "job_run_logs") job_run_logs_ix metadata_job_run_logs.
Proof. agreement. Qed.

Lemma upgrade_from_0002 c :
  Forall (row_ok jobs_0001) (job_rows c) →
  upgrade_all (drop 2 migrations) (Some "0002", at_0002 c) =
    if decide (Forall (λ r, category_fits r = true) (job_rows c))
    then inl (Some "0004", at_0004 (with_job_rows (categorised ∘ disowned <$> job_rows c) c))
    else inr (DataException "jobs").
Proof.
  intros Hjs. cbn [drop migrations upgrade_all upgrade snd fst].
  rewrite (upgrade_0003_run c Hjs), upgrade_0004_run.
  2:{ apply Forall_fmap. eapply Forall_impl; [exact Hjs|]. apply disowned_ok. }
  cbn [job_rows with_job_rows].
  assert (Forall (λ r, category_fits r = true) (disowned <$> job_rows c) ↔
          Forall (λ r, category_fits r = true) (job_rows c)) as Hiff.
  { rewrite Forall_fmap. apply Forall_iff. intros r. simpl. unfold category_fits. by rewrite split_disowned. }
  destruct (decide (Forall _ (job_rows c))) as [Hf|Hf].
  - rewrite decide_True by by apply Hiff. by rewrite <-list_fmap_compose.
  - rewrite decide_False by by rewrite Hiff. done.
Qed.

Lemma downgrade_one_0004 c :
  downgrade_one (Some "0004", at_0004 c) =
    inl (Some "0003", at_0003 (with_job_rows (delete "category" <$> job_rows c) c)).
Proof.
  unfold downgrade_one. change (find_migration _) with (migrations !! 3%nat).
  cbn [lookup list_lookup migrations downgrade snd]. by rewrite downgrade_0004_run.
Qed.

Lemma downgrade_one_0003 c :
  downgrade_one (Some "0003", at_0003 c) =
    if decide (unique_ok ["name"] (job_rows c))
    then inl (Some "0002", at_0002 (with_job_rows (delete "owner_user_id" <$> job_rows c) c))
    else inr (IntegrityViolation "jobs_name_key").
Proof.
  unfold downgrade_one. change (find_migration _) with (migrations !! 2%nat).
  cbn [lookup list_lookup migrations downgrade snd]. rewrite downgrade_0003_run.
  by destruct (decide _).
Qed.

(** Nothing in 0003 and 0004 renames a job. *)
Lemma migrated_names rows :
  unique_ok ["name"] rows → unique_ok ["name"] (categorised ∘ disowned <$> rows).
Proof.
  apply unique_ok_ext. rewrite <-list_fmap_compose. apply list_fmap_ext. intros i r _. symmetry.
  unfold compose, categorised, disowned. destruct (split_category _) as [[ca d]|];
    by rewrite !key_insert_other by set_solver.
Qed.

(** A fresh database. *)
Lemma upgrade_fresh : run_migrations_online (None, []) = ((Some "0004", at_0004 no_rows), None).
Proof.
  unfold run_migrations_online. change (pending_after _ _) with migrations.
  enough (upgrade_all migrations (None, []) = inl (Some "0004", at_0004 no_rows)) as -> by done.
  unfold migrations. cbn [upgrade_all upgrade fst snd].
  assert (run_ops upgrade_0001 [] = inl (at_0001 no_rows)) as ->.
  { unfold upgrade_0001. do 11 step. reflexivity. }
  assert (run_ops upgrade_0002 (at_0001 no_rows) = inl (at_0002 no_rows)) as ->.
  { unfold upgrade_0002. do 3 step. reflexivity. }
  rewrite (upgrade_0003_run no_rows) by constructor.
  rewrite (upgrade_0004_run (with_job_rows _ no_rows)) by constructor.
  by rewrite decide_True by constructor.
Qed.

(** C24: A fresh database that is upgraded to head gets the tables of models.py: the same
    tables, and in each the same rows are allowed, the same indexes and references exist,
    and the keys demand the same of any rows, but for one constraint: only the migrated
    schema demands that a user's job names are unique.  The indexes are equally unique,
    except that those on the name and the address of a user are plain in the migrated
    schema, which has a constraint on the same column instead. *)
Theorem head_matches_models :
  run_migrations_online (None, []) = ((Some "0004", at_0004 no_rows), None) ∧
  (at_0004 no_rows).*1 ≡ₚ target_metadata.*1 ∧
  Forall (λ e, ∃ t', get e.1 target_metadata = Some t' ∧ agree (owner_name e.1) e.2.1 t')
    (at_0004 no_rows).
Proof.
  split; [exact upgrade_fresh|]. split; [solve_Permutation|].
  repeat (apply Forall_cons; split; [eexists; split; [reflexivity|]|]); [..|by apply Forall_nil].
  - exact agree_jobs.
  - exact agree_job_dependencies.
  - exact agree_job_runs.
  - exact agree_job_run_logs.
  - exact agree_users.
Qed.

(** C22: Upgrading a database of revision 0002 to head: if every category that a
    description begins with fits its column, all jobs end without an owner, disabled, and
    with category and description split, and no other table changes; if one does not fit,
    the whole upgrade fails and leaves the database and its revision as they were. *)
Theorem upgrade_to_head_exact c :
  Forall (row_ok jobs_0001) (job_rows c) →
  run_migrations_online (Some "0002", at_0002 c) =
    if decide (Forall (λ r, category_fits r = true) (job_rows c))
    then ((Some "0004", at_0004 (with_job_rows (categorised ∘ disowned <$> job_rows c) c)), None)
    else ((Some "0002", at_0002 c), Some (DataException "jobs")).
Proof.
  intros Hjs. unfold run_migrations_online. change (pending_after _ _) with (drop 2 migrations).
  rewrite (upgrade_from_0002 c Hjs). by destruct (decide _).
Qed.

(** What each downgrade does to any rows: 0004 drops the categories (their text stays
    lost); 0003 drops the owners, and fails when two jobs of different users have the same
    name, because it makes job names unique again; 0002 and 0001 drop their tables. *)
Theorem downgrade_exact c :
  downgrade_one (Some "0004", at_0004 c) =
    inl (Some "0003", at_0003 (with_job_rows (delete "category" <$> job_rows c) c)) ∧
  downgrade_one (Some "0003", at_0003 c) =
    (if decide (unique_ok ["name"] (job_rows c))
     then inl (Some "0002", at_0002 (with_job_rows (delete "owner_user_id" <$> job_rows c) c))
     else inr (IntegrityViolation "jobs_name_key")) ∧
  downgrade_one (Some "0002", at_0002 c) = inl (Some "0001", at_0001 c) ∧
  downgrade_one (Some "0001", at_0001 c) = inl (None, []).
Proof.
  split; [apply downgrade_one_0004|]. split; [apply downgrade_one_0003|].
  split; unfold downgrade_one; [change (find_migration _) with (migrations !! 1%nat)
                               |change (find_migration _) with (migrations !! 0%nat)];
    cbn [lookup list_lookup migrations downgrade snd];
    [by rewrite downgrade_0002_run|by rewrite downgrade_0001_run].
Qed.

(** C23: When every category that a description begins with fits its column, upgrading from
    0002 to head and going back loses exactly two things: every job stays disabled, and a
    bracketed category is gone from its description. *)
Theorem upgrade_downgrade c :
  Forall (row_ok jobs_0001) (job_rows c) → unique_ok ["name"] (job_rows c) →
  Forall (λ r, category_fits r = true) (job_rows c) →
  ∃ s3 s4, run_migrations_online (Some "0002", at_0002 c) = (s4, None) ∧
    downgrade_one s4 = inl s3 ∧
    downgrade_one s3 = inl (Some "0002", at_0002 (with_job_rows (restored <$> job_rows c) c)).
Proof.
  intros Hjs Hu Hfit. eexists _, _. split; [|split].
  - unfold run_migrations_online. change (pending_after _ _) with (drop 2 migrations).
    rewrite (upgrade_from_0002 c Hjs), decide_True by done. reflexivity.
  - apply downgrade_one_0004.
  - rewrite downgrade_one_0003. cbn [job_rows with_job_rows].
    rewrite decide_True by (apply unique_ok_delete; [done|by apply migrated_names]).
    enough (delete "owner_user_id" <$> (delete "category" <$> (categorised ∘ disowned <$> job_rows c)) =
            restored <$> job_rows c) as -> by reflexivity.
    rewrite <-!list_fmap_compose. apply list_fmap_ext. intros i r Hr.
    apply restored_eq. by apply (Forall_lookup_1 _ _ i r Hjs).
Qed.

End migrations.

(** ** Evaluations *)

#[local] Existing Instance documented_server.

Definition job_0001 (id : Z) (n d : string) : Row := list_to_map [
  ("id", VInt id); ("name", VText n); ("description", VText d); ("task_type", VText "shell");
  ("task_spec", VJson (JObj [])); ("schedule_type", VText "manual"); ("schedule_expr", VNull);
  ("timezone", VText "UTC"); ("enabled", VBool true); ("max_retries", VInt 0);
  ("retry_backoff_sec", VInt 30); ("timeout_sec", VInt 300); ("last_scheduled_for", VNull);
  ("created_at", VTime 0); ("updated_at", VTime 0)].

Definition two_jobs : Contents :=
  with_job_rows [job_0001 1 "backup" "[ops]  nightly dump"; job_0001 2 "report" "weekly"] no_rows.

Lemma two_jobs_ok : Forall (row_ok jobs_0001) (job_rows two_jobs).
Proof. apply (bool_decide_unpack _). vm_compute. reflexivity. Qed.

Lemma upgrade_to_head_exact_witness :
  run_migrations_online (Some "0002", at_0002 two_jobs) =
    ((Some "0004", at_0004 (with_job_rows (categorised ∘ disowned <$> job_rows two_jobs) two_jobs)), None) ∧
  (λ r, (r !! "category", r !! "description", r !! "enabled")) <$>
      (categorised ∘ disowned <$> job_rows two_jobs) =
    [(Some (VText "ops"), Some (VText "nightly dump"), Some (VBool false));
     (Some VNull, Some (VText "weekly"), Some (VBool false))].
Proof.
  split; [|vm_compute; reflexivity].
  rewrite (upgrade_to_head_exact two_jobs two_jobs_ok). apply decide_True.
  apply (bool_decide_unpack _). vm_compute. reflexivity.
Defined.

Lemma upgrade_downgrade_witness :
  ∃ s3 s4, run_migrations_online (Some "0002", at_0002 two_jobs) = (s4, None) ∧
    downgrade_one s4 = inl s3 ∧
    downgrade_one s3 = inl (Some "0002", at_0002 (with_job_rows (restored <$> job_rows two_jobs) two_jobs)).
Proof.
  apply (upgrade_downgrade two_jobs two_jobs_ok);
    apply (bool_decide_unpack _); vm_compute; reflexivity.
Defined.

(** A category that is too long. *)
Definition long_category : Contents :=
  with_job_rows [job_0001 1 "backup" ("[" ++ String.concat "" (replicate 65 "x") ++ "] dump")%string] no_rows.

Example long_category_refused :
  (run_migrations_online (Some "0002", at_0002 long_category)).2 = Some (DataException "jobs").
Proof. vm_compute. reflexivity. Qed.
