(* ===== verification/PyCodec.v ===== *)
(** * Python's codecs: [base64] and [json]

    The parts of [base64.urlsafe_b64encode], [base64.urlsafe_b64decode],
    [json.dumps] and [json.loads] that [auth.py] uses, on byte strings and on
    ASCII text.  What is written here can be read back
    ([b64_unpadded_roundtrip], [json_roundtrip]). *)

From S2P Require Import Prelude PyBase Models.
From Stdlib Require Import Ascii DecimalString DecimalFacts DecimalPos DecimalZ.

Local Open Scope string_scope.
Local Open Scope N_scope.

(** ** Base 64 *)

Definition b64_char (n : N) : ascii :=
  ascii_of_N (if n <? 26 then 65 + n else if n <? 52 then 71 + n
              else if n <? 62 then n - 4 else if n =? 62 then 45 else 95).

(** The value of a character; [urlsafe_b64decode] translates [-_] to [+/] and so
    reads both alphabets. *)
Definition b64_val (c : ascii) : option N :=
  let n := N_of_ascii c in
  if (65 <=? n) && (n <=? 90) then Some (n - 65)
  else if (97 <=? n) && (n <=? 122) then Some (n - 71)
  else if (48 <=? n) && (n <=? 57) then Some (n + 4)
  else if (n =? 45) || (n =? 43) then Some 62
  else if (n =? 95) || (n =? 47) then Some 63
  else None.

(** [base64.urlsafe_b64encode] *)
Fixpoint urlsafe_b64encode (s : string) : string :=
  match s with
  | EmptyString => ""
  | String a EmptyString =>
      let a := N_of_ascii a in
      String (b64_char (a / 4)) (String (b64_char (a mod 4 * 16)) "==")
  | String a (String b EmptyString) =>
      let a := N_of_ascii a in let b := N_of_ascii b in
      String (b64_char (a / 4)) (String (b64_char (a mod 4 * 16 + b / 16))
        (String (b64_char (b mod 16 * 4)) "="))
  | String a (String b (String c s)) =>
      let a := N_of_ascii a in let b := N_of_ascii b in let c := N_of_ascii c in
      String (b64_char (a / 4)) (String (b64_char (a mod 4 * 16 + b / 16))
        (String (b64_char (b mod 16 * 4 + c / 64)) (String (b64_char (c mod 64))
          (urlsafe_b64encode s))))
  end.

(** The loop of [binascii.a2b_base64], not strict: [quad] characters of the current
    group are read, [left] are the bits that are not written yet, [pads] padding
    characters were seen.  [None] is [binascii.Error], a [ValueError]. *)
Fixpoint a2b_base64 (quad left pads : N) (s : string) : option string :=
  match s with
  | EmptyString => if quad =? 0 then Some "" else None
  | String c s =>
      if Ascii.eqb c "=" then
        if 2 <=? quad then
          if 4 <=? quad + (pads + 1) then Some "" else a2b_base64 quad left (pads + 1) s
        else a2b_base64 quad left pads s
      else
        match b64_val c with
        | None => a2b_base64 quad left pads s
        | Some v =>
            if quad =? 0 then a2b_base64 1 v 0 s
            else if quad =? 1 then String (ascii_of_N (left * 4 + v / 16)) <$> a2b_base64 2 (v mod 16) 0 s
            else if quad =? 2 then String (ascii_of_N (left * 16 + v / 4)) <$> a2b_base64 3 (v mod 4) 0 s
            else String (ascii_of_N (left * 64 + v)) <$> a2b_base64 0 0 0 s
        end
  end.

Definition is_ascii (s : string) : bool := string_forallb (byte_in 0 127) s.

(** [base64.urlsafe_b64decode] of a [str]: text that is not ASCII is a
    [ValueError]. *)
Definition urlsafe_b64decode (s : string) : option string :=
  if is_ascii s then a2b_base64 0 0 0 s else None.

(** [s.rstrip(c)] *)
Fixpoint rstrip_char (c : ascii) (s : string) : string :=
  match s with
  | EmptyString => ""
  | String a s' =>
      match rstrip_char c s' with
      | EmptyString => if Ascii.eqb a c then "" else String a ""
      | r => String a r
      end
  end.

(** [c * n] *)
Fixpoint repeat_char (c : ascii) (n : nat) : string :=
  match n with O => "" | S n => String c (repeat_char c n) end.

(** ** JSON *)

Definition hex_digit (n : N) : ascii := ascii_of_N (if n <? 10 then 48 + n else 87 + n).

(** The quotation mark. *)
Definition dquote : ascii := ascii_of_N 34.

(** One character of a string in [ensure_ascii] form. *)
Definition json_escape (c : ascii) : string :=
  let n := N_of_ascii c in
  if n =? 34 then String "\" (String dquote "") else if n =? 92 then "\\" else if n =? 10 then "\n"
  else if n =? 13 then "\r" else if n =? 9 then "\t" else if n =? 12 then "\f"
  else if n =? 8 then "\b"
  else if (32 <=? n) && (n <=? 126) then String c ""
  else "\u00" ++ String (hex_digit (n / 16)) (String (hex_digit (n mod 16)) "").

(** The characters of a string and the closing quotation mark. *)
Fixpoint json_body (s : string) : string :=
  match s with
  | EmptyString => String dquote ""
  | String c s => (json_escape c ++ json_body s)%string
  end.
Definition json_quote (s : string) : string := String dquote (json_body s).

(** [json.dumps(v, separators=(",", ":"))]; the representation of floats, which the
    sources never print, is left out ([None]). *)
Fixpoint json_dumps (v : json) : option string :=
  match v with
  | JNull => Some "null"
  | JBool b => Some (if b then "true" else "false")
  | JInt n => Some (py_str n)
  | JFloat _ _ => None
  | JStr s => Some (json_quote s)
  | JArr l =>
      (λ ts, ("[" ++ py_join "," ts ++ "]")%string) <$>
      (fix go l := match l with
        | [] => Some []
        | v :: l => t ← json_dumps v; ts ← go l; Some (t :: ts)
        end) l
  | JObj l =>
      (λ ts, ("{" ++ py_join "," ts ++ "}")%string) <$>
      (fix go l := match l with
        | [] => Some []
        | (k, v) :: l => t ← json_dumps v; ts ← go l; Some ((json_quote k ++ ":" ++ t)%string :: ts)
        end) l
  end.

(** White space between tokens. *)
Definition json_space (c : ascii) : bool :=
  let n := N_of_ascii c in (n =? 32) || (n =? 9) || (n =? 10) || (n =? 13).
Fixpoint skip_space (s : string) : string :=
  match s with
  | String c s' => if json_space c then skip_space s' else s
  | EmptyString => ""
  end.

Definition hex_value (c : ascii) : option N :=
  let n := N_of_ascii c in
  if (48 <=? n) && (n <=? 57) then Some (n - 48)
  else if (97 <=? n) && (n <=? 102) then Some (n - 87)
  else if (65 <=? n) && (n <=? 70) then Some (n - 55)
  else None.

(** The rest of a string after its opening quotation mark, and what follows it.
    Control characters are refused; an escape beyond U+00FF has no character
    here. *)
Fixpoint json_string (s : string) : option (string * string) :=
  match s with
  | EmptyString => None
  | String c s =>
      if Ascii.eqb c dquote then Some ("", s)
      else if Ascii.eqb c "\" then
        match s with
        | EmptyString => None
        | String e s =>
            let one (n : N) := '(t, r) ← json_string s; Some (String (ascii_of_N n) t, r) in
            if Ascii.eqb e dquote then one 34 else if Ascii.eqb e "\" then one 92
            else if Ascii.eqb e "/" then one 47 else if Ascii.eqb e "b" then one 8
            else if Ascii.eqb e "f" then one 12 else if Ascii.eqb e "n" then one 10
            else if Ascii.eqb e "r" then one 13 else if Ascii.eqb e "t" then one 9
            else if Ascii.eqb e "u" then
              match s with
              | String h1 (String h2 (String h3 (String h4 s))) =>
                  a ← hex_value h1; b ← hex_value h2; c ← hex_value h3; d ← hex_value h4;
                  if (a =? 0) && (b =? 0) then
                    '(t, r) ← json_string s; Some (String (ascii_of_N (c * 16 + d)) t, r)
                  else None
              | _ => None
              end
            else None
        end
      else if N_of_ascii c <? 32 then None
      else '(t, r) ← json_string s; Some (String c t, r)
  end.

(** The longest prefix of digits. *)
Fixpoint digits (s : string) : string * string :=
  match s with
  | EmptyString => ("", "")
  | String c s' => if is_digit c then let '(d, r) := digits s' in (String c d, r) else ("", s)
  end.

(** [0|[1-9][0-9]*] *)
Definition json_nat (s : string) : option (string * string) :=
  match s with
  | String "0" s => Some ("0", s)
  | _ => match digits s with ("", _) => None | o => Some o end
  end.

Definition Z_of_digits (s : string) : option Z := Z.of_uint <$> NilZero.uint_of_string s.

(** A number without its sign: digits, an optional fraction, an optional exponent;
    with either of these it is a float. *)
Definition json_number (sign : Z) (s : string) : option (json * string) :=
  '(i, s) ← json_nat s;
  let '(f, s) := match s with
    | String "." t => match digits t with ("", _) => ("", s) | o => o end
    | _ => ("", s)
    end in
  let '(e, s) := match s with
    | String x t =>
        if Ascii.eqb x "e" || Ascii.eqb x "E" then
          let '(sg, t) := match t with
            | String "-" t => ((-1)%Z, t)
            | String "+" t => (1%Z, t)
            | _ => (1%Z, t)
            end in
          match digits t with
          | ("", _) => (None, s)
          | (d, r) => (Z.mul sg <$> Z_of_digits d, r)
          end
        else (None, s)
    | EmptyString => (None, s)
    end in
  m ← Z_of_digits (i ++ f)%string;
  match f, e with
  | "", None => Some (JInt (sign * m), s)
  | _, _ => Some (JFloat (sign * m) (default 0%Z e - Z.of_nat (String.length f)), s)
  end.

(** [d[k] = v]: the key keeps its place. *)
Fixpoint dict_set {A} (k : string) (v : A) (d : list (string * A)) : list (string * A) :=
  match d with
  | [] => [(k, v)]
  | (k', v') :: d => if decide (k = k') then (k, v) :: d else (k', v') :: dict_set k v d
  end.

(** [s.startswith(p)], and the rest. *)
Fixpoint drop_prefix (p s : string) : option string :=
  match p, s with
  | EmptyString, _ => Some s
  | String a p, String b s => if Ascii.eqb a b then drop_prefix p s else None
  | _, _ => None
  end.

Section json_loads.
Variable value : string → option (json * string).

(** The elements of an array and the members of an object, at most [n]. *)
Fixpoint json_elements (n : nat) (s : string) : option (list json * string) :=
  match n with
  | O => None
  | S n =>
      '(v, s) ← value s;
      match skip_space s with
      | String "," s => '(l, s) ← json_elements n (skip_space s); Some (v :: l, s)
      | String "]" s => Some ([v], s)
      | _ => None
      end
  end.

Fixpoint json_members (n : nat) (d : list (string * json)) (s : string) :
    option (list (string * json) * string) :=
  match n, s with
  | S n, String q s =>
      if Ascii.eqb q dquote then
        '(k, s) ← json_string s;
        match skip_space s with
        | String ":" s =>
            '(v, s) ← value (skip_space s);
            match skip_space s with
            | String "," s => json_members n (dict_set k v d) (skip_space s)
            | String "}" s => Some (dict_set k v d, s)
            | _ => None
            end
        | _ => None
        end
      else None
  | _, _ => None
  end.
End json_loads.

(** One value at the start of the text; [fuel] bounds the nesting and the number of
    elements of each level. *)
Fixpoint json_value (fuel : nat) (s : string) : option (json * string) :=
  match fuel with
  | O => None
  | S fuel =>
      match s with
      | EmptyString => None
      | String c t =>
          if Ascii.eqb c dquote then '(x, r) ← json_string t; Some (JStr x, r)
          else if Ascii.eqb c "{" then
            match skip_space t with
            | String "}" r => Some (JObj [], r)
            | t => '(l, r) ← json_members (json_value fuel) fuel [] t; Some (JObj l, r)
            end
          else if Ascii.eqb c "[" then
            match skip_space t with
            | String "]" r => Some (JArr [], r)
            | t => '(l, r) ← json_elements (json_value fuel) fuel t; Some (JArr l, r)
            end
          else match drop_prefix "null" s, drop_prefix "true" s, drop_prefix "false" s with
          | Some r, _, _ => Some (JNull, r)
          | _, Some r, _ => Some (JBool true, r)
          | _, _, Some r => Some (JBool false, r)
          | _, _, _ => if Ascii.eqb c "-" then json_number (-1) t else json_number 1 s
          end
      end
  end.

(** [json.loads(s)] of ASCII text; [None] is [JSONDecodeError], a [ValueError].
    The extensions [NaN] and [Infinity] are not read. *)
Definition json_loads (s : string) : option json :=
  '(v, r) ← json_value (S (String.length s)) (skip_space s);
  match skip_space r with EmptyString => Some v | _ => None end.

Example json_examples :
  (json_loads " {} ",
   json_loads "[1, -20,true , 1.5e-1]",
   json_loads "01", json_loads "[1,]",
   json_dumps (JArr [JInt (-5); JNull; JBool false]))
  = (Some (JObj []), Some (JArr [JInt 1; JInt (-20); JBool true; JFloat 15 (-2)]), None, None,
     Some "[-5,null,false]").
Proof. reflexivity. Qed.

Example b64_examples :
  (urlsafe_b64encode "Man", urlsafe_b64encode "Ma", urlsafe_b64encode "M",
   urlsafe_b64decode "TW_u", urlsafe_b64decode "T", urlsafe_b64decode "TQ==")
  = ("TWFu", "TWE=", "TQ==", Some (String "M" (String (ascii_of_N 111) (String (ascii_of_N 238) ""))),
     None, Some "M").
Proof. reflexivity. Qed.

(** ** Base 64 can be read back *)

Lemma N_of_ascii_lt c : N_of_ascii c < 256.
Proof. apply N_ascii_bounded. Qed.

Lemma ascii_of_N_of_ascii c n : n = N_of_ascii c → ascii_of_N n = c.
Proof. intros ->. apply ascii_N_embedding. Qed.

Lemma b64_val_char n : n < 64 → b64_val (b64_char n) = Some n ∧ Ascii.eqb (b64_char n) "=" = false.
Proof.
  intros Hn.
  assert (forallb (λ k, match b64_val (b64_char (N.of_nat k)) with
                        | Some m => m =? N.of_nat k | None => false end
                        && negb (Ascii.eqb (b64_char (N.of_nat k)) "=")) (List.seq 0 64) = true)
    as Hall by (vm_compute; reflexivity).
  rewrite forallb_forall in Hall. specialize (Hall (N.to_nat n)).
  rewrite N2Nat.id in Hall. rewrite List.in_seq in Hall. specialize (Hall ltac:(lia)).
  apply andb_true_iff in Hall as [Hv He]. destruct (b64_val (b64_char n)) as [m|]; [|done].
  apply N.eqb_eq in Hv as ->. split; [done|]. by apply negb_true_iff.
Qed.

(** One character of the alphabet is one step of the decoder. *)
Lemma a2b_step q l pads n s :
  n < 64 →
  a2b_base64 q l pads (String (b64_char n) s) =
    if q =? 0 then a2b_base64 1 n 0 s
    else if q =? 1 then String (ascii_of_N (l * 4 + n / 16)) <$> a2b_base64 2 (n mod 16) 0 s
    else if q =? 2 then String (ascii_of_N (l * 16 + n / 4)) <$> a2b_base64 3 (n mod 4) 0 s
    else String (ascii_of_N (l * 64 + n)) <$> a2b_base64 0 0 0 s.
Proof. intros Hn. destruct (b64_val_char n Hn) as [Hv He]. cbn [a2b_base64]. by rewrite He, Hv. Qed.

Ltac bytes := zify; Z.to_euclidean_division_equations; lia.

Lemma a2b_encode s : a2b_base64 0 0 0 (urlsafe_b64encode s) = Some s.
Proof.
  enough (∀ n, (String.length s ≤ n)%nat → a2b_base64 0 0 0 (urlsafe_b64encode s) = Some s)
    as Hn by by eapply Hn.
  intros n. revert s. induction n as [|n IH]; intros s Hs.
  { by destruct s; [|simpl in Hs; lia]. }
  destruct s as [|a [|b [|c s]]]; [done| | |].
  all: pose proof (N_of_ascii_lt a).
  - cbn [urlsafe_b64encode]. cbv zeta. rewrite !a2b_step by bytes. simpl.
    do 2 f_equal. apply ascii_of_N_of_ascii. bytes.
  - pose proof (N_of_ascii_lt b). cbn [urlsafe_b64encode]. cbv zeta.
    rewrite !a2b_step by bytes. simpl.
    f_equal. f_equal; [apply ascii_of_N_of_ascii; bytes|]. f_equal. apply ascii_of_N_of_ascii. bytes.
  - pose proof (N_of_ascii_lt b). pose proof (N_of_ascii_lt c). cbn [urlsafe_b64encode]. cbv zeta.
    rewrite !a2b_step by bytes. simpl in Hs. rewrite (IH s) by lia. simpl.
    f_equal. f_equal; [apply ascii_of_N_of_ascii; bytes|].
    f_equal; [apply ascii_of_N_of_ascii; bytes|]. f_equal. apply ascii_of_N_of_ascii. bytes.
Qed.

(** [-len(s) % 4], the padding [_b64decode] adds back. *)
Definition padding (s : string) : nat := Z.to_nat ((- Z.of_nat (String.length s)) mod 4).

Lemma rstrip_char_cons a c s :
  Ascii.eqb a c = false → rstrip_char c (String a s) = String a (rstrip_char c s).
Proof. intros Hac. cbn [rstrip_char]. destruct (rstrip_char c s); [by rewrite Hac|done]. Qed.

Lemma padding_group a b c d s :
  padding (String a (String b (String c (String d s)))) = padding s.
Proof. unfold padding. cbn [String.length]. f_equal. bytes. Qed.

Lemma is_ascii_b64 n s : n < 64 → is_ascii (String (b64_char n) s) = is_ascii s.
Proof.
  intros Hn.
  assert (forallb (λ k, byte_in 0 127 (b64_char (N.of_nat k))) (List.seq 0 64) = true) as Hall
    by (vm_compute; reflexivity).
  rewrite forallb_forall in Hall. specialize (Hall (N.to_nat n)).
  rewrite N2Nat.id, List.in_seq in Hall. unfold is_ascii. cbn [string_forallb].
  by rewrite Hall by lia.
Qed.

(** Without padding only the characters of the alphabet are left. *)
Definition b64_text (s : string) : bool :=
  string_forallb (λ c, match b64_val c with Some _ => true | None => false end) s.

Lemma b64_text_char n s : n < 64 → b64_text (String (b64_char n) s) = b64_text s.
Proof.
  intros Hn. unfold b64_text. cbn [string_forallb]. by rewrite (proj1 (b64_val_char n Hn)).
Qed.

(** What the encoder writes is ASCII, and the padding it strips can be computed. *)
Lemma b64_padding s :
  let e := urlsafe_b64encode s in
  let u := rstrip_char "=" e in
  (u ++ repeat_char "=" (padding u))%string = e ∧ is_ascii e = true ∧ b64_text u = true.
Proof.
  enough (∀ n, (String.length s ≤ n)%nat →
    (rstrip_char "=" (urlsafe_b64encode s) ++
       repeat_char "=" (padding (rstrip_char "=" (urlsafe_b64encode s))))%string =
      urlsafe_b64encode s ∧ is_ascii (urlsafe_b64encode s) = true ∧
      b64_text (rstrip_char "=" (urlsafe_b64encode s)) = true) as Hn by by eapply Hn.
  intros n. revert s. induction n as [|n IH]; intros s Hs.
  { by destruct s; [|simpl in Hs; lia]. }
  assert (∀ n s, n < 64 →
    rstrip_char "=" (String (b64_char n) s) = String (b64_char n) (rstrip_char "=" s)) as Hr.
  { intros m t Hm. by apply rstrip_char_cons, b64_val_char. }
  destruct s as [|a [|b [|c s]]]; [done| | |].
  all: pose proof (N_of_ascii_lt a); cbn [urlsafe_b64encode]; cbv zeta.
  - rewrite !Hr, !is_ascii_b64, !b64_text_char by bytes. done.
  - pose proof (N_of_ascii_lt b). rewrite !Hr, !is_ascii_b64, !b64_text_char by bytes. done.
  - pose proof (N_of_ascii_lt b). pose proof (N_of_ascii_lt c).
    rewrite !Hr, !is_ascii_b64, !b64_text_char by bytes. simpl in Hs.
    destruct (IH s ltac:(lia)) as [E Ha].
    split; [|done]. rewrite padding_group. by rewrite <- E at 3.
Qed.

(** ** JSON objects of strings and integers can be read back *)

Lemma app_string_cons a s t : (String a s ++ t)%string = String a (s ++ t)%string.
Proof. done. Qed.
Lemma app_string_nil t : ("" ++ t)%string = t.
Proof. done. Qed.
Lemma app_string_assoc s t u : ((s ++ t) ++ u)%string = (s ++ (t ++ u))%string.
Proof. induction s as [|c s IH]; [done|]. by rewrite !app_string_cons, IH. Qed.

Lemma json_string_escape c t :
  json_string (json_escape c ++ t) = ('(x, r) ← json_string t; Some (String c x, r)).
Proof. destruct c as [[] [] [] [] [] [] [] []]; reflexivity. Qed.

Lemma json_string_body s r : json_string (json_body s ++ r) = Some (s, r).
Proof.
  induction s as [|c s IH]; [done|]. cbn [json_body].
  by rewrite app_string_assoc, json_string_escape, IH.
Qed.

(** What follows a value in an object. *)
Definition json_delim (c : ascii) : Prop := c = ","%char ∨ c = "}"%char.

Lemma digits_app d c r :
  string_forallb is_digit d = true → json_delim c → digits (d ++ String c r) = (d, String c r).
Proof.
  intros Hd Hc. induction d as [|x d IH]; [by destruct Hc as [-> | ->]|].
  simpl in Hd. apply andb_true_iff in Hd as [Hx Hd]. rewrite app_string_cons. cbn [digits].
  by rewrite Hx, IH.
Qed.

(** The decimal numeral of a number does not start with zero, unless it is zero. *)
Definition numeral (u : Decimal.uint) : Prop :=
  u = Decimal.D0 Decimal.Nil ∨ (u ≠ Decimal.Nil ∧ ∀ v, u ≠ Decimal.D0 v).

Lemma numeral_pos p : numeral (Pos.to_uint p).
Proof.
  right. split; [apply pos_to_uint_nonnil|]. intros v E.
  assert (Decimal.unorm (Pos.to_uint p) = Pos.to_uint p) as Hn
    by by rewrite <- DecimalPos.Unsigned.to_of, DecimalPos.Unsigned.of_to.
  assert ({Decimal.nzhead (Pos.to_uint p) = Decimal.Nil} + {Decimal.nzhead (Pos.to_uint p) ≠ Decimal.Nil})
    as [Hz|Hz] by (destruct (Decimal.nzhead _); by (left + right)).
  - apply DecimalFacts.unorm_0 in Hz. rewrite Hn in Hz.
    by apply DecimalPos.Unsigned.to_uint_nonzero in Hz.
  - rewrite (DecimalFacts.unorm_nzhead _ Hz) in Hn. rewrite E in Hn at 2.
    by apply DecimalFacts.nzhead_nonzero in Hn.
Qed.

Lemma json_nat_numeral u c r :
  numeral u → json_delim c →
  json_nat (NilEmpty.string_of_uint u ++ String c r) = Some (NilEmpty.string_of_uint u, String c r).
Proof.
  intros [->|[Hn Hd]] Hc; [done|].
  pose proof (digits_app _ c r (string_of_uint_digits u) Hc) as E.
  destruct u; try done; [by edestruct Hd|..]; unfold json_nat; cbn [NilEmpty.string_of_uint] in *;
    rewrite app_string_cons in *; by rewrite E.
Qed.

Lemma json_number_numeral sign u c r :
  numeral u → json_delim c →
  json_number sign (NilEmpty.string_of_uint u ++ String c r) =
    Some (JInt (sign * Z.of_uint u), String c r).
Proof.
  intros Hu Hc. unfold json_number. rewrite (json_nat_numeral u c r Hu Hc). simpl.
  assert (u ≠ Decimal.Nil) as Hn by by destruct Hu as [->|[? _]].
  assert (NilZero.string_of_uint u = NilEmpty.string_of_uint u) as E by by destruct u.
  destruct Hc as [-> | ->]; simpl; unfold Z_of_digits;
    (replace (NilEmpty.string_of_uint u ++ "")%string with (NilZero.string_of_uint u);
      [by rewrite NilZero.usu|rewrite E; clear; induction (NilEmpty.string_of_uint u) as [|x t IH];
        [done|by rewrite app_string_cons, <- IH]]).
Qed.

Lemma json_value_numeral f u c r :
  numeral u → json_delim c →
  json_value (S f) (NilEmpty.string_of_uint u ++ String c r) = Some (JInt (Z.of_uint u), String c r) ∧
  json_value (S f) (String "-" (NilEmpty.string_of_uint u ++ String c r)) =
    Some (JInt (- Z.of_uint u), String c r) ∧
  skip_space (NilEmpty.string_of_uint u ++ String c r) = (NilEmpty.string_of_uint u ++ String c r)%string.
Proof.
  intros Hu Hc. pose proof (json_number_numeral 1 u c r Hu Hc) as E1.
  pose proof (json_number_numeral (-1) u c r Hu Hc) as E2.
  replace (1 * Z.of_uint u)%Z with (Z.of_uint u) in E1 by lia.
  replace (-1 * Z.of_uint u)%Z with (- Z.of_uint u)%Z in E2 by lia.
  split; [|split].
  - rewrite <- E1. destruct u; [by destruct Hu as [|[]]|reflexivity..].
  - rewrite <- E2. reflexivity.
  - destruct u; [by destruct Hu as [|[]]|reflexivity..].
Qed.

(** Strings and integers. *)
Definition flat (v : json) : Prop := match v with JStr _ | JInt _ => True | _ => False end.

Lemma json_value_flat f v t c r :
  flat v → json_dumps v = Some t → json_delim c →
  json_value (S f) (t ++ String c r) = Some (v, String c r) ∧
  skip_space (t ++ String c r) = (t ++ String c r)%string.
Proof.
  intros Hv Ht Hc. destruct v as [| |n| |s| |]; try done; injection Ht as <-.
  - assert (∀ p, NilZero.string_of_uint (Pos.to_uint p) = NilEmpty.string_of_uint (Pos.to_uint p)) as E.
    { intros p. pose proof (pos_to_uint_nonnil p). by destruct (Pos.to_uint p). }
    destruct n as [|p|p]; unfold py_str; simpl Z.to_int; simpl NilZero.string_of_int.
    + destruct (json_value_numeral f (Decimal.D0 Decimal.Nil) c r (or_introl eq_refl) Hc) as (? & _ & ?).
      done.
    + rewrite E. destruct (json_value_numeral f _ c r (numeral_pos p) Hc) as (E1 & _ & E2).
      split; [|done]. rewrite E1. do 3 f_equal. apply (DecimalZ.of_to (Z.pos p)).
    + rewrite E, app_string_cons. destruct (json_value_numeral f _ c r (numeral_pos p) Hc) as (_ & E1 & _).
      split; [|done]. rewrite E1. do 3 f_equal. apply (DecimalZ.of_to (Z.neg p)).
  - unfold json_quote. rewrite app_string_cons. split; [|done].
    cbn [json_value]. rewrite Ascii.eqb_refl. by rewrite json_string_body.
Qed.

(** The text of the members of an object. *)
Definition member_text (kt : string * string) : string := (json_quote kt.1 ++ ":" ++ kt.2)%string.

Lemma dict_set_fresh {A} k (v : A) d : k ∉ d.*1 → dict_set k v d = (d ++ [(k, v)])%list.
Proof.
  induction d as [|[k' v'] d IH]; simpl; [done|]. intros Hk.
  rewrite decide_False by set_solver. by rewrite IH by set_solver.
Qed.

Lemma json_members_flat f n d (items : list (string * json)) ts :
  items ≠ [] → (length items ≤ n)%nat →
  Forall2 (λ kv t, flat kv.2 ∧ json_dumps kv.2 = Some t) items ts →
  NoDup ((d ++ items)%list).*1 →
  ∀ r, json_members (json_value (S f)) n d
         (py_join "," (member_text <$> zip items.*1 ts) ++ String "}" r) =
       Some ((d ++ items)%list, r).
Proof.
  intros Hne Hn Hts. revert d n Hne Hn. induction Hts as [|[k v] t items ts [Hv Ht] Hts IH];
    intros d n Hne Hn Hnd r; [done|].
  destruct n as [|n]; [simpl in Hn; lia|].
  assert (dict_set k v d = (d ++ [(k, v)])%list) as Hset.
  { apply dict_set_fresh. rewrite fmap_app in Hnd. apply NoDup_app in Hnd as (_ & Hnd & _).
    intros Hk. apply (Hnd k Hk). simpl. set_solver. }
  assert (∀ c r', json_delim c →
    json_members (json_value (S f)) (S n) d (member_text (k, t) ++ String c r') =
      match c with
      | ","%char => json_members (json_value (S f)) n (d ++ [(k, v)])%list (skip_space r')
      | _ => Some ((d ++ [(k, v)])%list, r')
      end) as Hstep.
  { intros c r' Hc. destruct (json_value_flat f v t c r' Hv Ht Hc) as [Ev Es].
    replace (member_text (k, t) ++ String c r')%string
      with (String dquote (json_body k ++ String ":" (t ++ String c r')))
      by (unfold member_text, json_quote; rewrite !app_string_cons, app_string_assoc; reflexivity).
    cbn [json_members]. rewrite Ascii.eqb_refl, json_string_body.
    cbn beta iota delta [mbind option_bind].
    change (skip_space (String ":" (t ++ String c r'))) with (String ":" (t ++ String c r')).
    cbn beta iota. rewrite Es, Ev. cbn beta iota.
    destruct Hc as [-> | ->]; simpl; by rewrite Hset. }
  destruct Hts as [|[k' v'] t' items ts Hv' Hts].
  - change (py_join "," (member_text <$> zip [(k, v)].*1 [t])) with (member_text (k, t)).
    rewrite Hstep by by right. done.
  - set (rest := py_join "," (member_text <$> zip ((k', v') :: items).*1 (t' :: ts))).
    change (py_join "," (member_text <$> zip ((k, v) :: (k', v') :: items).*1 (t :: t' :: ts)))
      with (member_text (k, t) ++ String "," rest)%string.
    rewrite app_string_assoc, app_string_cons, Hstep by by left.
    assert (skip_space (rest ++ String "}" r) = (rest ++ String "}" r)%string) as ->.
    { unfold rest. by destruct items, ts. }
    specialize (IH (d ++ [(k, v)])%list n ltac:(done) ltac:(simpl in *; lia)).
    rewrite <- app_assoc in IH. by apply IH.
Qed.

Lemma member_texts_length l : (length l ≤ String.length (py_join "," (member_text <$> l)))%nat.
Proof.
  assert (∀ kt, (2 ≤ String.length (member_text kt))%nat) as Ht.
  { intros [k t]. unfold member_text, json_quote. rewrite app_string_cons. simpl. destruct (json_body k) eqn:E; simpl; [|lia].
    by destruct k as [|[[] [] [] [] [] [] [] []] k]. }
  assert (∀ s t, String.length (s ++ t) = (String.length s + String.length t)%nat) as Happ.
  { intros s t. induction s as [|c s IH]; [done|]. rewrite app_string_cons. simpl. by rewrite IH. }
  induction l as [|kt [|kt' l] IH]; [done|apply (Nat.le_trans _ 2); [simpl; lia|apply Ht]|].
  change (py_join "," (member_text <$> kt :: kt' :: l)) with
    (member_text kt ++ String "," (py_join "," (member_text <$> kt' :: l)))%string.
  rewrite Happ. specialize (Ht kt). cbn [length String.length] in *. lia.
Qed.

(** What [json.dumps] writes of an object whose values are strings and integers,
    [json.loads] reads back. *)
Lemma json_roundtrip (items : list (string * json)) :
  items ≠ [] → NoDup items.*1 → Forall (λ kv, flat kv.2) items →
  ∃ s, json_dumps (JObj items) = Some s ∧ json_loads s = Some (JObj items).
Proof.
  intros Hne Hnd Hflat.
  assert (∃ ts, Forall2 (λ kv t, flat kv.2 ∧ json_dumps kv.2 = Some t) items ts) as [ts Hts].
  { clear -Hflat. induction Hflat as [|[k v] items Hv _ [ts Hts]]; [by exists []|].
    assert (∃ t, json_dumps v = Some t) as [t Ht] by (destruct v; try done; by eexists).
    exists (t :: ts). by constructor. }
  assert (json_dumps (JObj items) =
    Some ("{" ++ (py_join "," (member_text <$> zip items.*1 ts)) ++ "}")%string) as E.
  { cbn [json_dumps].
    assert (∀ (go : list (string * json) → option (list string)),
      go [] = Some [] →
      (∀ k v l, go ((k, v) :: l) =
        (t ← json_dumps v; ts ← go l; Some ((json_quote k ++ ":" ++ t)%string :: ts))) →
      go items = Some (member_text <$> zip items.*1 ts)) as Hgo.
    { intros go Hnil Hcons. clear -Hts Hnil Hcons.
      induction Hts as [|[k v] t items ts [_ Ht] _ IH]; [done|].
      rewrite Hcons. simpl in Ht. rewrite Ht. simpl. by rewrite IH. }
    erewrite Hgo; [reflexivity|done|done]. }
  eexists. split; [exact E|]. set (body := py_join "," _). rewrite app_string_cons, app_string_nil.
  assert (skip_space (body ++ "}") = (body ++ "}")%string ∧
    ∃ t, (body ++ "}")%string = String dquote t) as [Hs [t0 Ht0]].
  { unfold body. destruct Hts as [|[k v] t items' ts' _ Hts']; [done|].
    split; [by destruct Hts'|]. destruct Hts'; by eexists. }
  assert (length items ≤ String.length (body ++ "}"))%nat as Hlen.
  { pose proof (member_texts_length (zip items.*1 ts)) as Hl. fold body in Hl.
    assert (length (zip items.*1 ts) = length items) as Hz.
    { rewrite length_zip_with, length_fmap. pose proof (Forall2_length _ _ _ Hts). lia. }
    assert (∀ s, String.length s ≤ String.length (s ++ "}"))%nat as Happ.
    { intros s. induction s as [|c s IH]; [simpl; lia|]. rewrite app_string_cons. simpl. lia. }
    specialize (Happ body). lia. }
  unfold json_loads. cbn [String.length].
  change (skip_space (String "{" (body ++ "}"))) with (String "{" (body ++ "}")).
  set (n := String.length (body ++ "}")) in *.
  assert (json_value (S (S n)) (String "{" (body ++ "}")) =
    ('(l, r) ← json_members (json_value (S n)) (S n) [] (body ++ "}"); Some (JObj l, r))) as Ev
    by (rewrite Ht0; reflexivity).
  pose proof (json_members_flat n (S n) [] items ts Hne ltac:(lia) Hts Hnd "") as Em.
  fold body in Em. rewrite Ev. by rewrite Em.
Qed.

(** The encoding without its padding decodes once the padding is added back. *)
Lemma b64_unpadded_roundtrip raw :
  let u := rstrip_char "=" (urlsafe_b64encode raw) in
  urlsafe_b64decode (u ++ repeat_char "=" (padding u)) = Some raw.
Proof.
  destruct (b64_padding raw) as (E & Ha & _). cbv zeta. unfold urlsafe_b64decode. rewrite E, Ha.
  apply a2b_encode.
Qed.
