(* ===== verification/PyText.v ===== *)
(** * Python's text of values, and [shlex]

    [str] of JSON values, as the executors write them into log lines and messages,
    and the shell-like splitting and quoting of [shlex].  The digits of a float are a
    parameter. *)

From S2P Require Import Prelude PyBase PyCodec Models.
From Stdlib Require Import Ascii.

Local Open Scope string_scope.

(** [repr] of the float [m * 10^e], and [float(s)] of a string in microseconds. *)
Class FloatText := {
  float_repr : Z → Z → string;
  float_of_str : string → option Z
}.

Definition newline : ascii := ascii_of_N 10.

(** ** [str] and [repr] *)

Fixpoint has_char (c : ascii) (s : string) : bool :=
  match s with EmptyString => false | String a s => Ascii.eqb a c || has_char c s end.

(** One character in the [repr] of a string quoted with [q]. *)
Definition repr_char (q c : ascii) : string :=
  let n := N_of_ascii c in
  (if Ascii.eqb c q || Ascii.eqb c "\" then String "\" (String c "")
   else if n =? 10 then "\n" else if n =? 13 then "\r" else if n =? 9 then "\t"
   else if (n <? 32) || (n =? 127)
   then "\x" ++ String (hex_digit (n / 16)) (String (hex_digit (n mod 16)) "")
   else String c "")%N.
Definition repr_str (s : string) : string :=
  let q := if has_char "'" s && negb (has_char dquote s) then dquote else "'"%char in
  String q ((fix go s := match s with
    | EmptyString => String q ""
    | String c s => repr_char q c ++ go s
    end) s).

Section text.
Context `{FloatText}.

(** [repr(v)] *)
Fixpoint json_repr (v : json) : string :=
  match v with
  | JNull => "None"
  | JBool b => if b then "True" else "False"
  | JInt n => py_str n
  | JFloat m e => float_repr m e
  | JStr s => repr_str s
  | JArr l => "[" ++ py_join ", " ((fix go l := match l with
      | [] => [] | v :: l => json_repr v :: go l end) l) ++ "]"
  | JObj l => "{" ++ py_join ", " ((fix go l := match l with
      | [] => [] | (k, v) :: l => (repr_str k ++ ": " ++ json_repr v) :: go l end) l) ++ "}"
  end.

(** [str(v)] *)
Definition json_str (v : json) : string := match v with JStr s => s | v => json_repr v end.

End text.

(** [s.upper()] *)
Definition upper_char (c : ascii) : ascii :=
  let n := N_of_ascii c in
  if ((97 <=? n) && (n <=? 122))%N then ascii_of_N (n - 32) else c.
Fixpoint py_upper (s : string) : string :=
  match s with EmptyString => "" | String c s => String (upper_char c) (py_upper s) end.

(** ** Reading bytes as text *)

(** U+FFFD *)
Definition replacement (rest : string) : string :=
  String (ascii_of_N 239) (String (ascii_of_N 191) (String (ascii_of_N 189) rest)).

(** The second byte that may follow the first byte [a] of a long sequence. *)
Definition second_byte (a b : ascii) : bool :=
  byte_in (if byte_in 224 224 a then 160 else if byte_in 240 240 a then 144 else 128)
          (if byte_in 237 237 a then 159 else if byte_in 244 244 a then 143 else 191) b.

(** [raw.decode(errors="replace")]: every part that does not start a valid sequence
    becomes one U+FFFD. *)
Fixpoint decode_replace (s : string) : string :=
  match s with
  | EmptyString => ""
  | String a s1 =>
    if byte_in 0 127 a then String a (decode_replace s1)
    else if negb (byte_in 194 244 a) then replacement (decode_replace s1)
    else match s1 with
    | EmptyString => replacement ""
    | String b s2 =>
      if byte_in 194 223 a then
        if byte_in 128 191 b then String a (String b (decode_replace s2))
        else replacement (decode_replace s1)
      else if negb (second_byte a b) then replacement (decode_replace s1)
      else match s2 with
      | EmptyString => replacement ""
      | String c s3 =>
        if negb (byte_in 128 191 c) then replacement (decode_replace s2)
        else if byte_in 224 239 a then String a (String b (String c (decode_replace s3)))
        else match s3 with
        | EmptyString => replacement ""
        | String d s4 =>
          if byte_in 128 191 d
          then String a (String b (String c (String d (decode_replace s4))))
          else replacement (decode_replace s3)
        end
      end
    end
  end.

(** [s.rstrip("\n")] *)
Fixpoint rstrip_newlines (s : string) : string :=
  match s with
  | EmptyString => ""
  | String c s' =>
      match rstrip_newlines s' with
      | EmptyString => if Ascii.eqb c newline then "" else String c ""
      | r => String c r
      end
  end.

(** [s[:n]]: the first [n] characters; a byte that continues one does not count. *)
Fixpoint text_prefix (n : nat) (s : string) : string :=
  match s with
  | EmptyString => ""
  | String c s' =>
      if byte_in 128 191 c then String c (text_prefix n s')
      else match n with O => "" | S n => String c (text_prefix n s') end
  end.

Example decode_examples :
  (decode_replace (String (ascii_of_N 226) (String (ascii_of_N 130) "x")),
   rstrip_newlines ("a" ++ String newline (String newline "")), text_prefix 2 "abc")
  = (replacement "x", "a", "ab").
Proof. reflexivity. Qed.

(** ** [shlex.split(s)] (POSIX mode, no comments) *)

Definition shlex_space (c : ascii) : bool :=
  let n := N_of_ascii c in ((n =? 32) || (n =? 9) || (n =? 13) || (n =? 10))%N.

(** Where the lexer is: between words, in a word, within quotes, after a backslash
    (with the state it returns to). *)
Inductive LexState := Blank | Word | Quoted (q : ascii) | Escaped (back : LexState).

(** [tok] is the token so far and [quoted] whether it had quotes, so that an empty
    one counts; [None] is [ValueError]. *)
Fixpoint shlex_lex (st : LexState) (tok : string) (quoted : bool) (s : string) :
    option (list string) :=
  let emit := match tok with EmptyString => if quoted then [tok] else [] | _ => [tok] end in
  match s with
  | EmptyString =>
      match st with
      | Blank | Word => Some emit
      | Quoted _ | Escaped _ => None
      end
  | String c s =>
      match st with
      | Blank =>
          if shlex_space c then shlex_lex Blank "" false s
          else if Ascii.eqb c "\" then shlex_lex (Escaped Word) "" false s
          else if Ascii.eqb c "'" || Ascii.eqb c dquote then shlex_lex (Quoted c) "" false s
          else shlex_lex Word (String c "") false s
      | Word =>
          if shlex_space c then (λ l, emit ++ l)%list <$> shlex_lex Blank "" false s
          else if Ascii.eqb c "'" || Ascii.eqb c dquote then shlex_lex (Quoted c) tok quoted s
          else if Ascii.eqb c "\" then shlex_lex (Escaped Word) tok quoted s
          else shlex_lex Word (tok ++ String c "") quoted s
      | Quoted q =>
          if Ascii.eqb c q then shlex_lex Word tok true s
          else if Ascii.eqb c "\" && Ascii.eqb q dquote then shlex_lex (Escaped (Quoted q)) tok true s
          else shlex_lex (Quoted q) (tok ++ String c "") true s
      | Escaped back =>
          let keep := match back with
                      | Quoted q => negb (Ascii.eqb c "\") && negb (Ascii.eqb c q)
                      | _ => false
                      end in
          shlex_lex back (tok ++ (if keep then String "\" (String c "") else String c "")) quoted s
      end
  end.

Definition shlex_split (s : string) : option (list string) := shlex_lex Blank "" false s.

(** ** [shlex.quote] and [shlex.join] *)

(** [[\w@%+=:,./-]], ASCII *)
Definition shlex_safe (c : ascii) : bool :=
  byte_in 65 90 c || byte_in 97 122 c || is_digit c || has_char c "_@%+=:,./-".

(** The inside of a quoted string: a quotation mark leaves and reenters it. *)
Fixpoint quote_body (s : string) : string :=
  match s with
  | EmptyString => "'"
  | String c s =>
      if Ascii.eqb c "'"
      then "'" ++ String dquote ("'" ++ String dquote ("'" ++ quote_body s))
      else String c (quote_body s)
  end.
Definition shlex_quote (s : string) : string :=
  match s with
  | EmptyString => "''"
  | _ => if string_forallb shlex_safe s then s else String "'" (quote_body s)
  end.

Definition shlex_join (argv : list string) : string := py_join " " (shlex_quote <$> argv).

Example shlex_examples :
  (shlex_split "python  -c 'a b' x\ y", shlex_split "a ''", shlex_split "'a", shlex_split "   ",
   shlex_join ["echo"; "it's"; ""])
  = (Some ["python"; "-c"; "a b"; "x y"], Some ["a"; ""], None, Some [],
     String "e" "cho 'it'" ++ String dquote ("'" ++ String dquote "'s' ''")).
Proof. reflexivity. Qed.

(** ** Laws *)

Lemma byte_in_spec lo hi c : byte_in lo hi c = true ↔ (lo ≤ N_of_ascii c ≤ hi)%N.
Proof. unfold byte_in. by rewrite andb_true_iff, !N.leb_le. Qed.
Lemma byte_in_false lo hi c : byte_in lo hi c = false ↔ ¬ (lo ≤ N_of_ascii c ≤ hi)%N.
Proof. by rewrite <- byte_in_spec, not_true_iff_false. Qed.

(** Decides the tests on the bytes of a sequence. *)
Ltac bytes := repeat match goal with
  | H : negb _ = true |- _ => apply negb_true_iff in H
  | H : negb _ = false |- _ => apply negb_false_iff in H
  | H : byte_in _ _ _ = true |- _ => apply byte_in_spec in H
  | H : byte_in _ _ _ = false |- _ => apply byte_in_false in H
  end; lia.

(** Strings are decoded some bytes at a time. *)
Lemma string_length_ind (P : string → Prop) :
  (∀ s, (∀ t, (String.length t < String.length s)%nat → P t) → P s) → ∀ s, P s.
Proof.
  intros Hs s. remember (String.length s) as n eqn:E. revert s E.
  induction n as [n IH] using lt_wf_ind. intros s ->. apply Hs. intros t Ht. by eapply IH.
Qed.

Ltac decode_step IH :=
  first
    [ done
    | rewrite IH by (simpl; first [lia|done])
    | bytes
    | match goal with
      | H : _ && _ = true |- _ => apply andb_true_iff in H as [? ?]
      | |- context [if ?b then _ else _] => destruct b eqn:?
      | |- context [match ?t with EmptyString => _ | String _ _ => _ end] => destruct t
      | H : context [if ?b then _ else _] |- _ => destruct b eqn:?
      | H : context [match ?t with EmptyString => _ | String _ _ => _ end] |- _ => destruct t
      end ].

(** Text that decodes is kept as it is. *)
Lemma decode_replace_id s : utf8_valid s = true → decode_replace s = s.
Proof.
  induction s as [s IH] using string_length_ind. destruct s as [|a s1]; [done|].
  cbn [utf8_valid decode_replace]. unfold second_byte. intros Hs.
  repeat decode_step IH.
Qed.

(** No character that [shlex.quote] leaves alone means anything to [shlex.split]. *)
Lemma shlex_safe_plain c :
  shlex_safe c = true →
  shlex_space c = false ∧ Ascii.eqb c "'" = false ∧ Ascii.eqb c dquote = false ∧
  Ascii.eqb c "\" = false.
Proof. destruct c as [[] [] [] [] [] [] [] []]; vm_compute; intros; repeat split; congruence. Qed.

Lemma app_string_empty s : s ++ "" = s.
Proof. induction s as [|c s IH]; [done|]. by rewrite app_string_cons, IH. Qed.

Lemma app_string_snoc s c t : (s ++ String c "") ++ t = s ++ String c t.
Proof. by rewrite app_string_assoc, app_string_cons, app_string_nil. Qed.

Lemma lex_safe s tok q rest :
  string_forallb shlex_safe s = true →
  shlex_lex Word tok q (s ++ rest) = shlex_lex Word (tok ++ s) q rest.
Proof.
  revert tok. induction s as [|c s IH]; intros tok Hs.
  - by rewrite app_string_nil, app_string_empty.
  - simpl in Hs. apply andb_true_iff in Hs as [Hc Hs]. rewrite app_string_cons. cbn [shlex_lex].
    destruct (shlex_safe_plain c Hc) as (-> & -> & -> & ->). simpl.
    by rewrite IH, app_string_snoc.
Qed.

Lemma lex_quoted s tok rest :
  shlex_lex (Quoted "'") tok true (quote_body s ++ rest) = shlex_lex Word (tok ++ s) true rest.
Proof.
  revert tok. induction s as [|c s IH]; intros tok.
  - by rewrite app_string_empty.
  - cbn [quote_body]. destruct (Ascii.eqb c "'") eqn:Hc.
    + apply Ascii.eqb_eq in Hc as ->. rewrite !app_string_cons, !app_string_nil.
      cbn [shlex_lex]. simpl. rewrite IH. by rewrite app_string_snoc.
    + rewrite app_string_cons. cbn [shlex_lex]. rewrite Hc. simpl.
      rewrite andb_false_r. by rewrite IH, app_string_snoc.
Qed.

(** Reading a quoted argument gives the argument. *)
Lemma lex_quote s rest :
  ∃ q, (s ≠ "" ∨ q = true) ∧
    shlex_lex Blank "" false (shlex_quote s ++ rest) = shlex_lex Word s q rest.
Proof.
  destruct s as [|c s]; [exists true; by split; [right|]|].
  unfold shlex_quote. destruct (string_forallb shlex_safe (String c s)) eqn:Hs.
  - exists false. split; [by left|]. simpl in Hs. apply andb_true_iff in Hs as [Hc Hs].
    rewrite app_string_cons. cbn [shlex_lex].
    destruct (shlex_safe_plain c Hc) as (-> & -> & -> & ->). simpl. by rewrite lex_safe.
  - exists true. split; [by left|]. rewrite app_string_cons.
    change (shlex_lex Blank "" false (String "'" (quote_body (String c s) ++ rest)))
      with (shlex_lex (Quoted "'") "" false (quote_body (String c s) ++ rest)).
    transitivity (shlex_lex Word ("" ++ String c s) true rest); [|done].
    rewrite <- lex_quoted.
    cbn [quote_body]. destruct (Ascii.eqb c "'") eqn:Hc.
    { rewrite !app_string_cons. done. }
    rewrite app_string_cons. cbn [shlex_lex]. by rewrite Hc, andb_false_r.
Qed.

(** [shlex.split(shlex.join(argv)) == argv] *)
Lemma shlex_split_join argv : shlex_split (shlex_join argv) = Some argv.
Proof.
  unfold shlex_split, shlex_join, py_join. induction argv as [|x argv IH]; [done|].
  assert (∀ q, (x ≠ "" ∨ q = true) →
    (match x with EmptyString => if q then [x] else [] | _ => [x] end) = [x]) as Hemit.
  { intros q [? | ->]; by destruct x. }
  destruct argv as [|y argv].
  - simpl. rewrite <- (app_string_empty (shlex_quote x)).
    destruct (lex_quote x "") as (q & Hq & ->). simpl. by rewrite Hemit.
  - change (String.concat " " (shlex_quote <$> x :: y :: argv))
      with (shlex_quote x ++ " " ++ String.concat " " (shlex_quote <$> y :: argv)).
    destruct (lex_quote x (" " ++ String.concat " " (shlex_quote <$> y :: argv))) as (q & Hq & ->).
    rewrite app_string_cons, app_string_nil. cbn [shlex_lex]. simpl (shlex_space " "). cbv iota.
    rewrite IH. simpl. by rewrite Hemit.
Qed.

(** The parts of a split hold no separator. *)
Lemma split_on_parts c s : ∀ p, p ∈ split_on c s → string_forallb (λ a, negb (Ascii.eqb a c)) p = true.
Proof.
  induction s as [|a s IH]; simpl; [set_solver|]. destruct (Ascii.eqb a c) eqn:Ea.
  - intros p [->|Hp]%elem_of_cons; [done|by apply IH].
  - destruct (split_on c s) as [|x l] eqn:E; intros p [->|Hp]%elem_of_cons.
    + simpl. by rewrite Ea.
    + by apply elem_of_nil in Hp.
    + simpl. rewrite Ea. simpl. apply IH. set_solver.
    + apply IH. set_solver.
Qed.

Lemma split_on_whole c s : string_forallb (λ a, negb (Ascii.eqb a c)) s = true → split_on c s = [s].
Proof.
  induction s as [|a s IH]; simpl; [done|]. rewrite andb_true_iff, negb_true_iff.
  intros [-> Hs]. by rewrite IH.
Qed.

(** [Path(Path(s).name).name == Path(s).name] *)
Lemma path_name_idem s : path_name (path_name s) = path_name s.
Proof.
  unfold path_name at 2 3. destruct (last (filter _ _)) as [n|] eqn:E; simpl; [|done].
  apply last_Some_elem_of, list_elem_of_filter in E as [Hn Hin].
  unfold path_name. rewrite split_on_whole by by eapply split_on_parts.
  by rewrite filter_cons_True.
Qed.
