(* ===== verification/RedisServer.v ===== *)
(** * The Redis server, as the sources rely on it

    Redis is not part of the repository: it is a parameter of the model.  The
    class [RedisServer] names the commands the sources send and states, for
    each, its documented effect on what a client can observe ([RedisView]): the
    dispatch stream, its consumer group with the pending entries list, the
    sorted set of delayed runs and the messages published on the cancel channel.
    [reference_redis] is an instance, used to evaluate the model. *)

From S2P Require Import Prelude PyBase.

(** ** Observable state *)

Record PelEntry := {
  pe_id : Z;             (* message id *)
  pe_consumer : string;  (* owner *)
  pe_time : Z            (* last delivery, microseconds *)
}.

Record RedisView := {
  rv_entries : list (Z * gmap string string);
  rv_top : Z;
  rv_group : bool;
  rv_read : Z;
  rv_pel : list PelEntry;
  rv_delayed : gmap string Z;
  rv_published : list string
}.

Definition empty_view : RedisView :=
  {| rv_entries := []; rv_top := 0; rv_group := false; rv_read := 0; rv_pel := [];
     rv_delayed := ∅; rv_published := [] |}.

Definition with_stream (e : list (Z * gmap string string)) (top : Z) (v : RedisView) :=
  {| rv_entries := e; rv_top := top; rv_group := rv_group v; rv_read := rv_read v;
     rv_pel := rv_pel v; rv_delayed := rv_delayed v; rv_published := rv_published v |}.
Definition with_group (g : bool) (r : Z) (p : list PelEntry) (v : RedisView) :=
  {| rv_entries := rv_entries v; rv_top := rv_top v; rv_group := g; rv_read := r;
     rv_pel := p; rv_delayed := rv_delayed v; rv_published := rv_published v |}.
Definition with_delayed (d : gmap string Z) (v : RedisView) :=
  {| rv_entries := rv_entries v; rv_top := rv_top v; rv_group := rv_group v;
     rv_read := rv_read v; rv_pel := rv_pel v; rv_delayed := d;
     rv_published := rv_published v |}.
Definition with_published (p : list string) (v : RedisView) :=
  {| rv_entries := rv_entries v; rv_top := rv_top v; rv_group := rv_group v;
     rv_read := rv_read v; rv_pel := rv_pel v; rv_delayed := rv_delayed v;
     rv_published := p |}.

(** ** Documented effect of the commands *)

(** [XADD key * f v]: appends an entry under a new, larger id. *)
Definition view_xadd (i : Z) (f : gmap string string) (v : RedisView) : RedisView :=
  with_stream (rv_entries v ++ [(i, f)]) i v.

(** [XDEL key id] *)
Definition view_xdel (i : Z) (v : RedisView) : RedisView :=
  with_stream (filter (λ e, e.1 ≠ i) (rv_entries v)) (rv_top v) v.

(** [XACK key group id]: forgets the pending entry. *)
Definition view_xack (i : Z) (v : RedisView) : RedisView :=
  with_group (rv_group v) (rv_read v) (filter (λ p, pe_id p ≠ i) (rv_pel v)) v.

(** The entries the group has not delivered yet, at most [count] of them. *)
Definition new_entries (count : Z) (v : RedisView) : list (Z * gmap string string) :=
  take (Z.to_nat count) (filter (λ e, rv_read v < e.1) (rv_entries v)).

Definition deliver (consumer : string) (now : Z) (e : Z * gmap string string) : PelEntry :=
  {| pe_id := e.1; pe_consumer := consumer; pe_time := now |}.

(** [XREADGROUP GROUP g c COUNT n STREAMS key >] *)
Definition view_xreadgroup (consumer : string) (count now : Z) (v : RedisView) : RedisView :=
  let msgs := new_entries count v in
  with_group (rv_group v) (default (rv_read v) (last msgs.*1))
    (rv_pel v ++ (deliver consumer now <$> msgs)) v.

(** A pending entry that [XAUTOCLAIM] may transfer: idle for long enough and
    still in the stream. *)
Definition claimable (min_idle now : Z) (v : RedisView) (p : PelEntry) : Prop :=
  min_idle ≤ now - pe_time p ∧ pe_id p ∈ (rv_entries v).*1.

#[global] Instance claimable_dec min_idle now v p : Decision (claimable min_idle now v p).
Proof. unfold claimable. apply _. Defined.

(** An entry that uses up one of [COUNT]. *)
Definition counted (min_idle now : Z) (v : RedisView) (p : PelEntry) : Prop :=
  claimable min_idle now v p ∨ pe_id p ∉ (rv_entries v).*1.
#[global] Instance counted_dec min_idle now v p : Decision (counted min_idle now v p).
Proof. unfold counted. apply _. Defined.

(** The claimed entries belong to [consumer] and were delivered [now]. *)
Definition reown (consumer : string) (now : Z) (ids : list Z) (p : PelEntry) : PelEntry :=
  if decide (pe_id p ∈ ids)
  then {| pe_id := pe_id p; pe_consumer := consumer; pe_time := now |} else p.

(** ** The interface *)

Class RedisServer := {
  redis_state : Type;
  view : redis_state → RedisView;

  xadd : gmap string string → redis_state → Z * redis_state;
  zadd : string → Z → redis_state → redis_state;
  zrem : string → redis_state → redis_state;
  zrangebyscore : Z → redis_state → list string;
  publish_msg : string → redis_state → redis_state;
  xgroup_create : redis_state → option redis_state;
  xreadgroup : string → Z → Z → redis_state → list (Z * gmap string string) * redis_state;
  xautoclaim : string → Z → Z → Z → redis_state → list (Z * gmap string string) * redis_state;
  xack : Z → redis_state → redis_state;
  xdel : Z → redis_state → redis_state;

  xadd_view : ∀ f s,
    rv_top (view s) < (xadd f s).1 ∧
    view (xadd f s).2 = view_xadd (xadd f s).1 f (view s);
  zadd_view : ∀ m x s,
    view (zadd m x s) = with_delayed (<[m := x]> (rv_delayed (view s))) (view s);
  zrem_view : ∀ m s,
    view (zrem m s) = with_delayed (delete m (rv_delayed (view s))) (view s);
  (** [ZRANGEBYSCORE key -inf max]: each member with a score of at most [max],
      once, by increasing score. *)
  zrangebyscore_spec : ∀ max s m,
    m ∈ zrangebyscore max s ↔ ∃ x, rv_delayed (view s) !! m = Some x ∧ x ≤ max;
  zrangebyscore_nodup : ∀ max s, NoDup (zrangebyscore max s);
  zrangebyscore_sorted : ∀ max s,
    Sorted Z.le (default 0 ∘ (rv_delayed (view s) !!.) <$> zrangebyscore max s);
  publish_view : ∀ m s,
    view (publish_msg m s) = with_published (rv_published (view s) ++ [m]) (view s);
  (** [XGROUP CREATE key g 0 MKSTREAM]; [None] is the BUSYGROUP error. *)
  xgroup_create_view : ∀ s,
    match xgroup_create s with
    | None => rv_group (view s) = true
    | Some s' => rv_group (view s) = false ∧ view s' = with_group true 0 [] (view s)
    end;
  xreadgroup_reply : ∀ c n now s, (xreadgroup c n now s).1 = new_entries n (view s);
  xreadgroup_view : ∀ c n now s,
    view (xreadgroup c n now s).2 = view_xreadgroup c n now (view s);
  (** Only claimable pending entries are transferred.  The list is scanned from its oldest
      entry, at most ten times [COUNT] entries of it; every claimable one counts, and so
      does one that is no longer in the stream. *)
  xautoclaim_sound : ∀ c idle n now s e,
    e ∈ (xautoclaim c idle n now s).1 →
    e ∈ rv_entries (view s) ∧
    ∃ p, p ∈ rv_pel (view s) ∧ pe_id p = e.1 ∧ claimable idle now (view s) p;
  xautoclaim_scans : ∀ c idle n now s l1 p l2,
    rv_pel (view s) = l1 ++ p :: l2 → claimable idle now (view s) p →
    Z.of_nat (length l1) < 10 * n →
    Z.of_nat (length (filter (counted idle now (view s)) l1)) < n →
    pe_id p ∈ (xautoclaim c idle n now s).1.*1;
  (** [COUNT]: at most that many. *)
  xautoclaim_count : ∀ c idle n now s,
    (length (xautoclaim c idle n now s).1 ≤ Z.to_nat n)%nat;
  xautoclaim_view : ∀ c idle n now s, ∃ gone : list Z,
    (∀ i, i ∈ gone → i ∉ (rv_entries (view s)).*1) ∧
    view (xautoclaim c idle n now s).2 =
      with_group (rv_group (view s)) (rv_read (view s))
        (reown c now (xautoclaim c idle n now s).1.*1 <$>
           filter (λ p, pe_id p ∉ gone) (rv_pel (view s))) (view s);
  xack_view : ∀ i s, view (xack i s) = view_xack i (view s);
  xdel_view : ∀ i s, view (xdel i s) = view_xdel i (view s)
}.

#[export] Hint Rewrite @zadd_view @zrem_view @publish_view @xreadgroup_view
  @xack_view @xdel_view : redis.

(** ** A reference server *)

Definition score_le (p q : string * Z) : Prop := p.2 ≤ q.2.
#[global] Instance score_le_dec : RelDecision score_le.
Proof. intros p q. unfold score_le. apply _. Defined.

Definition ref_due (max : Z) (v : RedisView) : list (string * Z) :=
  merge_sort score_le (filter (λ p, p.2 ≤ max) (map_to_list (rv_delayed v))).

Lemma length_omap_le {A B} (f : A → option B) l : (length (omap f l) ≤ length l)%nat.
Proof. induction l as [|x l IH]; csimpl; [done|]. destruct (f x); simpl; lia. Qed.

Definition ref_entry (v : RedisView) (p : PelEntry) : option (Z * gmap string string) :=
  head (filter (λ e, e.1 = pe_id p) (rv_entries v)).

Definition ref_claimed (min_idle count now : Z) (v : RedisView) : list (Z * gmap string string) :=
  omap (ref_entry v) (take (Z.to_nat count) (filter (claimable min_idle now v) (rv_pel v))).

Definition ref_xautoclaim (c : string) (min_idle count now : Z) (v : RedisView) :=
  let msgs := ref_claimed min_idle count now v in
  (msgs, with_group (rv_group v) (rv_read v) (reown c now msgs.*1 <$> rv_pel v) v).

Lemma elem_of_ref_due max v m :
  m ∈ (ref_due max v).*1 ↔ ∃ x, rv_delayed v !! m = Some x ∧ x ≤ max.
Proof.
  unfold ref_due. rewrite list_elem_of_fmap. split.
  - intros [[k x] [-> Hx]]. rewrite (merge_sort_Permutation _ _) in Hx.
    apply list_elem_of_filter in Hx as [Hle Hx].
    apply elem_of_map_to_list in Hx. eauto.
  - intros [x [Hx Hle]]. exists (m, x). split; [done|].
    rewrite (merge_sort_Permutation _ _). apply list_elem_of_filter.
    by rewrite elem_of_map_to_list.
Qed.

Lemma ref_due_lookup max v m x : (m, x) ∈ ref_due max v → rv_delayed v !! m = Some x.
Proof.
  unfold ref_due. rewrite (merge_sort_Permutation _ _). intros Hx.
  apply list_elem_of_filter in Hx as [_ Hx]. by apply elem_of_map_to_list in Hx.
Qed.

Lemma ref_due_nodup max v : NoDup (ref_due max v).*1.
Proof.
  unfold ref_due. rewrite (merge_sort_Permutation _ _).
  eapply sublist_NoDup; [apply (NoDup_fst_map_to_list (rv_delayed v))|].
  apply fmap_sublist, sublist_filter.
Qed.

Lemma ref_due_sorted max v :
  Sorted Z.le (default 0 ∘ (rv_delayed v !!.) <$> (ref_due max v).*1).
Proof.
  rewrite <- list_fmap_compose.
  rewrite (list_fmap_ext _ snd (ref_due max v)).
  - apply Sorted_fmap with (R1 := score_le); [done|].
    apply Sorted_merge_sort. intros p q. unfold score_le. lia.
  - intros i [m x] Hi. simpl.
    apply list_elem_of_lookup_2, ref_due_lookup in Hi. by rewrite Hi.
Qed.

Lemma length_filter_mono {A} (P Q : A → Prop) `{∀ x, Decision (P x)} `{∀ x, Decision (Q x)} (l : list A) :
  (∀ x, P x → Q x) → (length (filter P l) ≤ length (filter Q l))%nat.
Proof.
  intros HPQ. induction l as [|x l IH]; [done|]. destruct (decide (P x)) as [HP|HP].
  - rewrite !filter_cons_True by auto. simpl. lia.
  - rewrite filter_cons_False by done. rewrite filter_cons. case_decide; simpl; lia.
Qed.

Lemma ref_claimed_scans min_idle count now v l1 p l2 :
  rv_pel v = l1 ++ p :: l2 → claimable min_idle now v p →
  (length (filter (claimable min_idle now v) l1) < Z.to_nat count)%nat →
  pe_id p ∈ (ref_claimed min_idle count now v).*1.
Proof.
  intros Hpel Hc Hn. pose proof Hc as [_ Hin]. apply list_elem_of_fmap in Hin as [e [He Hin]].
  assert (∃ e', ref_entry v p = Some e' ∧ e'.1 = pe_id p) as (e' & Ee & Hid).
  { unfold ref_entry. destruct (filter (λ e, e.1 = pe_id p) (rv_entries v)) as [|e' l] eqn:El.
    - exfalso. apply (not_elem_of_nil e). rewrite <- El. by apply list_elem_of_filter.
    - exists e'. split; [done|].
      by assert (e' ∈ filter (λ e, e.1 = pe_id p) (rv_entries v)) as [<- _]%list_elem_of_filter
        by (rewrite El; set_solver). }
  rewrite <- Hid. apply list_elem_of_fmap_2, list_elem_of_omap. exists p. split; [|done].
  rewrite Hpel, filter_app, filter_cons_True by done.
  apply elem_of_take. eexists. split; [|exact Hn]. by apply list_lookup_middle.
Qed.

#[refine] Definition reference_redis : RedisServer := {|
  redis_state := RedisView;
  view v := v;
  xadd f v := (rv_top v + 1, view_xadd (rv_top v + 1) f v);
  zadd m x v := with_delayed (<[m := x]> (rv_delayed v)) v;
  zrem m v := with_delayed (delete m (rv_delayed v)) v;
  zrangebyscore max v := (ref_due max v).*1;
  publish_msg m v := with_published (rv_published v ++ [m]) v;
  xgroup_create v := if rv_group v then None else Some (with_group true 0 [] v);
  xreadgroup c n now v := (new_entries n v, view_xreadgroup c n now v);
  xautoclaim := ref_xautoclaim;
  xack := view_xack;
  xdel := view_xdel
|}.
Proof.
  - intros f s. simpl. split; [lia|done].
  - done.
  - done.
  - intros max s m. apply elem_of_ref_due.
  - intros max s. apply ref_due_nodup.
  - intros max s. apply ref_due_sorted.
  - done.
  - intros s. by destruct (rv_group s) eqn:E.
  - done.
  - done.
  - intros c idle n now s e He. simpl in *.
    apply list_elem_of_omap in He as (p & Hp & He).
    apply head_Some_elem_of, list_elem_of_filter in He as [Hid He]. split; [done|].
    apply elem_of_take in Hp as (i & Hi & _).
    apply list_elem_of_lookup_2, list_elem_of_filter in Hi as [Hc Hi]. eauto.
  - intros c idle n now s l1 p l2 Hpel Hc _ Hn. simpl. apply ref_claimed_scans with l1 l2; [done|done|].
    assert (length (filter (claimable idle now s) l1) ≤ length (filter (counted idle now s) l1))%nat; [|lia].
    apply length_filter_mono. by left.
  - intros c idle n now s. simpl. unfold ref_claimed. etrans; [apply length_omap_le|].
    apply firstn_le_length.
  - intros c idle n now s. exists []. split; [set_solver|]. simpl.
    f_equal. f_equal. symmetry. apply list_filter_id. set_solver.
  - done.
  - done.
Defined.
