(* ===== verification/Effects.v ===== *)
(** * Effects: exceptions, the shared world, transactions, processes

    Python code that may raise and that works on the database, on Redis, on the
    clock or on a log buffer is an [M] action: a function on the [World] that
    returns [Ok] or [Raise].  A SQLAlchemy session works on [w_db]; [commit]
    publishes it to [w_saved], what every other process sees, and [rollback]
    returns to it.  [w_faults] decides which of the coming commits and Redis
    commands fail.

    Code that runs beside other processes is a [prog]: a tree of atomic actions,
    each followed by a continuation that receives its result or its exception.
    [run] executes a program alone; [System] interleaves many. *)

From S2P Require Import Prelude PyBase Models RedisServer.

(** ** Exceptions and results *)

Inductive exn :=
  | IntegrityError
  | DataError                    (* a value its column cannot hold *)
  | DbError
  | RedisError
  | MultipleResultsFound
  | OverflowError
  | CronError
  | CancelledError
  | Diverged                     (* a loop exceeded the model's bound *)
  | KeyError (k : string)
  | TypeError
  | AttributeError
  | ValueError (msg : string)
  | CrudError (msg : string)
  | HTTPException (code : Z) (detail : string).

Inductive Res (A : Type) :=
  | Ok (a : A)
  | Raise (e : exn).
Arguments Ok {A} a.
Arguments Raise {A} e.

#[global] Instance Res_ret : MRet Res := λ A a, Ok a.
#[global] Instance Res_bind : MBind Res := λ A B f m,
  match m with Ok a => f a | Raise e => Raise e end.

#[global] Instance exn_eq_dec : EqDecision exn.
Proof. solve_decision. Defined.

(** ** PostgreSQL

    A [SELECT] without [ORDER BY] returns its rows in an order the server
    chooses. *)
Class Postgres := {
  heap_scan : ∀ {A : Type}, gmap Z A → list A;
  heap_scan_perm : ∀ {A : Type} (t : gmap Z A), heap_scan t ≡ₚ (map_to_list t).*2
}.

(** A server that scans a table in the order of the map. *)
Definition reference_pg : Postgres :=
  {| heap_scan A t := (map_to_list t).*2; heap_scan_perm A t := reflexivity _ |}.

(** ** The memory of a worker process *)

(** A task [handle(message_id, run_id, allow_running)]. *)
Record Task := {
  t_message : Z;
  t_run : Z;
  t_reclaim : bool
}.

(** The locals of [run] of worker/main.py: [inflight] by task number and
    [inflight_by_run]. *)
Record WorkerMem := {
  inflight : gmap Z Task;
  inflight_by_run : gmap Z Z;
  next_task : Z
}.

Definition empty_mem : WorkerMem :=
  {| inflight := ∅; inflight_by_run := ∅; next_task := 0 |}.

(** ** The world *)

Record World `{RedisServer} := {
  w_db : Db;                 (* what the open session sees *)
  w_saved : Db;              (* what is committed *)
  w_redis : redis_state;
  w_clock : Z;               (* now, in microseconds *)
  w_faults : list bool;      (* which of the next external calls fail *)
  w_bufs : gmap Z (list (LogStream * string));  (* LogBuffer objects in memory *)
  w_next_buf : Z;
  w_mem : gmap string WorkerMem     (* the workers' memories, by worker id *)
}.

Section world.
Context `{RedisServer}.

Definition with_db (d : Db) (w : World) : World :=
  {| w_db := d; w_saved := w_saved w; w_redis := w_redis w; w_clock := w_clock w;
     w_faults := w_faults w; w_bufs := w_bufs w; w_next_buf := w_next_buf w;
     w_mem := w_mem w |}.
Definition with_saved (d : Db) (w : World) : World :=
  {| w_db := w_db w; w_saved := d; w_redis := w_redis w; w_clock := w_clock w;
     w_faults := w_faults w; w_bufs := w_bufs w; w_next_buf := w_next_buf w;
     w_mem := w_mem w |}.
Definition with_redis (r : redis_state) (w : World) : World :=
  {| w_db := w_db w; w_saved := w_saved w; w_redis := r; w_clock := w_clock w;
     w_faults := w_faults w; w_bufs := w_bufs w; w_next_buf := w_next_buf w;
     w_mem := w_mem w |}.
Definition with_clock (t : Z) (w : World) : World :=
  {| w_db := w_db w; w_saved := w_saved w; w_redis := w_redis w; w_clock := t;
     w_faults := w_faults w; w_bufs := w_bufs w; w_next_buf := w_next_buf w;
     w_mem := w_mem w |}.
Definition with_faults (f : list bool) (w : World) : World :=
  {| w_db := w_db w; w_saved := w_saved w; w_redis := w_redis w; w_clock := w_clock w;
     w_faults := f; w_bufs := w_bufs w; w_next_buf := w_next_buf w;
     w_mem := w_mem w |}.
Definition with_bufs (b : gmap Z (list (LogStream * string))) (n : Z) (w : World) : World :=
  {| w_db := w_db w; w_saved := w_saved w; w_redis := w_redis w; w_clock := w_clock w;
     w_faults := w_faults w; w_bufs := b; w_next_buf := n;
     w_mem := w_mem w |}.
Definition with_mem (m : gmap string WorkerMem) (w : World) : World :=
  {| w_db := w_db w; w_saved := w_saved w; w_redis := w_redis w; w_clock := w_clock w;
     w_faults := w_faults w; w_bufs := w_bufs w; w_next_buf := w_next_buf w; w_mem := m |}.

(** Between transactions the session and the committed state agree. *)
Definition clean (w : World) : Prop := w_db w = w_saved w.

(** ** Actions *)

Definition M (A : Type) : Type := World → Res A * World.

#[global] Instance M_ret : MRet M := λ A a w, (Ok a, w).
#[global] Instance M_bind : MBind M := λ A B f m w,
  match m w with
  | (Ok a, w') => f a w'
  | (Raise e, w') => (Raise e, w')
  end.

Definition raise {A} (e : exn) : M A := λ w, (Raise e, w).

(** [try: m except e: h(e)] *)
Definition try_except {A} (m : M A) (h : exn → M A) : M A := λ w,
  match m w with
  | (Ok a, w') => (Ok a, w')
  | (Raise e, w') => h e w'
  end.

Fixpoint for_each {A} (l : list A) (f : A → M unit) : M unit :=
  match l with
  | [] => mret tt
  | x :: l => f x;; for_each l f
  end.

(** The outcome of a pure computation. *)
Definition lift {A} (r : Res A) : M A := λ w, (r, w).

Definition read {A} (f : World → A) : M A := λ w, (Ok (f w), w).
Definition modify_db (f : Db → Db) : M unit := λ w, (Ok tt, with_db (f (w_db w)) w).
Definition modify_redis (f : redis_state → redis_state) : M unit :=
  λ w, (Ok tt, with_redis (f (w_redis w)) w).

(** [datetime.now(timezone.utc)], [time.time()] *)
Definition utcnow : M Z := read w_clock.

(** An external call fails with [e] when the next fault says so. *)
Definition fault_point (e : exn) : M unit := λ w,
  match w_faults w with
  | [] => (Ok tt, w)
  | true :: fs => (Raise e, with_faults fs w)
  | false :: fs => (Ok tt, with_faults fs w)
  end.

(** [session.commit()]: the session's tables become the committed ones. *)
Definition save : M unit := λ w, (Ok tt, with_saved (w_db w) w).
Definition commit : M unit := fault_point DbError;; save.

(** [session.rollback()]: the tables return to the committed state; sequences do
    not. *)
Definition rollback : M unit := λ w,
  let d := keep_sequences (w_saved w) (w_db w) in
  (Ok tt, with_saved d (with_db d w)).

(** [db.session_scope]: commit on success, roll back and re-raise on error. *)
Definition session_scope {A} (body : M A) : M A :=
  try_except (a ← body; commit;; mret a) (λ e, rollback;; raise e).

(** [session.begin_nested()] around [body]; an exception rolls back to the
    savepoint and continues with [h]. *)
Definition savepoint {A} (body : M A) (h : exn → M A) : M A := λ w,
  match body w with
  | (Ok a, w') => (Ok a, w')
  | (Raise e, w') => h e (with_db (keep_sequences (w_db w) (w_db w')) w')
  end.

(** ** Programs *)

Inductive prog (A : Type) : Type :=
  | Ret (a : A)
  | Throw (e : exn)
  | Atomic (B : Type) (m : M B) (k : Res B → prog A).
Arguments Ret {A} a.
Arguments Throw {A} e.
Arguments Atomic {A} B m k.

#[global] Instance prog_ret : MRet prog := @Ret.
#[global] Instance prog_bind : MBind prog := λ A B f,
  fix go (p : prog A) : prog B :=
    match p with
    | Ret a => f a
    | Throw e => Throw e
    | Atomic C m k => Atomic C m (λ r, go (k r))
    end.

(** One atomic action; its exception is thrown. *)
Definition call {A} (m : M A) : prog A :=
  Atomic A m (λ r, match r with Ok a => Ret a | Raise e => Throw e end).

Fixpoint ptry {A} (p : prog A) (h : exn → prog A) : prog A :=
  match p with
  | Ret a => Ret a
  | Throw e => h e
  | Atomic C m k => Atomic C m (λ r, ptry (k r) h)
  end.

(** [try: p finally: f] *)
Definition pfinally {A} (p : prog A) (f : prog unit) : prog A :=
  a ← ptry p (λ e, f;; Throw e); f;; Ret a.

Fixpoint pfor_each {A} (l : list A) (f : A → prog unit) : prog unit :=
  match l with
  | [] => Ret tt
  | x :: l => f x;; pfor_each l f
  end.

(** A program executed without interference. *)
Fixpoint run {A} (p : prog A) : M A :=
  match p with
  | Ret a => mret a
  | Throw e => raise e
  | Atomic B m k => λ w, run (k (m w).1) (m w).2
  end.

(** Every atomic action of [p], under every outcome of the earlier ones,
    satisfies [P]. *)
Fixpoint prog_all (P : ∀ B, M B → Prop) {A} (p : prog A) : Prop :=
  match p with
  | Ret _ | Throw _ => True
  | Atomic B m k => P B m ∧ ∀ r, prog_all P (k r)
  end.

End world.

Arguments Ret {_ A} a.
Arguments Throw {_ A} e.
Arguments Atomic {_ A} B m k.

(** ** Two-state invariants

    A relation on databases that every action respects relates the committed
    states before and after any execution.  [R d d'] reads: if the tables are
    [d] at some moment, [d'] is a state they may be in later.  A rollback keeps
    the tables and moves the sequences, which the relation must allow. *)
Class DbRel (R : relation Db) : Prop := {
  dbrel_preorder :: PreOrder R;
  dbrel_rollback : ∀ d d', R d d' → R d (keep_sequences d d')
}.

Section respects.
Context `{RedisServer} (R : relation Db) `{!DbRel R}.

(** Started with a session ahead of the committed state, the action leaves the
    committed state ahead of where it was, and the session ahead of it. *)
Definition respects_at {A} (m : M A) (w : World) : Prop :=
  R (w_saved w) (w_db w) →
  R (w_saved w) (w_saved (m w).2) ∧ R (w_saved (m w).2) (w_db (m w).2).

Definition respects {A} (m : M A) : Prop := ∀ w, respects_at m w.

Lemma respects_at_bind {A B} (m : M A) (f : A → M B) w :
  respects_at m w →
  (∀ a w', m w = (Ok a, w') → respects_at (f a) w') →
  respects_at (m ≫= f) w.
Proof.
  intros Hm Hf Hw. specialize (Hm Hw). unfold mbind, M_bind.
  destruct (m w) as [[a|e] w'] eqn:E; simpl in *; [|done].
  destruct Hm as [H1 H2]. destruct (Hf a w' eq_refl H2) as [H3 H4].
  split; [etrans; [exact H1|exact H3]|exact H4].
Qed.

Lemma respects_bind {A B} (m : M A) (f : A → M B) :
  respects m → (∀ a, respects (f a)) → respects (m ≫= f).
Proof. intros Hm Hf w. apply respects_at_bind; [apply Hm|intros; apply Hf]. Qed.

(** What was read is known when the rest of the action runs. *)
Lemma respects_at_read {A B} (g : World → A) (f : A → M B) w :
  respects_at (f (g w)) w → respects_at (read g ≫= f) w.
Proof. done. Qed.

Lemma respects_ret {A} (a : A) : respects (mret a).
Proof. intros w Hw. by split. Qed.

Lemma respects_raise {A} e : respects (raise (A := A) e).
Proof. intros w Hw. by split. Qed.

Lemma respects_lift {A} (r : Res A) : respects (lift r).
Proof. intros w Hw. by split. Qed.

Lemma respects_read {A} (g : World → A) : respects (read g).
Proof. intros w Hw. by split. Qed.

Lemma respects_modify_redis g : respects (modify_redis g).
Proof. intros w Hw. by split. Qed.

Lemma respects_at_modify_db g w :
  R (w_db w) (g (w_db w)) → respects_at (modify_db g) w.
Proof. intros Hg Hw. simpl. split; [reflexivity|etrans; [exact Hw|done]]. Qed.

Lemma respects_fault_point e : respects (fault_point e).
Proof. intros w Hw. unfold fault_point. destruct (w_faults w) as [|[] fs]; by split. Qed.

Lemma respects_save : respects save.
Proof. intros w Hw. simpl. by split. Qed.

Lemma respects_commit : respects commit.
Proof. apply respects_bind; [apply respects_fault_point|intros _; apply respects_save]. Qed.

Lemma respects_rollback : respects rollback.
Proof. intros w Hw. simpl. split; [by apply dbrel_rollback|reflexivity]. Qed.

Lemma respects_try_except {A} (m : M A) h :
  respects m → (∀ e, respects (h e)) → respects (try_except m h).
Proof.
  intros Hm Hh w Hw. specialize (Hm w Hw). unfold try_except.
  destruct (m w) as [[a|e] w'] eqn:E; simpl in *; [done|].
  destruct Hm as [H1 H2]. destruct (Hh e w' H2) as [H3 H4]. split; [etrans; [exact H1|exact H3]|exact H4].
Qed.

Lemma respects_session_scope {A} (m : M A) : respects m → respects (session_scope m).
Proof.
  intros Hm. apply respects_try_except.
  - apply respects_bind; [done|]. intros a.
    apply respects_bind; [apply respects_commit|]. intros _. apply respects_ret.
  - intros e. apply respects_bind; [apply respects_rollback|]. intros _. apply respects_raise.
Qed.

(** An action that only moves the session forward. *)
Definition steps {A} (m : M A) : Prop :=
  ∀ w, w_saved (m w).2 = w_saved w ∧ R (w_db w) (w_db (m w).2).

Lemma steps_respects {A} (m : M A) : steps m → respects m.
Proof.
  intros Hm w Hw. destruct (Hm w) as [-> Hd]. split; [reflexivity|]. etrans; [exact Hw|done].
Qed.

Lemma steps_ret {A} (a : A) : steps (mret a).
Proof. intros w. by split. Qed.

Lemma steps_bind {A B} (m : M A) (f : A → M B) :
  steps m → (∀ a, steps (f a)) → steps (m ≫= f).
Proof.
  intros Hm Hf w. destruct (Hm w) as [Hs Hd]. unfold mbind, M_bind.
  destruct (m w) as [[a|e] w']; simpl in *; [|done].
  destruct (Hf a w') as [Hs' Hd']. split; [congruence|]. etrans; [exact Hd|done].
Qed.

Lemma steps_raise {A} e : steps (raise (A := A) e).
Proof. intros w. by split. Qed.

Lemma steps_lift {A} (r : Res A) : steps (lift r).
Proof. intros w. by split. Qed.

Lemma steps_read {A} (g : World → A) : steps (read g).
Proof. intros w. by split. Qed.

(** The savepoint's body does not commit, so it can be undone alone. *)
Lemma steps_savepoint {A} (m : M A) h :
  steps m → (∀ e, steps (h e)) → steps (savepoint m h).
Proof.
  intros Hm Hh w. destruct (Hm w) as [Hs Hd]. unfold savepoint.
  destruct (m w) as [[a|e] w']; simpl in *; [done|].
  destruct (Hh e (with_db (keep_sequences (w_db w) (w_db w')) w')) as [Hs' Hd'].
  split; [by rewrite Hs'|]. etrans; [by apply dbrel_rollback|done].
Qed.

Lemma respects_for_each {A} (l : list A) f :
  (∀ x, x ∈ l → respects (f x)) → respects (for_each l f).
Proof.
  induction l as [|x l IH]; intros Hf; simpl; [apply respects_ret|].
  apply respects_bind; [apply Hf; set_solver|]. intros _. apply IH. set_solver.
Qed.

(** Programs all of whose actions respect [R]. *)
Definition presp {A} (p : prog A) : Prop := prog_all (λ B m, respects m) p.

Lemma presp_ret {A} (a : A) : presp (Ret a).
Proof. done. Qed.

Lemma presp_mret {A} (a : A) : presp (mret a).
Proof. done. Qed.

Lemma presp_throw {A} e : presp (Throw (A := A) e).
Proof. done. Qed.

Lemma presp_call {A} (m : M A) : respects m → presp (call m).
Proof. intros Hm. split; [done|]. by intros [a|e]. Qed.

Lemma presp_bind {A B} (p : prog A) (f : A → prog B) :
  presp p → (∀ a, presp (f a)) → presp (p ≫= f).
Proof.
  intros Hp Hf. induction p as [a|e|C m k IH]; simpl; [apply Hf|done|].
  destruct Hp as [Hm Hk]. split; [done|]. intros r. apply IH, Hk.
Qed.

Lemma presp_try {A} (p : prog A) h : presp p → (∀ e, presp (h e)) → presp (ptry p h).
Proof.
  intros Hp Hh. induction p as [a|e|C m k IH]; simpl; [done|apply Hh|].
  destruct Hp as [Hm Hk]. split; [done|]. intros r. apply IH, Hk.
Qed.

Lemma presp_finally {A} (p : prog A) f : presp p → presp f → presp (pfinally p f).
Proof.
  intros Hp Hf. apply presp_bind; [apply presp_try; [done|]|].
  - intros e. by apply presp_bind.
  - intros a. by apply presp_bind.
Qed.

Lemma presp_for_each {A} (l : list A) f :
  (∀ x, x ∈ l → presp (f x)) → presp (pfor_each l f).
Proof.
  induction l as [|x l IH]; intros Hf; simpl; [done|].
  apply presp_bind; [apply Hf; set_solver|]. intros _. apply IH. set_solver.
Qed.

End respects.

#[export] Hint Resolve respects_ret respects_raise respects_lift respects_read respects_modify_redis
  respects_fault_point respects_commit respects_rollback respects_session_scope
  presp_ret presp_mret presp_throw presp_call presp_finally : respect.

#[export] Hint Extern 0 (DbRel _) => apply _ : respect.
#[export] Hint Resolve steps_ret steps_raise steps_lift steps_read : respect.
#[export] Hint Extern 3 (respects _ _) => apply steps_respects; [apply _|] : respect.

(** Walks through an action or a program, leaving the database writes. *)
Ltac respect_step :=
  first
    [ solve [eauto 3 with respect]
    | lazymatch goal with
      | |- respects _ (@mbind _ _ _ _ _ _) => apply respects_bind; [apply _| |intros ?]
      | |- respects _ (try_except _ _) => apply respects_try_except; [apply _| |intros ?]
      | |- respects _ (for_each _ _) => apply respects_for_each; [apply _|intros ? ?]
      | |- respects _ (session_scope _) => apply respects_session_scope; [apply _|]
      | |- presp _ (@mbind _ _ _ _ _ _) => apply presp_bind; [|intros ?]
      | |- presp _ (ptry _ _) => apply presp_try; [|intros ?]
      | |- presp _ (pfinally _ _) => apply presp_finally
      | |- presp _ (pfor_each _ _) => apply presp_for_each; [apply _|intros ? ?]
      | |- presp _ (call _) => apply presp_call
      end
    | case_match ].
Ltac respect := repeat respect_step.

(** ** Clean transactions *)
Section clean.
Context `{RedisServer}.

(** The action leaves no open transaction behind. *)
Definition tidy {A} (m : M A) : Prop := ∀ w, clean w → clean (m w).2.

Lemma session_scope_clean {A} (m : M A) w : clean (session_scope m w).2.
Proof.
  unfold session_scope, try_except, clean, mbind, M_bind.
  destruct (m w) as [[a|e] w1]; [|done].
  unfold commit, mbind, M_bind, fault_point. by destruct (w_faults w1) as [|[] ?].
Qed.

Lemma tidy_session_scope {A} (m : M A) : tidy (session_scope m).
Proof. intros w _. apply session_scope_clean. Qed.

Lemma tidy_ret {A} (a : A) : tidy (mret a).
Proof. by intros w Hw. Qed.

Lemma tidy_raise {A} e : tidy (raise (A := A) e).
Proof. by intros w Hw. Qed.

Lemma tidy_read {A} (g : World → A) : tidy (read g).
Proof. by intros w Hw. Qed.

Lemma tidy_modify_redis g : tidy (modify_redis g).
Proof. by intros w Hw. Qed.

Lemma tidy_fault_point e : tidy (fault_point e).
Proof. intros w Hw. unfold fault_point. by destruct (w_faults w) as [|[] ?]. Qed.

Lemma tidy_bind {A B} (m : M A) (f : A → M B) :
  tidy m → (∀ a, tidy (f a)) → tidy (m ≫= f).
Proof.
  intros Hm Hf w Hw. specialize (Hm w Hw). unfold mbind, M_bind.
  destruct (m w) as [[a|e] w']; simpl in *; [by apply Hf|done].
Qed.

Definition ptidy {A} (p : prog A) : Prop := prog_all (λ B m, tidy m) p.

Lemma ptidy_ret {A} (a : A) : ptidy (Ret a).
Proof. done. Qed.

Lemma ptidy_mret {A} (a : A) : ptidy (mret a).
Proof. done. Qed.

Lemma ptidy_throw {A} e : ptidy (Throw (A := A) e).
Proof. done. Qed.

Lemma ptidy_call {A} (m : M A) : tidy m → ptidy (call m).
Proof. intros Hm. split; [done|]. by intros [a|e]. Qed.

Lemma ptidy_bind {A B} (p : prog A) (f : A → prog B) :
  ptidy p → (∀ a, ptidy (f a)) → ptidy (p ≫= f).
Proof.
  intros Hp Hf. induction p as [a|e|C m k IH]; simpl; [apply Hf|done|].
  destruct Hp as [Hm Hk]. split; [done|]. intros r. apply IH, Hk.
Qed.

Lemma ptidy_try {A} (p : prog A) h : ptidy p → (∀ e, ptidy (h e)) → ptidy (ptry p h).
Proof.
  intros Hp Hh. induction p as [a|e|C m k IH]; simpl; [done|apply Hh|].
  destruct Hp as [Hm Hk]. split; [done|]. intros r. apply IH, Hk.
Qed.

Lemma ptidy_finally {A} (p : prog A) f : ptidy p → ptidy f → ptidy (pfinally p f).
Proof.
  intros Hp Hf. apply ptidy_bind; [apply ptidy_try; [done|]|].
  - intros e. by apply ptidy_bind.
  - intros a. by apply ptidy_bind.
Qed.

Lemma ptidy_for_each {A} (l : list A) f : (∀ x, ptidy (f x)) → ptidy (pfor_each l f).
Proof.
  intros Hf. induction l as [|x l IH]; simpl; [done|]. by apply ptidy_bind.
Qed.

End clean.

#[export] Hint Resolve tidy_session_scope tidy_ret tidy_raise tidy_read
  tidy_modify_redis tidy_fault_point ptidy_ret ptidy_mret ptidy_throw ptidy_call
  ptidy_finally : respect.

Ltac tidy_step :=
  first
    [ solve [eauto 3 with respect]
    | lazymatch goal with
      | |- tidy (@mbind _ _ _ _ _ _) => apply tidy_bind; [|intros ?]
      | |- ptidy (@mbind _ _ _ _ _ _) => apply ptidy_bind; [|intros ?]
      | |- ptidy (ptry _ _) => apply ptidy_try; [|intros ?]
      | |- ptidy (pfinally _ _) => apply ptidy_finally
      | |- ptidy (pfor_each _ _) => apply ptidy_for_each; intros ?
      | |- ptidy (call _) => apply ptidy_call
      end
    | case_match ].
Ltac tidy := repeat tidy_step.

(** ** Executing programs *)
Section run.
Context `{RedisServer}.

Lemma run_call {A} (m : M A) w : run (call m) w = m w.
Proof. unfold call. simpl. by destruct (m w) as [[a|e] w']. Qed.

Lemma run_bind {A B} (p : prog A) (f : A → prog B) w :
  run (p ≫= f) w = (run p ≫= λ a, run (f a)) w.
Proof.
  revert w. induction p as [a|e|C m k IH]; intros w; [done|done|].
  change (run (k (m w).1 ≫= f) (m w).2 = (run (k (m w).1) ≫= λ a, run (f a)) (m w).2).
  apply IH.
Qed.

Lemma run_try {A} (p : prog A) h w :
  run (ptry p h) w = try_except (run p) (λ e, run (h e)) w.
Proof.
  revert w. induction p as [a|e|C m k IH]; intros w; simpl; [done|done|].
  rewrite IH. done.
Qed.

(** What every action of a program respects, the program respects. *)
Lemma run_presp (R : relation Db) `{!DbRel R} {A} (p : prog A) w :
  presp R p → R (w_saved w) (w_db w) →
  R (w_saved w) (w_saved (run p w).2) ∧ R (w_saved (run p w).2) (w_db (run p w).2).
Proof.
  revert w. induction p as [a|e|C m k IH]; intros w Hp Hw; [by split..|].
  destruct Hp as [Hm Hk]. destruct (Hm w Hw) as [H1 H2].
  destruct (IH (m w).1 (m w).2 (Hk _) H2) as [H3 H4]. simpl. split; [by etrans|done].
Qed.

Lemma run_tidy {A} (p : prog A) w : ptidy p → clean w → clean (run p w).2.
Proof.
  revert w. induction p as [a|e|C m k IH]; intros w Hp Hw; [done..|].
  destruct Hp as [Hm Hk]. simpl. apply IH; [apply Hk|by apply Hm].
Qed.

(** Reading of a [bind] whose first action is known. *)
Lemma bind_ok {A B} (m : M A) (f : A → M B) w a w' :
  m w = (Ok a, w') → (m ≫= f) w = f a w'.
Proof. intros E. unfold mbind, M_bind. by rewrite E. Qed.

Lemma bind_raise {A B} (m : M A) (f : A → M B) w e w' :
  m w = (Raise e, w') → (m ≫= f) w = (Raise e, w').
Proof. intros E. unfold mbind, M_bind. by rewrite E. Qed.

(** A transaction that raises changes no table. *)
Lemma session_scope_raise_tables {A} (m : M A) w e w' :
  (∀ w0, w_saved (m w0).2 = w_saved w0) →
  session_scope m w = (Raise e, w') →
  w_saved w' = keep_sequences (w_saved w) (w_saved w').
Proof.
  intros Hm. specialize (Hm w). unfold session_scope, try_except, raise, mbind, M_bind.
  destruct (m w) as [[a|e'] w1]; simpl in *.
  - unfold commit, mbind, M_bind, fault_point.
    destruct (w_faults w1) as [|[] ?]; intros; simplify_eq/=; by rewrite <- Hm.
  - intros; simplify_eq/=. by rewrite <- Hm.
Qed.

Lemma session_scope_ok {A} (m : M A) w a w1 :
  m w = (Ok a, w1) → (∀ f fs, w_faults w1 = f :: fs → f = false) →
  session_scope m w =
    (Ok a, with_saved (w_db w1) (with_faults (tail (w_faults w1)) w1)).
Proof.
  intros E Hf. unfold session_scope, try_except, commit, mbind, M_bind, fault_point.
  rewrite E. destruct (w_faults w1) as [|f fs] eqn:Ew.
  - simpl. by destruct w1; simpl in *; subst.
  - by rewrite (Hf f fs eq_refl).
Qed.

(** A program whose first action is known. *)
Lemma run_step {A B} (m : M A) (f : A → prog B) w a w' :
  m w = (Ok a, w') → run (call m ≫= f) w = run (f a) w'.
Proof. intros E. rewrite run_bind. by erewrite bind_ok by (by rewrite run_call). Qed.

Lemma run_then {A B} (p : prog A) (f : A → prog B) w a w' :
  run p w = (Ok a, w') → run (p ≫= f) w = run (f a) w'.
Proof. intros E. rewrite run_bind. by erewrite bind_ok. Qed.

(** [finally] runs after the block, whatever its outcome. *)
Lemma run_finally {A} (p : prog A) f w o w1 w2 :
  run p w = (o, w1) → run f w1 = (Ok tt, w2) → run (pfinally p f) w = (o, w2).
Proof.
  intros Ep Ef. unfold pfinally. rewrite run_bind. unfold mbind at 1, M_bind at 1.
  rewrite run_try. unfold try_except. rewrite Ep. destruct o as [a|e].
  - rewrite run_bind. by rewrite (bind_ok _ _ _ _ _ Ef).
  - rewrite run_bind. by rewrite (bind_ok _ _ _ _ _ Ef).
Qed.

(** Without faults the transaction commits. *)
Lemma session_scope_quiet {A} (m : M A) w a w1 :
  m w = (Ok a, w1) → w_faults w1 = [] →
  session_scope m w = (Ok a, with_saved (w_db w1) w1).
Proof.
  intros E Hf. rewrite (session_scope_ok m w a w1 E) by (rewrite Hf; done).
  rewrite Hf. simpl. by destruct w1; simpl in *; subst.
Qed.

(** A transaction that returns has run its body and committed it. *)
Lemma session_scope_inv {A} (m : M A) w a w' :
  session_scope m w = (Ok a, w') →
  ∃ w1, m w = (Ok a, w1) ∧ w_db w' = w_db w1 ∧ w_saved w' = w_db w1 ∧
    w_redis w' = w_redis w1 ∧ w_clock w' = w_clock w1.
Proof.
  unfold session_scope, try_except, commit, raise, mbind, M_bind, fault_point.
  destruct (m w) as [[a1|e] w1]; [|done]. intros E. exists w1.
  destruct (w_faults w1) as [|[] fs]; simplify_eq/=; done.
Qed.

End run.
