(* ===== verification/Database.v ===== *)
(** * The tables as the sources use them

    The SQL statements the sources issue, as actions on the session, with the
    constraints the schema declares ([models.py], migrations 0001 and 0003), and
    the relation [evolves] that every one of them but [set_run_status] respects: rows
    keep their identity, runs only move forward in their life cycle, and the schema's
    constraints are never broken.  [persists] is what is left of it when a run may be put
    back into the queue. *)

From S2P Require Import Prelude PyBase Models RedisServer Effects.

(** ** Statements *)

(** [if f is not None: stmt = stmt.where(column == f)] *)
Definition where_opt {A} (f : option A) (x : A) : Prop :=
  match f with None => True | Some v => x = v end.
#[global] Instance where_opt_dec {A} `{EqDecision A} (f : option A) x : Decision (where_opt f x).
Proof. destruct f; simpl; apply _. Defined.

Section sql.
Context `{RedisServer, Postgres}.

(** A text bound as a parameter. *)
Definition bind_text (s : string) : M unit :=
  if text_ok s then mret tt else raise DataError.

(** An integer compared with the key of the table [t]: one beyond [BIGINT] is refused;
    the keys that are stored are [BIGINT]s. *)
Definition bigint {A} (t : gmap Z A) (i : Z) : bool := in_width 64 i || bool_decide (is_Some (t !! i)).
Definition bind_id {A} (table : Db → gmap Z A) (i : Z) : M unit :=
  ok ← read (λ w, bigint (table (w_db w)) i);
  if (ok : bool) then mret tt else raise DataError.

(** [OFFSET] is cast to [INTEGER]. *)
Definition bind_offset (n : Z) : M unit :=
  if in_width 32 n then mret tt else raise DataError.

(** [SELECT ... WHERE P], in the order the server chooses. *)
Definition select_jobs (P : Job → Prop) `{∀ j, Decision (P j)} : M (list Job) :=
  read (λ w, filter P (heap_scan (jobs (w_db w)))).
Definition select_deps (P : JobDependency → Prop) `{∀ d, Decision (P d)} : M (list JobDependency) :=
  read (λ w, filter P (heap_scan (deps (w_db w)))).
Definition select_runs (P : JobRun → Prop) `{∀ r, Decision (P r)} : M (list JobRun) :=
  read (λ w, filter P (heap_scan (runs (w_db w)))).
Definition select_logs (P : JobRunLog → Prop) `{∀ l, Decision (P l)} : M (list JobRunLog) :=
  read (λ w, filter P (heap_scan (logs (w_db w)))).
Definition select_users (P : User → Prop) `{∀ u, Decision (P u)} : M (list User) :=
  read (λ w, filter P (heap_scan (users (w_db w)))).

(** [session.get(Job, id)], [session.get(JobRun, id)], [session.get(User, id)] *)
Definition get_job_row (i : Z) : M (option Job) := read (λ w, jobs (w_db w) !! i).
Definition get_run_row (i : Z) : M (option JobRun) := read (λ w, runs (w_db w) !! i).
Definition get_user_row (i : Z) : M (option User) := read (λ w, users (w_db w) !! i).

(** [ORDER BY created_at, id] on runs. *)
Definition created_before (r r' : JobRun) : Prop :=
  run_created_at r < run_created_at r' ∨
  run_created_at r = run_created_at r' ∧ run_id r ≤ run_id r'.
#[global] Instance created_before_dec : RelDecision created_before.
Proof. intros r r'. unfold created_before. apply _. Defined.

#[global] Instance created_before_total : Total created_before.
Proof. intros r r'. unfold created_before. lia. Qed.
#[global] Instance created_before_trans : Transitive created_before.
Proof. intros r1 r2 r3. unfold created_before. lia. Qed.

(** [ORDER BY ts, id] on log rows. *)
Definition logged_before (l l' : JobRunLog) : Prop :=
  ts l < ts l' ∨ ts l = ts l' ∧ log_id l ≤ log_id l'.
#[global] Instance logged_before_dec : RelDecision logged_before.
Proof. intros l l'. unfold logged_before. apply _. Defined.

(** [select(JobRunLog).where(run_id == i).order_by(ts, id)] *)
Definition select_run_logs (i : Z) : M (list JobRunLog) :=
  rows ← select_logs (λ l, log_run_id l = i); mret (merge_sort logged_before rows).

(** [Result.scalar_one_or_none()] *)
Definition scalar_one_or_none {A} (l : list A) : M (option A) :=
  match l with
  | [] => mret None
  | [x] => mret (Some x)
  | _ => raise MultipleResultsFound
  end.

(** Whether a run of this job already holds the tick [s]
    ([uq_job_run_tick]; NULLs never collide). *)
Definition tick_free (d : Db) (j : Z) (s : option Z) : Prop :=
  match s with
  | None => True
  | Some t => map_Forall (λ _ r, ¬ (run_job_id r = j ∧ scheduled_for r = Some t)) (runs d)
  end.
#[global] Instance tick_free_dec d j s : Decision (tick_free d j s).
Proof. destruct s; simpl; apply _. Defined.

(** The row [JobRun(...)] gets when it is flushed. *)
Definition new_run (i j : Z) (tt : TriggerType) (st : RunStatus) (att : Z)
    (s : option Z) (now : Z) : JobRun :=
  {| run_id := i; run_job_id := j; trigger_type := tt; status := st; attempt := att;
     scheduled_for := s; started_at := None; finished_at := None; exit_code := None;
     result := None; error := None; worker_id := None; run_created_at := now |}.

(** [session.add(JobRun(...)); session.flush()] *)
Definition insert_run (j : Z) (tt : TriggerType) (st : RunStatus) (att : Z)
    (s : option Z) : M JobRun := λ w,
  let d := w_db w in
  let r := new_run (runs_seq d) j tt st att s (w_clock w) in
  if decide (is_Some (jobs d !! j) ∧ tick_free d j s)
  then (Ok r, with_db (with_runs (<[run_id r := r]> (runs d)) (next_runs d)) w)
  else (Raise IntegrityError, with_db (next_runs d) w).

(** [UPDATE job_runs SET f WHERE P]; the result is the row count. *)
Definition update_runs (P : JobRun → Prop) `{∀ r, Decision (P r)}
    (f : JobRun → JobRun) : M Z := λ w,
  let d := w_db w in
  (Ok (Z.of_nat (length (filter P (map_to_list (runs d)).*2))),
   with_db (with_runs ((λ r, if decide (P r) then f r else r) <$> runs d) d) w).

(** [run.status = st], flushed: the row is addressed by its primary key. *)
Definition set_run_status (i : Z) (st : RunStatus) : M unit := λ w,
  let d := w_db w in
  (Ok tt, with_db (with_runs (alter (set_status st) i (runs d)) d) w).

(** [job.last_scheduled_for = t], flushed with [onupdate=utcnow]. *)
Definition touch_job (i t : Z) : M unit := λ w,
  let d := w_db w in
  (Ok tt, with_db (with_jobs
     (alter (λ j, set_job_updated_at (w_clock w) (set_last_scheduled_for t j)) i (jobs d)) d) w).

(** [INSERT INTO job_run_logs] of one row. *)
Definition insert_log (r : Z) (s : LogStream) (l : string) : M unit := λ w,
  let d := w_db w in
  let row := {| log_id := logs_seq d; log_run_id := r; ts := w_clock w; stream := s; line := l |} in
  if negb (text_ok l) then (Raise DataError, w)
  else if decide (is_Some (runs d !! r))
  then (Ok tt, with_db (with_logs (<[log_id row := row]> (logs d)) (next_logs d)) w)
  else (Raise IntegrityError, with_db (next_logs d) w).

(** [session.add(JobDependency(...))]: [uq_job_dependency] and both foreign keys. *)
Definition dep_free (d : Db) (j p : Z) : Prop :=
  map_Forall (λ _ e, ¬ (dep_job_id e = j ∧ depends_on_job_id e = p)) (deps d).
Definition insert_dep (j p : Z) : M unit := λ w,
  let d := w_db w in
  let row := {| dep_id := deps_seq d; dep_job_id := j; depends_on_job_id := p |} in
  if decide (is_Some (jobs d !! j) ∧ is_Some (jobs d !! p) ∧ dep_free d j p)
  then (Ok tt, with_db (with_deps (<[dep_id row := row]> (deps d)) (next_deps d)) w)
  else (Raise IntegrityError, with_db (next_deps d) w).

(** [DELETE FROM job_dependencies WHERE job_id = j] *)
Definition delete_deps_of (j : Z) : M unit := λ w,
  let d := w_db w in
  (Ok tt, with_db (with_deps (filter (λ e, dep_job_id e.2 ≠ j) (deps d)) d) w).

(** The value of a column that is assigned [x]; one that has the value already is not in
    the statement. *)
Definition assign {A} `{EqDecision A} (store : A → option A) (old : option A) (x : A) : option A :=
  if decide (old = Some x) then Some x else store x.
Definition checked {A} (f : A → bool) (x : A) : option A := if f x then Some x else None.

(** The row of [jobs] that holds the values of [j] ([None]: one of them does not fit its
    column), in place of the row [old]. *)
Definition stored_job (old : option Job) (j : Job) : option Job :=
  nm ← assign (varchar 255) (name <$> old) (name j);
  ds ← assign (checked (opt_ok text_ok)) (description <$> old) (description j);
  cat ← assign (varchar_opt 64) (category <$> old) (category j);
  tt ← assign (varchar 32) (task_type <$> old) (task_type j);
  sp ← assign (checked (json_ok ∘ JObj)) (task_spec <$> old) (task_spec j);
  st ← assign (varchar 16) (schedule_type <$> old) (schedule_type j);
  se ← assign (varchar_opt 255) (schedule_expr <$> old) (schedule_expr j);
  tz ← assign (varchar 64) (timezone <$> old) (timezone j);
  Some {| job_id := job_id j; owner_user_id := owner_user_id j; name := nm; description := ds;
          category := cat; task_type := tt; task_spec := sp; schedule_type := st;
          schedule_expr := se; timezone := tz; enabled := enabled j; max_retries := max_retries j;
          retry_backoff_sec := retry_backoff_sec j; timeout_sec := timeout_sec j;
          last_scheduled_for := last_scheduled_for j; job_created_at := job_created_at j;
          job_updated_at := job_updated_at j |}.

(** [session.add(Job(...)); session.flush()]: the values fit, the owner exists and
    [uq_jobs_owner_name] holds (a job without owner never collides). *)
Definition name_free (d : Db) (o : option Z) (n : string) : Prop :=
  match o with
  | None => True
  | Some u => map_Forall (λ _ j, ¬ (owner_user_id j = Some u ∧ name j = n)) (jobs d)
  end.
#[global] Instance name_free_dec d o n : Decision (name_free d o n).
Proof. destruct o; simpl; apply _. Defined.
Definition owner_ok (d : Db) (o : option Z) : Prop :=
  match o with None => True | Some u => is_Some (users d !! u) end.
#[global] Instance owner_ok_dec d o : Decision (owner_ok d o).
Proof. destruct o; simpl; apply _. Defined.
Definition insert_job (mk : Z → Job) : M Job := λ w,
  let d := w_db w in
  match stored_job None (mk (jobs_seq d)) with
  | None => (Raise DataError, w)
  | Some j =>
      if decide (owner_ok d (owner_user_id j) ∧ name_free d (owner_user_id j) (name j))
      then (Ok j, with_db (with_jobs (<[jobs_seq d := j]> (jobs d)) (next_jobs d)) w)
      else (Raise IntegrityError, with_db (next_jobs d) w)
  end.

(** Assignments to the columns of one job, flushed with [onupdate=utcnow]; a row
    without a net change is not written. *)
Definition update_job_row (i : Z) (f : Job → Job) : M unit := λ w,
  let d := w_db w in
  match jobs d !! i with
  | None => (Raise DbError, w)
  | Some j =>
      if decide (f j = j) then (Ok tt, w)
      else match stored_job (Some j) (f j) with
      | None => (Raise DataError, w)
      | Some j' => (Ok tt, with_db (with_jobs (<[i := set_job_updated_at (w_clock w) j']> (jobs d)) d) w)
      end
  end.

(** [session.add(User(...)); session.commit()]: unique name, unique address. *)
Definition user_free (d : Db) (n : string) (e : option string) : Prop :=
  map_Forall (λ _ u, username u ≠ n ∧ (e = None ∨ email u ≠ e)) (users d).
Definition insert_user (mk : Z → User) : M User := λ w,
  let d := w_db w in
  let u := mk (users_seq d) in
  if decide (user_free d (username u) (email u))
  then (Ok u, with_db (with_users (<[users_seq d := u]> (users d)) (next_users d)) w)
  else (Raise IntegrityError, with_db (next_users d) w).

(** [session.delete(job)]: the ORM's [all, delete-orphan] cascades and the
    schema's [ON DELETE CASCADE] remove the job's runs, their logs and every
    dependency that names the job. *)
Definition delete_job_row (i : Z) : M unit := λ w,
  let d := w_db w in
  let runs' := filter (λ e, run_job_id e.2 ≠ i) (runs d) in
  (Ok tt, with_db (with_jobs (delete i (jobs d))
     (with_deps (filter (λ e, dep_job_id e.2 ≠ i ∧ depends_on_job_id e.2 ≠ i) (deps d))
     (with_runs runs'
     (with_logs (filter (λ e, is_Some (runs' !! log_run_id e.2)) (logs d)) d)))) w).

End sql.

(** ** Table scans *)

Lemma elem_of_select {A} `{Postgres} (P : A → Prop) `{∀ x, Decision (P x)} (t : gmap Z A) x :
  x ∈ filter P (heap_scan t) ↔ ∃ k, t !! k = Some x ∧ P x.
Proof. rewrite (heap_scan_perm t). apply map_to_list_snd_filter. Qed.

(** Rows scanned from a table whose key column holds the key are distinct. *)
Lemma select_keys_nodup {A} `{Postgres} (key : A → Z) (P : A → Prop) `{∀ x, Decision (P x)}
    (t : gmap Z A) :
  (∀ k x, t !! k = Some x → key x = k) → NoDup (key <$> filter P (heap_scan t)).
Proof.
  intros Hkey. eapply sublist_NoDup; [|apply fmap_sublist, sublist_filter].
  rewrite (heap_scan_perm t). replace (key <$> (map_to_list t).*2) with (map_to_list t).*1.
  - apply NoDup_fst_map_to_list.
  - rewrite <- list_fmap_compose. apply list_fmap_ext. intros i [k x] Hi. simpl.
    apply list_elem_of_lookup_2, elem_of_map_to_list in Hi. symmetry. by apply Hkey.
Qed.

(** A condition on the key selects at most one row. *)
Lemma select_key {A} `{Postgres} (key : A → Z) (Q : A → Prop) `{∀ x, Decision (Q x)}
    (t : gmap Z A) i :
  (∀ k x, t !! k = Some x → key x = k) →
  filter (λ x, key x = i ∧ Q x) (heap_scan t) =
    match t !! i with Some x => if decide (Q x) then [x] else [] | None => [] end.
Proof.
  intros Hkey.
  assert (∀ x, x ∈ filter (λ x, key x = i ∧ Q x) (heap_scan t) ↔ t !! i = Some x ∧ Q x) as Hin.
  { intros x. rewrite elem_of_select. split.
    - intros (k & Hk & Hi & HQ). by rewrite <- Hi, (Hkey _ _ Hk).
    - intros [Hi HQ]. exists i. by rewrite (Hkey _ _ Hi). }
  pose proof (select_keys_nodup key (λ x, key x = i ∧ Q x) t Hkey) as Hnd.
  destruct (filter _ (heap_scan t)) as [|x l] eqn:E.
  - destruct (t !! i) as [x|] eqn:Hi; [|done]. case_decide; [|done].
    exfalso. by apply (not_elem_of_nil x), Hin.
  - destruct (proj1 (Hin x)) as [Hi HQ]; [set_solver|]. rewrite Hi, decide_True by done.
    destruct l as [|y l]; [done|]. exfalso.
    destruct (proj1 (Hin y)) as [Hi' _]; [set_solver|]. simplify_eq.
    apply NoDup_cons in Hnd as [Hn _]. simpl in Hn. set_solver.
Qed.

(** ** The life cycle of a run *)

(** One constructor per statement that changes a status. *)
Inductive status_step : RunStatus → RunStatus → Prop :=
  | step_promote : status_step PENDING QUEUED            (* create_dependency_run *)
  | step_claim_pending : status_step PENDING RUNNING     (* claim_run *)
  | step_claim_queued : status_step QUEUED RUNNING       (* claim_run *)
  | step_reclaim : status_step RUNNING RUNNING           (* claim_run, allow_running *)
  | step_cancel s : s ∈ [PENDING; QUEUED; RUNNING] → status_step s CANCELED  (* cancel_run *)
  | step_finish s s' : s ∈ [RUNNING; SUCCEEDED; FAILED; TIMED_OUT] →
      s' ∈ [SUCCEEDED; FAILED; TIMED_OUT] → status_step s s'.                (* finish_run *)

Definition reaches (s s' : RunStatus) : Prop :=
  match s with
  | PENDING => True
  | QUEUED => s' ≠ PENDING
  | RUNNING => s' ≠ PENDING ∧ s' ≠ QUEUED
  | CANCELED => s' = CANCELED
  | _ => s' = SUCCEEDED ∨ s' = FAILED ∨ s' = TIMED_OUT
  end.

(** What a row of [job_runs] may become: its identity is fixed, its status moves
    along the life cycle, a canceled row is frozen. *)
Record run_evolves (r r' : JobRun) : Prop := {
  ev_id : run_id r' = run_id r;
  ev_job : run_job_id r' = run_job_id r;
  ev_trigger : trigger_type r' = trigger_type r;
  ev_attempt : attempt r' = attempt r;
  ev_tick : scheduled_for r' = scheduled_for r;
  ev_created : run_created_at r' = run_created_at r;
  ev_status : reaches (status r) (status r');
  ev_canceled : status r = CANCELED → r' = r;
  ev_plain : plain_result (result r) → plain_result (result r')
}.

(** What a row keeps even when it is put back into the queue. *)
Record run_persists (r r' : JobRun) : Prop := {
  rk_id : run_id r' = run_id r;
  rk_job : run_job_id r' = run_job_id r;
  rk_trigger : trigger_type r' = trigger_type r;
  rk_attempt : attempt r' = attempt r;
  rk_tick : scheduled_for r' = scheduled_for r;
  rk_created : run_created_at r' = run_created_at r;
  rk_pending : status r' = PENDING → status r = PENDING;
  rk_plain : plain_result (result r) → plain_result (result r')
}.

(** The rows that were there are related by [R]; rows that are gone stay gone: their
    numbers are never handed out again. *)
Definition rows_related (R : relation JobRun) (d d' : Db) : Prop :=
  ∀ i, i < runs_seq d →
    match runs d !! i, runs d' !! i with
    | Some r, Some r' => R r r'
    | None, Some _ => False
    | _, None => True
    end.
Definition lifecycle : relation Db := rows_related run_evolves.

(** ** The schema *)

Record seqs_le (d d' : Db) : Prop := {
  sle_users : users_seq d ≤ users_seq d';
  sle_jobs : jobs_seq d ≤ jobs_seq d';
  sle_deps : deps_seq d ≤ deps_seq d';
  sle_runs : runs_seq d ≤ runs_seq d';
  sle_logs : logs_seq d ≤ logs_seq d'
}.

(** Primary keys, foreign keys and unique constraints. *)
Record db_wf (d : Db) : Prop := {
  wf_user_key : ∀ i u, users d !! i = Some u → user_id u = i ∧ i < users_seq d;
  wf_job_key : ∀ i j, jobs d !! i = Some j → job_id j = i ∧ i < jobs_seq d;
  wf_dep_key : ∀ i e, deps d !! i = Some e → dep_id e = i ∧ i < deps_seq d;
  wf_run_key : ∀ i r, runs d !! i = Some r → run_id r = i ∧ i < runs_seq d;
  wf_log_key : ∀ i l, logs d !! i = Some l → log_id l = i ∧ i < logs_seq d;
  wf_job_owner : ∀ i j, jobs d !! i = Some j → owner_ok d (owner_user_id j);
  wf_dep_job : ∀ i e, deps d !! i = Some e →
    is_Some (jobs d !! dep_job_id e) ∧ is_Some (jobs d !! depends_on_job_id e);
  wf_run_job : ∀ i r, runs d !! i = Some r → is_Some (jobs d !! run_job_id r);
  wf_log_run : ∀ i l, logs d !! i = Some l → is_Some (runs d !! log_run_id l);
  wf_job_name : ∀ i i' j j' u, jobs d !! i = Some j → jobs d !! i' = Some j' →
    owner_user_id j = Some u → owner_user_id j' = Some u → name j = name j' → i = i';
  wf_dep_unique : ∀ i i' e e', deps d !! i = Some e → deps d !! i' = Some e' →
    dep_job_id e = dep_job_id e' → depends_on_job_id e = depends_on_job_id e' → i = i';
  wf_tick : ∀ i i' r r' t, runs d !! i = Some r → runs d !! i' = Some r' →
    run_job_id r = run_job_id r' →
    scheduled_for r = Some t → scheduled_for r' = Some t → i = i';
  wf_username : ∀ i i' u u', users d !! i = Some u → users d !! i' = Some u' →
    username u = username u' → i = i';
  wf_email : ∀ i i' u u' e, users d !! i = Some u → users d !! i' = Some u' →
    email u = Some e → email u' = Some e → i = i'
}.

(** Every stored result has the type the table declares, [dict | None]. *)
Definition results_plain (d : Db) : Prop := ∀ i r, runs d !! i = Some r → plain_result (result r).

(** What the tables may become: sequences grow and, from tables that satisfy the
    constraints, runs move forward, the constraints keep holding and results keep their
    type. *)
Record evolves (d d' : Db) : Prop := {
  ev_seqs : seqs_le d d';
  ev_runs : db_wf d → lifecycle d d';
  ev_wf : db_wf d → db_wf d';
  ev_results : db_wf d → results_plain d → results_plain d'
}.

(** The same without the life cycle. *)
Record persists (d d' : Db) : Prop := {
  ps_seqs : seqs_le d d';
  ps_runs : db_wf d → rows_related run_persists d d';
  ps_wf : db_wf d → db_wf d';
  ps_results : db_wf d → results_plain d → results_plain d'
}.

(** ** Properties of the life cycle *)

Lemma status_step_reaches s s' : status_step s s' → reaches s s'.
Proof. destruct 1; simpl; set_solver. Qed.

#[global] Instance reaches_preorder : PreOrder reaches.
Proof.
  split.
  - intros []; simpl; auto.
  - intros [] [] []; simpl; intuition congruence.
Qed.

(** [reaches] is the reflexive transitive closure of the single steps. *)
Lemma reaches_rtc s s' : reaches s s' ↔ rtc status_step s s'.
Proof.
  split.
  - assert (∀ s', s' ∈ [SUCCEEDED; FAILED; TIMED_OUT] → rtc status_step RUNNING s') as Hfin.
    { intros t Ht. apply rtc_once, step_finish; [set_solver|done]. }
    assert (rtc status_step RUNNING CANCELED) as Hcan by (apply rtc_once, step_cancel; set_solver).
    destruct s, s'; simpl; intros Hr; try (exfalso; intuition congruence); try reflexivity;
      try (apply rtc_once; constructor; set_solver);
      try (eapply rtc_l; [apply step_claim_pending|apply Hfin; set_solver]);
      try (eapply rtc_l; [apply step_claim_queued|apply Hfin; set_solver]).
  - induction 1 as [|s1 s2 s3 Hs _ IH]; [reflexivity|].
    etrans; [by apply status_step_reaches|done].
Qed.

#[global] Instance run_evolves_preorder : PreOrder run_evolves.
Proof.
  split.
  - intros r. by split.
  - intros r1 r2 r3 H1 H2. split.
    + by rewrite (ev_id _ _ H2), (ev_id _ _ H1).
    + by rewrite (ev_job _ _ H2), (ev_job _ _ H1).
    + by rewrite (ev_trigger _ _ H2), (ev_trigger _ _ H1).
    + by rewrite (ev_attempt _ _ H2), (ev_attempt _ _ H1).
    + by rewrite (ev_tick _ _ H2), (ev_tick _ _ H1).
    + by rewrite (ev_created _ _ H2), (ev_created _ _ H1).
    + etrans; [apply (ev_status _ _ H1)|apply (ev_status _ _ H2)].
    + intros Hc. pose proof (ev_canceled _ _ H1 Hc) as ->. by apply (ev_canceled _ _ H2).
    + intros Hp. by apply (ev_plain _ _ H2), (ev_plain _ _ H1).
Qed.

#[global] Instance seqs_le_preorder : PreOrder seqs_le.
Proof.
  split.
  - intros d. split; lia.
  - intros d1 d2 d3 [] []. split; lia.
Qed.

Lemma reaches_pending s s' : reaches s s' → s' = PENDING → s = PENDING.
Proof. destruct s; simpl; intuition congruence. Qed.

Lemma run_evolves_persists r r' : run_evolves r r' → run_persists r r'.
Proof. intros []. split; try done. by apply reaches_pending. Qed.

#[global] Instance run_persists_preorder : PreOrder run_persists.
Proof.
  split.
  - intros r. by split.
  - intros r1 r2 r3 [] []. split; try congruence; auto.
Qed.

Section related.
Context (R : relation JobRun) `{!PreOrder R}.

Lemma rows_related_refl d : rows_related R d d.
Proof. intros i _. destruct (runs d !! i); [reflexivity|done]. Qed.

Lemma rows_related_trans d1 d2 d3 :
  runs_seq d1 ≤ runs_seq d2 → rows_related R d1 d2 → rows_related R d2 d3 → rows_related R d1 d3.
Proof.
  intros Hle H1 H2 i Hi. specialize (H1 i Hi). specialize (H2 i ltac:(lia)).
  destruct (runs d1 !! i), (runs d2 !! i), (runs d3 !! i); try done.
  by etrans.
Qed.

Lemma rows_related_runs_eq d d' : runs d' = runs d → rows_related R d d'.
Proof. intros E i _. rewrite E. destruct (runs d !! i); [reflexivity|done]. Qed.

End related.

Lemma lifecycle_runs_eq d d' : runs d' = runs d → lifecycle d d'.
Proof. apply rows_related_runs_eq, _. Qed.

Lemma evolves_persists d d' : evolves d d' → persists d d'.
Proof.
  intros [S L W P]. split; [done| |done|done]. intros Wd i Hi. specialize (L Wd i Hi).
  destruct (runs d !! i), (runs d' !! i); try done. by apply run_evolves_persists.
Qed.

#[global] Instance evolves_preorder : PreOrder evolves.
Proof.
  split.
  - intros d. split; [reflexivity|intros _; apply rows_related_refl, _|done|done].
  - intros d1 d2 d3 [S1 L1 W1 P1] [S2 L2 W2 P2]. split; [by etrans| |auto|auto].
    intros W. exact (rows_related_trans _ _ d2 _ (sle_runs _ _ S1) (L1 W) (L2 (W1 W))).
Qed.

#[global] Instance persists_preorder : PreOrder persists.
Proof.
  split.
  - intros d. split; [reflexivity|intros _; apply rows_related_refl, _|done|done].
  - intros d1 d2 d3 [S1 L1 W1 P1] [S2 L2 W2 P2]. split; [by etrans| |auto|auto].
    intros W. exact (rows_related_trans _ _ d2 _ (sle_runs _ _ S1) (L1 W) (L2 (W1 W))).
Qed.

(** The tables of [d] with later sequences. *)
Lemma db_wf_keep_sequences d d' : seqs_le d d' → db_wf d → db_wf (keep_sequences d d').
Proof.
  intros [] []. split; simpl; try done.
  all: intros i x Hx; match goal with K : ∀ i _, _ → _ = i ∧ _ |- _ =>
         destruct (K _ _ Hx) as [-> ?]; split; [done|lia] end.
Qed.

#[global] Instance evolves_dbrel : DbRel evolves.
Proof.
  split; [apply _|]. intros d d' [S L W P]. split.
  - destruct S. by split.
  - intros _. by apply lifecycle_runs_eq.
  - by apply db_wf_keep_sequences.
  - done.
Qed.

(** Looking up rows in the tables a statement leaves. *)
Ltac lookups :=
  repeat match goal with
  | H : <[_ := _]> _ !! _ = Some _ |- _ => apply lookup_insert_Some in H as [[<- <-]|[? H]]
  | H : filter _ _ !! _ = Some _ |- _ => apply map_lookup_filter_Some in H as [H ?]
  | H : delete _ _ !! _ = Some _ |- _ => apply lookup_delete_Some in H as [? H]
  | H : (_ <$> _) !! _ = Some _ |- _ => rewrite lookup_fmap_Some in H; destruct H as [? [? H]]
  end.

(** ** Every statement respects [evolves] *)

Section statements.
Context `{RedisServer, Postgres}.
Implicit Types (d : Db) (w : World).

(** Opens the old constraints and looks the new rows up. *)
Ltac wf_fields W := destruct W; split; simpl; intros; lookups; simplify_eq/=.

(** A kept row has the key it had; a new row collides with none; a row that is
    referred to is still there. *)
Ltac wf_row :=
  first
    [ lia
    | done
    | by eauto
    | match goal with
      | K : ∀ i x, ?m !! i = Some x → _ = i ∧ _, L : ?m !! _ = Some _ |- _ = _ ∧ _ < _ =>
          destruct (K _ _ L); split; [done|lia]
      end
    | match goal with
      | F : map_Forall _ ?m, L : ?m !! _ = Some _ |- _ = _ =>
          exfalso; apply (F _ _ L); split; congruence
      end
    | match goal with
      | K : ∀ i x, ?m !! i = Some x → is_Some _, L : ?m !! _ = Some _ |- is_Some _ =>
          destruct (K _ _ L) as [? ?]; by eauto
      end
    | match goal with
      | K : ∀ i x, ?m !! i = Some x → is_Some _ ∧ is_Some _, L : ?m !! _ = Some _
          |- is_Some _ ∧ is_Some _ => destruct (K _ _ L); by eauto
      end ].

Lemma evolves_same_runs d d' :
  seqs_le d d' → runs d' = runs d → (db_wf d → db_wf d') → evolves d d'.
Proof.
  intros S Er W. split; [done|intros _; by apply lifecycle_runs_eq|done|].
  intros _ Hp. unfold results_plain. by rewrite Er.
Qed.

Lemma evolves_seqs d d' :
  seqs_le d d' → users d' = users d → jobs d' = jobs d → deps d' = deps d →
  runs d' = runs d → logs d' = logs d → evolves d d'.
Proof.
  intros S Eu Ej Ed Er El. apply evolves_same_runs; [done..|]. intros W. replace d' with (keep_sequences d d'); [by apply db_wf_keep_sequences|].
  destruct d'; simpl in *; subst; done.
Qed.

Lemma insert_is_Some {A} (m : gmap Z A) i x k : is_Some (m !! k) → is_Some (<[i := x]> m !! k).
Proof. intros Hk. rewrite lookup_insert. case_decide; eauto. Qed.
#[local] Hint Resolve insert_is_Some : core.

Lemma db_wf_insert_run d r :
  run_id r = runs_seq d → is_Some (jobs d !! run_job_id r) →
  tick_free d (run_job_id r) (scheduled_for r) →
  db_wf d → db_wf (with_runs (<[run_id r := r]> (runs d)) (next_runs d)).
Proof.
  intros Hid Hjob Hfree W. unfold tick_free in Hfree.
  wf_fields W; try wf_row; case_match; simplify_eq; wf_row.
Qed.

Lemma evolves_insert_run d r :
  run_id r = runs_seq d → is_Some (jobs d !! run_job_id r) →
  tick_free d (run_job_id r) (scheduled_for r) → plain_result (result r) →
  evolves d (with_runs (<[run_id r := r]> (runs d)) (next_runs d)).
Proof.
  intros Hid Hjob Hfree Hres. split.
  - split; simpl; lia.
  - intros _ i Hi. simpl. rewrite lookup_insert_ne by lia. by destruct (runs d !! i).
  - by apply db_wf_insert_run.
  - intros _ Hp i r' Hi. simpl in Hi. lookups; [done|by eapply Hp].
Qed.

Lemma steps_insert_run j tt st att s : steps evolves (insert_run j tt st att s).
Proof.
  intros w. unfold insert_run. case_decide as Hc; simpl; (split; [reflexivity|]).
  - destruct Hc. by apply evolves_insert_run.
  - apply evolves_seqs; try done. split; simpl; lia.
Qed.

Lemma evolves_map_runs d (f : JobRun → JobRun) :
  (∀ r, run_evolves r (f r)) → evolves d (with_runs (f <$> runs d) d).
Proof.
  intros Hf. split; [by split; simpl|..].
  - intros _ i Hi. simpl. rewrite lookup_fmap. destruct (runs d !! i); simpl; [apply Hf|done].
  - assert (∀ k, is_Some (runs d !! k) → is_Some ((f <$> runs d) !! k)) as Hfwd
      by (intros k Hk; by rewrite lookup_fmap, fmap_is_Some).
    intros W. wf_fields W; try wf_row.
    + rewrite (ev_id _ _ (Hf _)). eauto.
    + rewrite (ev_job _ _ (Hf _)). eauto.
    + rewrite !(ev_job _ _ (Hf _)), !(ev_tick _ _ (Hf _)) in *. eauto.
  - intros _ Hp i r' Hi. simpl in Hi. lookups. simplify_eq. apply (ev_plain _ _ (Hf _)). by eapply Hp.
Qed.

Lemma steps_update_runs (P : JobRun → Prop) `{∀ r, Decision (P r)} f :
  (∀ r, P r → run_evolves r (f r)) → steps evolves (update_runs P f).
Proof.
  intros Hf w. unfold update_runs. simpl. split; [reflexivity|].
  apply evolves_map_runs. intros r. case_decide; [by apply Hf|reflexivity].
Qed.

Lemma respects_update_runs (P : JobRun → Prop) `{∀ r, Decision (P r)} f :
  (∀ r, P r → run_evolves r (f r)) → respects evolves (update_runs P f).
Proof. intros Hf. apply steps_respects; [apply _|by apply steps_update_runs]. Qed.

Lemma alter_as_insert {A} (f : A → A) (m : gmap Z A) i x :
  m !! i = Some x → alter f i m = <[i := f x]> m.
Proof.
  intros Hi. apply map_eq. intros k. destruct (decide (k = i)) as [->|Hne].
  - by rewrite lookup_alter_eq, Hi, lookup_insert_eq.
  - by rewrite lookup_alter_ne, lookup_insert_ne.
Qed.

(** A row whose key, job and tick stay breaks no constraint. *)
Lemma db_wf_put_run d i r r' :
  runs d !! i = Some r →
  run_id r' = run_id r → run_job_id r' = run_job_id r → scheduled_for r' = scheduled_for r →
  db_wf d → db_wf (with_runs (<[i := r']> (runs d)) d).
Proof.
  intros Hr Hid Hj Ht W. wf_fields W; rewrite ?Hj, ?Ht in *; try wf_row.
  match goal with K : ∀ i x, runs d !! i = Some x → run_id x = i ∧ _ |- _ =>
    destruct (K _ _ Hr) end. split; [congruence|lia].
Qed.

(** One row moves forward. *)
Lemma evolves_put_run d i r r' :
  (db_wf d → runs d !! i = Some r) → run_evolves r r' →
  evolves d (with_runs (<[i := r']> (runs d)) d).
Proof.
  intros Hr Hev. split; [by split; simpl|..].
  - intros W k Hk. simpl. specialize (Hr W). destruct (decide (k = i)) as [->|Hne].
    + by rewrite lookup_insert_eq, Hr.
    + rewrite lookup_insert_ne by done. by destruct (runs d !! k).
  - intros W. apply (db_wf_put_run d i r); [by apply Hr|by apply Hev..|done].
  - intros W Hp k r0 Hi. simpl in Hi. lookups; [|by eapply Hp].
    apply (ev_plain _ _ Hev). by eapply Hp, Hr.
Qed.

(** The same of a row that may be put back into the queue. *)
Lemma persists_put_run d i r r' :
  (db_wf d → runs d !! i = Some r) → run_persists r r' →
  persists d (with_runs (<[i := r']> (runs d)) d).
Proof.
  intros Hr Hev. split; [by split; simpl|..].
  - intros W k Hk. simpl. specialize (Hr W). destruct (decide (k = i)) as [->|Hne].
    + by rewrite lookup_insert_eq, Hr.
    + rewrite lookup_insert_ne by done. destruct (runs d !! k); [reflexivity|done].
  - intros W. apply (db_wf_put_run d i r); [by apply Hr|by apply Hev..|done].
  - intros W Hp k r0 Hi. simpl in Hi. lookups; [|by eapply Hp].
    apply (rk_plain _ _ Hev). by eapply Hp, Hr.
Qed.

(** An assignment to the status of one row that the life cycle allows. *)
Lemma evolves_set_run_status d i r st :
  (db_wf d → runs d !! i = Some r) → status r ≠ CANCELED → reaches (status r) st →
  evolves d (with_runs (alter (set_status st) i (runs d)) d).
Proof.
  intros Hr Hc Hst. split; [by split; simpl|..]; intros W;
    rewrite (alter_as_insert _ _ _ r) by auto;
    apply (evolves_put_run d i r (set_status st r)); try done; by split.
Qed.

(** [UPDATE job_runs SET f WHERE id = i AND Q] touches at most the row [i]. *)
Lemma update_runs_one i (Q : JobRun → Prop) `{∀ r, Decision (Q r)} f w :
  db_wf (w_db w) →
  update_runs (λ r, run_id r = i ∧ Q r) f w =
    match runs (w_db w) !! i with
    | Some r => if decide (Q r)
                then (Ok 1, with_db (with_runs (<[i := f r]> (runs (w_db w))) (w_db w)) w)
                else (Ok 0, w)
    | None => (Ok 0, w)
    end.
Proof.
  intros W. set (t := runs (w_db w)).
  assert (∀ k r, t !! k = Some r → run_id r = k) as Hkey by (intros k r; apply (wf_run_key _ W)).
  assert (∀ k r, t !! k = Some r → run_id r = i → k = i) as Hki.
  { intros k r Hk <-. symmetry. by apply Hkey. }
  assert ((∀ r, t !! i = Some r → ¬ Q r) →
    update_runs (λ r, run_id r = i ∧ Q r) f w = (Ok 0, w)) as Hnone.
  { intros Hno. unfold update_runs. fold t. f_equal.
    - rewrite (filter_nothing _); [done|].
      intros r (k & Hk & Hid & HQ)%map_to_list_snd_filter.
      rewrite (Hki k r Hk Hid) in Hk. by apply (Hno r).
    - match goal with |- context [?g <$> t] => assert (g <$> t = t) as -> end;
        [|by destruct w as [[]]].
      apply map_eq. intros k. rewrite lookup_fmap. destruct (t !! k) as [r|] eqn:Hk; [|done].
      simpl. rewrite decide_False; [done|]. intros [Hid HQ].
      rewrite (Hki k r Hk Hid) in Hk. by apply (Hno r). }
  destruct (t !! i) as [r|] eqn:Hi; [|by apply Hnone].
  case_decide as HQ; [|by apply Hnone; intros ? [= <-]].
  unfold update_runs. fold t. f_equal.
  - assert (filter (λ r, run_id r = i ∧ Q r) (map_to_list t).*2 ≡ₚ [r]) as ->; [|done].
    rewrite <- (insert_delete_id t i r Hi), map_to_list_insert by apply lookup_delete_eq.
    simpl. rewrite filter_cons_True by (split; [by apply Hkey|done]). f_equiv.
    rewrite (filter_nothing _); [done|].
    intros r' (k & Hk & Hid & _)%map_to_list_snd_filter.
    apply lookup_delete_Some in Hk as [Hne Hk]. by rewrite (Hki k r' Hk Hid) in Hne.
  - f_equal. f_equal. apply map_eq. intros k. rewrite lookup_fmap.
    destruct (decide (k = i)) as [->|Hne].
    + rewrite Hi, lookup_insert_eq. simpl. rewrite decide_True; [done|].
      split; [by apply Hkey|done].
    + rewrite lookup_insert_ne by done. destruct (t !! k) as [r'|] eqn:Hk; [|done]. simpl.
      rewrite decide_False; [done|]. intros [Hid _]. by apply Hne, (Hki k r').
Qed.

Lemma evolves_map_job_at d i j0 (f : Job → Job) :
  jobs d !! i = Some j0 →
  job_id (f j0) = job_id j0 ∧ owner_user_id (f j0) = owner_user_id j0 ∧ name (f j0) = name j0 →
  evolves d (with_jobs (alter f i (jobs d)) d).
Proof.
  intros Hi Hf.
  assert (∀ k j, alter f i (jobs d) !! k = Some j →
    ∃ j0, jobs d !! k = Some j0 ∧ job_id j = job_id j0 ∧ owner_user_id j = owner_user_id j0 ∧
          name j = name j0) as Hback.
  { intros k j Hk. apply lookup_alter_Some in Hk as [(-> & j1 & Hj1 & ->)|[? Hk]]; [|by eauto].
    assert (j1 = j0) as -> by congruence. destruct Hf as (? & ? & ?). eauto. }
  assert (∀ k, is_Some (jobs d !! k) → is_Some (alter f i (jobs d) !! k)) as Hfwd.
  { intros k Hk. by apply lookup_alter_is_Some. }
  apply evolves_same_runs; [by split; simpl|done|]. intros W. wf_fields W; try wf_row.
  - edestruct Hback as (j1 & Hj1 & -> & _); eauto.
  - edestruct Hback as (j1 & Hj1 & _ & -> & _); [done|]. by eapply wf_job_owner0.
  - repeat match goal with K : alter _ _ _ !! _ = Some _ |- _ =>
      apply Hback in K as (? & ? & _ & ? & ?) end.
    eapply (wf_job_name0 _ _ _ _ u); [eassumption|eassumption|congruence..].
Qed.

Lemma evolves_map_job d i (f : Job → Job) :
  (∀ j, job_id (f j) = job_id j ∧ owner_user_id (f j) = owner_user_id j ∧ name (f j) = name j) →
  evolves d (with_jobs (alter f i (jobs d)) d).
Proof.
  intros Hf. destruct (jobs d !! i) as [j|] eqn:Hi; [by apply (evolves_map_job_at d i j)|].
  assert (alter f i (jobs d) = jobs d) as ->.
  { apply map_eq. intros k. destruct (decide (i = k)) as [<-|Hne].
    - by rewrite lookup_alter_eq, Hi.
    - by rewrite lookup_alter_ne. }
  destruct d; simpl. reflexivity.
Qed.

Lemma steps_touch_job i t : steps evolves (touch_job i t).
Proof. intros w. split; [done|]. by apply evolves_map_job. Qed.

Lemma assign_old {A} `{EqDecision A} (store : A → option A) x : assign store (Some x) x = Some x.
Proof. unfold assign. by rewrite decide_True. Qed.

(** Every value fits its column as it is. *)
Definition job_fits (j : Job) : bool :=
  text_ok (name j) && (String.length (name j) <=? 255)%nat && opt_ok text_ok (description j)
  && opt_ok (λ c, text_ok c && (String.length c <=? 64)%nat) (category j)
  && text_ok (task_type j) && (String.length (task_type j) <=? 32)%nat
  && json_ok (JObj (task_spec j))
  && text_ok (schedule_type j) && (String.length (schedule_type j) <=? 16)%nat
  && opt_ok (λ e, text_ok e && (String.length e <=? 255)%nat) (schedule_expr j)
  && text_ok (timezone j) && (String.length (timezone j) <=? 64)%nat.

Lemma stored_job_fits j : job_fits j = true → stored_job None j = Some j.
Proof.
  unfold job_fits. rewrite !andb_true_iff, !Nat.leb_le. intros Hf. destruct_and! Hf.
  unfold stored_job, assign. simpl fmap. rewrite !decide_False by done.
  assert (∀ n o, opt_ok (λ c, text_ok c && (String.length c <=? n)%nat) o = true →
    varchar_opt n o = Some o) as Hopt.
  { intros n [c|] Ho; [|done]. simpl in *. apply andb_true_iff in Ho as [? ?%Nat.leb_le].
    by rewrite varchar_fits. }
  rewrite (varchar_fits 255), (varchar_fits 32), (varchar_fits 16), (varchar_fits 64) by done.
  rewrite !Hopt by done. unfold checked, compose.
  repeat match goal with E : _ = true |- _ => rewrite E end. by destruct j.
Qed.

(** Storing a row changes neither its key nor its owner, nor a name it has already. *)
Lemma stored_job_keys o j j' :
  stored_job o j = Some j' →
  job_id j' = job_id j ∧ owner_user_id j' = owner_user_id j ∧
  assign (varchar 255) (name <$> o) (name j) = Some (name j').
Proof.
  unfold stored_job. intros E. apply bind_Some in E as (nm & En & E).
  repeat (apply bind_Some in E as (? & _ & E)). by simplify_eq.
Qed.

Lemma steps_update_job_row i f :
  (∀ j, job_id (f j) = job_id j ∧ owner_user_id (f j) = owner_user_id j ∧ name (f j) = name j) →
  steps evolves (update_job_row i f).
Proof.
  intros Hf w. unfold update_job_row. destruct (jobs (w_db w) !! i) as [j|] eqn:Hj; [|done].
  case_decide; [done|]. destruct (stored_job (Some j) (f j)) as [j'|] eqn:E; [|done].
  split; [done|]. simpl. apply stored_job_keys in E as (Hid & Ho & Hn).
  destruct (Hf j) as (Hfi & Hfo & Hfn). simpl in Hn. rewrite Hfn, assign_old in Hn.
  injection Hn as Hn.
  rewrite <- (alter_as_insert (λ _, set_job_updated_at (w_clock w) j') _ _ j) by done.
  apply evolves_map_job_at with j; [done|]. simpl. split; [congruence|]. split; congruence.
Qed.

Lemma evolves_insert_log d l :
  log_id l = logs_seq d → is_Some (runs d !! log_run_id l) →
  evolves d (with_logs (<[logs_seq d := l]> (logs d)) (next_logs d)).
Proof.
  intros Hid Hr. apply evolves_same_runs; [by split; simpl; lia|done|]. intros W.
  wf_fields W; wf_row.
Qed.

Lemma steps_insert_log r s l : steps evolves (insert_log r s l).
Proof.
  intros w. unfold insert_log. destruct (negb (text_ok l)); [by split|].
  case_decide as Hc; simpl; (split; [reflexivity|]).
  - by apply evolves_insert_log.
  - apply evolves_seqs; try done. split; simpl; lia.
Qed.

Lemma steps_insert_dep j p : steps evolves (insert_dep j p).
Proof.
  intros w. unfold insert_dep. case_decide as Hc; simpl; (split; [reflexivity|]).
  - destruct Hc as (Hj & Hp & Hfree).
    apply evolves_same_runs; [by split; simpl; lia|done|]. intros W.
    unfold dep_free in Hfree. wf_fields W; wf_row.
  - apply evolves_seqs; try done. split; simpl; lia.
Qed.

Lemma steps_delete_deps_of j : steps evolves (delete_deps_of j).
Proof.
  intros w. unfold delete_deps_of. simpl. split; [reflexivity|].
  apply evolves_same_runs; [by split; simpl|done|]. intros W. wf_fields W; wf_row.
Qed.

Lemma steps_insert_job mk :
  (∀ i, job_id (mk i) = i) → steps evolves (insert_job mk).
Proof.
  intros Hmk w. unfold insert_job. destruct (stored_job None _) as [j|] eqn:E; [|by split].
  apply stored_job_keys in E as (Hid & _ & _). rewrite Hmk in Hid.
  case_decide as Hc; simpl; (split; [reflexivity|]).
  - destruct Hc as [Ho Hfree]. set (d := w_db w) in *.
    apply evolves_same_runs; [by split; simpl; lia|done|]. intros W.
    unfold name_free in Hfree. wf_fields W; try wf_row.
    + case_match; simplify_eq. wf_row.
    + case_match; simplify_eq. wf_row.
  - apply evolves_seqs; try done. split; simpl; lia.
Qed.

Lemma steps_insert_user mk :
  (∀ i, user_id (mk i) = i) → steps evolves (insert_user mk).
Proof.
  intros Hmk w. unfold insert_user. case_decide as Hfree; simpl; (split; [reflexivity|]).
  - set (d := w_db w) in *.
    apply evolves_same_runs; [by split; simpl; lia|done|]. intros W.
    unfold user_free in Hfree. wf_fields W; try wf_row.
    + split; [apply Hmk|lia].
    + unfold owner_ok. case_match; [|done]. apply insert_is_Some.
      match goal with K : jobs d !! _ = Some ?j |- _ => pose proof (wf_job_owner0 _ _ K) as Ho end.
      unfold owner_ok in Ho. by case_match; simplify_eq.
    + match goal with L : users d !! _ = Some _ |- _ => destruct (Hfree _ _ L) end. congruence.
    + match goal with L : users d !! _ = Some _ |- _ => destruct (Hfree _ _ L) end. congruence.
    + match goal with L : users d !! _ = Some _ |- _ => destruct (Hfree _ _ L) as [_ []] end; congruence.
    + match goal with L : users d !! _ = Some _ |- _ => destruct (Hfree _ _ L) as [_ []] end; congruence.
  - apply evolves_seqs; try done. split; simpl; lia.
Qed.

Lemma steps_delete_job_row i : steps evolves (delete_job_row i).
Proof.
  intros w. unfold delete_job_row. simpl. split; [reflexivity|].
  set (d := w_db w). split; [by split; simpl|..].
  - intros _ k Hk. simpl. destruct (filter _ (runs d) !! k) as [r'|] eqn:E.
    + lookups. by rewrite E.
    + by destruct (runs d !! k).
  - intros W. wf_fields W; try wf_row.
    + destruct_and!. rewrite !lookup_delete_ne by done. eauto.
    + rewrite lookup_delete_ne by done. eauto.
  - intros _ Hp k r Hi. simpl in Hi. lookups. by eapply Hp.
Qed.

(** From a clean state the tables evolve and keep the constraints. *)
Lemma respects_evolves {A} (m : M A) w :
  respects evolves m → clean w → evolves (w_db w) (w_db (m w).2).
Proof.
  intros Hm Hc. destruct (Hm w) as [H1 H2]; [by rewrite Hc|].
  rewrite Hc. by etrans.
Qed.

Lemma respects_db_wf {A} (m : M A) w :
  respects evolves m → clean w → db_wf (w_db w) → db_wf (w_db (m w).2).
Proof. intros Hm Hc. apply ev_wf. by apply respects_evolves. Qed.

(** [SELECT ... WHERE P ORDER BY created_at, id LIMIT 1] on runs: the first row. *)
Definition first_row (P : JobRun → Prop) (d : Db) (r : JobRun) : Prop :=
  (∃ i, runs d !! i = Some r) ∧ P r ∧
  ∀ i r', runs d !! i = Some r' → P r' → created_before r r'.

Lemma select_first_spec (P : JobRun → Prop) `{∀ r, Decision (P r)} w :
  ∃ o, (rows ← select_runs P; scalar_one_or_none (take 1 (merge_sort created_before rows))) w
       = (Ok o, w) ∧
    match o with
    | Some r => first_row P (w_db w) r
    | None => ∀ i r, runs (w_db w) !! i = Some r → ¬ P r
    end.
Proof.
  unfold select_runs, mbind, M_bind, read.
  set (l := filter _ _). pose proof (merge_sort_Permutation created_before l) as Hp.
  pose proof (StronglySorted_merge_sort created_before l) as Hs.
  assert (∀ r, r ∈ l ↔ ∃ i, runs (w_db w) !! i = Some r ∧ P r) as Hl
    by (intros r; apply (elem_of_select P)).
  destruct (merge_sort created_before l) as [|r l']; simpl.
  - exists None. split; [done|]. intros i r Hi HP. apply (not_elem_of_nil (A := JobRun) r).
    rewrite Hp, Hl. eauto.
  - exists (Some r). split; [done|].
    destruct (proj1 (Hl r)) as (i & Hi & HP); [rewrite <- Hp; set_solver|].
    split; [by eauto|]. split; [done|]. intros i' r' Hi' HP'.
    assert (r' ∈ r :: l') as [->|Hin]%elem_of_cons by (rewrite Hp, Hl; eauto).
    + unfold created_before. lia.
    + inversion Hs as [|? ? _ Hall]; subst. rewrite Forall_forall in Hall. by apply Hall.
Qed.

Lemma steps_bind_text s : steps evolves (bind_text s).
Proof. unfold bind_text. destruct (text_ok s); [apply steps_ret|apply steps_raise]; apply _. Qed.

Lemma bind_id_eq {A} (table : Db → gmap Z A) i w :
  bind_id table i w = (if bigint (table (w_db w)) i then Ok tt else Raise DataError, w).
Proof. unfold bind_id, read, mbind, M_bind. by destruct (bigint _ i). Qed.

Lemma bind_id_ok {A} (table : Db → gmap Z A) i w :
  in_width 64 i = true ∨ is_Some (table (w_db w) !! i) → bind_id table i w = (Ok tt, w).
Proof.
  intros Hi. rewrite bind_id_eq. unfold bigint.
  destruct (in_width 64 i); [done|]. rewrite bool_decide_eq_true_2; [done|]. by destruct Hi.
Qed.

Lemma steps_bind_id {A} (table : Db → gmap Z A) i : steps evolves (bind_id table i).
Proof. intros w. rewrite bind_id_eq. by split. Qed.

Lemma steps_bind_offset n : steps evolves (bind_offset n).
Proof. unfold bind_offset. destruct (in_width 32 n); [apply steps_ret|apply steps_raise]; apply _. Qed.
Lemma bind_offset_tidy n : tidy (bind_offset n).
Proof. unfold bind_offset. destruct (in_width 32 n); [apply tidy_ret|apply tidy_raise]. Qed.

Lemma bind_text_tidy s : tidy (bind_text s).
Proof. unfold bind_text. destruct (text_ok s); [apply tidy_ret|apply tidy_raise]. Qed.
Lemma bind_id_tidy {A} (table : Db → gmap Z A) i : tidy (bind_id table i).
Proof. intros w Hw. by rewrite bind_id_eq. Qed.

Lemma respects_scalar_one_or_none {A} (l : list A) : respects evolves (scalar_one_or_none l).
Proof. unfold scalar_one_or_none. respect. Qed.

End statements.

#[export] Hint Resolve steps_insert_run steps_update_runs steps_touch_job steps_insert_log
  steps_insert_dep steps_delete_deps_of steps_insert_job steps_insert_user
  steps_delete_job_row steps_bind_text steps_bind_id steps_bind_offset bind_text_tidy bind_id_tidy bind_offset_tidy
  respects_scalar_one_or_none : respect.
#[export] Hint Extern 4 (respects _ (select_jobs _)) => apply respects_read : respect.
#[export] Hint Extern 4 (respects _ (select_deps _)) => apply respects_read : respect.
#[export] Hint Extern 4 (respects _ (select_runs _)) => apply respects_read : respect.
#[export] Hint Extern 4 (respects _ (select_logs _)) => apply respects_read : respect.
#[export] Hint Extern 4 (respects _ (select_users _)) => apply respects_read : respect.
#[export] Hint Extern 4 (respects _ (get_job_row _)) => apply respects_read : respect.
#[export] Hint Extern 4 (respects _ (get_run_row _)) => apply respects_read : respect.
#[export] Hint Extern 4 (respects _ (get_user_row _)) => apply respects_read : respect.
#[export] Hint Extern 4 (respects _ utcnow) => apply respects_read : respect.
#[export] Hint Extern 4 (tidy utcnow) => apply tidy_read : respect.
