(* ===== verification/TableRows.v ===== *)
(** * The tables as rows

    The records of [Models] as rows of the migrated tables, and the proof that [db_wf],
    the invariant of the development, is what the keys of the schema at head demand. *)

From S2P Require Import Prelude PyBase Models Ddl Migrations RedisServer Effects Database.

Local Open Scope string_scope.
Local Open Scope Z_scope.
Local Open Scope list_scope.

(** ** Rows *)

Definition null_or {A} (f : A → Value) (o : option A) : Value :=
  match o with Some x => f x | None => VNull end.

Definition user_row (u : User) : Row := list_to_map [
  ("id", VInt (user_id u)); ("username", VText (username u)); ("email", null_or VText (email u));
  ("password_hash", VText (password_hash u)); ("is_active", VBool (is_active u));
  ("created_at", VTime (user_created_at u)); ("updated_at", VTime (user_updated_at u))].

Definition job_row (j : Job) : Row := list_to_map [
  ("id", VInt (job_id j)); ("owner_user_id", null_or VInt (owner_user_id j)); ("name", VText (name j));
  ("description", null_or VText (description j)); ("category", null_or VText (category j));
  ("task_type", VText (task_type j)); ("task_spec", VJson (JObj (task_spec j)));
  ("schedule_type", VText (schedule_type j)); ("schedule_expr", null_or VText (schedule_expr j));
  ("timezone", VText (timezone j)); ("enabled", VBool (enabled j)); ("max_retries", VInt (max_retries j));
  ("retry_backoff_sec", VInt (retry_backoff_sec j)); ("timeout_sec", VInt (timeout_sec j));
  ("last_scheduled_for", null_or VTime (last_scheduled_for j));
  ("created_at", VTime (job_created_at j)); ("updated_at", VTime (job_updated_at j))].

Definition dep_row (e : JobDependency) : Row := list_to_map [
  ("id", VInt (dep_id e)); ("job_id", VInt (dep_job_id e));
  ("depends_on_job_id", VInt (depends_on_job_id e))].

Definition run_row (r : JobRun) : Row := list_to_map [
  ("id", VInt (run_id r)); ("job_id", VInt (run_job_id r));
  ("trigger_type", VText (trigger_str (trigger_type r))); ("status", VText (status_str (status r)));
  ("attempt", VInt (attempt r)); ("scheduled_for", null_or VTime (scheduled_for r));
  ("started_at", null_or VTime (started_at r)); ("finished_at", null_or VTime (finished_at r));
  ("exit_code", null_or VInt (exit_code r)); ("result", null_or VJson (result r));
  ("error", null_or VText (error r)); ("worker_id", null_or VText (worker_id r));
  ("created_at", VTime (run_created_at r))].

Definition log_row (l : JobRunLog) : Row := list_to_map [
  ("id", VInt (log_id l)); ("run_id", VInt (log_run_id l)); ("ts", VTime (ts l));
  ("stream", VText (stream_str (stream l))); ("line", VText (line l))].

Definition stored (d : Db) : Database := at_0004 {|
  job_rows := job_row <$> (map_to_list (jobs d)).*2;
  dep_rows := dep_row <$> (map_to_list (deps d)).*2;
  run_rows := run_row <$> (map_to_list (runs d)).*2;
  log_rows := log_row <$> (map_to_list (logs d)).*2;
  user_rows := user_row <$> (map_to_list (users d)).*2 |}.

(** The tables of [Db] are indexed by their identifiers, which the sequences have left
    behind. *)
Record keyed (d : Db) : Prop := {
  keyed_users : ∀ i u, users d !! i = Some u → user_id u = i ∧ i < users_seq d;
  keyed_jobs : ∀ i j, jobs d !! i = Some j → job_id j = i ∧ i < jobs_seq d;
  keyed_deps : ∀ i e, deps d !! i = Some e → dep_id e = i ∧ i < deps_seq d;
  keyed_runs : ∀ i r, runs d !! i = Some r → run_id r = i ∧ i < runs_seq d;
  keyed_logs : ∀ i l, logs d !! i = Some l → log_id l = i ∧ i < logs_seq d
}.

(** ** Keys of rows *)

Lemma user_id_key u : key ["id"] (user_row u) = Some [VInt (user_id u)].
Proof. reflexivity. Qed.
Lemma username_key u : key ["username"] (user_row u) = Some [VText (username u)].
Proof. reflexivity. Qed.
Lemma email_key u : key ["email"] (user_row u) = (λ e, [VText e]) <$> email u.
Proof. destruct u, email; vm_compute; reflexivity. Qed.
Lemma job_id_key j : key ["id"] (job_row j) = Some [VInt (job_id j)].
Proof. reflexivity. Qed.
Lemma job_owner_key j : key ["owner_user_id"] (job_row j) = (λ u, [VInt u]) <$> owner_user_id j.
Proof. destruct j, owner_user_id; vm_compute; reflexivity. Qed.
Lemma job_name_key j :
  key ["owner_user_id"; "name"] (job_row j) = (λ u, [VInt u; VText (name j)]) <$> owner_user_id j.
Proof. destruct j, owner_user_id; vm_compute; reflexivity. Qed.
Lemma dep_id_key e : key ["id"] (dep_row e) = Some [VInt (dep_id e)].
Proof. reflexivity. Qed.
Lemma dep_job_key e : key ["job_id"] (dep_row e) = Some [VInt (dep_job_id e)].
Proof. reflexivity. Qed.
Lemma dep_on_key e : key ["depends_on_job_id"] (dep_row e) = Some [VInt (depends_on_job_id e)].
Proof. reflexivity. Qed.
Lemma dep_pair_key e :
  key ["job_id"; "depends_on_job_id"] (dep_row e) = Some [VInt (dep_job_id e); VInt (depends_on_job_id e)].
Proof. reflexivity. Qed.
Lemma run_id_key r : key ["id"] (run_row r) = Some [VInt (run_id r)].
Proof. reflexivity. Qed.
Lemma run_job_key r : key ["job_id"] (run_row r) = Some [VInt (run_job_id r)].
Proof. reflexivity. Qed.
Lemma run_tick_key r :
  key ["job_id"; "scheduled_for"] (run_row r) =
    (λ t, [VInt (run_job_id r); VTime t]) <$> scheduled_for r.
Proof. destruct r, scheduled_for; vm_compute; reflexivity. Qed.
Lemma log_id_key l : key ["id"] (log_row l) = Some [VInt (log_id l)].
Proof. reflexivity. Qed.
Lemma log_run_key l : key ["run_id"] (log_row l) = Some [VInt (log_run_id l)].
Proof. reflexivity. Qed.

#[local] Arguments key : simpl never.

(** ** Constraints on a table *)

Lemma NoDup_omap {A B} (f : A → option B) (l : list A) :
  NoDup l →
  NoDup (omap f l) ↔ ∀ x y k, x ∈ l → y ∈ l → f x = Some k → f y = Some k → x = y.
Proof.
  induction 1 as [|a l Ha Hl IH]; csimpl.
  - split; [intros _ x y k Hx; by apply elem_of_nil in Hx|constructor].
  - destruct (f a) as [b|] eqn:Hfa.
    + rewrite NoDup_cons, IH, list_elem_of_omap. split.
      * intros [Hb Hl'] x y k [->|Hx]%elem_of_cons [->|Hy]%elem_of_cons Ex Ey; [done| | |by eauto].
        -- destruct Hb. exists y. by rewrite Ey, <-Ex.
        -- destruct Hb. exists x. by rewrite Ex, <-Ey.
      * intros Hinj. split; [|intros x y k Hx Hy; apply Hinj; by right].
        intros (x & Hx & Ex). assert (a = x) as ->; [|done].
        apply (Hinj _ _ b); [by left|by right|done|done].
    + rewrite IH. split; intros Hinj x y k.
      * intros [->|Hx]%elem_of_cons [->|Hy]%elem_of_cons Ex Ey; [congruence..|]. eauto.
      * intros Hx Hy. apply Hinj; by right.
Qed.

Lemma omap_of_fmap {A B C} (f : B → option C) (g : A → B) (l : list A) :
  omap f (g <$> l) = omap (f ∘ g) l.
Proof. induction l as [|a l IH]; csimpl; [done|]. by rewrite IH. Qed.

Section table.
Context {A : Type} (m : gmap Z A) (enc : A → Row).
Let rows := enc <$> (map_to_list m).*2.

Lemma table_rows P : Forall P rows ↔ ∀ i x, m !! i = Some x → P (enc x).
Proof.
  unfold rows. rewrite !Forall_fmap, Forall_forall. split.
  - intros Hall i x Hx. apply (Hall (i, x)). by apply elem_of_map_to_list.
  - intros Hall [i x] Hx. apply (Hall i x). by apply elem_of_map_to_list in Hx.
Qed.

Lemma table_elem k cols : Some k ∈ key cols <$> rows ↔ ∃ i x, m !! i = Some x ∧ key cols (enc x) = Some k.
Proof.
  unfold rows. rewrite <-!list_fmap_compose, list_elem_of_fmap. split.
  - intros ([i x] & Hk & Hx%elem_of_map_to_list). eauto.
  - intros (i & x & Hx & Hk). exists (i, x). split; [done|]. by apply elem_of_map_to_list.
Qed.

(** The columns hold the key [g], if it is there. *)
Lemma table_unique {C} cols (c : C → list Value) (g : A → option C) `{!Inj (=) (=) c} :
  (∀ x, key cols (enc x) = c <$> g x) →
  unique_ok cols rows ↔
  ∀ i j x y k, m !! i = Some x → m !! j = Some y → g x = Some k → g y = Some k → i = j.
Proof.
  intros Hf. unfold unique_ok, rows.
  rewrite <-list_fmap_compose, omap_of_fmap, NoDup_omap by apply NoDup_map_to_list. split.
  - intros Hinj i j x y k Hx Hy Ex Ey.
    enough ((i, x) = (j, y)) by congruence.
    apply (Hinj _ _ (c k)); [by apply elem_of_map_to_list..| |]; simpl; by rewrite Hf, ?Ex, ?Ey.
  - intros Hinj [i x] [j y] k Hx%elem_of_map_to_list Hy%elem_of_map_to_list Ex Ey.
    simpl in Ex, Ey. rewrite Hf in Ex, Ey. apply fmap_Some in Ex as (v & Ex & ->).
    apply fmap_Some in Ey as (v' & Ey & ->%(inj c)).
    assert (i = j) as <- by by eapply Hinj. congruence.
Qed.

Hypothesis indexed : ∀ i x, m !! i = Some x → key ["id"] (enc x) = Some [VInt i].

Lemma table_pkey : pkey_ok ["id"] rows.
Proof.
  split.
  - apply (table_unique _ id (λ x, key ["id"] (enc x))); [intros x; by destruct (key _ _)|].
    intros i j x y k Hx Hy. rewrite (indexed i x Hx), (indexed j y Hy). congruence.
  - apply table_rows. intros i x Hx. rewrite (indexed i x Hx). eauto.
Qed.

(** References to this table, by its identifier. *)
Lemma table_fkey {B} (m' : gmap Z B) (enc' : B → Row) db fk (g : B → option Z) :
  rows_in (fk_table fk) db = rows → fk_refs fk = ["id"] →
  (∀ x, key (fk_cols fk) (enc' x) = (λ i, [VInt i]) <$> g x) →
  fkey_ok db fk (enc' <$> (map_to_list m').*2) ↔
  ∀ i x j, m' !! i = Some x → g x = Some j → is_Some (m !! j).
Proof.
  intros Hrows Hrefs Hg. unfold fkey_ok. rewrite Hrows, Hrefs.
  rewrite Forall_fmap, Forall_fmap, Forall_forall. split.
  - intros Hall i x j Hx Hj. specialize (Hall (i, x) (proj2 (elem_of_map_to_list _ _ _) Hx)).
    simpl in Hall. rewrite Hg, Hj in Hall. simpl in Hall.
    apply table_elem in Hall as (j' & y & Hy & Hk). rewrite (indexed j' y Hy) in Hk.
    simplify_eq. eauto.
  - intros Hall [i x] Hx%elem_of_map_to_list. simpl. rewrite Hg.
    destruct (g x) as [j|] eqn:Hj; simpl; [|done].
    destruct (Hall i x j Hx Hj) as [y Hy]. apply table_elem. exists j, y. auto.
Qed.

End table.

(** ** The invariant is the schema *)

(** The keys that the unique constraints compare. *)
Definition text_key (s : string) : list Value := [VText s].
Definition int_pair_key (p : Z * Z) : list Value := [VInt p.1; VInt p.2].
Definition owner_name_key (p : Z * string) : list Value := [VInt p.1; VText p.2].
Definition tick_key (p : Z * Z) : list Value := [VInt p.1; VTime p.2].

#[local] Instance text_key_inj : Inj (=) (=) text_key.
Proof. by intros ? ? [= ->]. Qed.
#[local] Instance int_pair_key_inj : Inj (=) (=) int_pair_key.
Proof. by intros [] [] [= -> ->]. Qed.
#[local] Instance owner_name_key_inj : Inj (=) (=) owner_name_key.
Proof. by intros [] [] [= -> ->]. Qed.
#[local] Instance tick_key_inj : Inj (=) (=) tick_key.
Proof. by intros [] [] [= -> ->]. Qed.

Section schema.
Variables (d : Db) (K : keyed d).

Lemma users_indexed i u : users d !! i = Some u → key ["id"] (user_row u) = Some [VInt i].
Proof. intros Hu. rewrite user_id_key. by destruct (keyed_users d K i u Hu) as [-> _]. Qed.
Lemma jobs_indexed i j : jobs d !! i = Some j → key ["id"] (job_row j) = Some [VInt i].
Proof. intros Hj. rewrite job_id_key. by destruct (keyed_jobs d K i j Hj) as [-> _]. Qed.
Lemma deps_indexed i e : deps d !! i = Some e → key ["id"] (dep_row e) = Some [VInt i].
Proof. intros He. rewrite dep_id_key. by destruct (keyed_deps d K i e He) as [-> _]. Qed.
Lemma runs_indexed i r : runs d !! i = Some r → key ["id"] (run_row r) = Some [VInt i].
Proof. intros Hr. rewrite run_id_key. by destruct (keyed_runs d K i r Hr) as [-> _]. Qed.
Lemma logs_indexed i l : logs d !! i = Some l → key ["id"] (log_row l) = Some [VInt i].
Proof. intros Hl. rewrite log_id_key. by destruct (keyed_logs d K i l Hl) as [-> _]. Qed.

Lemma usernames_unique :
  unique_ok ["username"] (user_row <$> (map_to_list (users d)).*2) ↔
  ∀ i i' u u', users d !! i = Some u → users d !! i' = Some u' → username u = username u' → i = i'.
Proof.
  rewrite (table_unique _ _ _ text_key (Some ∘ username) username_key). simpl. split; [|naive_solver].
  intros Hn i i' u u' Hu Hu' E. by apply (Hn i i' u u' (username u)); [..|rewrite E].
Qed.

Lemma emails_unique :
  unique_ok ["email"] (user_row <$> (map_to_list (users d)).*2) ↔
  ∀ i i' u u' e, users d !! i = Some u → users d !! i' = Some u' →
    email u = Some e → email u' = Some e → i = i'.
Proof. apply (table_unique _ _ _ text_key email email_key). Qed.

Lemma owner_names_unique :
  unique_ok ["owner_user_id"; "name"] (job_row <$> (map_to_list (jobs d)).*2) ↔
  ∀ i i' j j' u, jobs d !! i = Some j → jobs d !! i' = Some j' →
    owner_user_id j = Some u → owner_user_id j' = Some u → name j = name j' → i = i'.
Proof.
  rewrite (table_unique _ _ _ owner_name_key (λ j, (λ u, (u, name j)) <$> owner_user_id j)).
  2:{ intros j. rewrite job_name_key. by destruct (owner_user_id j). }
  split.
  - intros Hn i i' j j' u Hj Hj' Ho Ho' E. apply (Hn i i' j j' (u, name j) Hj Hj'); [by rewrite Ho|].
    by rewrite Ho', E.
  - intros Hn i i' j j' [u n] Hj Hj' (? & Ho & [= <- ->])%fmap_Some (? & Ho' & [= <- E])%fmap_Some.
    by eapply Hn.
Qed.

Lemma dep_pairs_unique :
  unique_ok ["job_id"; "depends_on_job_id"] (dep_row <$> (map_to_list (deps d)).*2) ↔
  ∀ i i' e e', deps d !! i = Some e → deps d !! i' = Some e' →
    dep_job_id e = dep_job_id e' → depends_on_job_id e = depends_on_job_id e' → i = i'.
Proof.
  rewrite (table_unique _ _ _ int_pair_key (λ e, Some (dep_job_id e, depends_on_job_id e)) dep_pair_key).
  split; [|naive_solver]. intros Hn i i' e e' He He' E1 E2.
  apply (Hn i i' e e' _ He He' eq_refl). by rewrite E1, E2.
Qed.

Lemma ticks_unique :
  unique_ok ["job_id"; "scheduled_for"] (run_row <$> (map_to_list (runs d)).*2) ↔
  ∀ i i' r r' t, runs d !! i = Some r → runs d !! i' = Some r' → run_job_id r = run_job_id r' →
    scheduled_for r = Some t → scheduled_for r' = Some t → i = i'.
Proof.
  rewrite (table_unique _ _ _ tick_key (λ r, (λ t, (run_job_id r, t)) <$> scheduled_for r)).
  2:{ intros r. rewrite run_tick_key. by destruct (scheduled_for r). }
  split.
  - intros Hn i i' r r' t Hr Hr' E Ht Ht'. apply (Hn i i' r r' (run_job_id r, t) Hr Hr'); [by rewrite Ht|].
    by rewrite Ht', E.
  - intros Hn i i' r r' [n t] Hr Hr' (? & Ht & [= -> ->])%fmap_Some (? & Ht' & [= E ->])%fmap_Some.
    by eapply Hn.
Qed.

Lemma stored_tables (P : string * (Table * list Row) → Prop) :
  Forall P (stored d) ↔
  P ("jobs", (jobs_0004, job_row <$> (map_to_list (jobs d)).*2)) ∧
  P ("job_dependencies", (job_dependencies_ix, dep_row <$> (map_to_list (deps d)).*2)) ∧
  P ("job_runs", (job_runs_ix, run_row <$> (map_to_list (runs d)).*2)) ∧
  P ("job_run_logs", (job_run_logs_ix, log_row <$> (map_to_list (logs d)).*2)) ∧
  P ("users", (users_ix, user_row <$> (map_to_list (users d)).*2)).
Proof. unfold stored, at_0004, tables. rewrite !Forall_cons, Forall_nil. simpl. tauto. Qed.

Lemma some_refs {A B} (m : gmap Z A) (g : A → Z) (m' : gmap Z B) :
  (∀ i x j, m !! i = Some x → (Some ∘ g) x = Some j → is_Some (m' !! j)) ↔
  ∀ i x, m !! i = Some x → is_Some (m' !! g x).
Proof.
  split; [intros Ho i x Hx; exact (Ho i x _ Hx eq_refl)|].
  intros Ho i x j Hx [= <-]. exact (Ho i x Hx).
Qed.

(** References, by the identifiers in [refs]. *)
Lemma owners_exist :
  fkey_ok (stored d) (references "owner_user_id" "users" SET_NULL) (job_row <$> (map_to_list (jobs d)).*2) ↔
  ∀ i j, jobs d !! i = Some j → owner_ok d (owner_user_id j).
Proof.
  rewrite (table_fkey _ _ users_indexed _ _ _ _ owner_user_id) by (reflexivity || exact job_owner_key).
  unfold owner_ok. split.
  - intros Ho i j Hj. destruct (owner_user_id j) as [u|] eqn:E; [by apply (Ho i j u)|done].
  - intros Ho i j u Hj E. specialize (Ho i j Hj). by rewrite E in Ho.
Qed.

Lemma jobs_exist {B} (m' : gmap Z B) enc' c act (g : B → Z) :
  (∀ x, key [c] (enc' x) = Some [VInt (g x)]) →
  fkey_ok (stored d) (references c "jobs" act) (enc' <$> (map_to_list m').*2) ↔
  ∀ i x, m' !! i = Some x → is_Some (jobs d !! g x).
Proof.
  intros Hg. rewrite (table_fkey _ _ jobs_indexed _ _ _ _ (Some ∘ g)) by (reflexivity || exact Hg).
  apply some_refs.
Qed.

Lemma log_runs_exist :
  fkey_ok (stored d) (references "run_id" "job_runs" CASCADE) (log_row <$> (map_to_list (logs d)).*2) ↔
  ∀ i l, logs d !! i = Some l → is_Some (runs d !! log_run_id l).
Proof.
  rewrite (table_fkey _ _ runs_indexed _ _ _ _ (Some ∘ log_run_id)) by (reflexivity || exact log_run_key).
  apply some_refs.
Qed.

(** The tables of the schema, without the indexes that are not unique. *)
Lemma stored_keys :
  db_keys_ok (stored d) ↔
  (∀ i i' u u', users d !! i = Some u → users d !! i' = Some u' → username u = username u' → i = i') ∧
  (∀ i i' u u' e, users d !! i = Some u → users d !! i' = Some u' →
    email u = Some e → email u' = Some e → i = i') ∧
  (∀ i i' j j' u, jobs d !! i = Some j → jobs d !! i' = Some j' →
    owner_user_id j = Some u → owner_user_id j' = Some u → name j = name j' → i = i') ∧
  (∀ i i' e e', deps d !! i = Some e → deps d !! i' = Some e' →
    dep_job_id e = dep_job_id e' → depends_on_job_id e = depends_on_job_id e' → i = i') ∧
  (∀ i i' r r' t, runs d !! i = Some r → runs d !! i' = Some r' → run_job_id r = run_job_id r' →
    scheduled_for r = Some t → scheduled_for r' = Some t → i = i') ∧
  (∀ i j, jobs d !! i = Some j → owner_ok d (owner_user_id j)) ∧
  (∀ i e, deps d !! i = Some e → is_Some (jobs d !! dep_job_id e)) ∧
  (∀ i e, deps d !! i = Some e → is_Some (jobs d !! depends_on_job_id e)) ∧
  (∀ i r, runs d !! i = Some r → is_Some (jobs d !! run_job_id r)) ∧
  (∀ i l, logs d !! i = Some l → is_Some (runs d !! log_run_id l)).
Proof.
  rewrite <-usernames_unique, <-emails_unique, <-owner_names_unique, <-dep_pairs_unique, <-ticks_unique.
  rewrite <-owners_exist, <-(jobs_exist _ _ _ CASCADE _ dep_job_key), <-(jobs_exist _ _ _ CASCADE _ dep_on_key).
  rewrite <-(jobs_exist _ _ _ CASCADE _ run_job_key), <-log_runs_exist.
  pose proof (table_pkey _ _ users_indexed). pose proof (table_pkey _ _ jobs_indexed).
  pose proof (table_pkey _ _ deps_indexed). pose proof (table_pkey _ _ runs_indexed).
  pose proof (table_pkey _ _ logs_indexed).
  unfold db_keys_ok. rewrite stored_tables. unfold keys_ok. simpl.
  rewrite !Forall_cons, !Forall_nil. simpl. intuition discriminate.
Qed.

End schema.

(** C18: The invariant that every operation of the program preserves is the schema: tables
    indexed by their identifiers satisfy [db_wf] exactly when their rows satisfy every
    primary key, unique constraint and foreign key of the tables that the migrations
    build. *)
Theorem db_wf_is_schema d : db_wf d ↔ keyed d ∧ db_keys_ok (stored d).
Proof.
  split.
  - intros W. assert (keyed d) as K by (destruct W; by split). split; [exact K|].
    apply (stored_keys d K). destruct W. naive_solver.
  - intros [K Hk]. apply (stored_keys d K) in Hk. destruct K. split; naive_solver.
Qed.
