(* ===== verification/RedisQueue.v ===== *)
(** * The dispatch queue: [backend/common/redis_queue.py] and [dispatch.py]

    Each Redis command is one atomic action that may fail; a function that sends
    several commands is a program.  The synchronous and the asyncio variants
    send the same commands. *)

From S2P Require Import Prelude PyBase Models RedisServer Effects Database.



Section queue.
Context `{RedisServer, Postgres}.

(** ** Commands *)

(** [{"run_id": str(run_id)}] *)
Definition run_fields (member : string) : gmap string string := {[ "run_id"%string := member ]}.

Definition xadd_cmd (f : gmap string string) : M Z :=
  fault_point RedisError;;
  s ← read w_redis;
  modify_redis (λ s, (xadd f s).2);;
  mret (xadd f s).1.

Definition zadd_cmd (member : string) (score : Z) : M unit :=
  fault_point RedisError;; modify_redis (zadd member score).

Definition publish_cmd (m : string) : M unit :=
  fault_point RedisError;; modify_redis (publish_msg m).

Definition xlen_cmd : M Z :=
  fault_point RedisError;; read (λ w, Z.of_nat (length (rv_entries (view (w_redis w))))).

Definition zcard_cmd : M Z :=
  fault_point RedisError;; read (λ w, Z.of_nat (size (rv_delayed (view (w_redis w))))).

Definition xack_cmd (i : Z) : M unit :=
  fault_point RedisError;; modify_redis (xack i).

Definition xdel_cmd (i : Z) : M unit :=
  fault_point RedisError;; modify_redis (xdel i).

(** ** redis_queue.py *)

(** [ensure_group]: a BUSYGROUP reply means the group is there already. *)
Definition ensure_group : M unit :=
  fault_point RedisError;;
  modify_redis (λ s, match xgroup_create s with Some s' => s' | None => s end).

Definition ensure_group_async : M unit :=
  fault_point RedisError;;
  modify_redis (λ s, match xgroup_create s with Some s' => s' | None => s end).

(** The values the two gauges are set to. *)
Definition update_queue_gauges : prog (Z * Z) :=
  n ← call xlen_cmd; m ← call zcard_cmd; Ret (n, m).

Definition update_queue_gauges_async : prog (Z * Z) :=
  n ← call xlen_cmd; m ← call zcard_cmd; Ret (n, m).

(** [enqueue_run]: the message id, once the gauges are updated too. *)
Definition enqueue_run (run_id : Z) : prog Z :=
  message_id ← call (xadd_cmd (run_fields (py_str run_id)));
  update_queue_gauges;;
  Ret message_id.

Definition enqueue_run_async (run_id : Z) : prog Z :=
  message_id ← call (xadd_cmd (run_fields (py_str run_id)));
  update_queue_gauges_async;;
  Ret message_id.

Definition publish_cancel (run_id : Z) : prog unit := call (publish_cmd (py_str run_id)).

Definition schedule_delayed (run_id ready_at : Z) : prog unit :=
  call (zadd_cmd (py_str run_id) ready_at);; update_queue_gauges;; Ret tt.

Definition schedule_delayed_async (run_id ready_at : Z) : prog unit :=
  call (zadd_cmd (py_str run_id) ready_at);; update_queue_gauges_async;; Ret tt.

(** One turn of the script's loop: [ZREM], then [XADD]. *)
Definition promote_one (s : redis_state) (member : string) : redis_state :=
  (xadd (run_fields member) (zrem member s)).2.

(** [_PROMOTE_LUA], which the server runs as one command. *)
Definition promote_lua (now : Z) (s : redis_state) : Z * redis_state :=
  let due := zrangebyscore now s in
  (Z.of_nat (length due), foldl promote_one s due).

Definition promote_due_delayed (now : Z) : prog Z :=
  count ← call (fault_point RedisError;;
                s ← read w_redis;
                modify_redis (λ s, (promote_lua now s).2);;
                mret (promote_lua now s).1);
  update_queue_gauges;;
  Ret count.

(** [pending_count]: delivered but unacknowledged messages. *)
Definition pending_count : M Z :=
  fault_point RedisError;; read (λ w, Z.of_nat (length (rv_pel (view (w_redis w))))).

(** [_parse_run_id] of worker/main.py *)
Definition parse_run_id (fields : gmap string string) : option Z :=
  fields !! "run_id"%string ≫= py_int.

(** ** dispatch.py *)

(** [create_run]: the caller commits. *)
Definition create_run (job_id : Z) (tt : TriggerType) (scheduled_for : option Z)
    (attempt : Z) (status : RunStatus) : M JobRun :=
  insert_run job_id tt status attempt scheduled_for.

Definition publish (r : JobRun) : prog unit := enqueue_run (run_id r);; Ret tt.

Definition create_and_publish (job_id : Z) (tt : TriggerType) (attempt : Z) : prog JobRun :=
  r ← call (session_scope (create_run job_id tt None attempt QUEUED));
  publish r;;
  Ret r.

(** ** Facts *)

Lemma parse_run_fields i : parse_run_id (run_fields (py_str i)) = Some i.
Proof. unfold parse_run_id, run_fields. rewrite lookup_singleton_eq. apply py_int_str. Qed.

Lemma promote_one_view s m :
  ∃ i, rv_top (view s) < i ∧
    view (promote_one s m) =
      view_xadd i (run_fields m) (with_delayed (delete m (rv_delayed (view s))) (view s)).
Proof.
  unfold promote_one. destruct (xadd_view (run_fields m) (zrem m s)) as [Hi Hv].
  rewrite zrem_view in *. eauto.
Qed.

(** The script's loop over any list of members: they leave the sorted set, and
    one message each joins the stream, in their order, under fresh increasing
    identifiers; nothing else changes. *)
Lemma promote_fold s l :
  ∃ ids : list Z, length ids = length l ∧
    (∀ i, i ∈ ids → rv_top (view s) < i) ∧
    StronglySorted Z.lt ids ∧
    view (foldl promote_one s l) =
      with_stream (rv_entries (view s) ++ zip ids (run_fields <$> l))
        (default (rv_top (view s)) (last ids))
        (with_delayed (filter (λ p, p.1 ∉ l) (rv_delayed (view s))) (view s)).
Proof.
  revert s. induction l as [|m l IH]; intros s; simpl.
  - exists []. split; [done|]. split; [set_solver|]. split; [constructor|].
    rewrite app_nil_r, map_filter_id by set_solver. by destruct (view s).
  - destruct (promote_one_view s m) as (i & Hi & Hv).
    destruct (IH (promote_one s m)) as (ids & Hlen & Hlt & Hsort & Hview).
    rewrite Hv in *. simpl in *. exists (i :: ids). simpl. split; [by rewrite Hlen|].
    split; [|split].
    + intros k [->|Hk]%elem_of_cons; [done|]. specialize (Hlt k Hk). lia.
    + constructor; [done|]. apply Forall_forall. intros k Hk. by apply Hlt.
    + rewrite Hview. unfold with_stream, with_delayed. simpl. f_equal.
      * by rewrite <- app_assoc.
      * destruct ids as [|k ids]; [done|].
        assert (is_Some (last (k :: ids))) as [z Hz] by by apply last_is_Some.
        by rewrite last_cons_cons, Hz.
      * apply map_eq. intros k. apply option_eq. intros x.
        rewrite !map_lookup_filter_Some, lookup_delete_Some. set_solver.
Qed.

(** ** Appending to the stream *)

(** [v'] is [v] after one message per member was appended, in order, under fresh
    increasing identifiers. *)
Record appended (v : RedisView) (members : list string) (v' : RedisView) : Prop := {
  app_entries : ∃ ids : list Z, length ids = length members ∧
    rv_entries v' = rv_entries v ++ zip ids (run_fields <$> members) ∧
    StronglySorted Z.lt ids ∧ (∀ i, i ∈ ids → rv_top v < i ≤ rv_top v');
  app_top : rv_top v ≤ rv_top v';
  app_pel : rv_pel v' = rv_pel v;
  app_read : rv_read v' = rv_read v;
  app_group : rv_group v' = rv_group v
}.

Lemma zip_app {A B} (l1 l2 : list A) (k1 k2 : list B) :
  length l1 = length k1 → zip (l1 ++ l2) (k1 ++ k2) = zip l1 k1 ++ zip l2 k2.
Proof.
  revert k1. induction l1 as [|x l1 IH]; intros [|y k1] E; simplify_eq/=; [done|].
  by rewrite IH.
Qed.

Lemma appended_nil v : appended v [] v.
Proof.
  split; try done. exists []. rewrite app_nil_r. repeat split; try done; [constructor|set_solver..].
Qed.

Lemma appended_trans v l1 v1 l2 v2 :
  appended v l1 v1 → appended v1 l2 v2 → appended v (l1 ++ l2) v2.
Proof.
  intros [(ids1 & Hl1 & He1 & Hs1 & Hb1) Ht1 Hp1 Hr1 Hg1]
         [(ids2 & Hl2 & He2 & Hs2 & Hb2) Ht2 Hp2 Hr2 Hg2].
  split; [|lia|congruence..]. exists (ids1 ++ ids2).
  rewrite !length_app, fmap_app, He2, He1, zip_app, app_assoc by (by rewrite length_fmap).
  split; [lia|]. split; [done|]. split.
  - apply StronglySorted_app_2; [|done|done].
    intros x y Hx Hy. specialize (Hb1 x Hx). specialize (Hb2 y Hy). lia.
  - intros i [Hi|Hi]%elem_of_app; [specialize (Hb1 i Hi)|specialize (Hb2 i Hi)]; lia.
Qed.

Lemma appended_one s m : appended (view s) [m] (view (xadd (run_fields m) s).2).
Proof.
  destruct (xadd_view (run_fields m) s) as [Hi ->]. split; simpl; try done; [|lia].
  exists [(xadd (run_fields m) s).1]. split; [done|]. split; [done|].
  split; [repeat constructor|]. intros i ->%list_elem_of_singleton. lia.
Qed.

Lemma promote_delayed now s :
  rv_delayed (view (promote_lua now s).2) = filter (λ p, now < p.2) (rv_delayed (view s)).
Proof.
  destruct (promote_fold s (zrangebyscore now s)) as (ids & _ & _ & _ & Hview).
  unfold promote_lua. cbn [snd]. rewrite Hview. simpl. apply map_filter_ext. intros m x Hx.
  rewrite zrangebyscore_spec. split; [|naive_solver lia].
  intros Hn. destruct (decide (now < x)); [done|]. exfalso. apply Hn. exists x. by split; [|lia].
Qed.

Lemma last_max (ids : list Z) z :
  StronglySorted Z.lt ids → last ids = Some z → ∀ i, i ∈ ids → i ≤ z.
Proof.
  induction 1 as [|x l Hs IH Hx]; [done|]. destruct l as [|y l].
  - simpl. intros E i ->%list_elem_of_singleton. simplify_eq. lia.
  - rewrite last_cons_cons. intros E i [->|Hi]%elem_of_cons; [|by apply IH].
    rewrite Forall_forall in Hx. specialize (IH E y ltac:(set_solver)).
    specialize (Hx y ltac:(set_solver)). lia.
Qed.

Lemma promote_appended now s :
  appended (view s) (zrangebyscore now s) (view (promote_lua now s).2).
Proof.
  destruct (promote_fold s (zrangebyscore now s)) as (ids & Hlen & Hlt & Hsort & Hview).
  unfold promote_lua. cbn [snd]. rewrite Hview.
  assert (∀ i, i ∈ ids → i ≤ default (rv_top (view s)) (last ids)) as Hmax.
  { intros i Hi. destruct (last ids) as [z|] eqn:E; simpl; [by eapply last_max|].
    apply last_None in E as ->. set_solver. }
  split; simpl; try done.
  - exists ids. repeat split; try done; by auto.
  - destruct (last ids) as [z|] eqn:E; simpl; [|done].
    apply last_Some_elem_of in E. specialize (Hlt z E). lia.
Qed.

(** ** Executions without faults *)

Lemma run_update_queue_gauges w :
  w_faults w = [] → ∃ v, run update_queue_gauges w = (Ok v, w).
Proof.
  intros Hf. unfold update_queue_gauges. simpl. unfold xlen_cmd, zcard_cmd, mbind, M_bind,
    fault_point. rewrite Hf. simpl. rewrite Hf. simpl. eauto.
Qed.

Lemma run_enqueue_run i w :
  w_faults w = [] →
  run (enqueue_run i) w =
    (Ok (xadd (run_fields (py_str i)) (w_redis w)).1,
     with_redis (xadd (run_fields (py_str i)) (w_redis w)).2 w).
Proof.
  intros Hf. unfold enqueue_run. rewrite run_bind.
  erewrite bind_ok; [|rewrite run_call; unfold xadd_cmd, mbind, M_bind, fault_point;
    rewrite Hf; done].
  rewrite run_bind. destruct (run_update_queue_gauges
    (with_redis (xadd (run_fields (py_str i)) (w_redis w)).2 w)) as [v Hv]; [done|].
  by erewrite bind_ok.
Qed.

Lemma run_schedule_delayed i t w :
  w_faults w = [] →
  run (schedule_delayed_async i t) w = (Ok tt, with_redis (zadd (py_str i) t (w_redis w)) w).
Proof.
  intros Hf. unfold schedule_delayed_async.
  erewrite run_step by (unfold zadd_cmd, mbind, M_bind, fault_point; rewrite Hf; done).
  destruct (run_update_queue_gauges (with_redis (zadd (py_str i) t (w_redis w)) w)) as [v Hv];
    [done|]. by erewrite run_then.
Qed.

Lemma run_promote now w :
  w_faults w = [] →
  run (promote_due_delayed now) w =
    (Ok (promote_lua now (w_redis w)).1, with_redis (promote_lua now (w_redis w)).2 w).
Proof.
  intros Hf. unfold promote_due_delayed. rewrite run_bind.
  erewrite bind_ok; [|rewrite run_call; unfold mbind, M_bind, fault_point; rewrite Hf; done].
  rewrite run_bind. destruct (run_update_queue_gauges
    (with_redis (promote_lua now (w_redis w)).2 w)) as [v Hv]; [done|].
  by erewrite bind_ok.
Qed.

Lemma view_enqueue i s :
  view (xadd (run_fields (py_str i)) s).2 =
    view_xadd (xadd (run_fields (py_str i)) s).1 (run_fields (py_str i)) (view s).
Proof. apply xadd_view. Qed.

(** Publishing a list of runs, as the scheduler does. *)
Lemma run_enqueue_all l w :
  w_faults w = [] →
  ∃ s', run (pfor_each l (λ i, enqueue_run i;; Ret tt)) w = (Ok tt, with_redis s' w) ∧
    appended (view (w_redis w)) (py_str <$> l) (view s') ∧
    rv_delayed (view s') = rv_delayed (view (w_redis w)).
Proof.
  revert w. induction l as [|i l IH]; intros w Hf.
  - exists (w_redis w). split; [by destruct w|]. split; [apply appended_nil|done].
  - cbn [pfor_each fmap list_fmap]. set (s1 := (xadd (run_fields (py_str i)) (w_redis w)).2).
    destruct (IH (with_redis s1 w) Hf) as (s' & Hrun & Happ & Hdel).
    exists s'. split; [|split].
    + rewrite run_bind. erewrite bind_ok; [exact Hrun|].
      rewrite run_bind. by erewrite bind_ok; [|by apply run_enqueue_run].
    + apply (appended_trans _ [py_str i] (view s1)); [apply appended_one|done].
    + rewrite Hdel. simpl. unfold s1. by rewrite view_enqueue.
Qed.

(** The messages of a view that name run [i]. *)
Definition messages_for (i : Z) (v : RedisView) : list Z :=
  (filter (λ e, parse_run_id e.2 = Some i) (rv_entries v)).*1.

Lemma messages_for_xadd k i j v :
  messages_for i (view_xadd k (run_fields (py_str j)) v) =
    messages_for i v ++ (if decide (i = j) then [k] else []).
Proof.
  unfold messages_for, view_xadd. simpl. rewrite filter_app, fmap_app. f_equal.
  rewrite filter_cons. case_decide as Hd; cbn [snd] in Hd; rewrite parse_run_fields in Hd;
    case_decide; simplify_eq; done.
Qed.

(** A published run has one message more than before. *)
Lemma appended_messages v l v' i :
  appended v l v' → py_str i ∈ l →
  (length (messages_for i v) < length (messages_for i v'))%nat.
Proof.
  unfold messages_for. intros [(ids & Hlen & -> & _) _ _ _ _] Hi.
  rewrite !length_fmap, filter_app, length_app.
  apply list_elem_of_lookup in Hi as [n Hn].
  destruct (lookup_lt_is_Some_2 ids n) as [k Hk]; [rewrite Hlen; by eapply lookup_lt_Some|].
  assert ((k, run_fields (py_str i)) ∈ filter (λ e, parse_run_id e.2 = Some i)
    (zip ids (run_fields <$> l))) as Hin.
  { apply list_elem_of_filter. split; [apply parse_run_fields|].
    apply list_elem_of_lookup. exists n. rewrite lookup_zip_with, Hk. simpl.
    by rewrite list_lookup_fmap, Hn. }
  destruct (filter _ (zip _ _)); [set_solver|simpl; lia].
Qed.

(** C9: [promote_due_delayed] moves exactly the due runs: every member of the
    delayed set whose time has come leaves the set and gets one message, in the
    order of the scores, under fresh increasing identifiers; the returned count is
    their number; members that are not due, the consumer group and the other
    messages are untouched; and a second promotion at the same instant moves
    nothing, so no retry is promoted twice. *)
Theorem promote_due_delayed_exact (now : Z) (w : World) :
  w_faults w = [] →
  let v := view (w_redis w) in
  ∃ n w' (due : list string) (ids : list Z),
    run (promote_due_delayed now) w = (Ok n, w') ∧
    n = Z.of_nat (length due) ∧ NoDup due ∧
    (∀ m, m ∈ due ↔ ∃ x, rv_delayed v !! m = Some x ∧ x ≤ now) ∧
    Sorted Z.le (default 0 ∘ (rv_delayed v !!.) <$> due) ∧
    length ids = length due ∧ StronglySorted Z.lt ids ∧ (∀ i, i ∈ ids → rv_top v < i) ∧
    let v' := view (w_redis w') in
    rv_entries v' = rv_entries v ++ zip ids (run_fields <$> due) ∧
    rv_delayed v' = filter (λ p, now < p.2) (rv_delayed v) ∧
    rv_pel v' = rv_pel v ∧ rv_read v' = rv_read v ∧ rv_group v' = rv_group v ∧
    w_db w' = w_db w ∧
    (run (promote_due_delayed now) w').1 = Ok 0.
Proof.
  intros Hf v. set (due := zrangebyscore now (w_redis w)).
  destruct (promote_fold (w_redis w) due) as (ids & Hlen & Hlt & Hsort & Hview).
  set (s' := (promote_lua now (w_redis w)).2). change (foldl _ _ due) with s' in Hview.
  pose proof (promote_delayed now (w_redis w)) as Hdel. fold s' v in Hdel.
  assert (zrangebyscore now s' = []) as Hnil.
  { apply elem_of_nil_inv. intros m [x [Hx Hle]]%zrangebyscore_spec.
    rewrite Hdel in Hx. apply map_lookup_filter_Some in Hx as [_ ?]. simpl in *. lia. }
  exists (Z.of_nat (length due)), (with_redis s' w), due, ids. split; [by apply run_promote|].
  split; [done|]. split; [apply zrangebyscore_nodup|]. split; [apply zrangebyscore_spec|].
  split; [apply zrangebyscore_sorted|]. do 3 (split; [done|]).
  cbn [w_redis with_redis]. split; [by rewrite Hview|]. split; [done|].
  do 3 (split; [by rewrite Hview|]). split; [done|].
  rewrite run_promote by done. unfold promote_lua. cbn [fst snd w_redis with_redis].
  by rewrite Hnil.
Qed.

End queue.

#[export] Hint Extern 4 (respects _ (create_run _ _ _ _ _)) => apply steps_respects, steps_insert_run; apply _ : respect.

(** ** Evaluation on the reference server *)

#[local] Existing Instances reference_redis reference_pg.

Definition demo_world `{RedisServer} (s : redis_state) (d : Db) (now : Z) : World :=
  {| w_db := d; w_saved := d; w_redis := s; w_clock := now; w_faults := [];
     w_bufs := ∅; w_next_buf := 0; w_mem := ∅ |}.

(** Two delayed runs, one of them due. *)
Definition demo_delayed : RedisView :=
  with_delayed (<["7"%string := 50]> (<["8"%string := 500]> ∅)) empty_view.

Lemma promote_due_delayed_exact_witness :
  let w := demo_world demo_delayed empty_db 100 in
  ∃ n w', run (promote_due_delayed 100) w = (Ok n, w') ∧ n = 1 ∧
    rv_delayed (w_redis w' : RedisView) = {[ "8"%string := 500 ]}.
Proof.
  intros w. destruct (promote_due_delayed_exact 100 w eq_refl)
    as (n & w' & due & ids & Hrun & Hn & Hnd & Hdue & Hs & Hl & Hss & Hlt & He & Hd & _).
  exists n, w'. split; [exact Hrun|]. split.
  - injection Hrun as <- _. reflexivity.
  - etransitivity; [exact Hd|]. vm_compute. reflexivity.
Defined.
