(* ===== verification/Cron.v ===== *)
(** * Fire times: [backend/scheduler/cron.py]

    Times are microseconds since the epoch in UTC.  [croniter] and the time zone
    database are parameters: [cron_next] is [croniter(expr, local).get_next]
    converted back to UTC, of which the code relies on what its documentation
    says: the next fire time is strictly later, and an expression is split at white space,
    so blanks at its end mean nothing. *)

From S2P Require Import Prelude PyBase Models RedisServer Effects.

Class Croniter := {
  cron_next : string → string → Z → Res Z;
  cron_is_valid : string → bool;
  zone_known : string → bool;
  cron_next_after : ∀ expr zone t t', cron_next expr zone t = Ok t' → t < t';
  cron_valid_blanks : ∀ expr blanks, all_blank blanks = true →
    cron_is_valid (expr ++ blanks) = cron_is_valid expr
}.

(** ** Date arithmetic *)

Definition usec : Z := 1000000.
(** [datetime.max] in microseconds: 9999-12-31T23:59:59.999999Z. *)
Definition datetime_max : Z := 253402300799999999.
(** [timedelta.max.days] *)
Definition timedelta_max_days : Z := 999999999.

(** [t + timedelta(seconds=s)] for a non-negative [s]. *)
Definition add_seconds (t s : Z) : Res Z :=
  if timedelta_max_days <? s / 86400 then Raise OverflowError
  else if datetime_max <? t + s * usec then Raise OverflowError
  else Ok (t + s * usec).

(** ** cron.py *)

Section cron.
Context `{Croniter}.

Definition zone (tz_name : string) : string :=
  if zone_known tz_name then tz_name else "UTC".

(** [not schedule_expr] *)
Definition empty_expr (e : option string) : bool :=
  match e with None => true | Some e => String.eqb e "" end.

Definition next_run_time (schedule_type : string) (schedule_expr : option string)
    (tz_name : string) (after : Z) : Res (option Z) :=
  if String.eqb schedule_type ScheduleType.CRON then
    match schedule_expr with
    | None => Ok None
    | Some e =>
        if String.eqb e "" then Ok None
        else nxt ← cron_next e (zone tz_name) after; Ok (Some nxt)
    end
  else if String.eqb schedule_type ScheduleType.INTERVAL then
    match schedule_expr with
    | None => Ok None
    | Some e =>
        if String.eqb e "" || negb (isdigit e) then Ok None
        else match py_int e with
             | None => Raise (ValueError "invalid literal for int()")
             | Some seconds =>
                 if seconds <=? 0 then Ok None
                 else t ← add_seconds after seconds; Ok (Some t)
             end
    end
  else Ok None.

(** One turn of the [while True] of [due_tick]: the state is [tick]. *)
Definition due_step (next : Z → Res (option Z)) (now tick : Z) : Z + Res (option Z) :=
  match next tick with
  | Raise e => inr (Raise e)
  | Ok None => inr (Ok (Some tick))
  | Ok (Some nxt) => if now <? nxt then inr (Ok (Some tick)) else inl nxt
  end.

(** [due_tick]; every turn moves [tick] forward, so [now - tick] turns suffice. *)
Definition due_tick (schedule_type : string) (schedule_expr : option string)
    (tz_name : string) (base now : Z) : Res (option Z) :=
  let next := next_run_time schedule_type schedule_expr tz_name in
  tick ← next base;
  match tick with
  | None => Ok None
  | Some tick =>
      if now <? tick then Ok None
      else match loop_pos (Z.to_pos (now - tick + 1)) (due_step next now) tick with
           | inr r => r
           | inl _ => Raise Diverged
           end
  end.

(** ** Specification *)

(** The fire times of a schedule anchored at [base]. *)
Inductive fires (next : Z → Res (option Z)) (base : Z) : Z → Prop :=
  | fires_first t : next base = Ok (Some t) → fires next base t
  | fires_next t t' : fires next base t → next t = Ok (Some t') → fires next base t'.

(** ** Lemmas *)

Lemma next_run_time_after st se tz t t' :
  next_run_time st se tz t = Ok (Some t') → t < t'.
Proof.
  unfold next_run_time, mbind, Res_bind, add_seconds, usec.
  repeat case_match; intros; simplify_eq.
  - by eapply cron_next_after.
  - match goal with Hs : (_ <=? _) = false |- _ => apply Z.leb_gt in Hs end. lia.
Qed.

Section fire_times.
Context (next : Z → Res (option Z)).
Hypothesis Hnext : ∀ t t', next t = Ok (Some t') → t < t'.

Lemma fires_after base t : fires next base t → base < t.
Proof.
  induction 1 as [t Ht|t t' _ IH Ht]; [by apply Hnext|]. apply Hnext in Ht. lia.
Qed.

(** The fire times from [base] on are the first one and those after it. *)
Lemma fires_inv base t t1 :
  next base = Ok (Some t1) → fires next base t → t = t1 ∨ fires next t1 t.
Proof.
  intros H1. induction 1 as [t Ht|t t' _ IH Ht]; [left; congruence|right].
  destruct IH as [->|IH]; [by apply fires_first|by eapply fires_next].
Qed.

Lemma due_loop_spec base now tick :
  fires next base tick → tick ≤ now →
  (∀ t, fires next base t → t ≤ tick ∨ fires next tick t) →
  ∃ r, loop_pos (Z.to_pos (now - tick + 1)) (due_step next now) tick = inr r ∧
    match r with
    | Ok None => False
    | Ok (Some t) => fires next base t ∧ t ≤ now ∧
        (∀ t', fires next base t' → t' ≤ now → t' ≤ t) ∧ (∀ e, next t ≠ Raise e)
    | Raise e => ∃ t, fires next base t ∧ t ≤ now ∧ next t = Raise e
    end.
Proof.
  intros Hf Hle Hsplit.
  apply (loop_pos_total _ (λ t, fires next base t ∧ t ≤ now ∧
    ∀ t', fires next base t' → t' ≤ t ∨ fires next t t') (λ t, now - t)); [done|lia| |lia].
  clear tick Hf Hle Hsplit. intros tick (Hf & Hle & Hsplit).
  unfold due_step. destruct (next tick) as [[nxt|]|e] eqn:E.
  - destruct (Z.ltb_spec now nxt) as [Hlt|Hge].
    + split; [done|]. split; [done|]. split; [|congruence]. intros t' Ht' Hn.
      destruct (Hsplit t' Ht') as [?|Hafter]; [done|].
      destruct (fires_inv _ _ _ E Hafter) as [->|Hx]; [lia|].
      apply fires_after in Hx. lia.
    + pose proof (Hnext _ _ E). split; [|lia]. split; [by eapply fires_next|].
      split; [lia|]. intros t' Ht'.
      destruct (Hsplit t' Ht') as [?|Hafter]; [left; lia|].
      destruct (fires_inv _ _ _ E Hafter) as [->|Hx]; [left; lia|by right].
  - split; [done|]. split; [done|]. split; [|congruence]. intros t' Ht' Hn.
    destruct (Hsplit t' Ht') as [?|Hafter]; [done|].
    clear -Hafter E. exfalso. induction Hafter; congruence.
  - eauto.
Qed.

End fire_times.

Lemma due_tick_cases st se tz base now :
  let next := next_run_time st se tz in
  match due_tick st se tz base now with
  | Ok (Some t) => fires next base t ∧ base < t ≤ now ∧
      (∀ t', fires next base t' → t' ≤ now → t' ≤ t) ∧ (∀ e, next t ≠ Raise e)
  | Ok None => ∀ t', fires next base t' → now < t'
  | Raise e => next base = Raise e ∨ ∃ t, fires next base t ∧ t ≤ now ∧ next t = Raise e
  end.
Proof.
  intros next. pose proof (next_run_time_after st se tz) as Hnext. fold next in Hnext.
  unfold due_tick. fold next. unfold mbind, Res_bind.
  destruct (next base) as [[t1|]|e] eqn:E; [| |by left].
  - destruct (Z.ltb_spec now t1) as [Hlt|Hge].
    + intros t' Ht'. destruct (fires_inv _ _ _ _ E Ht') as [->|Hx]; [done|].
      apply (fires_after _ Hnext) in Hx. lia.
    + destruct (due_loop_spec next Hnext base now t1) as (r & -> & Hr);
        [by apply fires_first|done| |].
      { intros t Ht. destruct (fires_inv _ _ _ _ E Ht) as [->|?]; [left; lia|by right]. }
      destruct r as [[t|]|e]; [|done|by right].
      destruct Hr as (Hf & Hle & Hmax & Hok). repeat split; try done.
      by apply (fires_after _ Hnext) in Hf.
  - intros t' Ht'. exfalso. clear -Ht' E. induction Ht'; congruence.
Qed.

(** Nothing is due at [now] after the latest due tick. *)
Lemma due_tick_again st se tz base now t :
  due_tick st se tz base now = Ok (Some t) → due_tick st se tz t now = Ok None.
Proof.
  intros Hdue. pose proof (due_tick_cases st se tz base now) as Hc. rewrite Hdue in Hc.
  cbv zeta in Hc. destruct Hc as (Hf & _ & Hmax & Hok). unfold due_tick, mbind, Res_bind.
  destruct (next_run_time st se tz t) as [[t'|]|e] eqn:E; [|done|by destruct (Hok e)].
  destruct (Z.ltb_spec now t'); [done|].
  assert (t' ≤ t) by (apply Hmax; [by eapply fires_next|done]).
  apply next_run_time_after in E. lia.
Qed.

(** C8: [due_tick] returns, for every schedule, the most recent fire time that is
    due: a fire time strictly after [base], at most [now], and not before any
    other due fire time, so missed ticks collapse to the latest; asked again from
    that tick it finds nothing more due.  It returns None exactly when no fire
    time is due, and it raises only what the computation of a fire time raises;
    the loop always terminates. *)
Theorem due_tick_latest (st : string) (se : option string) (tz : string) (base now : Z) :
  let next := next_run_time st se tz in
  match due_tick st se tz base now with
  | Ok (Some t) => fires next base t ∧ base < t ≤ now ∧
      (∀ t', fires next base t' → t' ≤ now → t' ≤ t) ∧
      due_tick st se tz t now = Ok None
  | Ok None => ∀ t', fires next base t' → now < t'
  | Raise e => next base = Raise e ∨ ∃ t, fires next base t ∧ t ≤ now ∧ next t = Raise e
  end.
Proof.
  intros next. pose proof (due_tick_cases st se tz base now) as Hc. cbv zeta in Hc. fold next in Hc.
  destruct (due_tick st se tz base now) as [[t|]|e] eqn:E; [|done|done].
  destruct Hc as (Hf & Hle & Hmax & _). repeat split; try done; try lia.
  by eapply due_tick_again.
Qed.

(** ** Interval schedules *)

(** A schedule expression that denotes [n > 0] seconds. *)
Definition interval_expr (e : string) (n : Z) : Prop :=
  isdigit e = true ∧ py_int e = Some n ∧ 0 < n.

Lemma next_run_time_interval e n tz t :
  interval_expr e n →
  next_run_time ScheduleType.INTERVAL (Some e) tz t = (t' ← add_seconds t n; Ok (Some t')).
Proof.
  intros (Hd & Hn & Hpos). unfold next_run_time. simpl. rewrite Hd, Hn.
  destruct (String.eqb_spec e ""); [by subst|]. simpl.
  destruct (Z.leb_spec n 0); [lia|done].
Qed.

Lemma add_seconds_ok t s :
  0 ≤ t → 0 ≤ s → t + s * usec ≤ datetime_max → add_seconds t s = Ok (t + s * usec).
Proof.
  unfold add_seconds, usec, datetime_max, timedelta_max_days. intros Ht Hs Hle.
  destruct (Z.ltb_spec 999999999 (s / 86400)) as [Hd|_].
  - exfalso. pose proof (Z.mul_div_le s 86400). lia.
  - destruct (Z.ltb_spec 253402300799999999 (t + s * 1000000)); [lia|done].
Qed.

Lemma add_seconds_overflow t s :
  datetime_max < t + s * usec → add_seconds t s = Raise OverflowError.
Proof.
  unfold add_seconds. intros Hgt. destruct (Z.ltb_spec datetime_max (t + s * usec)); [|lia].
  by destruct (_ <? _).
Qed.

Lemma interval_fires e n tz base t :
  interval_expr e n → 0 ≤ base →
  fires (next_run_time ScheduleType.INTERVAL (Some e) tz) base t →
  ∃ k, 1 ≤ k ∧ t = base + k * (n * usec).
Proof.
  intros He Hb. assert (∀ a b, next_run_time ScheduleType.INTERVAL (Some e) tz a = Ok (Some b) →
    b = a + n * usec) as Hstep.
  { intros a b. rewrite (next_run_time_interval e n) by done.
    unfold add_seconds, mbind, Res_bind. repeat case_match; intros; simplify_eq. done. }
  induction 1 as [t Ht|t t' _ (k & Hk & ->) Ht].
  - exists 1. apply Hstep in Ht. lia.
  - exists (k + 1). apply Hstep in Ht. lia.
Qed.

Lemma fires_interval e n tz base k :
  interval_expr e n → 0 ≤ base → 1 ≤ k → base + k * (n * usec) ≤ datetime_max →
  fires (next_run_time ScheduleType.INTERVAL (Some e) tz) base (base + k * (n * usec)).
Proof.
  intros He Hb Hk. revert k Hk.
  refine (Zlt_lower_bound_ind (λ k, _ → fires _ base (base + k * (n * usec))) 1 _).
  intros k IH Hk Hle.
  destruct He as (Hd & Hn & Hpos). unfold usec in *.
  assert (add_seconds (base + (k - 1) * (n * 1000000)) n = Ok (base + k * (n * 1000000))) as Hadd.
  { rewrite add_seconds_ok; unfold usec; [f_equal; lia|nia|lia|nia]. }
  destruct (decide (k = 1)) as [->|Hne].
  - apply fires_first. rewrite (next_run_time_interval e n) by done.
    replace (base + (1 - 1) * (n * 1000000)) with base in Hadd by lia. by rewrite Hadd.
  - eapply fires_next; [apply (IH (k - 1)); nia|].
    rewrite (next_run_time_interval e n) by done. by rewrite Hadd.
Qed.

(** For an interval of [n] seconds [due_tick] is the closed form the loop
    stands for: nothing before the first interval has passed, and then the last
    multiple of the interval counted from [base] that is at most [now] (as long
    as the calendar does not end within one interval of [now]). *)
Theorem due_tick_interval (e : string) (n : Z) (tz : string) (base now : Z) :
  interval_expr e n → 0 ≤ base → 0 ≤ now → now + n * usec ≤ datetime_max →
  base + n * usec ≤ datetime_max →
  due_tick ScheduleType.INTERVAL (Some e) tz base now =
    if now <? base + n * usec then Ok None
    else Ok (Some (base + (now - base) / (n * usec) * (n * usec))).
Proof.
  intros He Hb Hnow Hmax Hmaxb. pose proof He as (_ & _ & Hpos).
  assert (0 < n * usec) as Hs by (unfold usec; lia).
  pose proof (due_tick_cases ScheduleType.INTERVAL (Some e) tz base now) as Hspec.
  cbv zeta in Hspec. set (next := next_run_time _ _ _) in *.
  assert (∀ t, 0 ≤ t → t ≤ Z.max base now → ∃ t', next t = Ok (Some t')) as Hok.
  { intros t Ht Hle. subst next. rewrite (next_run_time_interval e n) by done.
    rewrite add_seconds_ok; [by eauto|done|lia|lia]. }
  pose proof (fires_after _ (next_run_time_after ScheduleType.INTERVAL (Some e) tz) base) as Haft.
  destruct (due_tick _ _ _ _ _) as [[t|]|x] eqn:Ed.
  - destruct Hspec as (Hf & [Hlo Hhi] & Hlast & _).
    destruct (interval_fires e n tz base t He Hb Hf) as (k & Hk & ->).
    destruct (Z.ltb_spec now (base + n * usec)); [nia|]. do 3 f_equal. f_equal.
    pose proof (Z.mul_div_le (now - base) (n * usec) Hs).
    pose proof (Z.mul_succ_div_gt (now - base) (n * usec) Hs).
    assert (1 ≤ (now - base) / (n * usec)) by (apply Z.div_le_lower_bound; lia).
    assert (base + (now - base) / (n * usec) * (n * usec) ≤ base + k * (n * usec)).
    { apply Hlast; [apply fires_interval; [done|done|done|nia]|nia]. }
    nia.
  - destruct (Z.ltb_spec now (base + n * usec)) as [|Hge]; [done|]. exfalso.
    specialize (Hspec (base + 1 * (n * usec))).
    assert (fires next base (base + 1 * (n * usec))) as Hfire
      by (apply fires_interval; [done|done|lia|lia]).
    specialize (Hspec Hfire). lia.
  - exfalso. destruct Hspec as [Hx|(t & Hf & Hle & Hx)].
    + destruct (Hok base) as [? ?]; [lia|lia|congruence].
    + specialize (Haft t Hf). destruct (Hok t) as [? ?]; [lia|lia|congruence].
Qed.

End cron.

(** A cron library that fires on every full minute and knows every zone. *)
#[refine] Definition reference_croniter : Croniter := {|
  cron_next expr z t := Ok ((t / (60 * usec) + 1) * (60 * usec));
  cron_is_valid expr := negb (all_blank expr);
  zone_known z := true
|}.
Proof.
  - intros expr z t t' E. simplify_eq. unfold usec.
    pose proof (Z.mul_succ_div_gt t (60 * 1000000)). lia.
  - intros expr blanks Hb. by rewrite all_blank_app, Hb, andb_true_r.
Defined.

Lemma due_tick_latest_witness :
  let next := @next_run_time reference_croniter ScheduleType.CRON (Some "* * * * *"%string) "UTC" in
  @due_tick reference_croniter ScheduleType.CRON (Some "* * * * *"%string) "UTC" 0
    (200 * usec) = Ok (Some (180 * usec)) ∧
  fires next 0 (180 * usec) ∧
  (∀ t', fires next 0 t' → t' ≤ 200 * usec → t' ≤ 180 * usec).
Proof.
  intros next. split; [vm_compute; reflexivity|].
  destruct (@due_tick_latest reference_croniter ScheduleType.CRON (Some "* * * * *"%string) "UTC"
    0 (200 * usec)) as (Hf & _ & Hlast & _). by split.
Defined.

Lemma due_tick_interval_witness :
  interval_expr "5" 5 ∧
  @due_tick reference_croniter ScheduleType.INTERVAL (Some "5"%string) "UTC"
    (10 * usec) (17 * usec) = Ok (Some (15 * usec)).
Proof.
  assert (interval_expr "5" 5) as He by (repeat split; done).
  split; [exact He|].
  rewrite (@due_tick_interval reference_croniter "5" 5 "UTC" (10 * usec) (17 * usec) He);
    vm_compute; congruence || reflexivity.
Defined.
