(* ===== verification/Retry.v ===== *)
(** * Retry policy: [backend/worker/executors/retry.py] *)

From S2P Require Import Prelude PyBase Models.

Section retry.
Context `{Settings}.

Definition should_retry (attempt max_retries : Z) : bool := attempt <=? max_retries.

Definition backoff_seconds (attempt base_sec : Z) : Z :=
  if base_sec <=? 0 then 0
  else Z.min (base_sec * 2 ^ Z.max 0 (attempt - 1)) retry_backoff_max_sec.

(** The delay before a retry starts at the job's base delay, doubles with
    every further attempt and stops at the configured maximum: it is never
    negative, never above the maximum, and never shrinks from one attempt to the
    next; a base of zero disables it. *)
Theorem backoff_exponential_capped (attempt base : Z) :
  1 ≤ attempt → 0 ≤ retry_backoff_max_sec →
  0 ≤ backoff_seconds attempt base ≤ retry_backoff_max_sec ∧
  (base ≤ 0 → backoff_seconds attempt base = 0) ∧
  (0 < base →
    backoff_seconds 1 base = Z.min base retry_backoff_max_sec ∧
    backoff_seconds (attempt + 1) base =
      Z.min (2 * backoff_seconds attempt base) retry_backoff_max_sec ∧
    backoff_seconds attempt base ≤ backoff_seconds (attempt + 1) base).
Proof.
  intros Ha Hcap. unfold backoff_seconds.
  replace (Z.max 0 (attempt - 1)) with (attempt - 1) by lia.
  replace (Z.max 0 (attempt + 1 - 1)) with (Z.succ (attempt - 1)) by lia.
  rewrite Z.pow_succ_r by lia. pose proof (Z.pow_pos_nonneg 2 (attempt - 1)) as Hp.
  set (p := 2 ^ (attempt - 1)) in *. change (2 ^ Z.max 0 (1 - 1)) with 1.
  destruct (Z.leb_spec base 0); [lia|]. assert (0 < p) by lia.
  assert (0 < base * p) by nia. replace (base * (2 * p)) with (2 * (base * p)) by ring. lia.
Qed.

End retry.

Lemma backoff_exponential_capped_witness :
  @backoff_seconds default_settings 3 30 = 120 ∧
  (0 < 30 → @backoff_seconds default_settings (3 + 1) 30 =
              Z.min (2 * @backoff_seconds default_settings 3 30) 3600).
Proof.
  split; [reflexivity|]. intros Hb.
  destruct (@backoff_exponential_capped default_settings 3 30 ltac:(lia) ltac:(vm_compute; discriminate))
    as (_ & _ & H). by apply H.
Defined.
