(* ===== verification/Demo.v ===== *)
(** * Sample tables

    Small databases, filled through the model's own statements, on which the
    theorems of the other files are evaluated. *)

From S2P Require Import Prelude PyBase Models RedisServer Effects Database RedisQueue Cron.

#[export] Existing Instances reference_redis reference_pg default_settings reference_croniter.

Definition demo_user (n : string) (i : Z) : User :=
  {| user_id := i; username := n; email := None; password_hash := ""; is_active := true;
     user_created_at := 0; user_updated_at := 0 |}.

Definition demo_job (n st : string) (se : option string) (i : Z) : Job :=
  {| job_id := i; owner_user_id := Some 1; name := n; description := None; category := None;
     task_type := TaskType.SHELL; task_spec := [("command"%string, JStr "true")];
     schedule_type := st; schedule_expr := se; timezone := "UTC"; enabled := true;
     max_retries := 2; retry_backoff_sec := 30; timeout_sec := 300;
     last_scheduled_for := None; job_created_at := 0; job_updated_at := 0 |}.

Definition demo_start : World := @demo_world reference_redis empty_view empty_db 0.

(** The tables after a setup action on an empty database. *)
Definition demo_db (setup : M unit) : Db :=
  w_db (setup demo_start).2.

Lemma db_wf_empty : db_wf empty_db.
Proof. split; done. Qed.

Lemma db_wf_demo setup : steps evolves setup → db_wf (demo_db setup).
Proof.
  intros Hs. destruct (Hs demo_start) as [_ Hev].
  apply Hev, db_wf_empty.
Qed.

Lemma steps_demo_user n : steps evolves (insert_user (demo_user n)).
Proof. by apply steps_insert_user. Qed.

Lemma steps_demo_job n st se : steps evolves (insert_job (demo_job n st se)).
Proof. by apply steps_insert_job. Qed.

#[export] Hint Resolve steps_demo_user steps_demo_job : respect.

(** Closes [steps evolves setup] for a sequence of statements. *)
Ltac demo_steps :=
  repeat first [ solve [eauto with respect]
               | apply steps_bind; [apply _| |intros ?] ].

Lemma clean_demo s d now : clean (@demo_world reference_redis s d now).
Proof. reflexivity. Qed.

Lemma quiet_demo s d now : w_faults (@demo_world reference_redis s d now) = [].
Proof. reflexivity. Qed.
