(* ===== verification/Scheduler.v ===== *)
(** * The scheduler tick: [backend/scheduler/main.py]

    [tick] is what the leader does every few seconds: promote due retries,
    create the runs of due cron and interval jobs in one transaction, publish
    them, and publish again the runs that have been queued for too long. *)

From S2P Require Import Prelude PyBase Models RedisServer Effects Database RedisQueue Cron Demo.

Section scheduler.
Context `{RedisServer, Postgres, Settings, Croniter}.

(** [Job.enabled.is_(True), Job.schedule_type.in_([CRON, INTERVAL])] *)
Definition schedulable (j : Job) : Prop :=
  enabled j = true ∧ schedule_type j ∈ [ScheduleType.CRON; ScheduleType.INTERVAL].
#[global] Instance schedulable_dec j : Decision (schedulable j).
Proof. unfold schedulable. apply _. Defined.

(** [due_tick] of a job, anchored on its last tick or its creation. *)
Definition job_due (now : Z) (j : Job) : Res (option Z) :=
  due_tick (schedule_type j) (schedule_expr j) (timezone j)
    (default (job_created_at j) (last_scheduled_for j)) now.

(** The [try] around the insertion of one tick: a taken tick is not an error. *)
Definition create_tick (j : Job) (t : Z) : M (option Z) :=
  savepoint
    (r ← insert_run (job_id j) SCHEDULED QUEUED 1 (Some t);
     touch_job (job_id j) t;;
     mret (Some (run_id r)))
    (λ e, match e with
          | IntegrityError => touch_job (job_id j) t;; mret None
          | e => raise e
          end).

(** The [for] loop, with the list it appends to. *)
Fixpoint schedule_loop (now : Z) (jobs : list Job) (enqueued : list Z) : M (list Z) :=
  match jobs with
  | [] => mret enqueued
  | j :: jobs =>
      tick ← lift (job_due now j);
      match tick with
      | None => schedule_loop now jobs enqueued
      | Some t =>
          i ← create_tick j t;
          schedule_loop now jobs (enqueued ++ option_list i)
      end
  end.

Definition schedule_due_jobs (now : Z) : M (list Z) :=
  js ← select_jobs schedulable; schedule_loop now js [].

(** [JobRun.status == QUEUED, JobRun.created_at < cutoff] *)
Definition orphaned (now : Z) (r : JobRun) : Prop :=
  status r = QUEUED ∧ run_created_at r < now - orphan_requeue_after_sec * usec.
#[global] Instance orphaned_dec now r : Decision (orphaned now r).
Proof. unfold orphaned. apply _. Defined.

Definition requeue_orphans (now : Z) : M (list Z) :=
  rows ← select_runs (orphaned now); mret (run_id <$> rows).

Definition tick : prog unit :=
  now ← call utcnow;
  promote_due_delayed now;;
  so ← call (session_scope (scheduled ← schedule_due_jobs now;
                            orphans ← requeue_orphans now;
                            mret (scheduled, orphans)));
  pfor_each so.1 (λ i, enqueue_run i;; Ret tt);;
  pfor_each so.2 (λ i, enqueue_run i;; Ret tt);;
  call pending_count;;
  Ret tt.

(** ** Invariants *)

Lemma create_tick_steps j t : steps evolves (create_tick j t).
Proof.
  apply steps_savepoint; [apply _| |].
  - apply steps_bind; [apply _|apply steps_insert_run|]. intros r.
    apply steps_bind; [apply _|apply steps_touch_job|]. intros _. apply steps_ret, _.
  - intros e. destruct e; try (apply steps_raise, _).
    apply steps_bind; [apply _|apply steps_touch_job|]. intros _. apply steps_ret, _.
Qed.

Lemma schedule_loop_steps now js acc : steps evolves (schedule_loop now js acc).
Proof.
  revert acc. induction js as [|j js IH]; intros acc; simpl; [apply steps_ret, _|].
  apply steps_bind; [apply _|apply steps_lift, _|]. intros [t|]; [|done].
  apply steps_bind; [apply _|apply create_tick_steps|]. intros i. apply IH.
Qed.

Lemma schedule_due_jobs_steps now : steps evolves (schedule_due_jobs now).
Proof.
  apply steps_bind; [apply _|apply steps_read, _|]. intros js. apply schedule_loop_steps.
Qed.

(** ** What the loop does *)

(** The job row after its tick [t] was handled at time [c]. *)
Definition ticked (c t : Z) (j : Job) : Job := set_job_updated_at c (set_last_scheduled_for t j).

(** The run created for tick [t] of job [k]. *)
Definition tick_run (i k t c : Z) : JobRun := new_run i k SCHEDULED QUEUED 1 (Some t) c.

(** The tables after the tick [t] of job [k] was handled. *)
Definition tick_db (d : Db) (k t c : Z) : Db :=
  let d' := if decide (tick_free d k (Some t))
            then with_runs (<[runs_seq d := tick_run (runs_seq d) k t c]> (runs d)) (next_runs d)
            else next_runs d in
  with_jobs (alter (ticked c t) k (jobs d)) d'.

Lemma create_tick_eq j t w :
  is_Some (jobs (w_db w) !! job_id j) →
  create_tick j t w =
    (Ok (if decide (tick_free (w_db w) (job_id j) (Some t)) then Some (runs_seq (w_db w)) else None),
     with_db (tick_db (w_db w) (job_id j) t (w_clock w)) w).
Proof.
  intros Hj. unfold create_tick, savepoint, mbind, M_bind, insert_run, tick_db.
  destruct (decide (tick_free (w_db w) (job_id j) (Some t))) as [Hf|Hf].
  - rewrite decide_True by done. done.
  - rewrite decide_False by naive_solver. done.
Qed.

(** Handling a tick of one job does not touch the ticks of another. *)
Lemma tick_free_other d k t c k' t' :
  k ≠ k' → (∀ i r, runs d !! i = Some r → i < runs_seq d) →
  tick_free (tick_db d k t c) k' (Some t') ↔ tick_free d k' (Some t').
Proof.
  intros Hne Hseq. unfold tick_db. case_decide as Hf; simpl; [|done].
  rewrite map_Forall_insert; [|by destruct (runs d !! runs_seq d) eqn:E; [apply Hseq in E; lia|]].
  split; [naive_solver|]. intros Hall. split; [|done]. intros [? _]. by simpl in *.
Qed.

Lemma tick_db_seq d k t c : runs_seq (tick_db d k t c) = runs_seq d + 1.
Proof. unfold tick_db. by case_decide. Qed.

Lemma tick_db_bound d k t c :
  (∀ i r, runs d !! i = Some r → i < runs_seq d) →
  ∀ i r, runs (tick_db d k t c) !! i = Some r → i < runs_seq (tick_db d k t c).
Proof.
  intros Hseq i r. rewrite tick_db_seq. unfold tick_db. case_decide; simpl.
  - intros [[<- _]|[_ Hi]]%lookup_insert_Some; [lia|]. apply Hseq in Hi. lia.
  - intros Hi. apply Hseq in Hi. lia.
Qed.

(** The jobs of the loop, as rows of [d]. *)
Definition rows_of (d : Db) (js : list Job) : Prop :=
  NoDup (job_id <$> js) ∧ ∀ j, j ∈ js → jobs d !! job_id j = Some j.

Lemma rows_of_tail d k t c j js :
  rows_of d (j :: js) → k = job_id j → rows_of (tick_db d k t c) js.
Proof.
  intros [Hnd Hrows] ->. inversion Hnd as [|? ? Hnin Hnd']; subst. split; [done|].
  intros j' Hj'. unfold tick_db. simpl. rewrite lookup_alter_ne; [by apply Hrows; set_solver|].
  intros E. apply Hnin. rewrite E. by apply list_elem_of_fmap_2.
Qed.

(** What [schedule_loop] leaves when it returns [new] for the jobs [js]. *)
Record scheduled (now c : Z) (js : list Job) (d : Db) (new : list Z) (d' : Db) : Prop := {
  sch_only : ∀ i r, runs d' !! i = Some r →
    runs d !! i = Some r ∨
    i ∈ new ∧ ∃ j t, j ∈ js ∧ job_due now j = Ok (Some t) ∧
      tick_free d (job_id j) (Some t) ∧ r = tick_run i (job_id j) t c;
  sch_keep : ∀ i r, runs d !! i = Some r → runs d' !! i = Some r;
  sch_new : ∀ j t, j ∈ js → job_due now j = Ok (Some t) → tick_free d (job_id j) (Some t) →
    ∃ i, i ∈ new ∧ runs d' !! i = Some (tick_run i (job_id j) t c);
  sch_fresh : ∀ i, i ∈ new → runs_seq d ≤ i ∧ is_Some (runs d' !! i);
  sch_nodup : NoDup new;
  sch_job : ∀ j, j ∈ js →
    jobs d' !! job_id j =
      Some (match job_due now j with Ok (Some t) => ticked c t j | _ => j end);
  sch_other : ∀ k, k ∉ job_id <$> js → jobs d' !! k = jobs d !! k;
  sch_nothing_due : (∀ j, j ∈ js → job_due now j = Ok None) → new = [] ∧ d' = d
}.

Lemma scheduled_nil now c d : scheduled now c [] d [] d.
Proof.
  split; try done; try (by intros ? ? ?%elem_of_nil); try (by intros ? ?%elem_of_nil).
  - by left.
  - constructor.
Qed.

Lemma scheduled_skip now c j js d new d' :
  rows_of d (j :: js) → job_due now j = Ok None →
  scheduled now c js d new d' → scheduled now c (j :: js) d new d'.
Proof.
  intros [Hnd Hr] Hdue [Ho Hk Hn Hf Hd Hj Hot Hnil].
  inversion Hnd as [|? ? Hnin _]; subst. split; try done.
  - intros i r Hi. destruct (Ho i r Hi) as [?|(? & j' & t & ? & ?)]; [by left|right].
    split; [done|]. exists j', t. set_solver.
  - intros j' t [->|Hj']%elem_of_cons Hd' ?; [congruence|]. by apply (Hn j' t).
  - intros j' [->|Hj']%elem_of_cons; [|by apply Hj].
    rewrite Hdue, Hot by done. apply Hr. set_solver.
  - intros k Hk'. apply Hot. set_solver.
  - intros Hall. apply Hnil. set_solver.
Qed.

Lemma scheduled_cons now c j js d t new d' :
  rows_of d (j :: js) → (∀ i r, runs d !! i = Some r → i < runs_seq d) →
  job_due now j = Ok (Some t) →
  scheduled now c js (tick_db d (job_id j) t c) new d' →
  scheduled now c (j :: js) d
    (option_list (if decide (tick_free d (job_id j) (Some t)) then Some (runs_seq d) else None)
       ++ new) d'.
Proof.
  intros [Hnd Hr] Hseq Hdue Hs. inversion Hnd as [|? ? Hnin Hnd']; subst.
  assert (∀ j', j' ∈ js → job_id j ≠ job_id j') as Hne.
  { intros j' Hj' E. apply Hnin. rewrite E. by apply list_elem_of_fmap_2. }
  destruct Hs as [Ho Hk Hn Hf Hd Hj Hot Hnil]. rewrite tick_db_seq in Hf.
  assert (∀ i r, runs (tick_db d (job_id j) t c) !! i = Some r → runs d !! i = Some r ∨
    tick_free d (job_id j) (Some t) ∧ i = runs_seq d ∧ r = tick_run i (job_id j) t c) as Hone.
  { intros i r. unfold tick_db. case_decide; simpl; [|by left].
    intros [[<- <-]|[_ ?]]%lookup_insert_Some; [by right|by left]. }
  assert (∀ i r, runs d !! i = Some r → runs (tick_db d (job_id j) t c) !! i = Some r) as Hkeep.
  { intros i r Hi. unfold tick_db. case_decide; simpl; [|done].
    rewrite lookup_insert_ne; [done|]. apply Hseq in Hi. lia. }
  assert (tick_free d (job_id j) (Some t) →
    runs d' !! runs_seq d = Some (tick_run (runs_seq d) (job_id j) t c)) as Hmine.
  { intros Hfree. apply Hk. unfold tick_db. rewrite decide_True by done. simpl.
    by rewrite lookup_insert_eq. }
  split.
  - intros i r Hi. destruct (Ho i r Hi) as [Hi'|(Hin & j' & t' & Hj' & Hd' & Hfr & ->)].
    + destruct (Hone i r Hi') as [?|(Hfree & -> & ->)]; [by left|right].
      rewrite decide_True by done. split; [set_solver|]. exists j, t. set_solver.
    + right. split; [set_solver|]. exists j', t'.
      rewrite tick_free_other in Hfr by auto. set_solver.
  - intros i r Hi. by apply Hk, Hkeep.
  - intros j' t' [->|Hj']%elem_of_cons Hd' Hfr.
    + assert (t' = t) as -> by congruence. exists (runs_seq d).
      split; [rewrite decide_True by done; set_solver|by apply Hmine].
    + destruct (Hn j' t' Hj' Hd') as (i & Hi & Hri); [by rewrite tick_free_other by auto|].
      exists i. set_solver.
  - intros i [Hi|Hi]%elem_of_app.
    + case_decide; [|set_solver]. apply list_elem_of_singleton in Hi as ->.
      rewrite Hmine by done. split; [lia|eauto].
    + destruct (Hf i Hi). split; [lia|done].
  - case_decide; [|done]. simpl. constructor; [|done]. intros Hin.
    destruct (Hf _ Hin). lia.
  - intros j' [->|Hj']%elem_of_cons; [|by apply Hj].
    rewrite Hdue, Hot by done. unfold tick_db. simpl. rewrite lookup_alter_eq.
    rewrite Hr by set_solver. done.
  - intros k Hk'. rewrite Hot by set_solver. unfold tick_db. simpl.
    rewrite lookup_alter_ne; set_solver.
  - intros Hall. rewrite Hall in Hdue by set_solver. done.
Qed.

Lemma schedule_loop_spec now js acc w ids w' :
  rows_of (w_db w) js → (∀ i r, runs (w_db w) !! i = Some r → i < runs_seq (w_db w)) →
  schedule_loop now js acc w = (Ok ids, w') →
  ∃ new d', ids = acc ++ new ∧ w' = with_db d' w ∧
    scheduled now (w_clock w) js (w_db w) new d'.
Proof.
  revert acc w. induction js as [|j js IH]; intros acc w Hrows Hseq; simpl.
  - intros E. inversion E; subst. exists [], (w_db w'). rewrite app_nil_r.
    split; [done|]. split; [by destruct w'|apply scheduled_nil].
  - unfold mbind at 1, M_bind at 1, lift.
    destruct (job_due now j) as [[t|]|e] eqn:Edue; [| |done].
    + pose proof (Hrows) as [Hnd Hr]. inversion Hnd as [|? ? Hnin Hnd']; subst.
      assert (is_Some (jobs (w_db w) !! job_id j)) as Hj by (rewrite Hr; [eauto|set_solver]).
      rewrite (bind_ok _ _ _ _ _ (create_tick_eq j t w Hj)). intros E.
      apply IH in E as (new & d' & -> & -> & Hs);
        [|by eapply rows_of_tail|by apply tick_db_bound].
      simpl in *. exists (option_list (if decide (tick_free (w_db w) (job_id j) (Some t))
        then Some (runs_seq (w_db w)) else None) ++ new), d'.
      split; [by rewrite app_assoc|]. split; [done|].
      by eapply scheduled_cons.
    + intros E. apply IH in E as (new & d' & -> & -> & Hs); [|split|done].
      * exists new, d'. split; [done|]. split; [done|]. by eapply scheduled_skip.
      * destruct Hrows as [Hnd _]. by inversion Hnd.
      * intros j' Hj'. apply Hrows. set_solver.
Qed.

(** Outside an overflowing schedule the loop always returns. *)
Lemma schedule_loop_returns now js acc w :
  rows_of (w_db w) js → (∀ j e, j ∈ js → job_due now j ≠ Raise e) →
  ∃ ids w', schedule_loop now js acc w = (Ok ids, w').
Proof.
  revert acc w. induction js as [|j js IH]; intros acc w Hrows Hno; simpl; [by eauto|].
  unfold mbind at 1, M_bind at 1, lift.
  destruct (job_due now j) as [[t|]|e] eqn:Edue; [| |by destruct (Hno j e); [set_solver|]].
  - assert (is_Some (jobs (w_db w) !! job_id j)) as Hj
      by (destruct Hrows as [_ Hr]; rewrite Hr; [eauto|set_solver]).
    rewrite (bind_ok _ _ _ _ _ (create_tick_eq j t w Hj)).
    apply IH; [by eapply rows_of_tail|set_solver].
  - apply IH; [|set_solver]. destruct Hrows as [Hnd Hr]. inversion Hnd; subst.
    split; [done|set_solver].
Qed.

(** A schedule whose next fire time cannot be computed stops the whole loop. *)
Lemma schedule_loop_raises now js acc w j e :
  rows_of (w_db w) js → j ∈ js → job_due now j = Raise e →
  ∃ e', (schedule_loop now js acc w).1 = Raise e'.
Proof.
  revert acc w. induction js as [|j0 js IH]; intros acc w Hrows Hj Hr; [set_solver|].
  cbn [schedule_loop]. unfold mbind at 1, M_bind at 1, lift.
  destruct (job_due now j0) as [[t|]|e0] eqn:Edue; [| |by eauto].
  - apply elem_of_cons in Hj as [->|Hj]; [congruence|].
    assert (is_Some (jobs (w_db w) !! job_id j0)) as Hj0
      by (destruct Hrows as [_ Hr']; rewrite Hr'; [eauto|set_solver]).
    rewrite (bind_ok _ _ _ _ _ (create_tick_eq j0 t w Hj0)).
    apply IH; [by eapply rows_of_tail|done|done].
  - apply elem_of_cons in Hj as [->|Hj]; [congruence|].
    apply IH; [|done|done]. destruct Hrows as [Hnd Hr']. inversion Hnd; subst.
    split; [done|set_solver].
Qed.

Lemma select_schedulable d : db_wf d → rows_of d (filter schedulable (heap_scan (jobs d))).
Proof.
  intros W. split.
  - apply select_keys_nodup. intros k j Hk. by apply (wf_job_key _ W).
  - intros j (k & Hk & _)%elem_of_select. by destruct (wf_job_key _ W k j Hk) as [-> _].
Qed.

(** Whether every schedule of the table has a computable next fire time. *)
Definition no_bad_schedule (now : Z) (d : Db) : Prop :=
  ∀ k j e, jobs d !! k = Some j → schedulable j → job_due now j ≠ Raise e.

Lemma schedule_due_jobs_scheduled now w :
  db_wf (w_db w) → no_bad_schedule now (w_db w) →
  ∃ ids d', schedule_due_jobs now w = (Ok ids, with_db d' w) ∧
    scheduled now (w_clock w) (filter schedulable (heap_scan (jobs (w_db w)))) (w_db w) ids d'.
Proof.
  intros W Hno. pose proof (select_schedulable _ W) as Hrows.
  destruct (schedule_loop_returns now _ [] w Hrows) as (ids & w' & E).
  { intros j e (k & Hk & Hs)%elem_of_select. by apply (Hno k). }
  pose proof E as E'. apply schedule_loop_spec in E' as (new & d' & -> & -> & Hs); [|done|].
  - exists new, d'. done.
  - intros i r Hi. by apply (wf_run_key _ W i r).
Qed.

(** The row of a job after the scheduler has looked at it. *)
Definition after_tick (now c : Z) (j : Job) : Job :=
  if decide (schedulable j)
  then match job_due now j with Ok (Some t) => ticked c t j | _ => j end
  else j.

(** C6: [schedule_due_jobs] creates exactly the runs that are due.  When no
    schedule of a job raises ([no_bad_schedule]) it returns; the returned ids are distinct and are those of
    the new runs; each new run is a queued first attempt for the latest due tick
    of an enabled cron or interval job whose tick no run held before; every such
    job gets one; earlier runs are untouched; and every due job has its
    [last_scheduled_for] moved to the tick, including those whose tick was
    already taken by another leader. *)
Theorem schedule_due_jobs_exact (now : Z) (w : World) :
  db_wf (w_db w) → no_bad_schedule now (w_db w) →
  ∃ ids d', schedule_due_jobs now w = (Ok ids, with_db d' w) ∧ NoDup ids ∧
    let d := w_db w in
    (∀ i, i ∈ ids ↔ ∃ k j t, jobs d !! k = Some j ∧ schedulable j ∧
       job_due now j = Ok (Some t) ∧ tick_free d k (Some t) ∧
       runs d' !! i = Some (tick_run i k t (w_clock w)) ∧ runs d !! i = None) ∧
    (∀ k j t, jobs d !! k = Some j → schedulable j → job_due now j = Ok (Some t) →
       tick_free d k (Some t) →
       ∃ i, i ∈ ids ∧ runs d' !! i = Some (tick_run i k t (w_clock w))) ∧
    (∀ i, i ∉ ids → runs d' !! i = runs d !! i) ∧
    (∀ k, jobs d' !! k = after_tick now (w_clock w) <$> jobs d !! k).
Proof.
  intros W Hno. destruct (schedule_due_jobs_scheduled now w W Hno) as (ids & d' & E & Hs).
  exists ids, d'. split; [done|]. destruct Hs as [Ho Hk Hn Hf Hnd Hj Hot _].
  assert (∀ k j, jobs (w_db w) !! k = Some j → job_id j = k) as Hid
    by (intros k j Hkj; by apply (wf_job_key _ W)).
  assert (∀ i, i ∈ ids → runs (w_db w) !! i = None) as Hfresh.
  { intros i Hi. destruct (runs (w_db w) !! i) as [r|] eqn:Er; [|done].
    apply (wf_run_key _ W) in Er as [_ ?]. destruct (Hf i Hi). lia. }
  split; [done|]. split; [|split; [|split]].
  - intros i. split.
    + intros Hi. destruct (Hf i Hi) as [_ [r Hr]].
      destruct (Ho i r Hr) as [Hold|(_ & j & t & Hin & Hd & Hfr & ->)].
      * by rewrite Hfresh in Hold.
      * apply elem_of_select in Hin as (k & Hkj & Hsch). rewrite (Hid k j Hkj) in *.
        exists k, j, t. split_and!; auto.
    + intros (k & j & t & _ & _ & _ & _ & Hr & Hnone).
      destruct (Ho i _ Hr) as [Hold|[Hi _]]; [congruence|done].
  - intros k j t Hkj Hsch Hd Hfr. rewrite <- (Hid k j Hkj).
    apply (Hn j t); [by apply elem_of_select; eauto|done|by rewrite (Hid k j Hkj)].
  - intros i Hi. destruct (runs d' !! i) as [r|] eqn:Er.
    + destruct (Ho i r Er) as [->|[? _]]; done.
    + destruct (runs (w_db w) !! i) as [r|] eqn:Er'; [|done].
      apply Hk in Er'. congruence.
  - intros k. unfold after_tick. destruct (jobs (w_db w) !! k) as [j|] eqn:Ej; simpl.
    + case_decide as Hsch.
      * rewrite <- (Hid k j Ej). apply Hj, elem_of_select. by exists k.
      * rewrite Hot; [done|]. intros (j' & -> & (k' & Hk' & ?)%elem_of_select)%list_elem_of_fmap.
        rewrite (Hid k' j' Hk') in *. congruence.
    + rewrite Hot; [done|]. intros (j' & -> & (k' & Hk' & ?)%elem_of_select)%list_elem_of_fmap.
      rewrite (Hid k' j' Hk') in *. congruence.
Qed.

(** After the latest due tick nothing more is due at the same instant. *)
Lemma job_due_after_tick now c t j :
  job_due now j = Ok (Some t) → job_due now (ticked c t j) = Ok None.
Proof. apply due_tick_again. Qed.

(** The loop reads and writes tables only: Redis may have moved on. *)
Lemma schedule_loop_redis now js acc w s :
  schedule_loop now js acc (with_redis s w) =
    ((schedule_loop now js acc w).1, with_redis s (schedule_loop now js acc w).2).
Proof.
  revert acc w. induction js as [|j js IH]; intros acc w; [done|].
  cbn [schedule_loop]. unfold mbind, M_bind, lift.
  destruct (job_due now j) as [[t|]|e]; [|apply IH|done].
  assert (create_tick j t (with_redis s w) =
    ((create_tick j t w).1, with_redis s (create_tick j t w).2)) as ->.
  { unfold create_tick, savepoint, mbind, M_bind, insert_run. simpl. by case_decide. }
  destruct (create_tick j t w) as [[i|e] w']; [apply IH|done].
Qed.

Lemma schedule_due_jobs_redis now w s :
  schedule_due_jobs now (with_redis s w) =
    ((schedule_due_jobs now w).1, with_redis s (schedule_due_jobs now w).2).
Proof. apply (schedule_loop_redis now _ [] w s). Qed.

Lemma schedule_loop_nothing now js acc w :
  (∀ j, j ∈ js → job_due now j = Ok None) → schedule_loop now js acc w = (Ok acc, w).
Proof.
  revert acc w. induction js as [|j js IH]; intros acc w Hno; simpl; [done|].
  unfold mbind, M_bind, lift. rewrite Hno by set_solver. apply IH. set_solver.
Qed.

(** Scheduling is idempotent: right after [schedule_due_jobs] has handled the
    ticks due at [now], a second pass at the same instant (by the same leader or
    by another one that reads the same tables) creates nothing and changes
    nothing, so the same tick is never enqueued twice. *)
Theorem schedule_due_jobs_idempotent (now : Z) (w : World) :
  db_wf (w_db w) → no_bad_schedule now (w_db w) →
  ∃ ids d', schedule_due_jobs now w = (Ok ids, with_db d' w) ∧
    schedule_due_jobs now (with_db d' w) = (Ok [], with_db d' w).
Proof.
  intros W Hno. destruct (schedule_due_jobs_scheduled now w W Hno) as (ids & d' & E & Hs).
  exists ids, d'. split; [done|].
  unfold schedule_due_jobs, select_jobs, mbind, M_bind, read. cbn [w_db with_db].
  apply schedule_loop_nothing. intros j (k & Hk & Hsch)%elem_of_select.
  destruct Hs as [_ _ _ _ _ Hj Hot _].
  destruct (jobs (w_db w) !! k) as [j0|] eqn:E0.
  - pose proof (wf_job_key _ W k j0 E0) as [Hid _].
    destruct (decide (schedulable j0)) as [Hs0|Hs0].
    + assert (j0 ∈ filter schedulable (heap_scan (jobs (w_db w)))) as Hin
        by (apply elem_of_select; by exists k).
      specialize (Hj j0 Hin). rewrite Hid, Hk in Hj.
      destruct (job_due now j0) as [[t|]|e] eqn:Ed; simplify_eq.
      * by eapply job_due_after_tick.
      * done.
      * exfalso. by eapply Hno.
    + rewrite Hot, E0 in Hk; [by simplify_eq|].
      intros (j' & Hj' & (k' & Hk' & ?)%elem_of_select)%list_elem_of_fmap.
      apply (wf_job_key _ W) in Hk' as Hx. destruct Hx as [Hx _].
      assert (k' = k) as -> by congruence. congruence.
  - rewrite Hot in Hk; [congruence|].
    intros (j' & Hj' & (k' & Hk' & ?)%elem_of_select)%list_elem_of_fmap.
    apply (wf_job_key _ W) in Hk' as Hx. destruct Hx as [Hx _].
    assert (k' = k) as -> by congruence. congruence.
Qed.

(** ** The whole tick *)

(** The transaction of a tick, without faults. *)
Definition tick_tx (now : Z) : M (list Z * list Z) :=
  session_scope (scheduled ← schedule_due_jobs now;
                 orphans ← requeue_orphans now;
                 mret (scheduled, orphans)).

Lemma tick_tx_ok now w ids d' :
  w_faults w = [] → schedule_due_jobs now w = (Ok ids, with_db d' w) →
  tick_tx now w =
    (Ok (ids, run_id <$> filter (orphaned now) (heap_scan (runs d'))),
     with_saved d' (with_db d' w)).
Proof.
  intros Hf E. unfold tick_tx.
  rewrite (session_scope_ok _ w
    (ids, run_id <$> filter (orphaned now) (heap_scan (runs d'))) (with_db d' w)).
  - simpl. rewrite Hf. simpl. by destruct w; simpl in *; subst.
  - erewrite bind_ok by exact E. done.
  - simpl. by rewrite Hf.
Qed.

Lemma run_tick_unfold w s1 a w1 :
  run (promote_due_delayed (w_clock w)) w = (Ok a, with_redis s1 w) →
  tick_tx (w_clock w) (with_redis s1 w) = w1 →
  run tick w = match w1 with
               | (Ok so, w1) =>
                   run (pfor_each so.1 (λ i, enqueue_run i;; Ret tt);;
                        pfor_each so.2 (λ i, enqueue_run i;; Ret tt);;
                        call pending_count;; Ret tt) w1
               | (Raise e, w1) => (Raise e, w1)
               end.
Proof.
  intros Hp Ht. unfold tick. rewrite run_bind. erewrite bind_ok by (by rewrite run_call).
  rewrite run_bind. erewrite bind_ok by exact Hp.
  rewrite run_bind. unfold mbind at 1, M_bind at 1. rewrite run_call.
  change (session_scope _) with (tick_tx (w_clock w)). rewrite Ht. by destruct w1 as [[]].
Qed.

(** New runs are not old enough to be orphans. *)
Lemma orphans_before_and_after now c js d ids d' i :
  0 ≤ orphan_requeue_after_sec → now ≤ c → scheduled now c js d ids d' → db_wf d' →
  i ∈ run_id <$> filter (orphaned now) (heap_scan (runs d')) ↔
  ∃ r, runs d !! i = Some r ∧ orphaned now r.
Proof.
  intros Hpos Hc [Ho Hk _ _ _ _ _ _] W. rewrite list_elem_of_fmap. split.
  - intros (r & -> & (k & Hr & Hor)%elem_of_select).
    destruct (wf_run_key _ W k r Hr) as [-> _].
    destruct (Ho k r Hr) as [?|(_ & j & t & _ & _ & _ & ->)]; [by eauto|].
    destruct Hor as [_ Hlt]. simpl in Hlt. unfold usec in Hlt. lia.
  - intros (r & Hr & Hor). exists r. split.
    + symmetry. apply (wf_run_key _ W i r). by apply Hk.
    + apply elem_of_select. exists i. split; [by apply Hk|done].
Qed.

Lemma tick_effect w :
  clean w → w_faults w = [] → db_wf (w_db w) → no_bad_schedule (w_clock w) (w_db w) →
  0 ≤ orphan_requeue_after_sec →
  ∃ w' ids orphans,
    run tick w = (Ok tt, w') ∧ clean w' ∧ db_wf (w_db w') ∧
    schedule_due_jobs (w_clock w) w = (Ok ids, with_db (w_db w') w) ∧
    NoDup orphans ∧
    (∀ i, i ∈ orphans ↔ ∃ r, runs (w_db w) !! i = Some r ∧ orphaned (w_clock w) r) ∧
    appended (view (w_redis w))
      (zrangebyscore (w_clock w) (w_redis w) ++ (py_str <$> ids) ++ (py_str <$> orphans))
      (view (w_redis w')) ∧
    rv_delayed (view (w_redis w')) =
      filter (λ p, w_clock w < p.2) (rv_delayed (view (w_redis w))).
Proof.
  intros Hcl Hf W Hno Hpos. set (now := w_clock w) in *. unfold clean in Hcl.
  destruct (schedule_due_jobs_scheduled now w W Hno) as (ids & d' & E & Hs).
  assert (db_wf d') as W'.
  { destruct (schedule_due_jobs_steps now w) as [_ Hev]. rewrite E in Hev. by apply Hev. }
  set (s1 := (promote_lua now (w_redis w)).2). set (w1 := with_redis s1 w).
  assert (schedule_due_jobs now w1 = (Ok ids, with_db d' w1)) as E1
    by (unfold w1; by rewrite schedule_due_jobs_redis, E).
  set (orph := run_id <$> filter (orphaned now) (heap_scan (runs d'))).
  set (w2 := with_saved d' (with_db d' w1)).
  destruct (run_enqueue_all ids w2) as (s3 & R3 & A3 & D3); [done|].
  destruct (run_enqueue_all orph (with_redis s3 w2)) as (s4 & R4 & A4 & D4); [done|].
  exists (with_redis s4 w2), ids, orph.
  split; [|split; [done|split; [done|split; [exact E|split; [|split; [|split]]]]]].
  - erewrite run_tick_unfold; [|by apply run_promote|by apply tick_tx_ok].
    cbv iota beta. rewrite run_bind. erewrite bind_ok by exact R3. rewrite run_bind.
    erewrite bind_ok by exact R4. rewrite run_bind.
    unfold mbind at 1, M_bind at 1. rewrite run_call.
    unfold pending_count, mbind, M_bind, fault_point. simpl. by rewrite Hf.
  - apply select_keys_nodup. intros k r Hk. by apply (wf_run_key _ W').
  - intros i. eapply (orphans_before_and_after now now); [done|lia|exact Hs|done].
  - eapply appended_trans; [apply promote_appended|]. by eapply appended_trans.
  - simpl in *. rewrite D4, D3. apply promote_delayed.
Qed.

(** C7: one undisturbed tick of the leader dispatches exactly what it should: the
    messages appended to the stream are, in this order, the due retries, one
    message per run it has just created and committed, and one per run that has
    been queued for longer than the threshold, so no queued run whose message was
    lost is forgotten; due retries leave the delayed set and nothing else does;
    and the schema's constraints hold afterwards. *)
Theorem tick_dispatches (w : World) :
  clean w → w_faults w = [] → db_wf (w_db w) → no_bad_schedule (w_clock w) (w_db w) →
  0 ≤ orphan_requeue_after_sec →
  ∃ w' ids orphans,
    run tick w = (Ok tt, w') ∧ clean w' ∧ db_wf (w_db w') ∧
    schedule_due_jobs (w_clock w) w = (Ok ids, with_db (w_db w') w) ∧
    NoDup orphans ∧
    (∀ i, i ∈ orphans ↔ ∃ r, runs (w_db w) !! i = Some r ∧ orphaned (w_clock w) r) ∧
    appended (view (w_redis w))
      (zrangebyscore (w_clock w) (w_redis w) ++ (py_str <$> ids) ++ (py_str <$> orphans))
      (view (w_redis w')) ∧
    rv_delayed (view (w_redis w')) =
      filter (λ p, w_clock w < p.2) (rv_delayed (view (w_redis w))).
Proof. apply tick_effect. Qed.

(** One job whose next fire time cannot be computed (an interval that reaches
    past the last representable date is accepted by the API) stops the scheduler
    for everybody: every tick raises, no run of any job is created, no orphan is
    published; only due retries still move. *)
Theorem tick_bad_schedule_blocks (w : World) (k : Z) (j : Job) (e : exn) :
  clean w → w_faults w = [] → db_wf (w_db w) →
  jobs (w_db w) !! k = Some j → schedulable j → job_due (w_clock w) j = Raise e →
  ∃ e' w', run tick w = (Raise e', w') ∧
    runs (w_saved w') = runs (w_saved w) ∧ jobs (w_saved w') = jobs (w_saved w) ∧
    appended (view (w_redis w)) (zrangebyscore (w_clock w) (w_redis w)) (view (w_redis w')).
Proof.
  intros Hcl Hf W Hk Hsch Hbad. set (now := w_clock w) in *.
  set (s1 := (promote_lua now (w_redis w)).2). set (w1 := with_redis s1 w).
  destruct (schedule_loop_raises now (filter schedulable (heap_scan (jobs (w_db w)))) [] w1 j e)
    as [e' He']; [by apply select_schedulable|apply elem_of_select; by exists k|done|].
  change (schedule_loop now _ [] w1) with (schedule_due_jobs now w1) in He'.
  assert (∃ w2, tick_tx now w1 = (Raise e', w2) ∧ w_redis w2 = s1 ∧
    runs (w_saved w2) = runs (w_saved w) ∧ jobs (w_saved w2) = jobs (w_saved w))
    as (w2 & Htx & Hr2 & Hruns & Hjobs).
  { destruct (schedule_due_jobs_steps now w1) as [Hs _].
    assert (w_redis (schedule_due_jobs now w1).2 = s1) as Hred
      by (unfold w1; by rewrite schedule_due_jobs_redis).
    unfold tick_tx, session_scope, try_except, mbind, M_bind.
    destruct (schedule_due_jobs now w1) as [[ids|e1] w2]; cbn [fst snd] in *; [done|].
    injection He' as ->. eexists. split; [done|]. simpl. by rewrite Hs. }
  exists e', w2. erewrite run_tick_unfold; [|by apply run_promote|exact Htx].
  split; [done|]. split; [done|]. split; [done|]. rewrite Hr2. apply promote_appended.
Qed.

(** A retry that waits for its backoff is dispatched too early, and twice: its
    run is created as queued, so once it is older than the orphan threshold the
    next tick publishes it although its time in the delayed set has not come; it
    also stays in the delayed set and will be published again when it has. *)
Theorem tick_publishes_waiting_retry (w : World) (i x : Z) (r : JobRun) :
  clean w → w_faults w = [] → db_wf (w_db w) → no_bad_schedule (w_clock w) (w_db w) →
  0 ≤ orphan_requeue_after_sec →
  runs (w_db w) !! i = Some r → orphaned (w_clock w) r →
  rv_delayed (view (w_redis w)) !! py_str i = Some x → w_clock w < x →
  ∃ w', run tick w = (Ok tt, w') ∧
    (length (messages_for i (view (w_redis w))) <
       length (messages_for i (view (w_redis w'))))%nat ∧
    rv_delayed (view (w_redis w')) !! py_str i = Some x.
Proof.
  intros Hcl Hf W Hno Hpos Hr Hor Hx Hlt.
  destruct (tick_effect w Hcl Hf W Hno Hpos)
    as (w' & ids & orphans & Hrun & _ & _ & _ & _ & Horph & Happ & Hdel).
  exists w'. split; [done|]. split.
  - eapply appended_messages; [done|].
    assert (i ∈ orphans) by (apply Horph; eauto).
    rewrite !elem_of_app. right. right. by apply list_elem_of_fmap_2.
  - rewrite Hdel. by apply map_lookup_filter_Some.
Qed.

End scheduler.

(** ** Evaluation *)

(** A minute-wise interval job with one old queued run. *)
Definition setup_interval : M unit :=
  insert_user (demo_user "ann");;
  insert_job (demo_job "beat" ScheduleType.INTERVAL (Some "60"%string));;
  insert_run 1 RETRY QUEUED 2 None;;
  mret tt.

(** The same with a job whose interval exceeds the calendar. *)
Definition setup_overflow : M unit :=
  setup_interval;;
  insert_job (demo_job "far" ScheduleType.INTERVAL (Some "999999999999"%string));;
  mret tt.

Lemma wf_interval : db_wf (demo_db setup_interval).
Proof. apply db_wf_demo. unfold setup_interval. demo_steps. Qed.

Lemma wf_overflow : db_wf (demo_db setup_overflow).
Proof. apply db_wf_demo. unfold setup_overflow, setup_interval. demo_steps. Qed.

(** 200 seconds later the retry (run 1) still waits in the delayed set. *)
Definition world_interval : World :=
  demo_world (with_delayed {[ "1"%string := 500 * usec ]} empty_view)
    (demo_db setup_interval) (200 * usec).
Definition world_overflow : World :=
  demo_world empty_view (demo_db setup_overflow) (200 * usec).

(** Decides [no_bad_schedule] by evaluation. *)
Definition schedule_ok (now : Z) (j : Job) : Prop :=
  schedulable j → match job_due now j with Raise _ => False | _ => True end.
#[global] Instance schedule_ok_dec now j : Decision (schedule_ok now j).
Proof. unfold schedule_ok. destruct (job_due now j); apply _. Defined.

Lemma no_bad_schedule_decide now d :
  bool_decide (map_Forall (λ _, schedule_ok now) (jobs d)) = true → no_bad_schedule now d.
Proof.
  intros H%bool_decide_eq_true k j e Hk Hs He. specialize (H k j Hk Hs). by rewrite He in H.
Qed.

Lemma good_interval : no_bad_schedule (200 * usec) (demo_db setup_interval).
Proof. apply no_bad_schedule_decide. vm_compute. reflexivity. Qed.

Lemma orphan_sec_nonneg : 0 ≤ @orphan_requeue_after_sec default_settings.
Proof. simpl. lia. Qed.

Lemma schedule_due_jobs_exact_witness :
  ∃ ids d', schedule_due_jobs (200 * usec) world_interval = (Ok ids, with_db d' world_interval) ∧
    NoDup ids ∧ runs d' !! 2 = Some (tick_run 2 1 (180 * usec) (200 * usec)).
Proof.
  destruct (schedule_due_jobs_exact (200 * usec) world_interval wf_interval good_interval)
    as (ids & d' & E & Hnd & _).
  exists ids, d'. split; [exact E|]. split; [exact Hnd|].
  assert (d' = w_db (schedule_due_jobs (200 * usec) world_interval).2) as -> by (by rewrite E).
  vm_compute. reflexivity.
Defined.

Lemma schedule_due_jobs_idempotent_witness :
  ∃ ids d', schedule_due_jobs (200 * usec) world_interval = (Ok ids, with_db d' world_interval) ∧
    schedule_due_jobs (200 * usec) (with_db d' world_interval)
      = (Ok [], with_db d' world_interval).
Proof.
  exact (schedule_due_jobs_idempotent (200 * usec) world_interval wf_interval good_interval).
Defined.

Lemma tick_dispatches_witness :
  ∃ w' ids orphans, run tick world_interval = (Ok tt, w') ∧
    schedule_due_jobs (200 * usec) world_interval = (Ok ids, with_db (w_db w') world_interval) ∧
    (1 ∈ orphans) ∧
    appended (w_redis world_interval : RedisView)
      ((py_str <$> ids) ++ (py_str <$> orphans)) (w_redis w' : RedisView).
Proof.
  destruct (tick_dispatches world_interval eq_refl eq_refl wf_interval good_interval
    orphan_sec_nonneg) as (w' & ids & orphans & Hr & _ & _ & Hs & _ & Ho & Ha & _).
  exists w', ids, orphans. split; [exact Hr|]. split; [exact Hs|]. split; [|exact Ha].
  apply Ho. eexists. split; [vm_compute; reflexivity|]. split; vm_compute; reflexivity.
Defined.

Lemma clean_overflow : clean world_overflow.
Proof. vm_compute. reflexivity. Qed.
Lemma quiet_overflow : w_faults world_overflow = [].
Proof. vm_compute. reflexivity. Qed.
Lemma overflow_job :
  ∃ j, jobs (w_db world_overflow) !! 2 = Some j ∧ schedulable j ∧
    job_due (w_clock world_overflow) j = Raise OverflowError.
Proof.
  eexists. split; [vm_compute; reflexivity|]. split; [|vm_compute; reflexivity].
  split; [reflexivity|]. apply elem_of_cons. right. by apply elem_of_cons; left.
Qed.

Lemma tick_bad_schedule_blocks_witness :
  ∃ e' w', run tick world_overflow = (Raise e', w') ∧
    runs (w_saved w') = runs (w_saved world_overflow).
Proof.
  destruct overflow_job as (j & Hk & Hs & Hd).
  destruct (tick_bad_schedule_blocks world_overflow 2 j OverflowError clean_overflow quiet_overflow
    wf_overflow Hk Hs Hd) as (e' & w' & Hr & Hruns & _).
  exists e', w'. split; [exact Hr|exact Hruns].
Defined.

Lemma tick_publishes_waiting_retry_witness :
  ∃ w', run tick world_interval = (Ok tt, w') ∧
    rv_delayed (w_redis w' : RedisView) !! "1"%string = Some (500 * usec).
Proof.
  assert (∃ r, runs (w_db world_interval) !! 1 = Some r ∧ orphaned (200 * usec) r) as (r & Hr & Ho).
  { eexists. split; [vm_compute; reflexivity|]. split; vm_compute; reflexivity. }
  destruct (tick_publishes_waiting_retry world_interval 1 (500 * usec) r eq_refl eq_refl
    wf_interval good_interval orphan_sec_nonneg Hr Ho eq_refl eq_refl)
    as (w' & Hrun & _ & Hd).
  exists w'. by split.
Defined.
