(* ===== verification/Store.v ===== *)
(** * The worker's transactions: [backend/worker/store.py]

    Every function of the module is one short transaction under [session_scope].  All of
    them but one are [M] actions: what the only write of [claim_run], [cancel_run] and
    [finish_run], a conditional [UPDATE], does is decided under the lock of its row, and the
    others only read or only insert.  [create_dependency_run] reads before it writes, and at
    READ COMMITTED other transactions commit in between, so it is a program with one action
    per read and one for the write and its commit. *)

From S2P Require Import Prelude PyBase Models RedisServer Effects Database RedisQueue Cron Demo.

(** The dictionary [claim_run] returns. *)
Record Claimed := {
  c_run_id : Z;
  c_job_id : Z;
  c_attempt : Z;
  c_task_type : string;
  c_task_spec : list (string * json);
  c_timeout_sec : Z;
  c_max_retries : Z;
  c_retry_backoff_sec : Z;
  c_job_name : string
}.

Definition ACTIVE : list RunStatus := [PENDING; QUEUED; RUNNING].

(** The row of a canceled run. *)
Definition canceled_row (now : Z) (r : JobRun) : JobRun :=
  set_status CANCELED (set_finished now (Some "canceled by user"%string) r).

Section store.
Context `{RedisServer, Postgres}.

(** ** Operations *)

(** [allowed] of [claim_run] *)
Definition claimable_from (allow_running : bool) : list RunStatus :=
  if allow_running then ACTIVE else [PENDING; QUEUED].

Definition claimed_of (r : JobRun) (j : Job) : Claimed :=
  {| c_run_id := run_id r; c_job_id := run_job_id r; c_attempt := attempt r;
     c_task_type := task_type j; c_task_spec := task_spec j;
     c_timeout_sec := timeout_sec j; c_max_retries := max_retries j;
     c_retry_backoff_sec := retry_backoff_sec j; c_job_name := name j |}.

Definition claim_run (i : Z) (worker : string) (allow_running : bool) : M (option Claimed) :=
  session_scope (
    now ← utcnow;
    bind_id runs i;;
    rowcount ← update_runs (λ r, run_id r = i ∧ status r ∈ claimable_from allow_running)
                 (λ r, set_status RUNNING (set_started now worker r));
    if decide (rowcount = 0) then mret None
    else
      run ← get_run_row i;
      match run with
      | None => raise AttributeError
      | Some r =>
          job ← get_job_row (run_job_id r);
          match job with
          | None => mret None
          | Some j => mret (Some (claimed_of r j))
          end
      end).

Definition append_logs (i : Z) (entries : list (LogStream * string)) : M unit :=
  match entries with
  | [] => mret tt
  | _ => session_scope (for_each entries (λ e, insert_log i e.1 e.2))
  end.

Definition cancel_run (i : Z) : M bool :=
  session_scope (
    now ← utcnow;
    rowcount ← update_runs (λ r, run_id r = i ∧ status r ∈ ACTIVE)
                 (λ r, set_status CANCELED (set_finished now (Some "canceled by user"%string) r));
    mret (bool_decide (0 < rowcount))).

Definition is_run_canceled (i : Z) : M bool :=
  session_scope (
    rows ← select_runs (λ r, run_id r = i ∧ status r = CANCELED);
    mret (bool_decide (rows ≠ []))).

(** The [JSONB] and the text of an outcome are bound as parameters. *)
Definition outcome_ok (result : option json) (error : option string) : bool :=
  opt_ok json_ok result && opt_ok text_ok error.
Definition bind_outcome (result : option json) (error : option string) : M unit :=
  if outcome_ok result error then mret tt else raise DataError.

Definition finish_run (i : Z) (st : RunStatus) (exit_code : option Z) (result : option json)
    (error : option string) : M unit :=
  session_scope (
    now ← utcnow;
    bind_outcome result error;;
    update_runs (λ r, run_id r = i ∧ status r ≠ CANCELED)
      (λ r, set_status st (set_outcome exit_code result (set_finished now error r)));;
    mret tt).

Definition create_retry_run (job att : Z) : M Z :=
  session_scope (r ← insert_run job RETRY QUEUED att None; mret (run_id r)).

(** [_has_dispatched_run] *)
Definition has_dispatched_run (job : Z) : M bool :=
  rows ← select_runs (λ r, run_job_id r = job ∧ status r ∈ [QUEUED; RUNNING]);
  mret (bool_decide (take 1 rows ≠ [])).

(** [_pending_run] *)
Definition pending_run (job : Z) : M (option JobRun) :=
  rows ← select_runs (λ r, run_job_id r = job ∧ status r = PENDING);
  scalar_one_or_none (take 1 (merge_sort created_before rows)).

(** [_all_dependencies_succeeded] *)
Definition all_dependencies_succeeded (job : Z) : M bool :=
  rows ← select_deps (λ e, dep_job_id e = job);
  let dep_ids := dict_fromkeys (depends_on_job_id <$> rows) in
  match dep_ids with
  | [] => mret true
  | _ =>
      done_runs ← select_runs (λ r, run_job_id r ∈ dep_ids ∧ status r = SUCCEEDED);
      mret (bool_decide (list_to_set dep_ids =@{gset Z} list_to_set (run_job_id <$> done_runs)))
  end.

(** The loop of [dependents_ready]. *)
Fixpoint ready_loop (ids ready : list Z) : M (list Z) :=
  match ids with
  | [] => mret ready
  | k :: ids =>
      job ← get_job_row k;
      pending ← pending_run k;
      match job with
      | None => ready_loop ids ready
      | Some j =>
          if negb (enabled j) && bool_decide (pending = None) then ready_loop ids ready
          else
            dispatched ← has_dispatched_run k;
            if (dispatched : bool) then ready_loop ids ready
            else
              ok ← all_dependencies_succeeded k;
              if (ok : bool) then ready_loop ids (ready ++ [k]) else ready_loop ids ready
      end
  end.

Definition dependents_ready (job : Z) : M (list Z) :=
  session_scope (
    rows ← select_deps (λ e, depends_on_job_id e = job);
    ready_loop (dict_fromkeys (dep_job_id <$> rows)) []).

(** [pending.status = QUEUED; session.flush()]: the [UPDATE] addresses the row by its
    primary key, whatever its status is by now; that it is gone is an error of the
    ORM. *)
Definition promote_run (i : Z) : M unit :=
  row ← get_run_row i;
  match row with None => raise DbError | Some _ => set_run_status i QUEUED end.

(** The last statement of [create_dependency_run], with its commit. *)
Definition promotion (i : Z) : M (option Z) := session_scope (promote_run i;; mret (Some i)).
Definition insertion (job : Z) : M (option Z) :=
  session_scope (r ← insert_run job DEPENDENCY QUEUED 1 None; mret (Some (run_id r))).

Definition create_dependency_run (job : Z) : prog (option Z) :=
  dispatched ← call (has_dispatched_run job);
  if (dispatched : bool) then call (session_scope (mret None))
  else
    pending ← call (pending_run job);
    match pending with
    | Some r => call (promotion (run_id r))
    | None => call (insertion job)
    end.

(** ** What the queries read *)

(** Job [j] has a run that is queued or running. *)
Definition dispatched (d : Db) (j : Z) : Prop :=
  ∃ i r, runs d !! i = Some r ∧ run_job_id r = j ∧ status r ∈ [QUEUED; RUNNING].

(** [r] is the oldest pending run of job [j]. *)
Definition oldest_pending (d : Db) (j : Z) (r : JobRun) : Prop :=
  (∃ i, runs d !! i = Some r) ∧ run_job_id r = j ∧ status r = PENDING ∧
  ∀ i r', runs d !! i = Some r' → run_job_id r' = j → status r' = PENDING → created_before r r'.

Definition no_pending (d : Db) (j : Z) : Prop :=
  ∀ i r, runs d !! i = Some r → run_job_id r = j → status r ≠ PENDING.

(** Every job that [j] depends on has a succeeded run. *)
Definition deps_succeeded (d : Db) (j : Z) : Prop :=
  ∀ i e, deps d !! i = Some e → dep_job_id e = j →
    ∃ k r, runs d !! k = Some r ∧ run_job_id r = depends_on_job_id e ∧ status r = SUCCEEDED.

Lemma has_dispatched_run_spec j w :
  ∃ b, has_dispatched_run j w = (Ok b, w) ∧ (b = true ↔ dispatched (w_db w) j).
Proof.
  eexists. split; [done|]. rewrite bool_decide_eq_true.
  destruct (filter _ (heap_scan (runs (w_db w)))) as [|r l] eqn:E; simpl; split.
  - done.
  - intros (i & r & Hi & Hj & Hs). exfalso. eapply not_elem_of_nil. rewrite <- E.
    apply elem_of_select. eauto.
  - intros _. destruct (proj1 (elem_of_select
      (λ r, run_job_id r = j ∧ status r ∈ [QUEUED; RUNNING]) (runs (w_db w)) r)) as (i & Hi & ? & ?).
    { rewrite E. set_solver. }
    exists i, r. done.
  - done.
Qed.

Lemma pending_run_spec j w :
  ∃ o, pending_run j w = (Ok o, w) ∧
    match o with Some r => oldest_pending (w_db w) j r | None => no_pending (w_db w) j end.
Proof.
  destruct (select_first_spec (λ r, run_job_id r = j ∧ status r = PENDING) w) as (o & Eo & Ho).
  exists o. split; [exact Eo|]. destruct o as [r|].
  - destruct Ho as (Hi & [Hj Hst] & Hle). split; [done|]. split; [done|]. split; [done|].
    intros i r' Hi' Hj' Hst'. by eapply Hle.
  - intros i r Hi Hj Hst. by eapply Ho.
Qed.

Lemma all_dependencies_succeeded_spec j w :
  ∃ b, all_dependencies_succeeded j w = (Ok b, w) ∧ (b = true ↔ deps_succeeded (w_db w) j).
Proof.
  unfold all_dependencies_succeeded, select_deps, mbind, M_bind, read. cbn beta iota zeta.
  set (l := filter _ (heap_scan (deps _))).
  assert (∀ p, p ∈ dict_fromkeys (depends_on_job_id <$> l) ↔
    ∃ i e, deps (w_db w) !! i = Some e ∧ dep_job_id e = j ∧ depends_on_job_id e = p) as Hl.
  { intros p. rewrite elem_of_dict_fromkeys, list_elem_of_fmap. unfold l.
    setoid_rewrite elem_of_select. naive_solver. }
  destruct (dict_fromkeys _) as [|k ids] eqn:E.
  - exists true. split; [done|]. split; [|done]. intros _ i e Hi He.
    exfalso. eapply not_elem_of_nil, Hl. eauto.
  - rewrite <- E in *. clear E. eexists. split; [done|]. rewrite bool_decide_eq_true.
    set (ids' := dict_fromkeys _) in *. split.
    + intros Heq i e Hi He.
      assert (depends_on_job_id e ∈ (list_to_set ids' : gset Z)) as Hin
        by (apply elem_of_list_to_set, Hl; eauto).
      rewrite Heq, elem_of_list_to_set, list_elem_of_fmap in Hin.
      setoid_rewrite elem_of_select in Hin. naive_solver.
    + intros Hall. apply set_eq. intros p.
      rewrite !elem_of_list_to_set, list_elem_of_fmap. setoid_rewrite elem_of_select. split.
      * intros Hp. destruct (proj1 (Hl p) Hp) as (i & e & Hi & He & <-).
        destruct (Hall i e Hi He) as (k' & r & Hk & Hr & Hst). exists r.
        split; [done|]. exists k'. rewrite Hr. done.
      * naive_solver.
Qed.

(** ** Invariants *)

Lemma claim_evolves b now worker r :
  status r ∈ claimable_from b → run_evolves r (set_status RUNNING (set_started now worker r)).
Proof.
  intros Hs. split; try done; simpl.
  - destruct b; simpl in Hs; destruct (status r); simpl; set_solver.
  - intros E. rewrite E in Hs. destruct b; simpl in Hs; set_solver.
Qed.

Lemma claim_run_respects i worker b : respects evolves (claim_run i worker b).
Proof.
  unfold claim_run. respect. apply respects_update_runs. intros r [_ Hs]. by eapply claim_evolves.
Qed.

Lemma append_logs_respects i es : respects evolves (append_logs i es).
Proof. unfold append_logs. respect. Qed.

Lemma cancel_evolves now e r :
  status r ∈ ACTIVE → run_evolves r (set_status CANCELED (set_finished now e r)).
Proof.
  intros Hs. split; try done; simpl; unfold ACTIVE in Hs.
  - destruct (status r); simpl; set_solver.
  - intros E. rewrite E in Hs. set_solver.
Qed.

Lemma cancel_run_respects i : respects evolves (cancel_run i).
Proof.
  unfold cancel_run. respect. apply respects_update_runs. intros r [_ Hs]. by apply cancel_evolves.
Qed.

Lemma is_run_canceled_respects i : respects evolves (is_run_canceled i).
Proof. unfold is_run_canceled. respect. Qed.

(** The statuses an executor reports. *)
Definition outcome_status (st : RunStatus) : Prop := st ∈ [SUCCEEDED; FAILED; TIMED_OUT].

Lemma finish_evolves st c v e now r :
  outcome_status st → plain_result v → status r ≠ CANCELED →
  run_evolves r (set_status st (set_outcome c v (set_finished now e r))).
Proof.
  intros Hst Hv Hs. split; try done. simpl. unfold outcome_status in Hst.
  rewrite !elem_of_cons, elem_of_nil in Hst.
  destruct (status r); simpl; intuition congruence.
Qed.

Lemma finish_run_respects i st c v e :
  outcome_status st → plain_result v → respects evolves (finish_run i st c v e).
Proof.
  intros Hst Hv. unfold finish_run, bind_outcome. respect. apply respects_update_runs. intros r [_ Hs].
  by apply finish_evolves.
Qed.

Lemma create_retry_run_respects j att : respects evolves (create_retry_run j att).
Proof. unfold create_retry_run. respect. Qed.

(** The queries change nothing. *)
Definition pure_read {A} (m : M A) : Prop := ∀ w, (m w).2 = w.

Lemma pure_read_respects {A} (m : M A) : pure_read m → respects evolves m.
Proof. intros Hm w Hw. rewrite Hm. split; [reflexivity|done]. Qed.

Lemma pure_read_bind {A B} (m : M A) (f : A → M B) :
  pure_read m → (∀ a, pure_read (f a)) → pure_read (m ≫= f).
Proof.
  intros Hm Hf w. specialize (Hm w). unfold mbind, M_bind.
  destruct (m w) as [[a|e] w']; simpl in *; subst; [apply Hf|done].
Qed.

Lemma pending_run_read j : pure_read (pending_run j).
Proof. intros w. destruct (pending_run_spec j w) as (o & -> & _). done. Qed.
Lemma has_dispatched_run_read j : pure_read (has_dispatched_run j).
Proof. done. Qed.
Lemma all_dependencies_succeeded_read j : pure_read (all_dependencies_succeeded j).
Proof. intros w. destruct (all_dependencies_succeeded_spec j w) as (o & -> & _). done. Qed.

Lemma ready_loop_read ids acc : pure_read (ready_loop ids acc).
Proof.
  revert acc. induction ids as [|k ids IH]; intros acc; simpl; [done|].
  apply pure_read_bind; [done|]. intros o.
  apply pure_read_bind; [apply pending_run_read|]. intros p.
  destruct o as [j|]; [|apply IH]. destruct (_ && _); [apply IH|].
  apply pure_read_bind; [apply has_dispatched_run_read|]. intros []; [apply IH|].
  apply pure_read_bind; [apply all_dependencies_succeeded_read|]. intros []; apply IH.
Qed.

Lemma dependents_ready_respects j : respects evolves (dependents_ready j).
Proof.
  unfold dependents_ready. apply respects_session_scope; [apply _|].
  apply pure_read_respects, pure_read_bind; [done|]. intros rows. apply ready_loop_read.
Qed.

Lemma insertion_respects j : respects evolves (insertion j).
Proof. unfold insertion. respect. Qed.

(** ** What the transactions do *)

(** The world after a transaction that left the tables [d]. *)
Definition committed (d : Db) (w : World) : World := with_saved d (with_db d w).

Lemma committed_id w : clean w → committed (w_db w) w = w.
Proof. unfold clean, committed. destruct w; simpl. by intros ->. Qed.

(** The row [i] after [f]. *)
Definition put_run (i : Z) (r : JobRun) (d : Db) : Db := with_runs (<[i := r]> (runs d)) d.

(** A body that returns with the tables [d] commits them. *)
Lemma scope_commits {A} (m : M A) w a d :
  w_faults w = [] → m w = (Ok a, with_db d w) → session_scope m w = (Ok a, committed d w).
Proof. intros Hf E. by rewrite (session_scope_quiet m w a (with_db d w) E). Qed.

Lemma keep_sequences_id d : keep_sequences d d = d.
Proof. by destruct d. Qed.

(** A body that raises before it has changed anything. *)
Lemma scope_raises {A} (m : M A) w e :
  clean w → m w = (Raise e, w) → session_scope m w = (Raise e, w).
Proof.
  intros Hc E. unfold session_scope, try_except, mbind, M_bind. rewrite E.
  unfold rollback, raise, mbind, M_bind. unfold clean in Hc. rewrite Hc, keep_sequences_id.
  f_equal. rewrite <- Hc. by apply committed_id.
Qed.

Lemma scope_unchanged {A} (m : M A) w a :
  clean w → w_faults w = [] → m w = (Ok a, w) → session_scope m w = (Ok a, w).
Proof.
  intros Hc Hf E. rewrite (session_scope_quiet m w a w E Hf). f_equal. by apply committed_id.
Qed.

Lemma claim_body i worker b w :
  db_wf (w_db w) →
  (now ← utcnow;
   bind_id runs i;;
   rowcount ← update_runs (λ r, run_id r = i ∧ status r ∈ claimable_from b)
                (λ r, set_status RUNNING (set_started now worker r));
   if decide (rowcount = 0) then mret None
   else
     run ← get_run_row i;
     match run with
     | None => raise AttributeError
     | Some r =>
         job ← get_job_row (run_job_id r);
         match job with
         | None => mret None
         | Some j => mret (Some (claimed_of r j))
         end
     end) w =
  match runs (w_db w) !! i with
  | Some r =>
      if decide (status r ∈ claimable_from b)
      then (Ok (claimed_of r <$> jobs (w_db w) !! run_job_id r),
            with_db (put_run i (set_status RUNNING (set_started (w_clock w) worker r)) (w_db w)) w)
      else (Ok None, w)
  | None => (if in_width 64 i then Ok None else Raise DataError, w)
  end.
Proof.
  intros W. erewrite bind_ok by done.
  destruct (bigint (runs (w_db w)) i) eqn:Hb.
  2: { pose proof (bind_id_eq runs i w) as E. rewrite Hb in E. rewrite (bind_raise _ _ _ _ _ E).
       unfold bigint in Hb. apply orb_false_iff in Hb as [-> Hb]. apply bool_decide_eq_false in Hb.
       destruct (runs (w_db w) !! i); [|done]. exfalso. eauto. }
  pose proof (bind_id_eq runs i w) as E. rewrite Hb in E. rewrite (bind_ok _ _ _ _ _ E). clear E.
  pose proof (update_runs_one i (λ r, status r ∈ claimable_from b)
    (λ r, set_status RUNNING (set_started (w_clock w) worker r)) w W) as Hu.
  destruct (runs (w_db w) !! i) as [r|] eqn:Hi.
  2: { rewrite (bind_ok _ _ _ _ _ Hu). unfold bigint in Hb. rewrite Hi, bool_decide_eq_false_2, orb_false_r in Hb
         by (by intros []). by rewrite Hb. }
  case_decide; [|by rewrite (bind_ok _ _ _ _ _ Hu)].
  rewrite (bind_ok _ _ _ _ _ Hu). rewrite decide_False by done.
  unfold get_run_row, mbind, M_bind, read. simpl. rewrite lookup_insert_eq.
  unfold get_job_row, read. simpl. by destruct (jobs (w_db w) !! run_job_id r).
Qed.

(** Whatever else happens, a claim that returns a dictionary found the run in a
    state it may be claimed from and left it running. *)
Lemma claim_run_inv i worker b w c w' :
  db_wf (w_db w) → claim_run i worker b w = (Ok (Some c), w') →
  ∃ r j, runs (w_db w) !! i = Some r ∧ status r ∈ claimable_from b ∧
    jobs (w_db w) !! run_job_id r = Some j ∧ c = claimed_of r j ∧
    w_db w' = put_run i (set_status RUNNING (set_started (w_clock w) worker r)) (w_db w) ∧
    clean w'.
Proof.
  intros W E. apply session_scope_inv in E as E'.
  destruct E' as (w1 & E1 & Hd & Hs & _). rewrite claim_body in E1 by done.
  destruct (runs (w_db w) !! i) as [r|] eqn:Hi; [|by destruct (in_width 64 i)].
  case_decide as Hst; [|done]. destruct (jobs (w_db w) !! run_job_id r) as [j|] eqn:Hj; [|done].
  simplify_eq/=. exists r, j. repeat split; try done. unfold clean. by rewrite Hd, Hs.
Qed.

Lemma claimed_stays r r' :
  run_evolves r r' → status r = RUNNING → status r' ∉ claimable_from false.
Proof.
  intros Hev Hs. pose proof (ev_status _ _ Hev) as Hre. rewrite Hs in Hre. simpl in *.
  rewrite !elem_of_cons, elem_of_nil. intuition congruence.
Qed.

Lemma lifecycle_lookup d d' i r :
  db_wf d → evolves d d' → runs d !! i = Some r →
  runs d' !! i = None ∨ ∃ r', runs d' !! i = Some r' ∧ run_evolves r r'.
Proof.
  intros W Hev Hi. pose proof (ev_runs _ _ Hev W i (proj2 (wf_run_key _ W _ _ Hi))) as Hl.
  rewrite Hi in Hl. destruct (runs d' !! i); eauto.
Qed.

Lemma claim_once (i : Z) (worker worker' : string) (b : bool) (c : Claimed) (w w1 w2 : World) :
  db_wf (w_db w) →
  claim_run i worker b w = (Ok (Some c), w1) → db_wf (w_db w2) →
  (∀ r1 r2, runs (w_db w1) !! i = Some r1 → runs (w_db w2) !! i = Some r2 → run_evolves r1 r2) →
  ∀ c', (claim_run i worker' false w2).1 ≠ Ok (Some c').
Proof.
  intros W E W2 Hev c' E'.
  destruct (claim_run_inv _ _ _ _ _ _ W E) as (r & j & Hi & Hs & _ & _ & Hd & _).
  set (r1 := set_status RUNNING (set_started (w_clock w) worker r)) in *.
  destruct (claim_run i worker' false w2) as [o w3] eqn:E3. simpl in E'. subst o.
  destruct (claim_run_inv _ _ _ _ _ _ W2 E3) as (r2 & _ & Hi2 & Hs2 & _).
  assert (runs (w_db w1) !! i = Some r1) as Hi1 by (rewrite Hd; apply lookup_insert_eq).
  by apply (claimed_stays _ _ (Hev _ _ Hi1 Hi2)).
Qed.

(** The claim is the idempotency guard.  Once any claim of run [i] has
    succeeded (an ordinary one or a reclaim), no ordinary claim of [i] returns it
    again, from any later state of the tables that the life cycle reaches and
    whichever external calls fail; so duplicate deliveries of a message do not
    execute the run twice. *)
Theorem claim_run_once (i : Z) (worker worker' : string) (b : bool) (c : Claimed) (w w1 w2 : World) :
  db_wf (w_db w) →
  claim_run i worker b w = (Ok (Some c), w1) →
  evolves (w_db w1) (w_db w2) →
  ∀ c', (claim_run i worker' false w2).1 ≠ Ok (Some c').
Proof.
  intros W E Hev. destruct (claim_run_inv _ _ _ _ _ _ W E) as (r & j & Hi & Hs & _ & _ & Hd & _).
  assert (db_wf (w_db w1)) as W1.
  { rewrite Hd. eapply ev_wf, W. apply (evolves_put_run _ _ r); [done|by eapply claim_evolves]. }
  apply (claim_once _ _ _ _ _ _ _ _ W E); [by eapply ev_wf|]. intros r1 r2 H1 H2.
  destruct (lifecycle_lookup _ _ _ _ W1 Hev H1) as [|(r' & ? & ?)]; congruence.
Qed.

(** [claim_run] on every branch.  A run in a claimable state (queued or
    pending; also running for a reclaim) becomes running, with the worker's name
    and the time, and the returned dictionary carries the run's and its job's
    columns; in any other case the answer is [None], or an error for a number that no
    [BIGINT] is, and nothing changes. *)
Theorem claim_run_exact (i : Z) (worker : string) (b : bool) (w : World) :
  clean w → w_faults w = [] → db_wf (w_db w) →
  (∀ r j, runs (w_db w) !! i = Some r → status r ∈ claimable_from b →
     jobs (w_db w) !! run_job_id r = Some j →
     claim_run i worker b w =
       (Ok (Some (claimed_of r j)),
        committed (put_run i (set_status RUNNING (set_started (w_clock w) worker r)) (w_db w)) w)) ∧
  ((∀ r, runs (w_db w) !! i = Some r → status r ∉ claimable_from b) →
     claim_run i worker b w =
       (if bigint (runs (w_db w)) i then Ok None else Raise DataError, w)).
Proof.
  intros Hc Hf W. pose proof (claim_body i worker b w W) as Hbody. split.
  - intros r j Hi Hs Hj. rewrite Hi, decide_True, Hj in Hbody by done. by apply scope_commits.
  - intros Hno. unfold bigint. destruct (runs (w_db w) !! i) as [r|] eqn:Hi.
    + rewrite decide_False in Hbody by auto. rewrite bool_decide_eq_true_2, orb_true_r by eauto.
      by apply scope_unchanged.
    + rewrite bool_decide_eq_false_2, orb_false_r by (by intros []).
      destruct (in_width 64 i); [by apply scope_unchanged|by apply scope_raises].
Qed.

Lemma finish_body i st c v e w :
  db_wf (w_db w) → outcome_ok v e = true →
  (now ← utcnow;
   bind_outcome v e;;
   update_runs (λ r, run_id r = i ∧ status r ≠ CANCELED)
     (λ r, set_status st (set_outcome c v (set_finished now e r)));;
   mret tt) w =
  match runs (w_db w) !! i with
  | Some r => if decide (status r ≠ CANCELED)
      then (Ok tt, with_db (put_run i (set_status st (set_outcome c v
              (set_finished (w_clock w) e r))) (w_db w)) w)
      else (Ok tt, w)
  | None => (Ok tt, w)
  end.
Proof.
  intros W Hv. erewrite bind_ok by done. unfold bind_outcome. rewrite Hv. erewrite bind_ok by done.
  pose proof (update_runs_one i (λ r, status r ≠ CANCELED)
    (λ r, set_status st (set_outcome c v (set_finished (w_clock w) e r))) w W) as Hu.
  destruct (runs (w_db w) !! i) as [r|]; [case_decide|]; by rewrite (bind_ok _ _ _ _ _ Hu).
Qed.

Lemma cancel_body i w :
  db_wf (w_db w) →
  (now ← utcnow;
   rowcount ← update_runs (λ r, run_id r = i ∧ status r ∈ ACTIVE)
     (λ r, set_status CANCELED (set_finished now (Some "canceled by user"%string) r));
   mret (bool_decide (0 < rowcount))) w =
  match runs (w_db w) !! i with
  | Some r => if decide (status r ∈ ACTIVE)
      then (Ok true, with_db (put_run i (set_status CANCELED (set_finished (w_clock w)
              (Some "canceled by user"%string) r)) (w_db w)) w)
      else (Ok false, w)
  | None => (Ok false, w)
  end.
Proof.
  intros W. erewrite bind_ok by done.
  pose proof (update_runs_one i (λ r, status r ∈ ACTIVE)
    (λ r, set_status CANCELED (set_finished (w_clock w) (Some "canceled by user"%string) r)) w W) as Hu.
  destruct (runs (w_db w) !! i) as [r|]; [case_decide|]; by rewrite (bind_ok _ _ _ _ _ Hu).
Qed.

Lemma cancel_run_active i r w :
  w_faults w = [] → db_wf (w_db w) → runs (w_db w) !! i = Some r → status r ∈ ACTIVE →
  cancel_run i w = (Ok true, committed (put_run i (canceled_row (w_clock w) r) (w_db w)) w).
Proof.
  intros Hf W Hi Hs. pose proof (cancel_body i w W) as E. rewrite Hi, decide_True in E by done.
  by apply scope_commits.
Qed.

Lemma finish_run_refused i st c v e w :
  clean w → outcome_ok v e = false → finish_run i st c v e w = (Raise DataError, w).
Proof.
  intros Hc Hv. apply scope_raises; [done|]. erewrite bind_ok by done. unfold bind_outcome.
  by rewrite Hv.
Qed.

(** A worker's result is recorded unless the run was canceled: [finish_run]
    writes status, time, exit code, result and error of exactly the run [i], and
    leaves the table as it is when that run is canceled or gone.  A result or an error with
    a NUL character is refused, and nothing changes. *)
Theorem finish_run_exact (i : Z) (st : RunStatus) (c : option Z) (v : option json)
    (e : option string) (w : World) :
  clean w → w_faults w = [] → db_wf (w_db w) →
  (∀ r, outcome_ok v e = true → runs (w_db w) !! i = Some r → status r ≠ CANCELED →
     finish_run i st c v e w =
       (Ok tt, committed (put_run i (set_status st (set_outcome c v
                 (set_finished (w_clock w) e r))) (w_db w)) w)) ∧
  (outcome_ok v e = true → (∀ r, runs (w_db w) !! i = Some r → status r = CANCELED) →
     finish_run i st c v e w = (Ok tt, w)) ∧
  (outcome_ok v e = false → finish_run i st c v e w = (Raise DataError, w)).
Proof.
  intros Hc Hf W. split; [|split].
  - intros r Hv Hi Hs. pose proof (finish_body i st c v e w W Hv) as Hbody.
    rewrite Hi, decide_True in Hbody by done. by apply scope_commits.
  - intros Hv Hno. pose proof (finish_body i st c v e w W Hv) as Hbody.
    apply scope_unchanged; [done..|]. rewrite Hbody.
    destruct (runs (w_db w) !! i) as [r|]; [|done]. rewrite decide_False; auto.
  - by apply finish_run_refused.
Qed.

(** Cancellation is final under [evolves].  [cancel_run] answers whether the run was active;
    then the run is canceled and in every later state of the tables that the life cycle
    reaches its row is unchanged (or deleted with its job), and no
    claim, not even a reclaim, ever returns it again.  Otherwise nothing
    changes. *)
Theorem cancel_run_final (i : Z) (w : World) :
  clean w → w_faults w = [] → db_wf (w_db w) →
  ∃ b w1, cancel_run i w = (Ok b, w1) ∧
    (b = true ↔ ∃ r, runs (w_db w) !! i = Some r ∧ status r ∈ ACTIVE) ∧
    (b = false → w1 = w) ∧
    (b = true →
       (∃ r, runs (w_db w1) !! i = Some r ∧ status r = CANCELED) ∧
       ∀ w2, evolves (w_db w1) (w_db w2) →
         (runs (w_db w2) !! i = None ∨ runs (w_db w2) !! i = runs (w_db w1) !! i) ∧
         ∀ worker reclaim c, (claim_run i worker reclaim w2).1 ≠ Ok (Some c)).
Proof.
  intros Hc Hf W. pose proof (cancel_body i w W) as Hbody.
  destruct (runs (w_db w) !! i) as [r|] eqn:Hi; [case_decide as Hs|].
  2: { exists false, w. split; [by apply scope_unchanged|]. naive_solver. }
  2: { exists false, w. split; [by apply scope_unchanged|]. naive_solver. }
  set (r1 := set_status CANCELED _) in *. set (d1 := put_run i r1 (w_db w)) in *.
  exists true, (committed d1 w). split; [by apply scope_commits|].
  split; [split; [by eauto|done]|]. split; [done|]. intros _. simpl.
  assert (runs d1 !! i = Some r1) as Hi1 by apply lookup_insert_eq.
  assert (db_wf d1) as W1.
  { apply (ev_wf (w_db w)); [|done]. apply (evolves_put_run _ _ r); [done|by apply cancel_evolves]. }
  split; [by eauto|]. intros w2 Hev. pose proof (ev_wf _ _ Hev W1) as W2.
  assert (runs (w_db w2) !! i = None ∨ runs (w_db w2) !! i = Some r1) as Hi2.
  { destruct (lifecycle_lookup _ _ _ _ W1 Hev Hi1) as [|(r' & Hi' & Hre)]; [by left|].
    right. by rewrite Hi', (ev_canceled _ _ Hre). }
  split; [by rewrite <- Hi1 in Hi2|]. intros worker reclaim c E.
  destruct (claim_run i worker reclaim w2) as [o w3] eqn:E3. simpl in E. subst o.
  destruct (claim_run_inv _ _ _ _ _ _ W2 E3) as (r2 & _ & Hr2 & Hs2 & _).
  destruct Hi2 as [Hi2|Hi2]; rewrite Hr2 in Hi2; simplify_eq.
  destruct reclaim; simpl in Hs2; set_solver.
Qed.

(** Job [k] may be started because a job it depends on has succeeded. *)
Definition ready (d : Db) (k : Z) : Prop :=
  ∃ j, jobs d !! k = Some j ∧ (enabled j = true ∨ ¬ no_pending d k) ∧
    ¬ dispatched d k ∧ deps_succeeded d k.

Lemma ready_loop_spec ids acc w :
  ∃ l, ready_loop ids acc w = (Ok (acc ++ l), w) ∧ l `sublist_of` ids ∧
    ∀ k, k ∈ l ↔ k ∈ ids ∧ ready (w_db w) k.
Proof.
  revert acc. induction ids as [|k ids IH]; intros acc.
  { exists []. rewrite app_nil_r. split; [done|]. split; [done|]. set_solver. }
  assert (¬ ready (w_db w) k → ∃ l, ready_loop ids acc w = (Ok (acc ++ l), w) ∧
    l `sublist_of` k :: ids ∧ ∀ k', k' ∈ l ↔ k' ∈ k :: ids ∧ ready (w_db w) k') as Hskip.
  { intros Hno. destruct (IH acc) as (l & E & Hsub & Hl). exists l. split; [done|].
    split; [by constructor|]. intros k'. rewrite Hl, elem_of_cons. naive_solver. }
  destruct (pending_run_spec k w) as (o & Eo & Ho).
  destruct (has_dispatched_run_spec k w) as (b & Eb & Hb).
  destruct (all_dependencies_succeeded_spec k w) as (b' & Eb' & Hb').
  cbn [ready_loop]. unfold get_job_row, mbind at 1, M_bind at 1, read.
  rewrite (bind_ok _ _ _ _ _ Eo). destruct (jobs (w_db w) !! k) as [j|] eqn:Hj.
  2: { apply Hskip. intros (j & ? & _). congruence. }
  destruct (negb (enabled j) && bool_decide (o = None)) eqn:Een.
  { apply andb_true_iff in Een as [Hen ->%bool_decide_eq_true]. apply Hskip.
    intros (j' & Hj' & Hor & _). assert (j' = j) as -> by congruence. destruct (enabled j); naive_solver. }
  rewrite (bind_ok _ _ _ _ _ Eb). destruct b.
  { apply Hskip. intros (? & _ & _ & Hd & _). naive_solver. }
  rewrite (bind_ok _ _ _ _ _ Eb'). destruct b'.
  2: { apply Hskip. intros (? & _ & _ & _ & Hd). apply Hb' in Hd. done. }
  destruct (IH (acc ++ [k])) as (l & E & Hsub & Hl). exists (k :: l).
  split; [by rewrite E, <- app_assoc|]. split; [by constructor|].
  assert (ready (w_db w) k) as Hrk.
  { exists j. split; [done|]. split; [|naive_solver].
    destruct (enabled j); [by left|right]. intros Hnp. destruct o as [r|]; [|done].
    destruct Ho as ([i Hi] & Hr & Hst & _). by apply (Hnp i r). }
  intros k'. rewrite !elem_of_cons, Hl. naive_solver.
Qed.

Lemma dependents_ready_eq job w :
  clean w → w_faults w = [] →
  ∃ l, dependents_ready job w = (Ok l, w) ∧ NoDup l ∧
    ∀ k, k ∈ l ↔
      (∃ i e, deps (w_db w) !! i = Some e ∧ depends_on_job_id e = job ∧ dep_job_id e = k) ∧
      ready (w_db w) k.
Proof.
  intros Hc Hf. set (rows := filter (λ e, depends_on_job_id e = job) (heap_scan (deps (w_db w)))).
  destruct (ready_loop_spec (dict_fromkeys (dep_job_id <$> rows)) [] w) as (l & E & Hsub & Hl).
  exists l. split; [by apply scope_unchanged|].
  split; [eapply sublist_NoDup; [apply NoDup_dict_fromkeys|done]|].
  intros k. rewrite Hl, elem_of_dict_fromkeys, list_elem_of_fmap. unfold rows.
  setoid_rewrite elem_of_select. naive_solver.
Qed.

(** [dependents_ready] returns, without repetition, exactly the jobs that
    depend on the given one and are ready: they exist, are enabled or have a
    pending run, have no queued or running run, and every job they depend on has
    a succeeded run; it changes nothing. *)
Theorem dependents_ready_exact (job : Z) (w : World) :
  clean w → w_faults w = [] →
  ∃ l, dependents_ready job w = (Ok l, w) ∧ NoDup l ∧
    ∀ k, k ∈ l ↔
      (∃ i e, deps (w_db w) !! i = Some e ∧ depends_on_job_id e = job ∧ dep_job_id e = k) ∧
      ready (w_db w) k.
Proof. by apply dependents_ready_eq. Qed.

Lemma oldest_pending_key d j r : db_wf d → oldest_pending d j r → runs d !! run_id r = Some r.
Proof. intros W ([i Hi] & _). by destruct (wf_run_key _ W _ _ Hi) as [-> _]. Qed.

(** The run [create_dependency_run] dispatches: the oldest pending one, else a
    new one. *)
Definition dependency_db (d : Db) (job now : Z) (pending : option JobRun) : Z * Db :=
  match pending with
  | Some r => (run_id r, put_run (run_id r) (set_status QUEUED r) d)
  | None =>
      let r := new_run (runs_seq d) job DEPENDENCY QUEUED 1 None now in
      (runs_seq d, with_runs (<[runs_seq d := r]> (runs d)) (next_runs d))
  end.

Lemma dependency_db_dispatched d job now o :
  match o with Some r => oldest_pending d job r | None => True end →
  dispatched (dependency_db d job now o).2 job.
Proof.
  intros Ho. destruct o as [r|]; simpl.
  - destruct Ho as (_ & Hj & _). exists (run_id r), (set_status QUEUED r).
    split; [apply lookup_insert_eq|]. split; [done|]. simpl. set_solver.
  - exists (runs_seq d), (new_run (runs_seq d) job DEPENDENCY QUEUED 1 None now).
    split; [apply lookup_insert_eq|]. split; [done|]. simpl. set_solver.
Qed.

Lemma create_dependency_run_skip job w :
  clean w → w_faults w = [] → dispatched (w_db w) job →
  run (create_dependency_run job) w = (Ok None, w).
Proof.
  intros Hc Hf Hd. destruct (has_dispatched_run_spec job w) as (b & Eb & Hb).
  apply Hb in Hd as ->. unfold create_dependency_run. rewrite (run_step _ _ _ _ _ Eb), run_call.
  by apply scope_unchanged.
Qed.

Lemma promote_run_eq i r w :
  runs (w_db w) !! i = Some r →
  promote_run i w = (Ok tt, with_db (put_run i (set_status QUEUED r) (w_db w)) w).
Proof.
  intros Hi. unfold promote_run, get_run_row, read, mbind, M_bind. rewrite Hi.
  unfold set_run_status, put_run. by rewrite (alter_as_insert _ _ _ r).
Qed.

Lemma promotion_eq i r w :
  w_faults w = [] → runs (w_db w) !! i = Some r →
  promotion i w = (Ok (Some i), committed (put_run i (set_status QUEUED r) (w_db w)) w).
Proof.
  intros Hf Hi. apply scope_commits; [done|]. by rewrite (bind_ok _ _ _ _ _ (promote_run_eq _ _ _ Hi)).
Qed.

Lemma insertion_eq job w :
  w_faults w = [] → is_Some (jobs (w_db w) !! job) →
  let d := w_db w in
  let r := new_run (runs_seq d) job DEPENDENCY QUEUED 1 None (w_clock w) in
  insertion job w =
    (Ok (Some (runs_seq d)), committed (with_runs (<[runs_seq d := r]> (runs d)) (next_runs d)) w).
Proof.
  intros Hf Hj. apply scope_commits; [done|]. unfold insert_run, mbind, M_bind. by rewrite decide_True.
Qed.

(** The pending run that is promoted, if there is one. *)
Definition first_pending (d : Db) (job : Z) (o : option JobRun) : Prop :=
  match o with Some r => oldest_pending d job r | None => no_pending d job end.

Lemma create_dependency_run_eq job w :
  w_faults w = [] → db_wf (w_db w) → is_Some (jobs (w_db w) !! job) →
  ¬ dispatched (w_db w) job →
  ∃ o, first_pending (w_db w) job o ∧
    run (create_dependency_run job) w =
      (Ok (Some (dependency_db (w_db w) job (w_clock w) o).1),
       committed (dependency_db (w_db w) job (w_clock w) o).2 w).
Proof.
  intros Hf W Hjob Hnd. destruct (has_dispatched_run_spec job w) as (b & Eb & Hb).
  assert (b = false) as -> by (destruct b; naive_solver).
  destruct (pending_run_spec job w) as (o & Eo & Ho). exists o. split; [done|].
  unfold create_dependency_run. rewrite (run_step _ _ _ _ _ Eb), (run_step _ _ _ _ _ Eo).
  destruct o as [r|]; rewrite run_call.
  - by rewrite (promotion_eq _ r) by (done || by eapply oldest_pending_key).
  - by rewrite insertion_eq.
Qed.

(** [create_dependency_run] dispatches a job at most once, when nothing else happens
    between its statements.  With a queued or
    running run of the job there it answers [None] and changes nothing; otherwise
    it promotes the oldest pending run, or else creates one queued run, and
    returns its id; called again it answers [None], so a job waiting for several
    dependencies that finish one after the other is started once. *)
Theorem create_dependency_run_once (job : Z) (w : World) :
  clean w → w_faults w = [] → db_wf (w_db w) → is_Some (jobs (w_db w) !! job) →
  (dispatched (w_db w) job → run (create_dependency_run job) w = (Ok None, w)) ∧
  (¬ dispatched (w_db w) job →
     ∃ pending, first_pending (w_db w) job pending ∧
       let '(i, d) := dependency_db (w_db w) job (w_clock w) pending in
       run (create_dependency_run job) w = (Ok (Some i), committed d w) ∧
       run (create_dependency_run job) (committed d w) = (Ok None, committed d w)).
Proof.
  intros Hc Hf W Hjob. split; [by apply create_dependency_run_skip|]. intros Hnd.
  destruct (create_dependency_run_eq job w Hf W Hjob Hnd) as (o & Ho & E). exists o.
  split; [done|]. destruct (dependency_db (w_db w) job (w_clock w) o) as [i d] eqn:Ed.
  split; [done|]. apply create_dependency_run_skip; [done..|]. simpl.
  replace d with (dependency_db (w_db w) job (w_clock w) o).2 by (by rewrite Ed).
  apply dependency_db_dispatched. by destruct o.
Qed.

(** ** Logs *)

Definition log_row (i run now : Z) (e : LogStream * string) : JobRunLog :=
  {| log_id := i; log_run_id := run; ts := now; stream := e.1; line := e.2 |}.

(** The table after the rows [es] were inserted for [run]. *)
Fixpoint add_logs (run now : Z) (es : list (LogStream * string)) (d : Db) : Db :=
  match es with
  | [] => d
  | e :: es => add_logs run now es
      (with_logs (<[logs_seq d := log_row (logs_seq d) run now e]> (logs d)) (next_logs d))
  end.

(** Every line can be stored. *)
Definition lines_ok (es : list (LogStream * string)) : Prop := Forall (λ e, text_ok e.2 = true) es.
#[global] Instance lines_ok_dec es : Decision (lines_ok es).
Proof. unfold lines_ok. apply _. Defined.

Lemma insert_logs_eq run es w :
  lines_ok es → is_Some (runs (w_db w) !! run) →
  for_each es (λ e, insert_log run e.1 e.2) w =
    (Ok tt, with_db (add_logs run (w_clock w) es (w_db w)) w).
Proof.
  revert w. induction es as [|e es IH]; intros w Hes Hr; simpl; [by destruct w|].
  apply Forall_cons in Hes as [He Hes].
  unfold mbind at 1, M_bind at 1, insert_log at 1. rewrite He. simpl. rewrite decide_True by done.
  by rewrite IH.
Qed.

(** One line that cannot be stored: no row is left, only numbers are lost. *)
Lemma insert_logs_refused run es w :
  ¬ lines_ok es → is_Some (runs (w_db w) !! run) →
  ∃ d, for_each es (λ e, insert_log run e.1 e.2) w = (Raise DataError, with_db d w) ∧
    logs_seq (w_db w) ≤ logs_seq d ∧ users_seq d = users_seq (w_db w) ∧
    jobs_seq d = jobs_seq (w_db w) ∧ deps_seq d = deps_seq (w_db w) ∧ runs_seq d = runs_seq (w_db w).
Proof.
  revert w. induction es as [|e es IH]; intros w Hes Hr; [by destruct Hes; constructor|].
  simpl. unfold mbind at 1, M_bind at 1, insert_log at 1. destruct (text_ok e.2) eqn:He; simpl.
  - rewrite decide_True by done. match goal with |- context [for_each es _ ?w'] => destruct (IH w') as (d & E & Hd) end;
      [intros Hok; apply Hes; by constructor|done|].
    rewrite E. exists d. split; [done|]. simpl in Hd. split; [lia|]. apply Hd.
  - exists (w_db w). split; [by destruct w|]. split; [lia|done].
Qed.

Lemma append_logs_eq run es w :
  clean w → w_faults w = [] → lines_ok es → is_Some (runs (w_db w) !! run) →
  append_logs run es w = (Ok tt, committed (add_logs run (w_clock w) es (w_db w)) w).
Proof.
  intros Hc Hf Hes Hr. destruct es as [|e es].
  - simpl. by rewrite committed_id.
  - unfold append_logs. apply scope_commits; [done|]. by apply insert_logs_eq.
Qed.

(** The tables of [d], from where the log numbers went on to [n]. *)
Definition skip_logs (n : Z) (d : Db) : Db :=
  keep_sequences d {| users := users d; jobs := jobs d; deps := deps d; runs := runs d;
    logs := logs d; users_seq := users_seq d; jobs_seq := jobs_seq d; deps_seq := deps_seq d;
    runs_seq := runs_seq d; logs_seq := n |}.

Lemma append_logs_refused run es w :
  clean w → ¬ lines_ok es → is_Some (runs (w_db w) !! run) →
  ∃ n, append_logs run es w = (Raise DataError, committed (skip_logs n (w_db w)) w) ∧
    logs_seq (w_db w) ≤ n.
Proof.
  intros Hc Hes Hr. destruct (insert_logs_refused run es w Hes Hr) as (d & E & Hn & Eu & Ej & Ed & Er).
  exists (logs_seq d). split; [|done]. destruct es as [|e es]; [by destruct Hes; constructor|].
  unfold append_logs, session_scope, try_except, mbind at 1, M_bind at 1. rewrite E.
  unfold rollback, raise, mbind, M_bind, committed. simpl. unfold clean in Hc. rewrite <- Hc.
  assert (keep_sequences (w_db w) d = skip_logs (logs_seq d) (w_db w)) as ->; [|done].
  unfold skip_logs, keep_sequences. simpl. by rewrite Eu, Ej, Ed, Er.
Qed.

(** The lines of run [i] in the order the API shows them. *)
Definition run_logs (i : Z) (d : Db) : list JobRunLog :=
  merge_sort logged_before (filter (λ l, log_run_id l = i) (heap_scan (logs d))).
Definition run_lines (i : Z) (d : Db) : list (LogStream * string) :=
  (λ l, (stream l, line l)) <$> run_logs i d.

#[local] Instance logged_before_total : Total logged_before.
Proof. intros l l'. unfold logged_before. lia. Qed.
#[local] Instance logged_before_trans : Transitive logged_before.
Proof. intros l1 l2 l3. unfold logged_before. lia. Qed.

Lemma elem_of_run_logs i d l :
  l ∈ run_logs i d ↔ ∃ k, logs d !! k = Some l ∧ log_run_id l = i.
Proof. unfold run_logs. by rewrite (merge_sort_Permutation _ _), elem_of_select. Qed.

(** A row newer than all others of its run is shown last. *)
Lemma run_logs_insert i d e now :
  db_wf d → (∀ l, l ∈ run_logs i d → ts l ≤ now) →
  run_logs i (with_logs (<[logs_seq d := log_row (logs_seq d) i now e]> (logs d)) (next_logs d)) =
    run_logs i d ++ [log_row (logs_seq d) i now e].
Proof.
  intros W Hts. set (row := log_row (logs_seq d) i now e).
  assert (∀ l, l ∈ run_logs i d → log_id l < logs_seq d ∧ logs d !! log_id l = Some l) as Hid.
  { intros l (k & Hk & _)%elem_of_run_logs.
    by destruct (wf_log_key _ W _ _ Hk) as [-> ?]. }
  assert (logs d !! logs_seq d = None) as Hfresh.
  { destruct (logs d !! logs_seq d) eqn:E; [|done]. apply (wf_log_key _ W) in E as [_ ?]. lia. }
  assert (run_logs i (with_logs (<[logs_seq d := row]> (logs d)) (next_logs d)) ≡ₚ
    run_logs i d ++ [row]) as Hperm.
  { unfold run_logs. rewrite !(merge_sort_Permutation _ _). simpl.
    rewrite !(heap_scan_perm _), map_to_list_insert by done. simpl.
    rewrite filter_cons_True by done. by rewrite Permutation_app_comm. }
  eapply (StronglySorted_unique_strong logged_before); [|apply StronglySorted_merge_sort; apply _| |done].
  - intros l1 l2 H1 H2 Hb1 Hb2.
    assert (log_id l1 = log_id l2) as Heq by (unfold logged_before in *; lia).
    rewrite Hperm in H1. rewrite elem_of_app, list_elem_of_singleton in H1, H2.
    destruct H1 as [H1| ->], H2 as [H2| ->]; try done.
    + destruct (Hid _ H1), (Hid _ H2). congruence.
    + destruct (Hid _ H1). simpl in *. lia.
    + destruct (Hid _ H2). simpl in *. lia.
  - apply StronglySorted_app_2; [|apply StronglySorted_merge_sort; apply _|repeat constructor].
    intros l l' Hl ->%list_elem_of_singleton. destruct (Hid _ Hl). specialize (Hts _ Hl).
    unfold logged_before. simpl. lia.
Qed.

Lemma run_lines_add_logs i now es d :
  db_wf d → is_Some (runs d !! i) → (∀ l, l ∈ run_logs i d → ts l ≤ now) →
  run_lines i (add_logs i now es d) = run_lines i d ++ es.
Proof.
  revert d. induction es as [|e es IH]; intros d W Hi Hts; [by rewrite app_nil_r|].
  cbn [add_logs]. rewrite IH; simpl; try done.
  - unfold run_lines. rewrite run_logs_insert, fmap_app, <- app_assoc by done. by destruct e.
  - refine (ev_wf d _ _ W). apply (evolves_insert_log d (log_row (logs_seq d) i now e)); done.
  - intros l. rewrite run_logs_insert by done.
    rewrite elem_of_app, list_elem_of_singleton. intros [Hl| ->]; [by apply Hts|done].
Qed.

Lemma create_retry_run_eq job att w :
  clean w → w_faults w = [] → is_Some (jobs (w_db w) !! job) →
  create_retry_run job att w =
    let d := w_db w in
    let r := new_run (runs_seq d) job RETRY QUEUED att None (w_clock w) in
    (Ok (runs_seq d), committed (with_runs (<[runs_seq d := r]> (runs d)) (next_runs d)) w).
Proof.
  intros Hc Hf Hj. apply scope_commits; [done|].
  unfold insert_run, mbind, M_bind. by rewrite decide_True.
Qed.

Lemma is_run_canceled_eq i w :
  clean w → w_faults w = [] → db_wf (w_db w) →
  ∃ b, is_run_canceled i w = (Ok b, w) ∧
    (b = true ↔ ∃ r, runs (w_db w) !! i = Some r ∧ status r = CANCELED).
Proof.
  intros Hc Hf W. eexists. split; [by apply scope_unchanged|].
  rewrite bool_decide_eq_true.
  pose proof (elem_of_select (λ r, run_id r = i ∧ status r = CANCELED) (runs (w_db w))) as Hin.
  destruct (filter _ (heap_scan (runs (w_db w)))) as [|r l] eqn:E; simpl; split; try done.
  - intros (r & Hi & Hs). exfalso. apply (not_elem_of_nil (A := JobRun) r), Hin.
    exists i. split; [done|]. split; [|done]. by apply (wf_run_key _ W).
  - intros _. destruct (proj1 (Hin r)) as (k & Hk & Hid & Hs); [set_solver|].
    destruct (wf_run_key _ W _ _ Hk) as [Hkk _]. exists r. split; [congruence|done].
Qed.

End store.

#[export] Hint Resolve claim_run_respects append_logs_respects cancel_run_respects
  is_run_canceled_respects finish_run_respects create_retry_run_respects
  dependents_ready_respects insertion_respects : respect.

(** ** Evaluation *)

(** Two jobs, the second depending on the first; the first has a succeeded run
    (1) and a queued one (2). *)
Definition setup_store : M unit :=
  insert_user (demo_user "ann");;
  insert_job (demo_job "extract" "manual" None);;
  insert_job (demo_job "load" "manual" None);;
  insert_dep 2 1;;
  insert_run 1 MANUAL SUCCEEDED 1 None;;
  insert_run 1 MANUAL QUEUED 1 None;;
  mret tt.

Lemma wf_store : db_wf (demo_db setup_store).
Proof. apply db_wf_demo. unfold setup_store. demo_steps. Qed.

Definition world_store : World := demo_world empty_view (demo_db setup_store) 7.

Lemma clean_store : clean world_store.
Proof. apply clean_demo. Qed.
Lemma quiet_store : w_faults world_store = [].
Proof. apply quiet_demo. Qed.

Lemma claim_run_once_witness :
  ∃ c w1, claim_run 2 "w1" false world_store = (Ok (Some c), w1) ∧
    ∀ c', (claim_run 2 "w2" false w1).1 ≠ Ok (Some c').
Proof.
  destruct (claim_run 2 "w1" false world_store) as [o w1] eqn:E.
  assert (∃ c, o = Ok (Some c)) as [c ->].
  { change o with (o, w1).1. rewrite <- E. eexists. vm_compute. reflexivity. }
  exists c, w1. split; [reflexivity|].
  exact (claim_run_once 2 "w1" "w2" false c world_store w1 w1 wf_store E (reflexivity _)).
Defined.

Lemma store_run_2 :
  ∃ r j, runs (w_db world_store) !! 2 = Some r ∧ status r ∈ claimable_from false ∧
    jobs (w_db world_store) !! run_job_id r = Some j ∧ name j = "extract"%string.
Proof.
  eexists _, _. split; [vm_compute; reflexivity|].
  split; [apply elem_of_cons; right; by apply elem_of_cons; left|].
  split; vm_compute; reflexivity.
Qed.

Lemma claim_run_exact_witness :
  (∃ c w1, claim_run 2 "w1" false world_store = (Ok (Some c), w1) ∧ c_job_name c = "extract"%string) ∧
  claim_run 1 "w1" true world_store = (Ok None, world_store).
Proof.
  split.
  - destruct store_run_2 as (r & j & Hr & Hs & Hj & Hn).
    exists (claimed_of r j). eexists. split; [|exact Hn].
    exact (proj1 (claim_run_exact 2 "w1" false world_store clean_store quiet_store wf_store) r j Hr Hs Hj).
  - apply (proj2 (claim_run_exact 1 "w1" true world_store clean_store quiet_store wf_store)).
    intros r Hr. vm_compute in Hr. injection Hr as <-. simpl. set_solver.
Defined.

Lemma finish_run_exact_witness :
  ∃ w1, finish_run 2 FAILED (Some 3) None (Some "boom"%string) world_store = (Ok tt, w1) ∧
    (status <$> runs (w_db w1) !! 2) = Some FAILED.
Proof.
  eexists. split.
  - apply (proj1 (finish_run_exact 2 FAILED (Some 3) None (Some "boom"%string) world_store
      clean_store quiet_store wf_store)); [reflexivity|vm_compute; reflexivity|done].
  - vm_compute. reflexivity.
Defined.

Lemma cancel_run_final_witness :
  ∃ w1, cancel_run 2 world_store = (Ok true, w1) ∧
    (∃ r, runs (w_db w1) !! 2 = Some r ∧ status r = CANCELED) ∧
    ∀ worker reclaim c, (claim_run 2 worker reclaim w1).1 ≠ Ok (Some c).
Proof.
  destruct (cancel_run_final 2 world_store clean_store quiet_store wf_store)
    as (b & w1 & E & _ & _ & Ht).
  assert (b = true) as -> by (cut ((cancel_run 2 world_store).1 = Ok true);
    [rewrite E; by intros [= ->]|vm_compute; reflexivity]).
  destruct (Ht eq_refl) as [Hr Hall]. exists w1. split; [exact E|]. split; [exact Hr|].
  apply (Hall w1). reflexivity.
Defined.

Lemma dependents_ready_exact_witness :
  ∃ l, dependents_ready 1 world_store = (Ok l, world_store) ∧ NoDup l ∧ l = [2].
Proof.
  destruct (dependents_ready_exact 1 world_store clean_store quiet_store) as (l & E & Hnd & _).
  exists l. split; [exact E|]. split; [exact Hnd|].
  cut ((dependents_ready 1 world_store).1 = Ok [2]); [rewrite E; by intros [= ->]|].
  vm_compute. reflexivity.
Defined.

(** Job 2 has no run yet. *)
Lemma store_not_dispatched : ¬ dispatched (w_db world_store) 2.
Proof.
  intros (i & r & Hi & Hj & _).
  refine (rows_decide (λ r, run_job_id r ≠ 2) (runs (w_db world_store)) _ i r Hi Hj).
  vm_compute. reflexivity.
Qed.

Lemma create_dependency_run_once_witness :
  ∃ i w1, run (create_dependency_run 2) world_store = (Ok (Some i), w1) ∧
    run (create_dependency_run 2) w1 = (Ok None, w1).
Proof.
  assert (is_Some (jobs (w_db world_store) !! 2)) as Hj by (vm_compute; eauto).
  destruct (proj2 (create_dependency_run_once 2 world_store clean_store quiet_store wf_store Hj)
    store_not_dispatched) as (o & _ & Ho).
  destruct (dependency_db _ _ _ o) as [i d]. exists i, (committed d world_store). exact Ho.
Defined.
