(* ===== verification/Executor.v ===== *)
(** * The executor contract: [backend/worker/executors/base.py], [__init__.py]

    An executor runs the task of a claimed run and streams lines to the log
    function it is given.  [Executors] is what the worker relies on: the three
    registered executors act on the shared state only through their log function
    and report one of the three outcomes. *)

From S2P Require Import Prelude PyBase Models RedisServer Effects Database Store.

(** ** Results *)

Record ExecResult := {
  er_status : RunStatus;
  er_exit_code : option Z;
  er_result : option json;
  er_error : option string
}.

Definition succeeded (r : ExecResult) : bool := bool_decide (er_status r = SUCCEEDED).

Definition exec_ok (c : option Z) (v : option json) : ExecResult :=
  {| er_status := SUCCEEDED; er_exit_code := c; er_result := v; er_error := None |}.
Definition exec_failed (e : string) (c : option Z) (v : option json) : ExecResult :=
  {| er_status := FAILED; er_exit_code := c; er_result := v; er_error := Some e |}.
Definition exec_timed_out (e : string) (c : option Z) (v : option json) : ExecResult :=
  {| er_status := TIMED_OUT; er_exit_code := c; er_result := v; er_error := Some e |}.

Section executor.
Context `{RedisServer}.

(** [LogFn] and [Executor] *)
Definition LogFn : Type := LogStream → string → prog unit.
Definition Executor : Type := list (string * json) → Z → LogFn → prog ExecResult.

(** An action on the outside world: the tables, the queue and the buffers stay
    as they are, time may pass. *)
Definition external {B} (m : M B) : Prop :=
  ∀ w, ∃ t, (m w).2 = with_clock t w ∧ w_clock w ≤ t.

(** Every value the program returns satisfies [P]. *)
Fixpoint returns {A} (P : A → Prop) (p : prog A) : Prop :=
  match p with
  | Ret a => P a
  | Throw _ => True
  | Atomic B m k => ∀ r, returns P (k r)
  end.

Lemma returns_impl {A} (P Q : A → Prop) (p : prog A) :
  (∀ a, P a → Q a) → returns P p → returns Q p.
Proof. intros HPQ. induction p as [a|e|C m k IH]; simpl; auto. Qed.

Lemma returns_and {A} (P Q : A → Prop) (p : prog A) :
  returns P p → returns Q p → returns (λ a, P a ∧ Q a) p.
Proof. induction p as [a|e|C m k IH]; simpl; auto. Qed.

Lemma returns_pure {A} (φ : Prop) (Q : A → Prop) (p : prog A) :
  (φ → returns Q p) → returns (λ a, φ → Q a) p.
Proof. induction p as [a|e|C m k IH]; simpl; auto. Qed.

Lemma returns_bind {A B} (P : B → Prop) (p : prog A) (f : A → prog B) :
  (∀ a, returns P (f a)) → returns P (p ≫= f).
Proof. intros Hf. induction p as [a|e|C m k IH]; simpl; [apply Hf|done|auto]. Qed.

Lemma returns_bind' {A B} (Q : A → Prop) (P : B → Prop) (p : prog A) (f : A → prog B) :
  returns Q p → (∀ a, Q a → returns P (f a)) → returns P (p ≫= f).
Proof.
  intros Hp Hf. induction p as [a|e|C m k IH]; [by apply Hf|done|].
  intros r. apply IH, Hp.
Qed.

Lemma returns_try {A} (P : A → Prop) (p : prog A) h :
  returns P p → (∀ e, returns P (h e)) → returns P (ptry p h).
Proof.
  intros Hp Hh. induction p as [a|e|C m k IH]; [done|apply Hh|].
  intros r. apply IH, Hp.
Qed.

(** A value a program returns satisfies the postcondition. *)
Lemma returns_run {A} (P : A → Prop) (p : prog A) w a w' :
  returns P p → run p w = (Ok a, w') → P a.
Proof.
  revert w. induction p as [b|e|C m k IH]; simpl; intros w Hp E.
  - by inversion E; subst.
  - done.
  - by eapply IH.
Qed.

(** Any property of actions that the log function and all external actions have,
    all actions of the executor have. *)
Definition acts_through_log (x : Executor) : Prop :=
  ∀ (P : ∀ B, M B → Prop) spec timeout (log : LogFn),
    (∀ s l, prog_all P (log s l)) → (∀ B (m : M B), external m → P B m) →
    prog_all P (x spec timeout log).

(** One of the three outcomes, with a result of the declared type. *)
Definition valid_result (r : ExecResult) : Prop :=
  outcome_status (er_status r) ∧ plain_result (er_result r).

Definition reports_outcome (x : Executor) : Prop :=
  ∀ spec timeout log, returns valid_result (x spec timeout log).

Class Executors := {
  http_execute : Executor;
  shell_execute : Executor;
  http_async_execute : Executor;
  executors_through_log : ∀ x, x ∈ [http_execute; shell_execute; http_async_execute] →
    acts_through_log x;
  executors_outcome : ∀ x, x ∈ [http_execute; shell_execute; http_async_execute] →
    reports_outcome x
}.

(** ** The registry *)

Definition REGISTRY `{Executors} : list (string * Executor) :=
  [(TaskType.HTTP, http_execute); (TaskType.SHELL, shell_execute);
   (TaskType.HTTP_ASYNC, http_async_execute)].

(** [REGISTRY.get(task_type)] *)
Fixpoint registry_get (t : string) (l : list (string * Executor)) : option Executor :=
  match l with
  | [] => None
  | (k, x) :: l => if decide (t = k) then Some x else registry_get t l
  end.

Definition get_executor `{Executors} (task_type : string) : Res Executor :=
  match registry_get task_type REGISTRY with
  | None => Raise (ValueError ("no executor registered for task_type '" ++ task_type ++ "'"))
  | Some x => Ok x
  end.

Lemma get_executor_elem `{Executors} t x :
  get_executor t = Ok x → x ∈ [http_execute; shell_execute; http_async_execute].
Proof. unfold get_executor, REGISTRY. simpl. intros. repeat case_decide; simplify_eq; set_solver. Qed.

(** Every task type the API accepts has an executor. *)
Lemma get_executor_total `{Executors} t : t ∈ TaskType.ALL ↔ ∃ x, get_executor t = Ok x.
Proof.
  unfold get_executor, REGISTRY, TaskType.ALL. simpl. split.
  - intros Ht. repeat case_decide; eauto. set_solver.
  - intros [x Hx]. repeat case_decide; simplify_eq; set_solver.
Qed.

(** ** Invariants of programs *)

(** Every action of [p] keeps [I]. *)
Definition keeps (I : World → Prop) {A} (p : prog A) : Prop :=
  prog_all (λ B (m : M B), ∀ w, I w → I (m w).2) p.

Lemma keeps_run I {A} (p : prog A) w : keeps I p → I w → I (run p w).2.
Proof.
  revert w. induction p as [a|e|C m k IH]; simpl; intros w Hp Hw; [done..|].
  destruct Hp as [Hm Hk]. apply IH; [apply Hk|by apply Hm].
Qed.

Lemma executor_keeps `{Executors} I t x spec timeout log w :
  get_executor t = Ok x →
  (∀ s l, keeps I (log s l)) → (∀ w c, I w → w_clock w ≤ c → I (with_clock c w)) →
  I w → I (run (x spec timeout log) w).2.
Proof.
  intros Hx Hlog Hclock Hw. apply keeps_run; [|done].
  apply (executors_through_log x); [by eapply get_executor_elem|done|].
  intros B m Hm w0 Hw0. destruct (Hm w0) as (c & -> & Hc). by apply Hclock.
Qed.

Lemma external_respects {B} (m : M B) : external m → respects evolves m.
Proof. intros Hm w Hw. destruct (Hm w) as (t & -> & _). simpl. by split. Qed.

Lemma external_tidy {B} (m : M B) : external m → tidy m.
Proof. intros Hm w Hw. by destruct (Hm w) as (t & -> & _). Qed.

Lemma executor_presp `{Executors} t x spec timeout (log : LogFn) :
  get_executor t = Ok x → (∀ s l, presp evolves (log s l)) →
  presp evolves (x spec timeout log).
Proof.
  intros Hx Hlog. apply (executors_through_log x); [by eapply get_executor_elem|done|].
  intros B m. apply external_respects.
Qed.

Lemma executor_ptidy `{Executors} t x spec timeout (log : LogFn) :
  get_executor t = Ok x → (∀ s l, ptidy (log s l)) → ptidy (x spec timeout log).
Proof.
  intros Hx Hlog. apply (executors_through_log x); [by eapply get_executor_elem|done|].
  intros B m. apply external_tidy.
Qed.

End executor.

(** ** An instance for evaluation *)

Lemma prog_all_bind `{RedisServer} (P : ∀ B, M B → Prop) {A B} (p : prog A) (f : A → prog B) :
  prog_all P p → (∀ a, prog_all P (f a)) → prog_all P (p ≫= f).
Proof.
  intros Hp Hf. induction p as [a|e|C m k IH]; [apply Hf|done|].
  destruct Hp as [Hm Hk]. split; [done|]. intros r. apply IH, Hk.
Qed.

(** An executor that logs one line and succeeds. *)
Definition say `{RedisServer} (line : string) : Executor := λ spec timeout log,
  log STDOUT line;; Ret (exec_ok (Some 0) None).
Definition echo `{RedisServer} : Executor := say "ok".

Lemma say_through_log `{RedisServer} line : acts_through_log (say line).
Proof. intros P spec t log Hlog _. apply prog_all_bind; [apply Hlog|done]. Qed.

Lemma say_outcome `{RedisServer} line : reports_outcome (say line).
Proof.
  intros spec t log. apply returns_bind. intros _. split; [|done]. unfold outcome_status. simpl. set_solver.
Qed.

Definition say_executors `{RedisServer} (line : string) : Executors.
Proof.
  refine {| http_execute := say line; shell_execute := say line; http_async_execute := say line |};
    intros x Hx; assert (x = say line) as -> by set_solver;
    [apply say_through_log|apply say_outcome].
Defined.
Definition echo_executors `{RedisServer} : Executors := say_executors "ok".
