(* ===== verification/Careful.v ===== *)
(** * Programs that promote runs

    All actions of the system respect [evolves], except the one that puts a pending run
    into the queue ([promotion], of [create_dependency_run]): by the time it is executed the
    run may no longer be pending.  A program is [careful] when each of its actions respects
    [evolves] or promotes a run that was pending in an earlier state of the execution. *)

From S2P Require Import Prelude PyBase Models RedisServer Effects Database RedisQueue Cron Demo.
From S2P Require Import Store Executor.

Section careful.
Context `{RedisServer, Postgres}.
Implicit Types (X Y : Z → Prop) (w : World).

(** The action promotes run [i]. *)
Inductive promotes (i : Z) : ∀ B, M B → Prop :=
  | promotes_intro : promotes i (option Z) (promotion i).

(** The runs that are pending are in [X]. *)
Definition covers X w : Prop :=
  ∀ i r, runs (w_db w) !! i = Some r → status r = PENDING → X (run_id r).

(** [X]: the runs that have been pending so far; an action may add to them, and it may be
    interrupted by a cancellation. *)
Fixpoint careful {A} (p : prog A) X : Prop :=
  match p with
  | Ret _ | Throw _ => True
  | Atomic B m k =>
      (respects evolves m ∨ ∃ i, X i ∧ promotes i B m) ∧
      (∀ w Y, (∀ i, X i → Y i) → covers Y w → careful (k (m w).1) Y) ∧
      careful (k (Raise CancelledError)) X
  end.

(** ** The calculus *)

Lemma careful_mono {A} (p : prog A) X Y : (∀ i, X i → Y i) → careful p X → careful p Y.
Proof.
  induction p as [a|e|B m k IH]; [done|done|]. intros Hxy (Hm & Hk & Hc). split; [|split].
  - destruct Hm as [?|(i & Hi & ?)]; [by left|right; eauto].
  - intros w Y' Hy. apply Hk. auto.
  - by apply IH.
Qed.

Lemma careful_presp {A} (p : prog A) X : presp evolves p → careful p X.
Proof.
  revert X. induction p as [a|e|B m k IH]; intros X Hp; [done|done|]. destruct Hp as [Hm Hk].
  split; [by left|]. split; [intros w Y _ _|]; apply IH, Hk.
Qed.

Lemma careful_bind {A B} (p : prog A) (f : A → prog B) X :
  careful p X → (∀ a Y, (∀ i, X i → Y i) → careful (f a) Y) → careful (p ≫= f) X.
Proof.
  revert X. induction p as [a|e|C m k IH]; intros X Hp Hf; [by apply Hf|done|].
  destruct Hp as (Hm & Hk & Hc). split; [done|]. split.
  - intros w Y Hxy Hw. apply IH; [by apply Hk|]. intros a Y' Hy. apply Hf. auto.
  - by apply IH.
Qed.

(** The rest of the program knows what the values it is given satisfy. *)
Lemma careful_bind_presp {A B} (Q : A → Prop) (p : prog A) (f : A → prog B) X :
  presp evolves p → returns Q p → (∀ a Y, Q a → careful (f a) Y) → careful (p ≫= f) X.
Proof.
  revert X. induction p as [a|e|C m k IH]; intros X Hp HQ Hf; [by apply Hf|done|].
  destruct Hp as [Hm Hk]. split; [by left|]. split; [intros w Y _ _|]; (apply IH; [apply Hk|apply HQ|done]).
Qed.

Lemma careful_try {A} (p : prog A) h X :
  careful p X → (∀ e Y, (∀ i, X i → Y i) → careful (h e) Y) → careful (ptry p h) X.
Proof.
  revert X. induction p as [a|e|C m k IH]; intros X Hp Hh; [done|by apply Hh|].
  destruct Hp as (Hm & Hk & Hc). split; [done|]. split.
  - intros w Y Hxy Hw. apply IH; [by apply Hk|]. intros e Y' Hy. apply Hh. auto.
  - by apply IH.
Qed.

Lemma careful_finally {A} (p : prog A) f X :
  careful p X → presp evolves f → careful (pfinally p f) X.
Proof.
  intros Hp Hf. apply careful_bind; [apply careful_try; [done|]|].
  - intros e Y _. apply careful_presp. by apply presp_bind.
  - intros a Y _. apply careful_presp. by apply presp_bind.
Qed.

Lemma careful_for_each {A} (l : list A) f X :
  (∀ x Y, careful (f x) Y) → careful (pfor_each l f) X.
Proof.
  intros Hf. revert X. induction l as [|x l IH]; intros X; simpl; [done|].
  apply careful_bind; [apply Hf|]. intros _ Y _. apply IH.
Qed.

(** The first of several calls, whatever is done with its result. *)
Lemma careful_call {A B} (m : M A) (f : A → prog B) X :
  respects evolves m →
  (∀ w a Y, (m w).1 = Ok a → covers Y w → careful (f a) Y) → careful (call m ≫= f) X.
Proof.
  intros Hm Hf. split; [by left|]. split; [|done]. intros w Y _ Hw.
  destruct (m w).1 as [a|e] eqn:E; [by eapply Hf|done].
Qed.

Lemma promotion_careful i X : X i → careful (call (promotion i)) X.
Proof.
  intros Hi. split; [right; eauto using promotes_intro|]. split; [|done].
  intros w Y _ _. by destruct (promotion i w).1.
Qed.

(** ** [create_dependency_run] *)

Lemma has_dispatched_run_respects job : respects evolves (has_dispatched_run job).
Proof. by apply pure_read_respects. Qed.
Lemma pending_run_respects job : respects evolves (pending_run job).
Proof. apply pure_read_respects, pending_run_read. Qed.

Lemma create_dependency_run_careful job X : careful (create_dependency_run job) X.
Proof.
  unfold create_dependency_run. apply careful_call; [apply has_dispatched_run_respects|].
  intros w1 d Y1 _ _. destruct d; [apply careful_presp; respect|].
  apply careful_call; [apply pending_run_respects|]. intros w2 o Y2 E Hw.
  destruct (pending_run_spec job w2) as (o' & E' & Ho). rewrite E' in E. simplify_eq/=.
  destruct o as [r|]; [|apply careful_presp; respect].
  apply promotion_careful. destruct Ho as ([i Hi] & _ & Hs & _). by eapply Hw.
Qed.

(** A part of a program that is left to run on its own. *)
Fixpoint attach {A B} (p : prog A) (k : Res A → prog B) : prog B :=
  match p with
  | Ret a => k (Ok a)
  | Throw e => k (Raise e)
  | Atomic C m k' => Atomic C m (λ r, attach (k' r) k)
  end.

Lemma careful_attach {A B} (p : prog A) (k : Res A → prog B) X :
  careful (attach p k) X → careful p X.
Proof.
  revert X. induction p as [a|e|C m k' IH]; intros X; [done|done|]. intros (Hm & Hk & Hc).
  split; [done|]. split; [|by apply IH]. intros w Y Hxy Hw. by apply IH, Hk.
Qed.

(** ** What a promotion changes *)

(** [evolves], as far as the run [i] is concerned. *)
Record evolves_at (i : Z) (d d' : Db) : Prop := {
  ea_persists : persists d d';
  ea_run : db_wf d →
    match runs d !! i, runs d' !! i with Some r, Some r' => run_evolves r r' | _, _ => True end
}.

Lemma persists_gone d d' i r : db_wf d → persists d d' →
  runs d !! i = Some r → runs d' !! i = None ∨ ∃ r', runs d' !! i = Some r' ∧ run_persists r r'.
Proof.
  intros W Hp Hi. pose proof (ps_runs _ _ Hp W i (proj2 (wf_run_key _ W _ _ Hi))) as Hl.
  rewrite Hi in Hl. destruct (runs d' !! i); eauto.
Qed.

#[export] Instance evolves_at_preorder i : PreOrder (evolves_at i).
Proof.
  split.
  - intros d. split; [reflexivity|]. intros _. by destruct (runs d !! i).
  - intros d1 d2 d3 [P1 E1] [P2 E2]. split; [by etrans|]. intros W.
    specialize (E1 W). specialize (E2 (ps_wf _ _ P1 W)).
    destruct (runs d1 !! i) as [r1|] eqn:H1; [|done]. destruct (runs d3 !! i) as [r3|] eqn:H3; [|done].
    destruct (runs d2 !! i) as [r2|] eqn:H2; [by etrans|].
    pose proof (ps_runs _ _ P1 W i (proj2 (wf_run_key _ W _ _ H1))) as Hl. clear Hl.
    exfalso. pose proof (wf_run_key _ W _ _ H1) as [_ Hlt].
    pose proof (ps_runs _ _ P2 (ps_wf _ _ P1 W) i) as Hl. rewrite H2, H3 in Hl. apply Hl.
    pose proof (sle_runs _ _ (ps_seqs _ _ P1)). lia.
Qed.

Lemma evolves_evolves_at i d d' : evolves d d' → evolves_at i d d'.
Proof.
  intros Hev. split; [by apply evolves_persists|]. intros W.
  destruct (runs d !! i) as [r|] eqn:Hi; [|done].
  destruct (lifecycle_lookup _ _ _ _ W Hev Hi) as [->|(r' & -> & Hr)]; done.
Qed.

Lemma promotion_cases i w :
  clean w → w_db (promotion i w).2 = w_db w ∨
  ∃ r, runs (w_db w) !! i = Some r ∧ w_db (promotion i w).2 = put_run i (set_status QUEUED r) (w_db w).
Proof.
  intros Hc. destruct (runs (w_db w) !! i) as [r|] eqn:Hi.
  - unfold promotion, session_scope, try_except, mbind, M_bind. rewrite (promote_run_eq _ _ _ Hi). simpl.
    unfold commit, mbind, M_bind, fault_point. simpl.
    destruct (w_faults w) as [|[] fs]; simpl; [right; by exists r| |right; by exists r].
    left. unfold clean in Hc. rewrite <- Hc. unfold keep_sequences, put_run. simpl. by destruct (w_db w).
  - left. unfold promotion. erewrite scope_raises; [done|done|].
    unfold promote_run, get_run_row, read, mbind, M_bind. by rewrite Hi.
Qed.

Lemma promoted_persists r : run_persists r (set_status QUEUED r).
Proof. by split. Qed.

Lemma promotion_persists i w : clean w → persists (w_db w) (w_db (promotion i w).2).
Proof.
  intros Hc. destruct (promotion_cases i w Hc) as [->|(r & Hi & ->)]; [reflexivity|].
  apply (persists_put_run _ _ r); [done|apply promoted_persists].
Qed.

(** The promotion of another run, or of a run that is pending still. *)
Lemma promotion_evolves_at i k w :
  clean w → (k = i → ∀ r, runs (w_db w) !! i = Some r → status r = PENDING) →
  evolves_at i (w_db w) (w_db (promotion k w).2).
Proof.
  intros Hc Hi. split; [by apply promotion_persists|]. intros W.
  destruct (promotion_cases k w Hc) as [->|(r & Hk & ->)].
  { by destruct (runs (w_db w) !! i). }
  unfold put_run. simpl. destruct (decide (k = i)) as [->|Hne].
  - rewrite Hk, lookup_insert_eq. pose proof (Hi eq_refl r Hk) as Hs. by split; simpl; rewrite ?Hs.
  - rewrite lookup_insert_ne by done. by destruct (runs (w_db w) !! i).
Qed.

(** One action of a careful program. *)
Lemma careful_action {B} (m : M B) i w :
  clean w → respects evolves m ∨ promotes i B m → persists (w_db w) (w_db (m w).2).
Proof.
  intros Hc [Hm|[]]; [|by apply promotion_persists].
  by apply evolves_persists, respects_evolves.
Qed.

(** A careful program executed without interference. *)
Lemma run_careful {A} (p : prog A) X w :
  careful p X → ptidy p → clean w → persists (w_db w) (w_db (run p w).2).
Proof.
  revert X w. induction p as [a|e|B m k IH]; intros X w Hp Ht Hc; [reflexivity..|].
  destruct Hp as (Hm & Hk & _), Ht as [Ht1 Ht2]. simpl. etrans.
  - destruct Hm as [Hm|(i & _ & Hm)]; [by apply (careful_action m 0); [|left]|by apply (careful_action m i); [|right]].
  - apply (IH _ (λ i, X i ∨ ∃ k r, runs (w_db w) !! k = Some r ∧ run_id r = i)); [|apply Ht2|by apply Ht1].
    apply Hk; [by left|]. intros i r Hi _. right. eauto.
Qed.

End careful.

#[export] Hint Resolve create_dependency_run_careful : careful.
#[export] Hint Extern 5 (careful _ _) => apply careful_presp; solve [eauto 3 with respect] : careful.
