(* ===== verification/HttpTasks.v ===== *)
(** * HTTP tasks: [worker/executors/http.py] and [http_async.py]

    The two executors as programs over an HTTP client and [asyncio.sleep], which act
    on the outside world only. *)

From S2P Require Import Prelude PyBase PyCodec PyText Models RedisServer Effects Database Store.
From S2P Require Import Cron Executor.
From Stdlib Require Import Ascii.

Local Open Scope string_scope.
Local Open Scope Z_scope.
Local Open Scope list_scope.

(** ** The HTTP client and the event loop *)

(** A response: the body as text and, when it parses, as JSON. *)
Record Response := {
  status_code : Z;
  resp_text : string;
  resp_json : option json
}.

Inductive Reply :=
  | Replied (r : Response)
  | TimeoutException (msg : string)
  | HTTPError (msg : string).

Section http.
Context `{RedisServer}.

(** [client.request], [Response.raise_for_status] (the message of the error) and
    [asyncio.sleep], in microseconds: it takes at least that long. *)
Class HttpClient := {
  http_request : string → json → json → option json → Z → M Reply;
  status_error : Response → option string;
  sleep : Z → M unit;
  http_request_external : ∀ m u h b t, external (http_request m u h b t);
  sleep_external : ∀ n, external (sleep n);
  sleep_waits : ∀ n w, ∃ t, sleep n w = (Ok tt, with_clock t w) ∧ w_clock w + n ≤ t ∧ w_clock w ≤ t
}.

Context `{!HttpClient, FloatText}.

(** [spec[k]] *)
Definition spec_item (k : string) (spec : list (string * json)) : Res json :=
  match dict_get k spec with Some v => Ok v | None => Raise (KeyError k) end.

(** [spec.get(k, d)], [spec.get(k) or {}] *)
Definition spec_get (k : string) (d : json) (spec : list (string * json)) : json :=
  default d (dict_get k spec).
Definition spec_or (k : string) (d : json) (spec : list (string * json)) : json :=
  let v := spec_get k JNull spec in if truthy v then v else d.

(** [body if body is not None else None] *)
Definition json_body_of (v : json) : option json := match v with JNull => None | v => Some v end.

(** A pure step of a program. *)
Definition plift {A} (r : Res A) : prog A := match r with Ok a => Ret a | Raise e => Throw e end.

(** ** http.py *)

(** [n == v] *)
Definition int_eq (n : Z) (v : json) : bool :=
  match v with
  | JInt m => n =? m
  | JBool b => n =? (if b then 1 else 0)
  | JFloat m e => if 0 <=? e then n =? m * 10 ^ e else n * 10 ^ (- e) =? m
  | _ => false
  end.

(** [_is_success]: [expect] is whatever the job's author wrote. *)
Definition is_success (code : Z) (expect : json) : Res bool :=
  if truthy expect then
    match expect with
    | JArr l => Ok (existsb (int_eq code) l)
    | JObj _ => Ok false
    | _ => Raise TypeError
    end
  else Ok ((200 <=? code) && (code <? 300)).

(** [execute] of http.py *)
Definition http_task : Executor := λ spec timeout_sec log,
  url ← plift (spec_item "url" spec);
  let method := py_upper (json_str (spec_get "method" (JStr "GET") spec)) in
  let headers := spec_or "headers" (JObj []) spec in
  let body := spec_get "body" JNull spec in
  let expect := spec_get "expect" JNull spec in
  log SYSTEM ("HTTP " ++ method ++ " " ++ json_str url)%string;;
  reply ← call (http_request method url headers (json_body_of body) timeout_sec);
  match reply with
  | TimeoutException _ =>
      Ret (exec_timed_out ("request to " ++ json_str url ++ " timed out after "
                           ++ py_str timeout_sec ++ "s")%string None None)
  | HTTPError msg => Ret (exec_failed ("request error: " ++ msg)%string None None)
  | Replied resp =>
      let snippet := text_prefix 2000 (resp_text resp) in
      log STDOUT ("status=" ++ py_str (status_code resp))%string;;
      (if String.eqb snippet "" then Ret tt else log STDOUT snippet);;
      let result := JObj [("status_code", JInt (status_code resp)); ("body", JStr snippet)] in
      ok ← plift (is_success (status_code resp) expect);
      if (ok : bool) then Ret (exec_ok (Some 0) (Some result))
      else Ret (exec_failed ("unexpected status " ++ py_str (status_code resp))%string
                  (Some (status_code resp)) (Some result))
  end.

(** ** http_async.py *)

Definition DEFAULT_SUCCESS : json := JArr (JStr <$> ["succeeded"; "success"; "completed"; "done"]).
Definition DEFAULT_FAILURE : json := JArr (JStr <$> ["failed"; "error"; "canceled"; "cancelled"]).

Fixpoint string_chars (s : string) : list string :=
  match s with EmptyString => [] | String c s => String c "" :: string_chars s end.

(** [{s.lower() for s in v}] *)
Definition lower_values (v : json) : Res (list string) :=
  match v with
  | JArr l => (fix go l := match l with
      | [] => Ok []
      | JStr s :: l => r ← go l; Ok (py_lower s :: r)
      | _ :: _ => Raise AttributeError
      end) l
  | JStr s => Ok (py_lower <$> string_chars s)
  | JObj l => Ok (py_lower <$> l.*1)
  | _ => Raise TypeError
  end.

(** [float(v)], in microseconds. *)
Definition seconds_of (v : json) : Res Z :=
  match v with
  | JInt n => Ok (n * usec)
  | JBool b => Ok (if b then usec else 0)
  | JFloat m e => Ok (if 0 <=? e + 6 then m * 10 ^ (e + 6) else m `div` 10 ^ (- (e + 6)))
  | JStr s => match float_of_str s with Some t => Ok t | None => Raise (ValueError s) end
  | _ => Raise TypeError
  end.

(** [d.get(k)] for any JSON key; lists and dictionaries cannot be keys. *)
Definition get_key (k : json) (d : list (string * json)) : Res (option json) :=
  match k with
  | JStr s => Ok (dict_get s d)
  | JArr _ | JObj _ => Raise TypeError
  | _ => Ok None
  end.

(** [v.get(k)]: only dictionaries have it. *)
Definition json_get (k v : json) : Res (option json) :=
  match v with JObj d => get_key k d | _ => Raise AttributeError end.

(** The URL to poll, from the task or from the answer to the submission. *)
Definition poll_url (status_url status_url_field : json) (resp : Response) : Res (option json) :=
  if truthy status_url then Ok (Some status_url)
  else match resp_json resp with
  | None => Ok None
  | Some v =>
      u ← json_get status_url_field v;
      Ok (match u with Some u => if truthy u then Some u else None | None => None end)
  end.

(** [result_field and result_field in payload] *)
Definition wants_field (result_field : json) (payload : list (string * json)) : Res (option (string * json)) :=
  if truthy result_field then
    match result_field with
    | JStr k => Ok ((λ v, (k, v)) <$> dict_get k payload)
    | JArr _ | JObj _ => Raise TypeError
    | _ => Ok None
    end
  else Ok None.

(** The fixed part of a polling loop. *)
Record Poll := {
  p_url : json;
  p_headers : json;
  p_request_timeout : Z;
  p_timeout_sec : Z;
  p_deadline : Z;
  p_interval : Z;
  p_status_field : json;
  p_success : list string;
  p_failure : list string;
  p_result_field : json
}.

(** One poll: the payload, or the text of the error. *)
Definition poll_reply (r : Reply) : json + string :=
  match r with
  | TimeoutException msg | HTTPError msg => inr msg
  | Replied resp =>
      match status_error resp, resp_json resp with
      | Some msg, _ => inr msg
      | None, Some v => inl v
      | None, None => inr "Expecting value"
      end
  end.

(** [time.monotonic()] *)
Definition monotonic : M Z := read w_clock.

(** What a payload decides: an outcome, or to go on. *)
Definition poll_outcome (p : Poll) (payload : json) (state : string) : Res (option ExecResult) :=
  if decide (state ∈ p_success p) then
    extra ← match payload with JObj d => wants_field (p_result_field p) d | _ => Raise AttributeError end;
    let result := [("status", JStr state)] in
    Ok (Some (exec_ok (Some 0) (Some (JObj (match extra with
                                            | Some (k, v) => dict_set k v result
                                            | None => result
                                            end)))))
  else if decide (state ∈ p_failure p) then
    Ok (Some (exec_failed ("remote task reported '" ++ state ++ "'")%string None
                (Some (JObj [("status", JStr state)]))))
  else Ok None.

(** [str(payload.get(status_field, "")).lower()] *)
Definition poll_state (p : Poll) (payload : json) : Res string :=
  v ← json_get (p_status_field p) payload;
  Ok (py_lower (match v with Some v => json_str v | None => "" end)).

Fixpoint poll_loop (fuel : nat) (p : Poll) (log : LogFn) : prog ExecResult :=
  match fuel with
  | O => Throw Diverged
  | S fuel =>
      now ← call monotonic;
      if p_deadline p <=? now
      then Ret (exec_timed_out ("polling exceeded timeout of " ++ py_str (p_timeout_sec p) ++ "s")%string
                  None (Some (JObj [("status_url", p_url p)])))
      else
        reply ← call (http_request "GET" (p_url p) (p_headers p) None (p_request_timeout p));
        payload ← match poll_reply reply with
                  | inl v => Ret v
                  | inr msg => log STDERR ("poll error (will retry): " ++ msg)%string;; Ret (JObj [])
                  end;
        state ← plift (poll_state p payload);
        (if String.eqb state "" then Ret tt else log STDOUT ("status=" ++ state)%string);;
        outcome ← plift (poll_outcome p payload state);
        match outcome with
        | Some r => Ret r
        | None =>
            now ← call monotonic;
            let remaining := p_deadline p - now in
            if remaining <=? 0 then poll_loop fuel p log
            else call (sleep (Z.min (p_interval p) remaining));; poll_loop fuel p log
        end
  end.

(** [str(float(v))] *)
Definition interval_text (v : json) : string :=
  match v with
  | JInt n => float_repr n 0
  | JBool b => float_repr (if b then 1 else 0) 0
  | JFloat m e => float_repr m e
  | JStr s => float_repr (default 0 (float_of_str s)) (-6)
  | _ => ""
  end.

(** How many polls fit before the deadline.  With an interval that is not positive
    the loop never sleeps, and only the answers take time: [busy] bounds it. *)
Definition poll_fuel (busy : nat) (timeout_sec interval : Z) : nat :=
  if 0 <? interval then (Z.to_nat ((timeout_sec * usec) `div` interval) + 2)%nat else busy.

(** [execute] of http_async.py *)
Definition http_async_task (busy : nat) : Executor := λ spec timeout_sec log,
  url ← plift (spec_item "url" spec);
  let method := py_upper (json_str (spec_get "method" (JStr "POST") spec)) in
  let headers := spec_or "headers" (JObj []) spec in
  let body := spec_get "body" JNull spec in
  let status_url_field := spec_get "status_url_field" (JStr "status_url") spec in
  success ← plift (lower_values (spec_get "success_values" DEFAULT_SUCCESS spec));
  failure ← plift (lower_values (spec_get "failure_values" DEFAULT_FAILURE spec));
  interval ← plift (seconds_of (spec_get "poll_interval_sec" (JInt 10) spec));
  start ← call monotonic;
  let request_timeout := Z.min 30 timeout_sec in
  log SYSTEM ("submit " ++ method ++ " " ++ json_str url)%string;;
  reply ← call (http_request method url headers (json_body_of body) request_timeout);
  match reply with
  | TimeoutException msg | HTTPError msg =>
      Ret (exec_failed ("submission failed: " ++ msg)%string None None)
  | Replied resp =>
      match status_error resp with
      | Some msg => Ret (exec_failed ("submission failed: " ++ msg)%string None None)
      | None =>
          target ← plift (poll_url (spec_get "status_url" JNull spec) status_url_field resp);
          match target with
          | None => Ret (exec_failed ("no status_url provided and response had no '"
                                      ++ json_str status_url_field ++ "'")%string None None)
          | Some target =>
              log SYSTEM ("polling " ++ json_str target ++ " every "
                ++ interval_text (spec_get "poll_interval_sec" (JInt 10) spec) ++ "s")%string;;
              poll_loop (poll_fuel busy timeout_sec interval)
                {| p_url := target; p_headers := headers; p_request_timeout := request_timeout;
                   p_timeout_sec := timeout_sec; p_deadline := start + timeout_sec * usec;
                   p_interval := interval; p_status_field := spec_get "status_field" (JStr "status") spec;
                   p_success := success; p_failure := failure;
                   p_result_field := spec_get "result_field" JNull spec |} log
          end
      end
  end.

(** ** The contract of executors *)

Lemma external_read {A} (g : World → A) : external (read g).
Proof. intros w. exists (w_clock w). split; [by destruct w|reflexivity]. Qed.

(** Walks through an executor: its log lines and its external actions. *)
Ltac contract_step Hlog Hext :=
  first
    [ done
    | apply Hlog
    | lazymatch goal with
      | |- prog_all _ (@mbind _ _ _ _ _ _) => apply prog_all_bind; [|intros ?]
      | |- prog_all _ (call _) => split; [apply Hext; first [apply http_request_external|apply sleep_external|apply external_read]|by intros [?|?]]
      | |- prog_all _ (plift ?r) => destruct r
      end
    | case_match ].

Lemma http_task_through_log : acts_through_log http_task.
Proof.
  intros P spec t log Hlog Hext. unfold http_task. repeat contract_step Hlog Hext.
Qed.

Lemma poll_loop_through_log (P : ∀ B, M B → Prop) fuel p (log : LogFn) :
  (∀ s l, prog_all P (log s l)) → (∀ B (m : M B), external m → P B m) →
  prog_all P (poll_loop fuel p log).
Proof.
  intros Hlog Hext. induction fuel as [|fuel IH]; [done|]. cbn [poll_loop].
  repeat first [apply IH|contract_step Hlog Hext].
Qed.

Lemma http_async_through_log busy : acts_through_log (http_async_task busy).
Proof.
  intros P spec t log Hlog Hext. unfold http_async_task.
  repeat first [by apply poll_loop_through_log|contract_step Hlog Hext].
Qed.

Lemma exec_ok_outcome c v : plain_result v → valid_result (exec_ok c v).
Proof. split; [|done]. unfold outcome_status. simpl. set_solver. Qed.
Lemma exec_failed_outcome e c v : plain_result v → valid_result (exec_failed e c v).
Proof. split; [|done]. unfold outcome_status. simpl. set_solver. Qed.
Lemma exec_timed_out_outcome e c v : plain_result v → valid_result (exec_timed_out e c v).
Proof. split; [|done]. unfold outcome_status. simpl. set_solver. Qed.

Ltac outcome_step :=
  first
    [ apply exec_ok_outcome; exact I | apply exec_failed_outcome; exact I
    | apply exec_timed_out_outcome; exact I | done
    | lazymatch goal with
      | |- returns _ (@mbind _ _ _ _ _ _) => apply returns_bind; intros ?
      end
    | case_match ].

Lemma http_task_outcome : reports_outcome http_task.
Proof. intros spec t log. unfold http_task. repeat outcome_step. Qed.

Lemma poll_outcome_outcome p v s r : poll_outcome p v s = Ok (Some r) → valid_result r.
Proof.
  unfold poll_outcome. intros E. repeat case_decide; try done.
  - destruct v; try done. destruct (wants_field _ _); [|done]. injection E as <-. by apply exec_ok_outcome.
  - injection E as <-. by apply exec_failed_outcome.
Qed.

Lemma returns_plift {A} (P : A → Prop) (r : Res A) : (∀ a, r = Ok a → P a) → returns P (plift r).
Proof. destruct r; simpl; auto. Qed.

Lemma poll_loop_outcome fuel p log : returns valid_result (poll_loop fuel p log).
Proof.
  induction fuel as [|fuel IH]; [done|]. cbn [poll_loop].
  apply returns_bind. intros now. case_match; [by apply exec_timed_out_outcome|].
  do 4 (apply returns_bind; intros ?).
  eapply returns_bind'; [apply returns_plift; intros ? E; exact E|]. intros [r|] E.
  - by eapply poll_outcome_outcome.
  - apply returns_bind. intros ?. case_match; [apply IH|]. apply returns_bind. intros _. apply IH.
Qed.

Lemma http_async_outcome busy : reports_outcome (http_async_task busy).
Proof.
  intros spec t log. unfold http_async_task.
  repeat first [apply poll_loop_outcome|outcome_step].
Qed.

(** ** The deadline *)

(** The program does not run out of fuel, time does not run backwards, and what it
    returns satisfies [P]. *)
Definition timely {A} (P : World → A → World → Prop) (p : prog A) (w : World) : Prop :=
  match run p w with
  | (Ok a, w') => w_clock w ≤ w_clock w' ∧ P w a w'
  | (Raise e, w') => w_clock w ≤ w_clock w' ∧ e ≠ Diverged
  end.

Lemma timely_bind {A B} (Q : World → A → World → Prop) (P : World → B → World → Prop)
    (p : prog A) (f : A → prog B) w :
  timely Q p w →
  (∀ a w', w_clock w ≤ w_clock w' → Q w a w' → timely (λ _ b w2, P w b w2) (f a) w') →
  timely P (p ≫= f) w.
Proof.
  unfold timely. intros Hp Hf. rewrite run_bind. unfold mbind, M_bind.
  destruct (run p w) as [[a|e] w1]; [|done]. destruct Hp as [Hc HQ].
  specialize (Hf a w1 Hc HQ). destruct (run (f a) w1) as [[b|e] w2]; (split; [lia|tauto]).
Qed.

Lemma timely_ret {A} (P : World → A → World → Prop) (a : A) w : P w a w → timely P (Ret a) w.
Proof. intros HP. unfold timely. simpl. split; [lia|done]. Qed.

Lemma timely_plift {A} (r : Res A) w :
  (∀ e, r = Raise e → e ≠ Diverged) → timely (λ w0 a w', r = Ok a ∧ w' = w0) (plift r) w.
Proof. intros Hr. destruct r; unfold timely; simpl; (split; [lia|auto]). Qed.

Lemma timely_monotonic w : timely (λ w0 a w', a = w_clock w0 ∧ w' = w0) (call monotonic) w.
Proof. unfold timely. rewrite run_call. simpl. split; [lia|done]. Qed.

(** The log function and the client keep time, and do not run out of fuel. *)
Definition timely_log (log : LogFn) : Prop := ∀ s l w, timely (λ _ _ _, True) (log s l) w.
Definition timely_client : Prop :=
  ∀ m u h b t w, (http_request m u h b t w).1 ≠ Raise Diverged.

Lemma timely_request m u h b t w :
  timely_client → timely (λ _ _ _, True) (call (http_request m u h b t)) w.
Proof.
  intros Hcl. unfold timely. rewrite run_call. specialize (Hcl m u h b t w).
  destruct (http_request_external m u h b t w) as (c & E & Hc).
  destruct (http_request m u h b t w) as [[r|e] w']; simpl in *; subst; simpl; (split; [lia|first [done|congruence]]).
Qed.

(** Pure steps of the loop never run out of fuel. *)
Lemma get_key_error k d e : get_key k d = Raise e → e ≠ Diverged.
Proof. unfold get_key. destruct k; congruence. Qed.
Lemma json_get_error k v e : json_get k v = Raise e → e ≠ Diverged.
Proof. unfold json_get. destruct v; try congruence. apply get_key_error. Qed.
Lemma poll_state_error p v e : poll_state p v = Raise e → e ≠ Diverged.
Proof.
  unfold poll_state. simpl. destruct (json_get _ v) as [a|e'] eqn:E; [done|].
  intros [= <-]. by eapply json_get_error.
Qed.
Lemma wants_field_error f d e : wants_field f d = Raise e → e ≠ Diverged.
Proof. unfold wants_field. intros. repeat case_match; congruence. Qed.
Lemma poll_outcome_error p v s e : poll_outcome p v s = Raise e → e ≠ Diverged.
Proof.
  unfold poll_outcome. repeat case_decide; [|done..]. destruct v as [| | | | | |d]; simpl; try congruence.
  destruct (wants_field _ d) as [a|e'] eqn:E; [done|]. intros [= <-]. by eapply wants_field_error.
Qed.
Lemma poll_outcome_not_timeout p v s r : poll_outcome p v s = Ok (Some r) → er_status r ≠ TIMED_OUT.
Proof.
  unfold poll_outcome. intros E. repeat case_decide; try done.
  - destruct v as [| | | | | |d]; try done. by destruct (wants_field _ d); simplify_eq/=.
  - by simplify_eq/=.
Qed.

(** A time-out is only reported once the deadline has passed. *)
Definition after_deadline (deadline : Z) (r : ExecResult) (w' : World) : Prop :=
  er_status r = TIMED_OUT → deadline ≤ w_clock w'.

Lemma poll_loop_timely fuel p log w :
  timely_log log → timely_client → 0 < p_interval p →
  p_deadline p - w_clock w ≤ (Z.of_nat fuel - 1) * p_interval p → (0 < fuel)%nat →
  timely (λ _ r w', after_deadline (p_deadline p) r w') (poll_loop fuel p log) w.
Proof.
  intros Hlog Hcl Hi. revert w. induction fuel as [|fuel IH]; intros w Hd Hf; [lia|].
  cbn [poll_loop]. eapply timely_bind; [apply timely_monotonic|]. intros now w0 _ [-> ->].
  destruct (p_deadline p <=? w_clock w) eqn:Hdead.
  { apply timely_ret. apply Z.leb_le in Hdead. by intros _. }
  apply Z.leb_gt in Hdead.
  eapply timely_bind; [by apply timely_request|]. intros reply w1 Hw1 _.
  eapply (timely_bind (λ _ _ _, True)).
  { destruct (poll_reply reply) as [v|msg]; [by apply timely_ret|].
    eapply timely_bind; [apply Hlog|]. intros. by apply timely_ret. }
  intros payload w2 Hw2 _.
  eapply timely_bind; [apply timely_plift; intros ?; apply poll_state_error|]. intros state w2' _ [_ ->].
  eapply (timely_bind (λ _ _ _, True)).
  { destruct (String.eqb state ""); [by apply timely_ret|apply Hlog]. }
  intros _ w3 Hw3 _.
  eapply timely_bind; [apply timely_plift; intros ?; apply poll_outcome_error|].
  intros o w3' _ [Ho ->]. destruct o as [r|].
  { apply timely_ret. intros Ht. by apply poll_outcome_not_timeout in Ho. }
  eapply timely_bind; [apply timely_monotonic|]. intros now w4 _ [-> ->].
  assert (1 < fuel + 1)%nat as Hfuel by nia.
  destruct (p_deadline p - w_clock w3 <=? 0) eqn:Hrem.
  { apply Z.leb_le in Hrem. apply IH; [nia|lia]. }
  apply Z.leb_gt in Hrem.
  destruct (sleep_waits (Z.min (p_interval p) (p_deadline p - w_clock w3)) w3) as (t & Es & Ht & Ht').
  eapply (timely_bind (λ _ _ w', w' = with_clock t w3)).
  { unfold timely. rewrite run_call, Es. simpl. done. }
  intros _ w5 _ ->. apply IH; [simpl; nia|lia].
Qed.

Lemma spec_item_error k spec e : spec_item k spec = Raise e → e ≠ Diverged.
Proof. unfold spec_item. case_match; congruence. Qed.
Lemma lower_values_error v e : lower_values v = Raise e → e ≠ Diverged.
Proof.
  destruct v as [| | | | |l|]; simpl; try congruence. revert e.
  induction l as [|[] l IH]; intros ?; simpl; try congruence.
  match goal with |- mbind _ ?r = _ → _ => destruct r as [?|e'] end; [done|].
  intros [= <-]. by apply IH.
Qed.
Lemma poll_url_error u f r e : poll_url u f r = Raise e → e ≠ Diverged.
Proof.
  unfold poll_url. case_match; [done|]. case_match; [|done]. simpl.
  destruct (json_get f _) as [a|e'] eqn:E; [done|]. intros [= <-]. by eapply json_get_error.
Qed.

Lemma poll_fuel_enough busy timeout interval :
  0 < interval → 0 ≤ timeout →
  timeout * usec ≤ (Z.of_nat (poll_fuel busy timeout interval) - 1) * interval ∧
  (0 < poll_fuel busy timeout interval)%nat.
Proof.
  intros Hi Ht. unfold poll_fuel. rewrite (proj2 (Z.ltb_lt _ _) Hi).
  assert (0 ≤ (timeout * usec) `div` interval) as Hq.
  { apply Z.div_pos; [|done]. unfold usec. lia. }
  split; [|lia]. rewrite Nat2Z.inj_add, Z2Nat.id by done.
  pose proof (Z.div_mod (timeout * usec) interval ltac:(lia)) as E.
  pose proof (Z.mod_pos_bound (timeout * usec) interval Hi). nia.
Qed.

Lemma http_async_timely busy spec timeout log w interval :
  timely_log log → timely_client →
  seconds_of (spec_get "poll_interval_sec" (JInt 10) spec) = Ok interval →
  0 < interval → 0 ≤ timeout →
  timely (λ w r w', after_deadline (w_clock w + timeout * usec) r w')
    (http_async_task busy spec timeout log) w.
Proof.
  intros Hlog Hcl Hsec Hi Ht. unfold http_async_task. rewrite Hsec.
  eapply timely_bind; [apply timely_plift; intros ?; apply spec_item_error|]. intros url w0 _ [_ ->].
  eapply timely_bind; [apply timely_plift; intros ?; apply lower_values_error|]. intros sv w1 _ [_ ->].
  eapply timely_bind; [apply timely_plift; intros ?; apply lower_values_error|]. intros fv w1 _ [_ ->].
  eapply timely_bind; [by apply timely_plift|]. intros interval' w1 _ [[= <-] ->].
  eapply timely_bind; [apply timely_monotonic|]. intros start w1 _ [-> ->].
  eapply timely_bind; [apply Hlog|]. intros _ w1 Hw1 _.
  eapply timely_bind; [by apply timely_request|]. intros reply w2 Hw2 _.
  destruct reply as [resp|msg|msg]; [|by apply timely_ret..].
  destruct (status_error resp); [by apply timely_ret|].
  eapply timely_bind; [apply timely_plift; intros ?; apply poll_url_error|]. intros target w3 _ [_ ->].
  destruct target as [target|]; [|by apply timely_ret].
  eapply timely_bind; [apply Hlog|]. intros _ w3 Hw3 _.
  destruct (poll_fuel_enough busy timeout interval Hi Ht) as [Hf Hf0].
  match goal with |- timely _ (poll_loop ?f ?p log) _ => apply (poll_loop_timely f p log) end;
    simpl; [done|done|done|lia|done].
Qed.

(** C36: A polled task ends by its deadline.  With a positive poll interval, whatever
    the server answers and however long the answers take, the loop needs no more
    polls than intervals fit into [timeout_sec], and one: it never goes on for ever;
    and it reports a time-out only when [timeout_sec] seconds have really passed
    since the task began. *)
Theorem http_async_deadline (busy : nat) (spec : list (string * json)) (timeout_sec interval : Z)
    (log : LogFn) (w : World) :
  timely_log log → timely_client →
  seconds_of (spec_get "poll_interval_sec" (JInt 10) spec) = Ok interval →
  0 < interval → 0 ≤ timeout_sec →
  (run (http_async_task busy spec timeout_sec log) w).1 ≠ Raise Diverged ∧
  ∀ r w', run (http_async_task busy spec timeout_sec log) w = (Ok r, w') →
    er_status r = TIMED_OUT → w_clock w + timeout_sec * usec ≤ w_clock w'.
Proof.
  intros Hlog Hcl Hsec Hi Ht.
  pose proof (http_async_timely busy spec timeout_sec log w interval Hlog Hcl Hsec Hi Ht) as Hrun.
  unfold timely in Hrun. destruct (run _ w) as [[r|e] w1].
  - destruct Hrun as [_ Hr]. split; [done|]. by intros r' w' [= <- <-].
  - destruct Hrun as [_ He]. split; [|done]. simpl. congruence.
Qed.

End http.

(** ** Evaluation *)

#[local] Existing Instance reference_redis.

(** A server that accepts the task and reports it as running for ever. *)
Definition busy_server : HttpClient.
Proof.
  refine {| http_request m u h b t := mret (Replied {| status_code := 200; resp_text := "{}";
              resp_json := Some (JObj [("status_url", JStr "/1"); ("status", JStr "running")]) |});
            status_error r := None;
            sleep n := λ w, (Ok tt, with_clock (w_clock w + Z.max 0 n) w) |}.
  - intros m u h b t w. exists (w_clock w). split; [by destruct w|simpl; lia].
  - intros n w. eexists. split; [reflexivity|simpl; lia].
  - intros n w. eexists. split; [reflexivity|simpl; lia].
Defined.

Definition plain_floats : FloatText :=
  {| float_repr m e := py_str m; float_of_str s := None |}.

#[local] Existing Instances busy_server plain_floats.

Definition quiet_log : LogFn := λ _ _, Ret tt.

Lemma quiet_log_timely : timely_log quiet_log.
Proof. intros s l w. by apply timely_ret. Qed.

Lemma busy_server_timely : timely_client.
Proof. intros m u h b t w. discriminate. Qed.

Definition demo_poll_spec : list (string * json) := [("url", JStr "/tasks")].

Definition demo_polled : Res ExecResult * World :=
  run (http_async_task 0 demo_poll_spec 30 quiet_log) (@Build_World reference_redis empty_db empty_db empty_view 0 [] ∅ 0 ∅).

Lemma demo_polled_times_out : (r ← demo_polled.1; Ok (er_status r)) = Ok TIMED_OUT.
Proof. vm_compute. reflexivity. Qed.

Lemma http_async_deadline_witness :
  ∃ r w', demo_polled = (Ok r, w') ∧ er_status r = TIMED_OUT ∧ 30 * usec ≤ w_clock w'.
Proof.
  pose proof demo_polled_times_out as Hs. unfold demo_polled in *.
  destruct (http_async_deadline 0 demo_poll_spec 30 (10 * usec) quiet_log
    (@Build_World reference_redis empty_db empty_db empty_view 0 [] ∅ 0 ∅)
    quiet_log_timely busy_server_timely eq_refl eq_refl ltac:(discriminate)) as [_ Hdead].
  destruct (run _ _) as [[r|e] w'] eqn:E; [|discriminate Hs].
  injection Hs as Hs. exists r, w'. split; [reflexivity|]. split; [exact Hs|].
  exact (Hdead r w' eq_refl Hs).
Defined.
