(* ===== verification/ShellTask.v ===== *)
(** * Shell tasks: [worker/executors/shell.py]

    The executor that runs a command: the argument vector, the uploaded script, the
    process with its two output pumps, the time limit, cancellation and the temporary
    directory.  The operating system and the event loop are a parameter; what the
    program does with every event is its own. *)

From S2P Require Import Prelude PyBase PyCodec PyText Models RedisServer Effects Database Store.
From S2P Require Import Cron Executor HttpTasks.
From Stdlib Require Import Ascii.

Local Open Scope string_scope.
Local Open Scope Z_scope.
Local Open Scope list_scope.

(** ** What the command is *)

(** [Path(p).name] of a file name that may name a script. *)
Definition valid_script_name (filename : string) : bool :=
  negb (String.eqb filename "" || String.eqb filename "." || String.eqb filename "..").

(** [for a in v] *)
Definition iterate (v : json) : Res (list json) :=
  match v with
  | JArr l => Ok l
  | JObj d => Ok (JStr <$> d.*1)
  | JStr s => Ok (JStr <$> string_chars s)
  | _ => Raise TypeError
  end.

(** [v.items()] *)
Definition items (v : json) : Res (list (string * json)) :=
  match v with JObj d => Ok d | _ => Raise AttributeError end.

(** Which arguments name the uploaded script. *)
Definition rewrite_arg (filename script_path arg : string) : string :=
  if String.eqb (path_name arg) filename then script_path else arg.

(** [rewritten], with the script appended when no argument names it. *)
Definition rewrite_argv (filename script_path : string) (argv : list string) : list string :=
  let rewritten := rewrite_arg filename script_path <$> argv in
  if existsb (λ arg, String.eqb (path_name arg) filename) argv
  then rewritten else rewritten ++ [script_path].

Section command.
Context `{FloatText}.

(** [_build_argv] *)
Definition build_argv (spec : list (string * json)) : Res (list string) :=
  command ← spec_item "command" spec;
  args ← iterate (spec_or "args" (JArr []) spec);
  match shlex_split (json_str command) with
  | None => Raise (ValueError "No closing quotation")
  | Some words =>
      let argv := words ++ (json_str <$> args) in
      match argv with
      | [] => Raise (ValueError "command is empty")
      | _ => Ok argv
      end
  end.

(** [{**os.environ, **env}] *)
Definition process_env (environ : list (string * string)) (spec : list (string * json)) :
    Res (list (string * string)) :=
  env ← items (spec_or "env" (JObj []) spec);
  Ok (foldl (λ e kv, dict_set kv.1 (json_str kv.2) e) environ env).

(** The uploaded script, when there is one: its file name and its text. *)
Definition uploaded_script (spec : list (string * json)) : option (Res (string * string)) :=
  match spec_get "file_content" JNull spec, spec_get "source_filename" JNull spec with
  | JNull, _ | _, JNull => None
  | content, source_filename =>
      let filename := path_name (json_str source_filename) in
      Some (if valid_script_name filename then Ok (filename, json_str content)
            else Raise (ValueError "source_filename is invalid"))
  end.

End command.

(** ** The process and its pumps *)

(** What the event loop can deliver while a process runs: a line of stdout or stderr
    ([""] at its end) or the error of the read, the exit of the process, the end of the
    time limit, the cancellation of the task. *)
Inductive Event :=
  | ReadLine (s : LogStream) (r : Res string)
  | Exited
  | TimedOut
  | Canceled.

(** The [_pump]s of stdout and stderr, and [gather]: done when both have ended or
    one has failed. *)
Inductive Pump := Running | Ended | Failed.
Record Pumps := { stdout_pump : Pump; stderr_pump : Pump }.

Definition pumps_done (p : Pumps) : bool :=
  match stdout_pump p, stderr_pump p with
  | Ended, Ended | Failed, _ | _, Failed => true
  | _, _ => false
  end.
Definition pump_of (s : LogStream) (p : Pumps) : Pump :=
  match s with STDERR => stderr_pump p | _ => stdout_pump p end.
Definition set_pump (s : LogStream) (x : Pump) (p : Pumps) : Pumps :=
  match s with
  | STDERR => {| stdout_pump := stdout_pump p; stderr_pump := x |}
  | _ => {| stdout_pump := x; stderr_pump := stderr_pump p |}
  end.

(** How [wait_for(proc.wait())] ends. *)
Inductive Ending := EndExit | EndTimeout | EndCancel.

Section shell.
Context `{RedisServer}.

(** The operating system and the event loop, as far as a task uses them. *)
Class Subprocess := {
  os_environ : M (list (string * string));
  make_temp_dir : string → M string;
  write_text : string → string → M unit;
  cleanup : string → M unit;
  create_process : list string → list (string * string) → json → M (Z + string);
  next_event : Z → option Z → M Event;
  killpg : Z → M bool;
  kill : Z → M bool;
  returncode : Z → M (option Z);
  os_environ_external : external os_environ;
  make_temp_dir_external : ∀ p, external (make_temp_dir p);
  write_text_external : ∀ p t, external (write_text p t);
  cleanup_external : ∀ p, external (cleanup p);
  create_process_external : ∀ a e c, external (create_process a e c);
  next_event_external : ∀ p d, external (next_event p d);
  killpg_external : ∀ p, external (killpg p);
  kill_external : ∀ p, external (kill p);
  returncode_external : ∀ p, external (returncode p)
}.

Context `{!Subprocess, FloatText}.

(** [_materialize_uploaded_script]: the temporary directory, if any, and the
    arguments that name the script in it. *)
Definition materialize_uploaded_script (spec : list (string * json)) (argv : list string) :
    prog (option string * list string) :=
  match uploaded_script spec with
  | None => Ret (None, argv)
  | Some script =>
      '(filename, content) ← plift script;
      temp_dir ← call (make_temp_dir "job-scheduler-script-");
      let script_path := (temp_dir ++ "/" ++ filename)%string in
      call (write_text script_path content);;
      Ret (Some temp_dir, rewrite_argv filename script_path argv)
  end.

(** The line a pump writes: [raw.decode(errors="replace").rstrip("\n")]. *)
Definition pump_line (raw : string) : string := rstrip_newlines (decode_replace raw).

(** One turn of [_pump] on [s].  What it raises ends it; the exception stays in the
    future of [gather]. *)
Definition pump_step (s : LogStream) (r : Res string) (log : LogFn) (p : Pumps) : prog Pumps :=
  match pump_of s p, r with
  | Running, Ok raw =>
      if String.eqb raw "" then Ret (set_pump s Ended p)
      else ptry (log s (pump_line raw);; Ret p) (λ _, Ret (set_pump s Failed p))
  | Running, Raise _ => Ret (set_pump s Failed p)
  | _, _ => Ret p
  end.

(** [wait_for(proc.wait(), timeout_sec)], the pumps running at the same time. *)
Fixpoint supervise (fuel : nat) (pid deadline : Z) (log : LogFn) (p : Pumps) : prog (Ending * Pumps) :=
  match fuel with
  | O => Throw Diverged
  | S fuel =>
      ev ← call (next_event pid (Some deadline));
      match ev with
      | ReadLine s r => p ← pump_step s r log p; supervise fuel pid deadline log p
      | Exited => Ret (EndExit, p)
      | TimedOut => Ret (EndTimeout, p)
      | Canceled => Ret (EndCancel, p)
      end
  end.

(** [await asyncio.gather(pumps, return_exceptions=True)]: what the pumps raise is
    dropped; [false] is a cancellation, which stops them. *)
Fixpoint drain (fuel : nat) (pid : Z) (log : LogFn) (p : Pumps) : prog (bool * Pumps) :=
  if pumps_done p then Ret (true, p)
  else match fuel with
  | O => Throw Diverged
  | S fuel =>
      ev ← call (next_event pid None);
      match ev with
      | ReadLine s r => p ← pump_step s r log p; drain fuel pid log p
      | Canceled => Ret (false, {| stdout_pump := Ended; stderr_pump := Ended |})
      | Exited | TimedOut => drain fuel pid log p
      end
  end.

(** [_terminate]: [killpg] and [kill] answer whether the process was there and ours. *)
Definition terminate (pid : Z) : prog unit :=
  ok ← call (killpg pid);
  if (ok : bool) then Ret tt else call (kill pid);; Ret tt.

(** The [finally] block: the pumps are awaited, the directory is removed, and the
    outcome [o] goes on; a cancellation while it waits skips the rest. *)
Definition finish_task (fuel : nat) (pid : Z) (temp_dir : option string) (log : LogFn)
    {A} (o : Res A) (p : Pumps) : prog A :=
  '(ok, _) ← drain fuel pid log p;
  if (ok : bool) then
    match temp_dir with Some d => call (cleanup d) | None => Ret tt end;;
    plift o
  else Throw CancelledError.

(** [try: ... except TimeoutError: ... except CancelledError: ... finally: ...]; the
    value is [None] when the process has ended by itself. *)
Definition await_process (fuel : nat) (pid timeout_sec : Z) (temp_dir : option string)
    (log : LogFn) : prog (option ExecResult) :=
  start ← call monotonic;
  '(how, p) ← supervise fuel pid (start + timeout_sec * usec) log
                {| stdout_pump := Running; stderr_pump := Running |};
  match how with
  | EndExit => finish_task fuel pid temp_dir log (Ok None) p
  | EndTimeout =>
      terminate pid;;
      '(ok, p) ← drain fuel pid log p;
      if (ok : bool) then
        code ← call (returncode pid);
        let error := ("command exceeded timeout of " ++ py_str timeout_sec ++ "s")%string in
        finish_task fuel pid temp_dir log (Ok (Some (exec_timed_out error code None))) p
      else finish_task fuel pid temp_dir log (Raise CancelledError) p
  | EndCancel =>
      said ← ptry (log SYSTEM "cancellation requested; terminating process";; Ret None)
                  (λ e, Ret (Some e));
      match said with
      | Some e => finish_task fuel pid temp_dir log (Raise e) p
      | None =>
          terminate pid;;
          '(_, p) ← drain fuel pid log p;
          finish_task fuel pid temp_dir log (Raise CancelledError) p
      end
  end.

(** The result of a process that ended by itself. *)
Definition exit_result (code : option Z) : ExecResult :=
  let result := JObj [("exit_code", match code with Some c => JInt c | None => JNull end)] in
  if decide (code = Some 0) then exec_ok (Some 0) (Some (JObj [("exit_code", JInt 0)]))
  else exec_failed ("command exited with code "
                    ++ match code with Some c => py_str c | None => "None" end)%string code (Some result).

(** The process runs: from its start to its result. *)
Definition run_process (fuel : nat) (spec : list (string * json)) (timeout_sec : Z)
    (temp_dir : option string) (argv : list string) (env : list (string * string)) (log : LogFn) :
    prog ExecResult :=
  started ← call (create_process argv env (spec_get "cwd" JNull spec));
  match started with
  | inr exc =>
      match temp_dir with Some d => call (cleanup d) | None => Ret tt end;;
      Ret (exec_failed ("failed to start process: " ++ exc)%string None None)
  | inl pid =>
      stopped ← await_process fuel pid timeout_sec temp_dir log;
      match stopped with
      | Some r => Ret r
      | None => code ← call (returncode pid); Ret (exit_result code)
      end
  end.

(** [execute]; [busy] bounds the number of events the task sees. *)
Definition shell_task (busy : nat) : Executor := λ spec timeout_sec log,
  prepared ← ptry (argv ← plift (build_argv spec);
                   r ← materialize_uploaded_script spec argv; Ret (inl r))
                  (λ e, match e with ValueError msg => Ret (inr msg) | _ => Throw e end);
  match prepared with
  | inr msg => Ret (exec_failed ("failed to parse command: " ++ msg)%string None None)
  | inl (temp_dir, argv) =>
      environ ← call os_environ;
      env ← plift (process_env environ spec);
      log SYSTEM ("$ " ++ shlex_join argv)%string;;
      run_process busy spec timeout_sec temp_dir argv env log
  end.

(** ** The contract of executors *)

Lemma prog_all_try (P : ∀ B, M B → Prop) {A} (p : prog A) h :
  prog_all P p → (∀ e, prog_all P (h e)) → prog_all P (ptry p h).
Proof.
  intros Hp Hh. induction p as [a|e|C m k IH]; simpl; [done|apply Hh|].
  destruct Hp as [Hm Hk]. split; [done|]. intros r. apply IH, Hk.
Qed.

(** Walks through the executor: its log lines and its external actions. *)
Ltac external_action := first
  [ apply os_environ_external | apply make_temp_dir_external | apply write_text_external
  | apply cleanup_external | apply create_process_external | apply next_event_external
  | apply killpg_external | apply kill_external | apply returncode_external
  | apply external_read ].
Ltac shell_step Hlog Hext :=
  first
    [ done
    | apply Hlog
    | lazymatch goal with
      | |- prog_all _ (@mbind _ _ _ _ _ _) => apply prog_all_bind; [|intros ?]
      | |- prog_all _ (ptry _ _) => apply prog_all_try; [|intros ?]
      | |- prog_all _ (call _) => split; [apply Hext; external_action|by intros [?|?]]
      | |- prog_all _ (plift ?r) => destruct r
      end
    | case_match ].

Section contract.
Context (P : ∀ B, M B → Prop) (log : LogFn).
Hypothesis Hlog : ∀ s l, prog_all P (log s l).
Hypothesis Hext : ∀ B (m : M B), external m → P B m.

Lemma pump_step_through_log s r p : prog_all P (pump_step s r log p).
Proof. unfold pump_step. repeat shell_step Hlog Hext. Qed.

Lemma supervise_through_log fuel pid d p : prog_all P (supervise fuel pid d log p).
Proof.
  revert p. induction fuel as [|fuel IH]; intros p; [done|]. cbn [supervise].
  repeat first [apply IH|apply pump_step_through_log|shell_step Hlog Hext].
Qed.

Lemma drain_through_log fuel pid p : prog_all P (drain fuel pid log p).
Proof.
  revert p. induction fuel as [|fuel IH]; intros p; cbn [drain]; [by case_match|].
  repeat first [apply IH|apply pump_step_through_log|shell_step Hlog Hext].
Qed.

Lemma finish_through_log fuel pid td {A} (o : Res A) p : prog_all P (finish_task fuel pid td log o p).
Proof. unfold finish_task. repeat first [apply drain_through_log|shell_step Hlog Hext]. Qed.

Lemma await_through_log fuel pid t td : prog_all P (await_process fuel pid t td log).
Proof.
  unfold await_process, terminate.
  repeat first [apply supervise_through_log|apply drain_through_log|apply finish_through_log|shell_step Hlog Hext].
Qed.

End contract.

Lemma shell_task_through_log busy : acts_through_log (shell_task busy).
Proof.
  intros P spec t log Hlog Hext. unfold shell_task, materialize_uploaded_script, run_process.
  repeat first [by apply await_through_log|shell_step Hlog Hext].
Qed.

Lemma exit_result_outcome code : valid_result (exit_result code).
Proof. unfold exit_result. case_decide; [by apply exec_ok_outcome|by apply exec_failed_outcome]. Qed.

Definition stopped_outcome (o : option ExecResult) : Prop :=
  match o with Some r => valid_result r | None => True end.

Lemma returns_finish (P : option ExecResult → Prop) fuel pid td log o p :
  (∀ a, o = Ok a → P a) → returns P (finish_task fuel pid td log o p).
Proof.
  intros Ho. unfold finish_task. apply returns_bind. intros [[|] ?]; [|done].
  apply returns_bind. intros _. by apply returns_plift.
Qed.

Lemma await_process_outcome fuel pid t td log :
  returns stopped_outcome (await_process fuel pid t td log).
Proof.
  unfold await_process. apply returns_bind. intros start. apply returns_bind. intros [[] p].
  - apply returns_finish. by intros a [= <-].
  - apply returns_bind. intros _. apply returns_bind. intros [[|] p'].
    + apply returns_bind. intros code. apply returns_finish. intros a [= <-]. by apply exec_timed_out_outcome.
    + by apply returns_finish.
  - apply returns_bind. intros [e|].
    + by apply returns_finish.
    + apply returns_bind. intros _. apply returns_bind. intros [_ p']. by apply returns_finish.
Qed.

Lemma shell_task_outcome busy : reports_outcome (shell_task busy).
Proof.
  intros spec t log. unfold shell_task, run_process. apply returns_bind.
  intros [[td argv]|msg]; [|by apply exec_failed_outcome].
  do 3 (apply returns_bind; intros ?). apply returns_bind. intros [pid|exc].
  - eapply returns_bind'; [apply await_process_outcome|]. intros [r|] Hr; [done|].
    apply returns_bind. intros code. apply exit_result_outcome.
  - apply returns_bind. intros _. by apply exec_failed_outcome.
Qed.

(** ** What every way through the program comes to *)

(** Every way through [p] that returns a value with [P], whatever the actions answer, comes
    to a point where the rest of the program satisfies [S]. *)
Fixpoint before {A} (P : A → Prop) (S : prog A → Prop) (p : prog A) : Prop :=
  S p ∨ match p with
        | Ret a => ¬ P a
        | Throw _ => True
        | Atomic C m k => ∀ r, before P S (k r)
        end.

(** The next action is [m], and each of its answers leaves a rest with [Q]. *)
Definition first {A B} (m : M B) (Q : Res B → prog A → Prop) (p : prog A) : Prop :=
  ∃ k, p = Atomic B m k ∧ ∀ r, Q r (k r).

(** Every way through [p] that returns a value with [P] has performed [m] before. *)
Definition performed {B} (m : M B) {A} (P : A → Prop) (p : prog A) : Prop :=
  before P (first m (λ _ _, True)) p.

(** ... has killed the process group, or else the process. *)
Definition killed (pid : Z) {A} (P : A → Prop) (p : prog A) : Prop :=
  before P (first (killpg pid) (λ r rest, r = Ok true ∨ performed (kill pid) P rest)) p.

Lemma before_here {A} (P : A → Prop) S p : S p → before P S p.
Proof. destruct p; by left. Qed.

Lemma before_mono {A} (P : A → Prop) (S S' : prog A → Prop) p :
  (∀ p, S p → S' p) → before P S p → before P S' p.
Proof. intros HS. induction p as [a|e|C m k IH]; intros [?|?]; [left|right|left|right|left|right]; eauto. Qed.

Lemma before_bind {A B} (P : B → Prop) S S' (p : prog A) (f : A → prog B) :
  (∀ p, S p → S' (p ≫= f)) → before (λ _, True) S p → before P S' (p ≫= f).
Proof.
  intros HS. induction p as [a|e|C m k IH]; intros [Hp|Hp]; try by apply before_here, HS.
  - by right.
  - right. intros r. apply IH, Hp.
Qed.

Lemma before_later {A B} (Q : A → Prop) (P : B → Prop) S (p : prog A) (f : A → prog B) :
  returns Q p → (∀ a, Q a → before P S (f a)) → before P S (p ≫= f).
Proof.
  intros Hp Hf. induction p as [a|e|C m k IH]; [by apply Hf|by right|].
  right. intros r. apply IH, Hp.
Qed.

Lemma returns_true {A} (p : prog A) : returns (λ _, True) p.
Proof. induction p; simpl; auto. Qed.

Lemma before_then {A B} (P : B → Prop) S (p : prog A) (f : A → prog B) :
  (∀ a, before P S (f a)) → before P S (p ≫= f).
Proof. intros Hf. eapply before_later; [apply returns_true|auto]. Qed.

Lemma before_never {A} (P : A → Prop) S (p : prog A) : returns (λ a, ¬ P a) p → before P S p.
Proof. induction p as [a|e|D m k IH]; simpl; auto. Qed.

Lemma first_bind {A B C} (m : M C) Q Q' (p : prog A) (f : A → prog B) :
  (∀ r p, Q r p → Q' r (p ≫= f)) → first m Q p → first m Q' (p ≫= f).
Proof. intros HQ (k & -> & Hk). eexists. split; [reflexivity|]. intros r. apply HQ, Hk. Qed.

Lemma performed_bind {C} (m : M C) {A B} (P : B → Prop) (p : prog A) (f : A → prog B) :
  performed m (λ _, True) p → performed m P (p ≫= f).
Proof. apply before_bind. intros p'. by apply first_bind. Qed.

Lemma performed_call {C} (m : M C) : performed m (λ _, True) (call m).
Proof. left. by eexists. Qed.

Lemma performed_finish fuel pid d log {A} (P : A → Prop) (o : Res A) p :
  performed (cleanup d) P (finish_task fuel pid (Some d) log o p).
Proof.
  unfold finish_task. apply before_then. intros [[|] ?]; [|by right].
  apply performed_bind, performed_call.
Qed.

Lemma performed_await fuel pid t d log (P : option ExecResult → Prop) :
  performed (cleanup d) P (await_process fuel pid t (Some d) log).
Proof.
  unfold await_process. apply before_then. intros start. apply before_then. intros [[] p].
  - apply performed_finish.
  - apply before_then. intros _. apply before_then. intros [[|] p'].
    + apply before_then. intros code. apply performed_finish.
    + apply performed_finish.
  - apply before_then. intros [e|]; [apply performed_finish|].
    apply before_then. intros _. apply before_then. intros [_ p']. apply performed_finish.
Qed.

(** The directory is removed once the process was to be started. *)
Lemma performed_run busy spec t d argv env log :
  performed (cleanup d) (λ _, True) (run_process busy spec t (Some d) argv env log).
Proof.
  unfold run_process. apply before_then. intros [pid|exc].
  - eapply performed_bind, performed_await.
  - apply performed_bind, performed_call.
Qed.

Lemma killed_terminate pid {B} (P : B → Prop) (f : unit → prog B) : killed pid P (terminate pid ≫= f).
Proof.
  apply before_here. eexists. split; [reflexivity|]. intros [[|]|e]; [by left|right|right; by right].
  simpl. apply before_here. by eexists.
Qed.

Lemma killed_bind pid {A B} (P : A → Prop) (Q : B → Prop) (p : prog A) (f : A → prog B) :
  killed pid P p → (∀ a, ¬ P a → returns (λ b, ¬ Q b) (f a)) → killed pid Q (p ≫= f).
Proof.
  assert (∀ S S' (p : prog A), (∀ a, ¬ P a → returns (λ b, ¬ Q b) (f a)) → (∀ p, S p → S' (p ≫= f)) →
    before P S p → before Q S' (p ≫= f)) as Hgen.
  { intros S S' p' Hf HS. induction p' as [a|e|C m k IH]; intros [Hp|Hp]; try by apply before_here, HS.
    - by apply before_never, Hf.
    - by right.
    - right. intros r. apply IH, Hp. }
  intros Hp Hf. eapply Hgen, Hp; [done|]. intros p'. apply first_bind. intros r p'' [->|Hk]; [by left|right].
  eapply Hgen, Hk; [done|]. intros q. by apply first_bind.
Qed.

(** A time-out is reported after the process was killed. *)
Lemma killed_await fuel pid t td log : killed pid (λ o, o ≠ None) (await_process fuel pid t td log).
Proof.
  unfold await_process. apply before_then. intros start. apply before_then. intros [[] p].
  - apply before_never, returns_finish. intros a [= <-] Ha. by apply Ha.
  - apply killed_terminate.
  - apply before_then. intros [e|]; [by apply before_never, returns_finish|]. apply killed_terminate.
Qed.

Definition timed_out (r : ExecResult) : Prop := er_status r = TIMED_OUT.

Lemma killed_run busy spec t td argv env log :
  first (create_process argv env (spec_get "cwd" JNull spec))
    (λ r rest, ∀ pid, r = Ok (inl pid) → killed pid timed_out rest)
    (run_process busy spec t td argv env log).
Proof.
  eexists. split; [reflexivity|]. intros r pid ->. cbn beta iota.
  refine (killed_bind pid (λ o, o ≠ None) _ _ _ (killed_await _ _ _ _ _) _). intros [r|] Hr; [by destruct Hr|].
  apply returns_bind. intros code Ht. revert Ht. unfold timed_out, exit_result. by case_decide.
Qed.

(** The rest of the task, once the command and its script are there. *)
Definition shell_rest (busy : nat) (spec : list (string * json)) (timeout_sec : Z) (log : LogFn)
    (temp_dir : option string) (argv : list string) : prog ExecResult :=
  environ ← call os_environ;
  env ← plift (process_env environ spec);
  log SYSTEM ("$ " ++ shlex_join argv)%string;;
  run_process busy spec timeout_sec temp_dir argv env log.

Lemma shell_rest_cleans busy spec t log d argv :
  performed (cleanup d) (λ _, True) (shell_rest busy spec t log (Some d) argv).
Proof.
  unfold shell_rest. do 3 (apply before_then; intros ?). apply performed_run.
Qed.

(** The process is started, and killed if it takes too long. *)
Definition kills_late (spec : list (string * json)) (p : prog ExecResult) : Prop :=
  before timed_out
    (λ p, ∃ argv env, first (create_process argv env (spec_get "cwd" JNull spec))
       (λ r rest, ∀ pid, r = Ok (inl pid) → killed pid timed_out rest) p) p.

Lemma shell_task_kills busy spec t log : kills_late spec (shell_task busy spec t log).
Proof.
  unfold shell_task, kills_late. apply before_then. intros [[td argv]|msg]; [|by right].
  do 3 (apply before_then; intros ?). apply before_here. eexists _, _. apply killed_run.
Qed.

(** C37: A shell task cleans up behind itself.  When it has an uploaded script and made the
    directory [d] for it, and the script could be written, then every way through the rest
    of the task that reports a result, whatever the operating system and the log answer, has
    removed [d]: also when the process cannot be started, times out or its output cannot be
    logged.  A [ValueError] of the write is reported as a command that cannot be parsed, with
    no call that removes [d].  And a time-out is reported only after the process group of the
    process that was started has been killed, or, where the group was gone or another user's,
    a kill of the process was tried. *)
Theorem shell_task_cleans_up (busy : nat) (spec : list (string * json)) (timeout_sec : Z)
    (log : LogFn) (argv : list string) (filename content : string) :
  build_argv spec = Ok argv → uploaded_script spec = Some (Ok (filename, content)) →
  first (make_temp_dir "job-scheduler-script-") (λ made rest, ∀ d, made = Ok d →
      first (write_text (d ++ "/" ++ filename)%string content) (λ written rest,
        (written = Ok tt → performed (cleanup d) (λ _, True) rest) ∧
        (∀ msg, written = Raise (ValueError msg) →
           rest = Ret (exec_failed ("failed to parse command: " ++ msg)%string None None))) rest)
    (shell_task busy spec timeout_sec log) ∧
  kills_late spec (shell_task busy spec timeout_sec log).
Proof.
  intros Ha Hu. split; [|apply shell_task_kills].
  unfold shell_task. rewrite Ha. unfold materialize_uploaded_script. rewrite Hu.
  eexists. split; [reflexivity|]. intros r d ->. eexists. split; [reflexivity|].
  intros r. split; [intros ->|by intros msg ->].
  exact (shell_rest_cleans busy spec timeout_sec log d _).
Qed.

End shell.

(** ** The registered executors *)

Section executors.
Context `{RedisServer, !HttpClient, !Subprocess, FloatText}.

Definition task_executors (busy : nat) : Executors.
Proof.
  refine {| http_execute := http_task; shell_execute := shell_task busy;
            http_async_execute := http_async_task busy |};
    intros x Hx; repeat (apply elem_of_cons in Hx as [-> | Hx]); try by apply elem_of_nil in Hx.
  - apply http_task_through_log.
  - apply shell_task_through_log.
  - apply http_async_through_log.
  - apply http_task_outcome.
  - apply shell_task_outcome.
  - apply http_async_outcome.
Defined.

(** C35: The three executors implement the interface the worker is proved against.
    Whatever the registry finds for a task type is the executor of that module; it
    touches the tables, the queue and the log buffers only through the log function
    it is given; and what it returns is one of the three outcomes of a run, with nothing
    or a JSON object as its result, as the API's response model demands. *)
Theorem executors_meet_contract (busy : nat) (t : string) (x : Executor) :
  @get_executor _ (task_executors busy) t = Ok x →
  x = (if decide (t = TaskType.HTTP) then http_task
       else if decide (t = TaskType.SHELL) then shell_task busy else http_async_task busy) ∧
  acts_through_log x ∧ reports_outcome x.
Proof.
  intros Hx. split.
  - unfold get_executor, REGISTRY in Hx. simpl in Hx. repeat case_decide; by simplify_eq.
  - pose proof (get_executor_elem (H := _) t x Hx) as Hin.
    split; [by apply (executors_through_log (Executors := task_executors busy))
           |by apply (executors_outcome (Executors := task_executors busy))].
Qed.

End executors.

(** ** Evaluation *)

#[local] Existing Instances reference_redis busy_server plain_floats.

(** A command that exits at once and leaves a child behind, which writes a line every
    second of the first minute. *)
Definition chatty_child (w : World) : Res Event * World :=
  if w_clock w <? 60 * usec then (Ok (ReadLine STDOUT (Ok ("tick" ++ String newline "")%string)), with_clock (w_clock w + usec) w)
  else (Ok (ReadLine (if Z.even (w_clock w) then STDOUT else STDERR) (Ok ""%string)), with_clock (w_clock w + 1) w).

Lemma external_mret {A} (a : A) : external (mret a).
Proof. intros w. exists (w_clock w). split; [by destruct w|simpl; lia]. Qed.

Definition background_os : Subprocess.
Proof.
  refine {| os_environ := mret [("PATH", "/bin")]; make_temp_dir p := mret ("/tmp/" ++ p ++ "1")%string;
            write_text p t := mret tt; cleanup p := mret tt;
            create_process argv env cwd := mret (inl 7);
            next_event pid deadline :=
              match deadline with Some _ => mret Exited | None => chatty_child end;
            killpg pid := mret true; kill pid := mret true; returncode pid := mret (Some 0) |};
    intros; try apply external_mret.
  destruct d; [apply external_mret|]. intros w. unfold chatty_child.
  case_match; eexists; (split; [reflexivity|unfold usec in *; lia]).
Defined.

#[local] Existing Instance background_os.

Definition demo_shell_spec : list (string * json) :=
  [("command", JStr "sh -c 'yes &'"); ("args", JArr [JInt 1])].

Definition demo_world : World :=
  @Build_World reference_redis empty_db empty_db empty_view 0 [] ∅ 0 ∅.

(** The time limit is for the process, not for its output: the task reports success
    a minute after its start, with a limit of five seconds. *)
Lemma background_output_outlives_timeout :
  let '(o, w) := run (shell_task 100 demo_shell_spec 5 quiet_log) demo_world in
  (r ← o; Ok (er_status r)) = Ok SUCCEEDED ∧ 60 * usec ≤ w_clock w.
Proof. vm_compute. split; [reflexivity|discriminate]. Qed.

Lemma executors_meet_contract_witness :
  ∃ x, @get_executor _ (task_executors 100) TaskType.SHELL = Ok x ∧ x = shell_task 100 ∧
    acts_through_log x ∧ reports_outcome x.
Proof.
  exists (shell_task 100). split; [reflexivity|].
  exact (executors_meet_contract 100 TaskType.SHELL (shell_task 100) eq_refl).
Defined.

(** A task with an uploaded script. *)
Definition script_spec : list (string * json) :=
  [("command", JStr "sh run.sh"); ("source_filename", JStr "up/run.sh"); ("file_content", JStr "echo hi")].

Lemma script_argv : build_argv script_spec = Ok ["sh"; "run.sh"].
Proof. vm_compute. reflexivity. Qed.
Lemma script_uploaded : uploaded_script script_spec = Some (Ok ("run.sh", "echo hi")).
Proof. vm_compute. reflexivity. Qed.

Lemma shell_task_cleans_up_witness :
  ∃ k k', shell_task 100 script_spec 5 quiet_log =
      Atomic string (make_temp_dir "job-scheduler-script-") k ∧
    k (Ok "/tmp/x") = Atomic unit (write_text "/tmp/x/run.sh" "echo hi") k' ∧
    performed (cleanup "/tmp/x") (λ _, True) (k' (Ok tt)).
Proof.
  destruct (shell_task_cleans_up 100 script_spec 5 quiet_log _ _ _ script_argv script_uploaded)
    as [(k & Hk & Hmade) _].
  destruct (Hmade (Ok "/tmp/x") "/tmp/x" eq_refl) as (k' & Hk' & Hwritten).
  exists k, k'. split; [exact Hk|]. split; [exact Hk'|]. exact (proj1 (Hwritten (Ok tt)) eq_refl).
Defined.
