(* ===== verification/Runner.v ===== *)
(** * Executing one run: [backend/worker/runner.py]

    [process_run] claims a run, hands its task to the executor, streams the log
    lines through a [LogBuffer], records the outcome and starts what follows:
    the jobs that depend on a succeeded one, or a delayed retry of a failed
    one.  It is a program: between its database and Redis calls other workers,
    the scheduler and the API run. *)

From S2P Require Import Prelude PyBase Models RedisServer Effects Database RedisQueue Cron Retry.
From S2P Require Import Demo Store Executor Careful.

(** [str(exc)] for the exceptions of the libraries. *)
Class ExcText := { exc_str : exn → string }.

(** [f"{x}"] of an optional string *)
Definition str_or_none (o : option string) : string := default "None"%string o.

Definition FLUSH_EVERY : nat := 25.

(** [_RETRYABLE] *)
Definition RETRYABLE : list RunStatus := [FAILED; TIMED_OUT].

Notation entry := (LogStream * string)%type.

Section runner.
Context `{RedisServer, Postgres, Settings, !Executors, ExcText}.

(** ** LogBuffer

    A buffer is an object in the worker's memory, shared by the coroutines that
    write to it. *)

Definition buf_of (b : Z) (w : World) : list entry := default [] (w_bufs w !! b).

(** [LogBuffer(run_id)] *)
Definition new_buf : M Z := λ w,
  (Ok (w_next_buf w), with_bufs (<[w_next_buf w := []]> (w_bufs w)) (w_next_buf w + 1) w).

Definition set_buf (b : Z) (l : list entry) : M unit := λ w,
  (Ok tt, with_bufs (<[b := l]> (w_bufs w)) (w_next_buf w) w).

(** [batch, self._buf = self._buf, []] *)
Definition buf_take (b : Z) : M (list entry) :=
  batch ← read (buf_of b); set_buf b [];; mret batch.

(** [self._buf.append(...)], then the batch to flush when the buffer is full. *)
Definition buf_push (b : Z) (e : entry) : M (list entry) :=
  buf ← read (buf_of b);
  set_buf b (buf ++ [e]);;
  if decide (FLUSH_EVERY ≤ length (buf ++ [e]))%nat then buf_take b else mret [].

(** [LogBuffer.flush], once the batch is taken. *)
Definition flush_batch (run : Z) (batch : list entry) : prog unit :=
  match batch with
  | [] => Ret tt
  | _ => call (append_logs run batch)
  end.

Definition log_flush (b run : Z) : prog unit :=
  batch ← call (buf_take b); flush_batch run batch.

Definition log_write (b run : Z) : LogFn := λ s l,
  batch ← call (buf_push b (s, l)); flush_batch run batch.

(** ** Outcomes *)

(** The loop body of [_on_success]. *)
Definition start_dependent (job : Z) : prog unit :=
  new_id ← create_dependency_run job;
  match new_id with
  | Some i => enqueue_run_async i;; Ret tt
  | None => Ret tt
  end.

Definition on_success (c : Claimed) (res : ExecResult) : prog unit :=
  canceled ← call (is_run_canceled (c_run_id c));
  if (canceled : bool) then Ret tt
  else
    call (finish_run (c_run_id c) SUCCEEDED (er_exit_code res) (er_result res) None);;
    dependents ← call (dependents_ready (c_job_id c));
    pfor_each dependents start_dependent.

Definition retry_error (c : Claimed) (res : ExecResult) (delay new_id : Z) : string :=
  (str_or_none (er_error res) ++ " (retry " ++ py_str (c_attempt c + 1) ++ "/"
   ++ py_str (c_max_retries c) ++ " scheduled in " ++ py_str delay ++ "s as run "
   ++ py_str new_id ++ ")")%string.

Definition on_failure (c : Claimed) (res : ExecResult) : prog unit :=
  canceled ← call (is_run_canceled (c_run_id c));
  if (canceled : bool) then Ret tt
  else if bool_decide (er_status res ∈ RETRYABLE) && should_retry (c_attempt c) (c_max_retries c)
  then
    let delay := backoff_seconds (c_attempt c) (c_retry_backoff_sec c) in
    new_id ← call (create_retry_run (c_job_id c) (c_attempt c + 1));
    now ← call utcnow;
    schedule_delayed_async new_id (now + delay * usec);;
    call (finish_run (c_run_id c) (er_status res) (er_exit_code res) (er_result res)
            (Some (retry_error c res delay new_id)))
  else
    call (finish_run (c_run_id c) (er_status res) (er_exit_code res) (er_result res)
            (er_error res)).

(** ** process_run *)

(** The [try] around the executor. *)
Definition execute_task (c : Claimed) (b run_id : Z) : prog ExecResult :=
  ptry
    match get_executor (c_task_type c) with
    | Ok x => x (c_task_spec c) (c_timeout_sec c) (log_write b run_id)
    | Raise e => Throw e
    end
    (λ e, match e with
          | CancelledError =>
              log_write b run_id SYSTEM "run canceled; stopping executor";;
              log_flush b run_id;;
              Throw CancelledError
          | e =>
              let msg := ("executor crashed: " ++ exc_str e)%string in
              log_write b run_id SYSTEM msg;; Ret (exec_failed msg None None)
          end).

Definition process_run (run_id : Z) (allow_running : bool) (worker : string) : prog unit :=
  claimed ← call (claim_run run_id worker allow_running);
  match claimed with
  | None => Ret tt
  | Some c =>
      b ← call new_buf;
      res ← execute_task c b run_id;
      log_flush b run_id;;
      if succeeded res then on_success c res else on_failure c res
  end.

(** ** Invariants *)

Lemma buf_take_respects b : respects evolves (buf_take b).
Proof. intros w Hw. by split. Qed.
Lemma buf_push_respects b e : respects evolves (buf_push b e).
Proof.
  unfold buf_push. respect; try apply buf_take_respects. intros w Hw. by split.
Qed.
Lemma new_buf_respects : respects evolves new_buf.
Proof. intros w Hw. by split. Qed.
#[local] Hint Resolve buf_take_respects buf_push_respects new_buf_respects : respect.

Lemma enqueue_respects i : presp evolves (enqueue_run_async i).
Proof.
  unfold enqueue_run_async, update_queue_gauges_async, xadd_cmd, xlen_cmd, zcard_cmd. respect.
Qed.
Lemma schedule_delayed_respects i t : presp evolves (schedule_delayed_async i t).
Proof.
  unfold schedule_delayed_async, update_queue_gauges_async, zadd_cmd, xlen_cmd, zcard_cmd. respect.
Qed.
#[local] Hint Resolve enqueue_respects schedule_delayed_respects : respect.

Lemma flush_batch_respects run batch : presp evolves (flush_batch run batch).
Proof. unfold flush_batch. respect. Qed.
#[local] Hint Resolve flush_batch_respects : respect.

Lemma log_flush_respects b run : presp evolves (log_flush b run).
Proof. unfold log_flush. respect. Qed.
Lemma log_write_respects b run s l : presp evolves (log_write b run s l).
Proof. unfold log_write. respect. Qed.
#[local] Hint Resolve log_flush_respects log_write_respects : respect.

Lemma start_dependent_careful job X : careful (start_dependent job) X.
Proof.
  unfold start_dependent. apply careful_bind; [apply create_dependency_run_careful|].
  intros o Y _. apply careful_presp. respect.
Qed.

Lemma on_success_careful c res X : valid_result res → careful (on_success c res) X.
Proof.
  intros [_ Hp]. unfold on_success. apply careful_bind; [apply careful_presp; respect|].
  intros canceled Y _. destruct canceled; [done|]. apply careful_bind.
  { apply careful_presp, presp_call, finish_run_respects; [|done]. unfold outcome_status. set_solver. }
  intros _ Y' _. apply careful_bind; [apply careful_presp; respect|]. intros l Y'' _.
  apply careful_for_each. intros job Z'. apply start_dependent_careful.
Qed.

Lemma on_failure_respects c res : valid_result res → presp evolves (on_failure c res).
Proof. intros [Hst Hp]. unfold on_failure. respect; by apply finish_run_respects. Qed.

Lemma execute_task_respects c b run : presp evolves (execute_task c b run).
Proof.
  unfold execute_task. apply presp_try; [|intros e; respect].
  destruct (get_executor (c_task_type c)) eqn:Hx; [|done].
  eapply executor_presp; [done|]. respect.
Qed.

Lemma execute_task_outcome c b run : returns valid_result (execute_task c b run).
Proof.
  unfold execute_task. apply returns_try.
  - destruct (get_executor (c_task_type c)) as [x|] eqn:Hx; [|done].
    apply executors_outcome. by eapply get_executor_elem.
  - assert (outcome_status FAILED) by (unfold outcome_status; set_solver).
    intros []; repeat (apply returns_bind; intros _); simpl; done.
Qed.

Lemma process_run_careful i b worker X : careful (process_run i b worker) X.
Proof.
  unfold process_run. apply careful_bind; [apply careful_presp; respect|]. intros [c|] Y _; [|done].
  apply careful_bind; [apply careful_presp; respect|]. intros buf Y1 _.
  eapply careful_bind_presp; [apply execute_task_respects|apply execute_task_outcome|].
  intros res Y2 Hres. apply careful_bind; [apply careful_presp; respect|]. intros _ Y3 _.
  destruct (succeeded res); [by apply on_success_careful|]. by apply careful_presp, on_failure_respects.
Qed.

(** ** What executing a task may change *)

(** Only log rows were added, time may have passed. *)
Record only_logs (w w' : World) : Prop := {
  ol_clean : clean w';
  ol_quiet : w_faults w' = [];
  ol_wf : db_wf (w_db w');
  ol_runs : runs (w_db w') = runs (w_db w);
  ol_jobs : jobs (w_db w') = jobs (w_db w);
  ol_deps : deps (w_db w') = deps (w_db w);
  ol_seq : runs_seq (w_db w') = runs_seq (w_db w);
  ol_redis : w_redis w' = w_redis w;
  ol_clock : w_clock w ≤ w_clock w'
}.

Lemma only_logs_refl w : clean w → w_faults w = [] → db_wf (w_db w) → only_logs w w.
Proof. by split. Qed.

Lemma add_logs_keeps run now es d :
  let d' := add_logs run now es d in
  runs d' = runs d ∧ jobs d' = jobs d ∧ deps d' = deps d ∧ runs_seq d' = runs_seq d.
Proof.
  revert d. induction es as [|e es IH]; intros d; [done|]. cbn [add_logs].
  match goal with |- context [add_logs _ _ es ?d'] => apply (IH d') end.
Qed.

(** How a write to the log ends. *)
Definition log_result (o : Res unit) (es : list entry) : Prop :=
  o = Ok tt ∧ lines_ok es ∨ o = Raise DataError ∧ ¬ lines_ok es.

Lemma append_logs_only i es w w0 :
  is_Some (runs (w_db w0) !! i) → only_logs w0 w →
  log_result (append_logs i es w).1 es ∧ only_logs w0 (append_logs i es w).2 ∧
  w_bufs (append_logs i es w).2 = w_bufs w.
Proof.
  intros Hr [Hc Hf W Er Ej Ed Es Ere Hcl]. rewrite <- Er in Hr.
  destruct (decide (lines_ok es)) as [Hes|Hes].
  - pose proof (append_logs_eq i es w Hc Hf Hes Hr) as E.
    destruct (append_logs_respects i es w) as [Hev _]; [rewrite Hc; reflexivity|].
    rewrite <- Hc in Hev. rewrite E in *. simpl in *. split; [by left|]. split; [|done].
    destruct (add_logs_keeps i (w_clock w) es (w_db w)) as (? & ? & ? & ?).
    split; simpl; try done; try congruence. by apply (ev_wf _ _ Hev).
  - destruct (append_logs_refused i es w Hc Hes Hr) as (n & -> & Hn). simpl.
    split; [by right|]. split; [|done]. split; simpl; try done.
    apply db_wf_keep_sequences; [|done]. split; simpl; lia.
Qed.

Lemma set_buf_only b l w w0 : only_logs w0 w → only_logs w0 (set_buf b l w).2.
Proof. intros []. by split. Qed.

Lemma buf_push_eq b e w :
  let l := buf_of b w ++ [e] in
  buf_push b e w =
    if decide (FLUSH_EVERY ≤ length l)%nat then (Ok l, (set_buf b [] w).2)
    else (Ok [], (set_buf b l w).2).
Proof.
  unfold buf_push, buf_take, mbind, M_bind, read. simpl. case_decide; [|done].
  unfold mret, M_ret, buf_of. simpl. rewrite lookup_insert_eq. simpl. f_equal.
  unfold with_bufs. simpl. by rewrite insert_insert_eq.
Qed.

Lemma buf_push_only b e w w0 : only_logs w0 w → only_logs w0 (buf_push b e w).2.
Proof. intros Hw. rewrite buf_push_eq. case_decide; by apply set_buf_only. Qed.

Lemma flush_batch_keeps i batch w0 :
  is_Some (runs (w_db w0) !! i) → keeps (only_logs w0) (flush_batch i batch).
Proof.
  intros Hi. unfold flush_batch. destruct batch as [|e l]; [done|]. split; [|by intros []].
  intros w Hw. by apply append_logs_only.
Qed.

Lemma log_write_keeps b i s l w0 :
  is_Some (runs (w_db w0) !! i) → keeps (only_logs w0) (log_write b i s l).
Proof.
  intros Hi. split; [intros w; apply buf_push_only|].
  intros [batch|e]; [by apply flush_batch_keeps|done].
Qed.

Lemma flush_batch_ok i batch w w0 :
  is_Some (runs (w_db w0) !! i) → only_logs w0 w →
  ∃ o w', run (flush_batch i batch) w = (o, w') ∧ only_logs w0 w' ∧ w_bufs w' = w_bufs w ∧
    log_result o batch.
Proof.
  intros Hi Hw. unfold flush_batch. destruct batch as [|e l].
  { exists (Ok tt), w. do 3 (split; [done|]). left. split; [done|constructor]. }
  destruct (append_logs_only i (e :: l) w w0 Hi Hw) as (E & Ho & Hb).
  exists (append_logs i (e :: l) w).1, (append_logs i (e :: l) w).2. rewrite run_call.
  split; [by destruct (append_logs i (e :: l) w)|]. done.
Qed.

Lemma log_flush_ok b i w w0 :
  is_Some (runs (w_db w0) !! i) → only_logs w0 w →
  ∃ o w', run (log_flush b i) w = (o, w') ∧ only_logs w0 w' ∧ buf_of b w' = [] ∧
    log_result o (buf_of b w).
Proof.
  intros Hi Hw. apply (set_buf_only b []) in Hw as Hw1.
  destruct (flush_batch_ok i (buf_of b w) _ w0 Hi Hw1) as (o & w' & E & Ho & Hb & Hl).
  exists o, w'. split; [|split; [done|split; [|done]]].
  - unfold log_flush. rewrite run_bind. by erewrite bind_ok; [exact E|by rewrite run_call].
  - unfold buf_of. rewrite Hb. simpl. by rewrite lookup_insert_eq.
Qed.

Lemma lines_ok_snoc l s t : lines_ok l → text_ok t = true → lines_ok (l ++ [(s, t)]).
Proof. intros Hl Ht. apply Forall_app. split; [done|]. by repeat constructor. Qed.

Lemma buf_push_lines b s t w :
  lines_ok (buf_of b w) → text_ok t = true → lines_ok (buf_of b (buf_push b (s, t) w).2).
Proof.
  intros Hl Ht. rewrite buf_push_eq. unfold buf_of at 1. case_decide; simpl; rewrite lookup_insert_eq; simpl.
  - constructor.
  - by apply lines_ok_snoc.
Qed.

Lemma log_write_ok b i s l w w0 :
  is_Some (runs (w_db w0) !! i) → only_logs w0 w →
  ∃ o w', run (log_write b i s l) w = (o, w') ∧ only_logs w0 w' ∧ (o = Ok tt ∨ o = Raise DataError) ∧
    (lines_ok (buf_of b w) → text_ok l = true → o = Ok tt ∧ lines_ok (buf_of b w')).
Proof.
  intros Hi Hw. pose proof (buf_push_only b (s, l) w w0 Hw) as Hw1.
  pose proof (buf_push_lines b s l w) as Hlines.
  destruct (buf_push b (s, l) w) as [r w1] eqn:E. simpl in Hw1, Hlines.
  assert (∃ batch, r = Ok batch ∧ (lines_ok (buf_of b w) → text_ok l = true → lines_ok batch)) as (batch & -> & Hbatch).
  { rewrite buf_push_eq in E. case_decide; simplify_eq; eexists; (split; [done|]).
    - intros. by apply lines_ok_snoc.
    - constructor. }
  destruct (flush_batch_ok i batch w1 w0 Hi Hw1) as (o & w' & E' & Ho & Hb & Hl).
  exists o, w'. split.
  { unfold log_write. rewrite run_bind. by erewrite bind_ok; [exact E'|by rewrite run_call]. }
  split; [done|]. split; [destruct Hl as [[-> _]|[-> _]]; auto|]. intros Hok Ht.
  destruct Hl as [[-> _]|[_ Hn]]; [|by destruct Hn; apply Hbatch]. split; [done|].
  unfold buf_of in *. rewrite Hb. by apply Hlines.
Qed.

(** A task whose output the tables can hold: its executor logs only lines without NUL, the
    result and the error it reports can be stored, and so can the texts of exceptions. *)
Definition plain_executor (x : Executor) (spec : list (string * json)) (timeout : Z) : Prop :=
  (∀ (P : ∀ B, M B → Prop) (log : LogFn),
     (∀ s l, text_ok l = true → prog_all P (log s l)) → (∀ B (m : M B), external m → P B m) →
     prog_all P (x spec timeout log)) ∧
  ∀ log, returns (λ r, outcome_ok (er_result r) (er_error r) = true) (x spec timeout log).
Definition plain_task (c : Claimed) : Prop :=
  (∀ e, text_ok (exc_str e) = true) ∧
  ∀ x, get_executor (c_task_type c) = Ok x → plain_executor x (c_task_spec c) (c_timeout_sec c).

(** How a task ends: with an outcome, canceled with its lines written, or because its lines
    could not be stored. *)
Definition task_result (b : Z) (w' : World) (o : Res ExecResult) : Prop :=
  (∃ res, o = Ok res ∧ outcome_status (er_status res)) ∨
  o = Raise CancelledError ∧ buf_of b w' = [] ∨ o = Raise DataError.
Definition task_plain (b : Z) (w' : World) (o : Res ExecResult) : Prop :=
  o ≠ Raise DataError ∧ lines_ok (buf_of b w') ∧
  ∀ res, o = Ok res → outcome_ok (er_result res) (er_error res) = true.

(** The task function itself, before the handlers of [process_run]. *)
Definition task_body (c : Claimed) (b i : Z) : prog ExecResult :=
  match get_executor (c_task_type c) with
  | Ok x => x (c_task_spec c) (c_timeout_sec c) (log_write b i)
  | Raise e => Throw e
  end.

Lemma task_body_keeps c b i w w0 :
  is_Some (runs (w_db w0) !! i) → only_logs w0 w → only_logs w0 (run (task_body c b i) w).2.
Proof.
  intros Hi Hw. unfold task_body. destruct (get_executor (c_task_type c)) as [x|e] eqn:Hx; [|done].
  eapply executor_keeps; [done|intros; by apply log_write_keeps| |done].
  intros w1 t [] Ht. split; simpl; try done. lia.
Qed.

Lemma task_body_lines c b i w w0 :
  is_Some (runs (w_db w0) !! i) → only_logs w0 w → lines_ok (buf_of b w) → plain_task c →
  lines_ok (buf_of b (run (task_body c b i) w).2).
Proof.
  intros Hi Hw Hl [_ Hplain]. unfold task_body.
  destruct (get_executor (c_task_type c)) as [x|e] eqn:Hx; [|done].
  destruct (Hplain x eq_refl) as [Hact _].
  apply (keeps_run (λ w', only_logs w0 w' ∧ lines_ok (buf_of b w'))); [|done].
  apply Hact; [|intros B m Hm w1 [[] ?]; destruct (Hm w1) as (t & -> & Ht); split; [split; simpl; try done; lia|done]].
  intros s l Ht. split.
  - intros w1 [Ho1 Hl1]. split; [by apply buf_push_only|by apply buf_push_lines].
  - intros [batch|e]; [|done]. unfold flush_batch. destruct batch as [|e batch]; [done|].
    split; [|by intros []]. intros w1 [Ho1 Hl1].
    destruct (append_logs_only i (e :: batch) w1 w0 Hi Ho1) as (_ & Ho & Hb).
    split; [done|]. unfold buf_of. by rewrite Hb.
Qed.

Lemma task_body_returns c b i :
  returns (λ r, outcome_status (er_status r) ∧
    (plain_task c → outcome_ok (er_result r) (er_error r) = true)) (task_body c b i).
Proof.
  unfold task_body. destruct (get_executor (c_task_type c)) as [x|] eqn:Hx; [|done].
  apply returns_and.
  - eapply (returns_impl valid_result); [by intros a []|]. apply executors_outcome.
    by eapply get_executor_elem.
  - apply returns_pure. intros [_ Hplain]. by destruct (Hplain x Hx).
Qed.

(** The handler of an executor's exception. *)
Lemma task_crash_ok b i msg w w0 :
  is_Some (runs (w_db w0) !! i) → only_logs w0 w →
  ∃ o w', run (log_write b i SYSTEM msg;; Ret (exec_failed msg None None)) w = (o, w') ∧
    only_logs w0 w' ∧ task_result b w' o ∧
    (lines_ok (buf_of b w) → text_ok msg = true → task_plain b w' o).
Proof.
  intros Hi Hw. destruct (log_write_ok b i SYSTEM msg w w0 Hi Hw) as (o & w' & E & Ho & Hor & Hl).
  rewrite run_bind. destruct Hor as [->| ->].
  - exists (Ok (exec_failed msg None None)), w'. split; [by erewrite bind_ok|]. split; [done|]. split.
    + left. eexists. split; [done|]. unfold outcome_status. simpl. set_solver.
    + intros Hb Ht. destruct (Hl Hb Ht) as [_ Hl']. split; [done|]. split; [done|].
      intros res [= <-]. unfold outcome_ok. simpl. by rewrite Ht.
  - exists (Raise DataError), w'. split; [by erewrite bind_raise|]. split; [done|].
    split; [by right; right|]. intros Hb Ht. by destruct (Hl Hb Ht).
Qed.

Lemma task_cancel_ok b i w w0 :
  is_Some (runs (w_db w0) !! i) → only_logs w0 w →
  ∃ o w', run (log_write b i SYSTEM "run canceled; stopping executor";; log_flush b i;;
               Throw CancelledError) w = (o, w') ∧
    only_logs w0 w' ∧ task_result b w' o ∧ (lines_ok (buf_of b w) → task_plain b w' o).
Proof.
  intros Hi Hw. destruct (log_write_ok b i SYSTEM "run canceled; stopping executor" w w0 Hi Hw)
    as (o & w2 & E & Ho & Hor & Hl).
  rewrite run_bind. destruct Hor as [->| ->]; cycle 1.
  { exists (Raise DataError), w2. split; [by erewrite bind_raise|]. split; [done|].
    split; [by right; right|]. intros Hb. by destruct (Hl Hb eq_refl). }
  erewrite bind_ok by done. rewrite run_bind.
  destruct (log_flush_ok b i w2 w0 Hi Ho) as (o3 & w3 & E3 & Ho3 & Hb3 & Hl3).
  destruct Hl3 as [[-> _]|[-> Hn]].
  - exists (Raise CancelledError), w3. split; [by erewrite bind_ok|]. split; [done|].
    split; [right; by left|]. intros Hb. split; [done|]. rewrite Hb3. split; [constructor|done].
  - exists (Raise DataError), w3. split; [by erewrite bind_raise|]. split; [done|].
    split; [by right; right|]. intros Hb. by destruct Hn, (Hl Hb eq_refl).
Qed.

(** Executing the task reports an outcome, was canceled or fails on a line that cannot be
    stored; in any case only log rows were added. *)
Lemma execute_task_ok c b i w w0 :
  is_Some (runs (w_db w0) !! i) → only_logs w0 w →
  ∃ o w', run (execute_task c b i) w = (o, w') ∧ only_logs w0 w' ∧ task_result b w' o ∧
    (lines_ok (buf_of b w) → plain_task c → task_plain b w' o).
Proof.
  intros Hi Hw. unfold execute_task. fold (task_body c b i). rewrite run_try. unfold try_except.
  pose proof (task_body_keeps c b i w w0 Hi Hw) as Hp.
  pose proof (task_body_lines c b i w w0 Hi Hw) as Hlines.
  pose proof (task_body_returns c b i) as Hret.
  destruct (run (task_body c b i) w) as [[res|e] w1] eqn:E; simpl in Hp, Hlines.
  { destruct (returns_run _ _ _ _ _ Hret E) as [Hout Hok].
    exists (Ok res), w1. split; [done|]. split; [done|]. split; [left; eauto|].
    intros Hb Hpl. split; [done|]. split; [by apply Hlines|]. intros res' [= <-]. by apply Hok. }
  assert (∀ msg : string, (plain_task c → text_ok msg = true) →
    ∃ o w', run (log_write b i SYSTEM msg;; Ret (exec_failed msg None None)) w1 = (o, w') ∧
      only_logs w0 w' ∧ task_result b w' o ∧
      (lines_ok (buf_of b w) → plain_task c → task_plain b w' o)) as Hcrash.
  { intros msg Hmsg. destruct (task_crash_ok b i msg w1 w0 Hi Hp) as (o & w' & E' & Ho & Hr & Hpl).
    exists o, w'. do 3 (split; [done|]). intros Hb Ht. apply Hpl; [by apply Hlines|by apply Hmsg]. }
  assert (∀ e, plain_task c → text_ok ("executor crashed: " ++ exc_str e) = true) as Hmsg.
  { intros e' [Ht _]. by rewrite text_ok_app, Ht. }
  destruct e; try (by apply Hcrash, Hmsg).
  destruct (task_cancel_ok b i w1 w0 Hi Hp) as (o & w' & E' & Ho & Hr & Hpl).
  exists o, w'. do 3 (split; [done|]). intros Hb Ht. by apply Hpl, Hlines.
Qed.

(** ** Outcomes of an undisturbed worker *)

(** The row after [finish_run]. *)
Definition finished_row (now : Z) (res : ExecResult) (e : option string) (r : JobRun) : JobRun :=
  set_status (er_status res) (set_outcome (er_exit_code res) (er_result res) (set_finished now e r)).

Lemma finish_run_eq i st c v e w r :
  w_faults w = [] → db_wf (w_db w) → outcome_ok v e = true →
  runs (w_db w) !! i = Some r → status r ≠ CANCELED →
  finish_run i st c v e w =
    (Ok tt, committed (put_run i (set_status st (set_outcome c v (set_finished (w_clock w) e r)))
              (w_db w)) w).
Proof.
  intros Hf W Hv Hi Hs. apply scope_commits; [done|]. rewrite finish_body, Hi by done.
  by rewrite decide_True.
Qed.

Lemma not_canceled_eq i w r :
  clean w → w_faults w = [] → db_wf (w_db w) →
  runs (w_db w) !! i = Some r → status r ≠ CANCELED → is_run_canceled i w = (Ok false, w).
Proof.
  intros Hc Hf W Hi Hs. destruct (is_run_canceled_eq i w Hc Hf W) as (b & E & Hb).
  destruct b; [|done]. destruct (proj1 Hb eq_refl) as (r' & Hi' & ?). congruence.
Qed.

(** The table with the retry of job [j]. *)
Definition with_retry (j att now : Z) (d : Db) : Db :=
  with_runs (<[runs_seq d := new_run (runs_seq d) j RETRY QUEUED att None now]> (runs d))
    (next_runs d).

(** The text of a retried failure can be stored if its error can. *)
Lemma retry_error_ok c res delay new :
  text_ok (retry_error c res delay new) = opt_ok text_ok (er_error res).
Proof.
  unfold retry_error. rewrite !text_ok_app, !text_ok_py_str. cbn [andb].
  rewrite ?andb_true_r. by destruct (er_error res).
Qed.

Lemma on_failure_eq (c : Claimed) (res : ExecResult) (r : JobRun) (w : World) :
  clean w → w_faults w = [] → db_wf (w_db w) →
  runs (w_db w) !! c_run_id c = Some r → is_Some (jobs (w_db w) !! c_job_id c) →
  outcome_status (er_status res) → er_status res ≠ SUCCEEDED →
  let delay := backoff_seconds (c_attempt c) (c_retry_backoff_sec c) in
  let new := runs_seq (w_db w) in
  let ok := outcome_ok (er_result res) (er_error res) in
  ∃ o w', run (on_failure c res) w = (o, w') ∧ clean w' ∧ w_faults w' = [] ∧
    (status r = CANCELED → o = Ok tt ∧ w' = w) ∧
    (status r ≠ CANCELED → o = (if ok then Ok tt else Raise DataError)) ∧
    (status r ≠ CANCELED → c_attempt c ≤ c_max_retries c →
       let d := with_retry (c_job_id c) (c_attempt c + 1) (w_clock w) (w_db w) in
       w' = committed
              (if ok then put_run (c_run_id c)
                 (finished_row (w_clock w) res (Some (retry_error c res delay new)) r) d else d)
              (with_redis (zadd (py_str new) (w_clock w + delay * usec) (w_redis w)) w) ∧
       c_attempt c + 1 ≤ c_max_retries c + 1) ∧
    (status r ≠ CANCELED → c_max_retries c < c_attempt c →
       w' = if ok then committed (put_run (c_run_id c)
                         (finished_row (w_clock w) res (er_error res) r) (w_db w)) w else w).
Proof.
  intros Hc Hf W Hi Hj Hout Hns delay new ok. unfold on_failure.
  destruct (decide (status r = CANCELED)) as [Hs|Hs].
  { destruct (is_run_canceled_eq (c_run_id c) w Hc Hf W) as (b & E & Hb).
    assert (b = true) as -> by (apply Hb; eauto). exists (Ok tt), w.
    rewrite (run_step _ _ _ _ _ E). naive_solver. }
  pose proof (not_canceled_eq _ _ _ Hc Hf W Hi Hs) as E.
  assert (bool_decide (er_status res ∈ RETRYABLE) = true) as ->.
  { apply bool_decide_eq_true. unfold outcome_status, RETRYABLE in *.
    rewrite !elem_of_cons, elem_of_nil in *. intuition congruence. }
  unfold should_retry. cbn [andb].
  destruct (Z.leb_spec (c_attempt c) (c_max_retries c)) as [Hle|Hle].
  - pose proof (create_retry_run_eq (c_job_id c) (c_attempt c + 1) w Hc Hf Hj) as E1.
    cbv zeta in E1. set (d := with_retry (c_job_id c) (c_attempt c + 1) (w_clock w) (w_db w)).
    set (w1 := committed d (with_redis (zadd (py_str new) (w_clock w + delay * usec) (w_redis w)) w)).
    assert (db_wf (w_db w1)) as W1.
    { simpl. apply (ev_wf (w_db w)); [|done]. by apply evolves_insert_run. }
    assert (runs (w_db w1) !! c_run_id c = Some r) as Hi1.
    { simpl. rewrite lookup_insert_ne; [done|]. pose proof (proj2 (wf_run_key _ W _ _ Hi)). lia. }
    exists (if ok then Ok tt else Raise DataError).
    exists (committed (if ok then put_run (c_run_id c)
        (finished_row (w_clock w) res (Some (retry_error c res delay new)) r) d else d) w1).
    split; [|naive_solver lia].
    rewrite (run_step _ _ _ _ _ E). cbn iota. rewrite (run_step _ _ _ _ _ E1).
    rewrite (run_step utcnow _ _ _ _ eq_refl).
    erewrite run_then by (by apply run_schedule_delayed). rewrite run_call. fold new d. fold w1.
    assert (outcome_ok (er_result res) (Some (retry_error c res delay new)) = ok) as Hok.
    { unfold ok, outcome_ok. simpl. by rewrite retry_error_ok. }
    destruct ok; [exact (finish_run_eq _ _ _ _ _ w1 r Hf W1 Hok Hi1 Hs)|].
    exact (finish_run_refused _ _ _ _ _ w1 eq_refl Hok).
  - exists (if ok then Ok tt else Raise DataError).
    exists (if ok then committed (put_run (c_run_id c)
                (finished_row (w_clock w) res (er_error res) r) (w_db w)) w else w).
    split.
    + rewrite (run_step _ _ _ _ _ E), run_call. unfold ok. destruct (outcome_ok _ _) eqn:Hok.
      * by apply (finish_run_eq _ _ _ _ _ _ r).
      * by apply finish_run_refused.
    + destruct ok; (split; [done|]; split; [done|]; split; [done|]; split; [done|]; split; [lia|done]).
Qed.

(** C11: What a failed run leaves behind.  A canceled run: nothing changes.
    Otherwise, when retries remain, exactly one queued retry with the next attempt
    number is created and put into the delayed set, due after the backoff, and the
    failed run is closed with its outcome; nothing is published yet.  Without
    retries left the run is closed with its error and nothing else happens.  So a
    job makes at most [max_retries + 1] attempts.  Only a result or an error that the table
    cannot hold is not written: [DataError] is raised, with the retry already scheduled. *)
Theorem on_failure_exact (c : Claimed) (res : ExecResult) (r : JobRun) (w : World) :
  clean w → w_faults w = [] → db_wf (w_db w) →
  runs (w_db w) !! c_run_id c = Some r → is_Some (jobs (w_db w) !! c_job_id c) →
  outcome_status (er_status res) → er_status res ≠ SUCCEEDED →
  let delay := backoff_seconds (c_attempt c) (c_retry_backoff_sec c) in
  let new := runs_seq (w_db w) in
  let ok := outcome_ok (er_result res) (er_error res) in
  ∃ o w', run (on_failure c res) w = (o, w') ∧ clean w' ∧ w_faults w' = [] ∧
    (status r = CANCELED → o = Ok tt ∧ w' = w) ∧
    (status r ≠ CANCELED → o = (if ok then Ok tt else Raise DataError)) ∧
    (status r ≠ CANCELED → c_attempt c ≤ c_max_retries c →
       let d := with_retry (c_job_id c) (c_attempt c + 1) (w_clock w) (w_db w) in
       w' = committed
              (if ok then put_run (c_run_id c)
                 (finished_row (w_clock w) res (Some (retry_error c res delay new)) r) d else d)
              (with_redis (zadd (py_str new) (w_clock w + delay * usec) (w_redis w)) w) ∧
       c_attempt c + 1 ≤ c_max_retries c + 1) ∧
    (status r ≠ CANCELED → c_max_retries c < c_attempt c →
       w' = if ok then committed (put_run (c_run_id c)
                         (finished_row (w_clock w) res (er_error res) r) (w_db w)) w else w).
Proof. by apply on_failure_eq. Qed.

(** Dispatching one job changes no run of another. *)
Lemma dependency_db_other d job now o i r :
  db_wf d → first_pending d job o → i ≠ (dependency_db d job now o).1 →
  runs (dependency_db d job now o).2 !! i = Some r ↔ runs d !! i = Some r.
Proof. intros W Ho Hi. destruct o; simpl in *; by rewrite lookup_insert_ne. Qed.

Lemma dependency_db_row d job now o :
  first_pending d job o →
  ∃ r, runs (dependency_db d job now o).2 !! (dependency_db d job now o).1 = Some r ∧
    run_job_id r = job ∧ status r = QUEUED.
Proof.
  intros Ho. destruct o as [r|]; simpl; rewrite lookup_insert_eq; eexists; split; try done.
  simpl. by destruct Ho as (_ & ? & _).
Qed.

Lemma dependency_db_jobs d job now o : jobs (dependency_db d job now o).2 = jobs d.
Proof. by destruct o. Qed.

Lemma dependency_db_not_dispatched d job now o k :
  db_wf d → first_pending d job o → k ≠ job → ¬ dispatched d k →
  ¬ dispatched (dependency_db d job now o).2 k.
Proof.
  intros W Ho Hk Hnd (i & r & Hi & Hr & Hs). apply Hnd. exists i, r. split; [|done].
  destruct (decide (i = (dependency_db d job now o).1)) as [->|Hne].
  - destruct (dependency_db_row d job now o Ho) as (r' & Hr' & Hj & _). congruence.
  - by apply (dependency_db_other d job now o).
Qed.

Lemma dependency_db_wf d job now o :
  db_wf d → is_Some (jobs d !! job) → first_pending d job o →
  db_wf (dependency_db d job now o).2.
Proof.
  intros W Hj Ho. apply (ev_wf d); [|done]. destruct o as [r|]; simpl.
  - apply (evolves_put_run _ _ r); [intros _; by eapply oldest_pending_key|].
    destruct Ho as (_ & _ & Hs & _). split; try done; simpl; rewrite Hs; done.
  - by apply evolves_insert_run.
Qed.

(** The dispatched run was a pending run of the job, or is new. *)
Lemma dependency_db_job d job now o r :
  db_wf d → first_pending d job o →
  runs d !! (dependency_db d job now o).1 = Some r → run_job_id r = job ∧ status r = PENDING.
Proof.
  intros W Ho. destruct o as [r'|]; simpl; intros Hr.
  - rewrite (oldest_pending_key _ _ _ W Ho) in Hr. simplify_eq. by destruct Ho as (_ & ? & ? & _).
  - apply (wf_run_key _ W) in Hr as [_ ?]. lia.
Qed.

(** [v'] is the queue after the runs [ids] were published. *)
Definition published (s : redis_state) (ids : list Z) (s' : redis_state) : Prop :=
  appended (view s) (py_str <$> ids) (view s') ∧ rv_delayed (view s') = rv_delayed (view s).

(** Run [i] is a queued run of job [k]. *)
Definition queued_for (d : Db) (k i : Z) : Prop :=
  ∃ r, runs d !! i = Some r ∧ run_job_id r = k ∧ status r = QUEUED.

Lemma run_start_dependent k w :
  w_faults w = [] → db_wf (w_db w) → is_Some (jobs (w_db w) !! k) → ¬ dispatched (w_db w) k →
  ∃ o s', first_pending (w_db w) k o ∧
    let '(i, d) := dependency_db (w_db w) k (w_clock w) o in
    run (start_dependent k) w = (Ok tt, with_redis s' (committed d w)) ∧
    published (w_redis w) [i] s'.
Proof.
  intros Hf W Hk Hnd. destruct (create_dependency_run_eq k w Hf W Hk Hnd) as (o & Ho & E).
  exists o. destruct (dependency_db (w_db w) k (w_clock w) o) as [i d] eqn:Ed.
  exists (xadd (run_fields (py_str i)) (w_redis w)).2. split; [done|]. split.
  - unfold start_dependent. rewrite (run_then _ _ _ _ _ E).
    cbn [fst snd]. erewrite run_then by (by apply (run_enqueue_run i)). done.
  - split; [apply appended_one|by rewrite view_enqueue].
Qed.

(** The loop of [_on_success]. *)
Lemma run_start_dependents l w :
  clean w → w_faults w = [] → db_wf (w_db w) → NoDup l →
  (∀ k, k ∈ l → is_Some (jobs (w_db w) !! k) ∧ ¬ dispatched (w_db w) k) →
  ∃ ids w', run (pfor_each l start_dependent) w = (Ok tt, w') ∧ clean w' ∧ w_faults w' = [] ∧
    Forall2 (queued_for (w_db w')) l ids ∧
    published (w_redis w) ids (w_redis w') ∧
    (∀ i r, i ∉ ids → runs (w_db w') !! i = Some r ↔ runs (w_db w) !! i = Some r) ∧
    (∀ i r, i ∈ ids → runs (w_db w) !! i = Some r → run_job_id r ∈ l ∧ status r = PENDING).
Proof.
  revert w. induction l as [|k l IH]; intros w Hc Hf W Hnd Hl.
  { exists [], w. split; [done|]. split; [done|]. split; [done|]. split; [constructor|].
    split; [split; [apply appended_nil|done]|]. set_solver. }
  destruct (Hl k) as [Hk Hnk]; [set_solver|].
  destruct (run_start_dependent k w Hf W Hk Hnk) as (o & s1 & Ho & Hrun).
  pose proof (λ i r, dependency_db_other (w_db w) k (w_clock w) o i r W Ho) as Hoth.
  pose proof (dependency_db_row (w_db w) k (w_clock w) o Ho) as (r1 & Hr1 & Hj1 & Hs1).
  pose proof (dependency_db_jobs (w_db w) k (w_clock w) o) as Hjobs.
  pose proof (λ k', dependency_db_not_dispatched (w_db w) k (w_clock w) o k' W Ho) as Hnot.
  pose proof (dependency_db_wf (w_db w) k (w_clock w) o W Hk Ho) as W1.
  pose proof (λ r, dependency_db_job (w_db w) k (w_clock w) o r W Ho) as Hji.
  destruct (dependency_db (w_db w) k (w_clock w) o) as [i d]. cbn [fst snd] in *.
  destruct Hrun as [Hrun Hpub]. apply NoDup_cons in Hnd as [Hkl Hnd'].
  destruct (IH (with_redis s1 (committed d w))) as (ids & w' & E & Hc' & Hf' & Hq & Hp & Hkeep & Hin);
    [done|done|done|done| |].
  { intros k' Hk'. simpl. rewrite Hjobs. split; [apply Hl; set_solver|].
    apply Hnot; [set_solver|]. apply Hl. set_solver. }
  simpl in Hkeep, Hin, Hp. assert (i ∉ ids) as Hni
    by (intros Hi; apply Hkl; rewrite <- Hj1; by apply (Hin i r1)).
  exists (i :: ids), w'. cbn [pfor_each].
  split; [by rewrite (run_then _ _ _ _ _ Hrun)|]. split; [done|]. split; [done|].
  split; [constructor; [exists r1; split; [by apply Hkeep|done]|done]|].
  split; [destruct Hpub, Hp; split; [|congruence]|].
  { apply (appended_trans _ [py_str i] (view s1)); done. }
  split.
  - intros i' r Hi'. rewrite Hkeep by set_solver. apply Hoth. set_solver.
  - intros i' r [->|Hi']%elem_of_cons Hr; [destruct (Hji _ Hr) as [-> ->]; set_solver|].
    destruct (Hin i' r) as [? ->]; [done|apply Hoth; set_solver|set_solver].
Qed.

Lemma on_success_eq (c : Claimed) (res : ExecResult) (r : JobRun) (w : World) :
  clean w → w_faults w = [] → db_wf (w_db w) → runs (w_db w) !! c_run_id c = Some r →
  ∃ o w', run (on_success c res) w = (o, w') ∧ clean w' ∧ w_faults w' = [] ∧
    (status r = CANCELED → o = Ok tt ∧ w' = w) ∧
    (status r ≠ CANCELED → outcome_ok (er_result res) None = false → o = Raise DataError ∧ w' = w) ∧
    (status r ≠ CANCELED → outcome_ok (er_result res) None = true →
       let row := set_status SUCCEEDED (set_outcome (er_exit_code res) (er_result res)
                    (set_finished (w_clock w) None r)) in
       let d := put_run (c_run_id c) row (w_db w) in
       o = Ok tt ∧ ∃ jobs_ready ids, NoDup jobs_ready ∧
         (∀ k, k ∈ jobs_ready ↔
            (∃ i e, deps d !! i = Some e ∧ depends_on_job_id e = c_job_id c ∧ dep_job_id e = k) ∧
            ready d k) ∧
         Forall2 (queued_for (w_db w')) jobs_ready ids ∧
         published (w_redis w) ids (w_redis w') ∧
         (∀ i r', i ∈ ids → runs d !! i = Some r' → status r' = PENDING) ∧
         (∀ i r', i ∉ ids → runs (w_db w') !! i = Some r' ↔ runs d !! i = Some r')).
Proof.
  intros Hc Hf W Hi. unfold on_success.
  destruct (decide (status r = CANCELED)) as [Hs|Hs].
  { destruct (is_run_canceled_eq (c_run_id c) w Hc Hf W) as (b & E & Hb).
    assert (b = true) as -> by (apply Hb; eauto). exists (Ok tt), w.
    rewrite (run_step _ _ _ _ _ E). naive_solver. }
  pose proof (not_canceled_eq _ _ _ Hc Hf W Hi Hs) as E.
  destruct (outcome_ok (er_result res) None) eqn:Hok; cycle 1.
  { exists (Raise DataError), w. split; [|done]. rewrite (run_step _ _ _ _ _ E). cbn iota.
    rewrite run_bind. erewrite bind_raise; [done|]. rewrite run_call. by apply finish_run_refused. }
  pose proof (finish_run_eq (c_run_id c) SUCCEEDED (er_exit_code res) (er_result res) None w r
    Hf W Hok Hi Hs) as E1.
  set (row := set_status SUCCEEDED _) in *. set (d := put_run (c_run_id c) row (w_db w)) in *.
  assert (db_wf d) as W1.
  { by apply (db_wf_put_run _ _ r). }
  destruct (dependents_ready_eq (c_job_id c) (committed d w)) as (l & E2 & Hnd & Hl); [done..|].
  destruct (run_start_dependents l (committed d w)) as (ids & w' & E3 & Hc' & Hf' & Hq & Hp & Hkeep & Hin);
    [done|done|done|done| |].
  { intros k Hk. apply Hl in Hk as [_ (j & Hj & _ & Hd & _)]. by eauto. }
  exists (Ok tt), w'. split; [|split; [done|split; [done|split; [done|split; [done|]]]]].
  - rewrite (run_step _ _ _ _ _ E). cbn iota.
    rewrite (run_step _ _ _ _ _ E1), (run_step _ _ _ _ _ E2). done.
  - intros _ _. split; [done|]. exists l, ids. split; [done|]. split; [done|]. split; [done|]. split; [done|].
    split; [|done]. intros i r' Hi' Hr'. by apply (Hin i r').
Qed.

(** C10: What a succeeded run leaves behind.  A canceled run: nothing changes.
    Otherwise the run is closed as succeeded with its result, and every job that is
    ready because of it gets exactly one queued run (its oldest pending one, or a
    new one), each of which is published once; no other run changes.  A result that the
    table cannot hold raises [DataError], and nothing changes. *)
Theorem on_success_exact (c : Claimed) (res : ExecResult) (r : JobRun) (w : World) :
  clean w → w_faults w = [] → db_wf (w_db w) → runs (w_db w) !! c_run_id c = Some r →
  ∃ o w', run (on_success c res) w = (o, w') ∧ clean w' ∧ w_faults w' = [] ∧
    (status r = CANCELED → o = Ok tt ∧ w' = w) ∧
    (status r ≠ CANCELED → outcome_ok (er_result res) None = false → o = Raise DataError ∧ w' = w) ∧
    (status r ≠ CANCELED → outcome_ok (er_result res) None = true →
       let row := set_status SUCCEEDED (set_outcome (er_exit_code res) (er_result res)
                    (set_finished (w_clock w) None r)) in
       let d := put_run (c_run_id c) row (w_db w) in
       o = Ok tt ∧ ∃ jobs_ready ids, NoDup jobs_ready ∧
         (∀ k, k ∈ jobs_ready ↔
            (∃ i e, deps d !! i = Some e ∧ depends_on_job_id e = c_job_id c ∧ dep_job_id e = k) ∧
            ready d k) ∧
         Forall2 (queued_for (w_db w')) jobs_ready ids ∧
         published (w_redis w) ids (w_redis w') ∧
         (∀ i r', i ∈ ids → runs d !! i = Some r' → status r' = PENDING) ∧
         (∀ i r', i ∉ ids → runs (w_db w') !! i = Some r' ↔ runs d !! i = Some r')).
Proof. by apply on_success_eq. Qed.

(** ** A whole run *)

Lemma new_buf_only w w0 : only_logs w0 w → only_logs w0 (new_buf w).2.
Proof. intros []. by split. Qed.

(** How an executed run [i] is left. *)
Definition run_result (i b : Z) (o : Res unit) (w' : World) (r' : JobRun) : Prop :=
  o = Ok tt ∧ outcome_status (status r') ∧ is_Some (finished_at r') ∨
  o = Raise CancelledError ∧ status r' = RUNNING ∧ buf_of b w' = [] ∨
  o = Raise DataError ∧ status r' = RUNNING.

(** The part of [process_run] after the executor. *)
Lemma conclude_run (c : Claimed) (res : ExecResult) (b : Z) (r1 : JobRun) (w : World) :
  clean w → w_faults w = [] → db_wf (w_db w) → runs (w_db w) !! c_run_id c = Some r1 →
  status r1 = RUNNING → is_Some (jobs (w_db w) !! c_job_id c) → outcome_status (er_status res) →
  ∃ o w' r', run (if succeeded res then on_success c res else on_failure c res) w = (o, w') ∧
    w_faults w' = [] ∧ runs (w_db w') !! c_run_id c = Some r' ∧ run_result (c_run_id c) b o w' r' ∧
    o ≠ Raise CancelledError ∧
    (outcome_ok (er_result res) (er_error res) = true → o ≠ Raise DataError).
Proof.
  intros Hc Hf W Hi Hrun Hj Hres. assert (status r1 ≠ CANCELED) as Hnc by (by rewrite Hrun).
  destruct (succeeded res) eqn:Hsu.
  - destruct (on_success_eq c res r1 w Hc Hf W Hi) as (o & w5 & E5 & Hc5 & Hf5 & _ & Hbad & Hex).
    destruct (outcome_ok (er_result res) None) eqn:Hok.
    + destruct (Hex Hnc eq_refl) as (-> & l & ids & _ & _ & _ & _ & Hpend & Hkeep).
      eexists (Ok tt), w5, _. split; [exact E5|]. split; [done|]. split.
      { apply Hkeep; [|apply lookup_insert_eq].
        intros Hin. by specialize (Hpend _ _ Hin (lookup_insert_eq _ _ _)). }
      split; [|done]. left. split; [done|]. split; [unfold outcome_status; simpl; set_solver|by eexists].
    + destruct (Hbad Hnc eq_refl) as [-> ->]. exists (Raise DataError), w, r1.
      split; [done|]. split; [done|]. split; [done|]. split; [by right; right|]. split; [done|].
      unfold outcome_ok in *. simpl in Hok. intros Ht. apply andb_true_iff in Ht as [Ht _].
      by rewrite Ht in Hok.
  - apply bool_decide_eq_false in Hsu.
    destruct (on_failure_eq c res r1 w Hc Hf W Hi Hj Hres Hsu)
      as (o & w5 & E5 & Hc5 & Hf5 & _ & Ho & Hretry & Hlast). specialize (Ho Hnc).
    assert (∃ e d, runs d !! c_run_id c = Some r1 ∧
      runs (w_db w5) = if outcome_ok (er_result res) (er_error res)
        then <[c_run_id c := finished_row (w_clock w) res e r1]> (runs d) else runs d) as (e & d & Hd & Hd5).
    { destruct (decide (c_attempt c ≤ c_max_retries c)) as [Hle|Hle].
      - destruct (Hretry Hnc Hle) as [-> _].
        exists (Some (retry_error c res (backoff_seconds (c_attempt c) (c_retry_backoff_sec c)) (runs_seq (w_db w)))).
        exists (with_retry (c_job_id c) (c_attempt c + 1) (w_clock w) (w_db w)). split.
        + simpl. rewrite lookup_insert_ne; [done|]. pose proof (proj2 (wf_run_key _ W _ _ Hi)). lia.
        + by destruct (outcome_ok _ _).
      - rewrite Hlast by (done || lia). exists (er_error res), (w_db w). split; [done|].
        by destruct (outcome_ok _ _). }
    destruct (outcome_ok (er_result res) (er_error res)); subst o.
    + eexists (Ok tt), w5, _. split; [exact E5|]. split; [done|].
      split; [by rewrite Hd5, lookup_insert_eq|]. split; [|done]. left. split; [done|]. by split; [|eexists].
    + exists (Raise DataError), w5, r1. split; [exact E5|]. split; [done|].
      split; [by rewrite Hd5|]. split; [by right; right|]. done.
Qed.

Lemma process_run_ends (i : Z) (b : bool) (worker : string) (r : JobRun) (j : Job) (w : World) :
  clean w → w_faults w = [] → db_wf (w_db w) →
  runs (w_db w) !! i = Some r → jobs (w_db w) !! run_job_id r = Some j → status r ∈ claimable_from b →
  ∃ o w' r', run (process_run i b worker) w = (o, w') ∧ w_faults w' = [] ∧ runs (w_db w') !! i = Some r' ∧
    run_result i (w_next_buf w) o w' r' ∧ (plain_task (claimed_of r j) → o ≠ Raise DataError).
Proof.
  intros Hc Hf W Hi Hj Hs.
  set (r1 := set_status RUNNING (set_started (w_clock w) worker r)).
  set (d1 := put_run i r1 (w_db w)).
  assert (claim_run i worker b w = (Ok (Some (claimed_of r j)), committed d1 w)) as E1.
  { apply scope_commits; [done|]. rewrite claim_body, Hi, decide_True, Hj by done. done. }
  assert (db_wf d1) as W1.
  { apply (ev_wf (w_db w)); [|done]. apply (evolves_put_run _ _ r); [done|by eapply claim_evolves]. }
  assert (runs d1 !! i = Some r1) as Hi1 by apply lookup_insert_eq.
  set (w1 := committed d1 w) in *. assert (only_logs w1 w1) as HL1 by by apply only_logs_refl.
  apply new_buf_only in HL1 as HL2. set (buf := w_next_buf w).
  assert (new_buf w1 = (Ok buf, (new_buf w1).2)) as E2 by done.
  assert (buf_of buf (new_buf w1).2 = []) as Hb2
    by (unfold buf_of; simpl; unfold buf; by rewrite lookup_insert_eq).
  assert (is_Some (runs (w_db w1) !! i)) as Hr1 by (by exists r1).
  destruct (execute_task_ok (claimed_of r j) buf i _ w1 Hr1 HL2) as (o & w3 & E3 & HL3 & Ho & Hpl).
  assert (lines_ok (buf_of buf (new_buf w1).2)) as Hlines by (rewrite Hb2; constructor).
  specialize (Hpl Hlines).
  assert (runs (w_db w3) !! i = Some r1) as Hi3 by by rewrite (ol_runs _ _ HL3).
  unfold process_run. rewrite (run_step _ _ _ _ _ E1), (run_step _ _ _ _ _ E2), run_bind.
  assert (∀ o' w', only_logs w1 w' →
    o' = Raise DataError ∨ (o' = Raise CancelledError ∧ buf_of buf w' = []) →
    run_result i buf o' w' r1) as Hrun by (intros o' w' _ [->|[-> ?]]; [by right; right|by right; left]).
  destruct Ho as [(res & -> & Hres)|[[-> Hbuf]| ->]].
  2,3: (eexists _, w3, r1; split; [by rewrite (bind_raise _ _ _ _ _ E3)|]; split; [apply HL3|];
    split; [done|]; split; [apply Hrun; auto|]; intros Ht; by destruct (Hpl Ht)).
  rewrite (bind_ok _ _ _ _ _ E3), run_bind.
  destruct (log_flush_ok buf i w3 w1 Hr1 HL3) as (o4 & w4 & E4 & HL4 & _ & Hl4).
  assert (runs (w_db w4) !! i = Some r1) as Hi4 by by rewrite (ol_runs _ _ HL4).
  destruct Hl4 as [[-> _]|[-> Hbad]]; cycle 1.
  { exists (Raise DataError), w4, r1. split; [by rewrite (bind_raise _ _ _ _ _ E4)|]. split; [apply HL4|].
    split; [done|]. split; [apply Hrun; auto|]. intros Ht. destruct Hbad. apply (Hpl Ht). }
  rewrite (bind_ok _ _ _ _ _ E4). destruct HL4 as [Hc4 Hf4 W4 Er4 Ej4 Ed4 _ _ _].
  pose proof (proj1 (wf_run_key _ W _ _ Hi)) as Hid.
  destruct (conclude_run (claimed_of r j) res buf r1 w4) as (o5 & w5 & r5 & E5 & Hf5 & Hi5 & Hres5 & _ & Hok5);
    simpl; rewrite ?Hid; try done.
  { rewrite Ej4. simpl. rewrite Hj. eauto. }
  simpl in Hi5, Hres5. rewrite Hid in Hi5, Hres5. exists o5, w5, r5. split; [done|]. split; [done|]. split; [done|]. split; [done|].
  intros Ht. apply Hok5. by apply (Hpl Ht).
Qed.

(** C4: A run that is executed is brought to an end.  Alone and without faults,
    [process_run] on a claimable run returns and leaves the run succeeded, failed
    or timed out, with its finishing time; only when its task is canceled it
    raises [CancelledError], with the run still running and its log lines
    flushed.  Whatever the executor does (it may crash with any exception) is
    turned into one of these outcomes.  The exception is output that the tables cannot hold,
    a line or a result with a NUL character: then [DataError] is raised and the run is left
    running; a task without such output never ends like this. *)
Theorem process_run_finishes (i : Z) (b : bool) (worker : string) (r : JobRun) (j : Job) (w : World) :
  clean w → w_faults w = [] → db_wf (w_db w) →
  runs (w_db w) !! i = Some r → jobs (w_db w) !! run_job_id r = Some j → status r ∈ claimable_from b →
  ∃ o w' r', run (process_run i b worker) w = (o, w') ∧ runs (w_db w') !! i = Some r' ∧
    (o = Ok tt ∧ outcome_status (status r') ∧ is_Some (finished_at r') ∨
     o = Raise CancelledError ∧ status r' = RUNNING ∧ buf_of (w_next_buf w) w' = [] ∨
     o = Raise DataError ∧ status r' = RUNNING ∧ ¬ plain_task (claimed_of r j)).
Proof.
  intros Hc Hf W Hi Hj Hs.
  destruct (process_run_ends i b worker r j w Hc Hf W Hi Hj Hs) as (o & w' & r' & E & _ & Hi' & Hr & Hpl).
  exists o, w', r'. split; [done|]. split; [done|].
  destruct Hr as [?|[?|[-> Hst]]]; [by left|by right; left|]. right; right. split; [done|].
  split; [done|]. intros Ht. by apply Hpl.
Qed.

(** ** The log buffer against a direct append *)

Lemma add_logs_app i now es1 es2 d :
  add_logs i now (es1 ++ es2) d = add_logs i now es2 (add_logs i now es1 d).
Proof. revert d. induction es1 as [|e es1 IH]; intros d; [done|]. apply IH. Qed.

(** The world with the tables [d] committed and [l] in the buffer [b]. *)
Definition buffered (d : Db) (b : Z) (l : list entry) (w : World) : World :=
  (set_buf b l (committed d w)).2.

Lemma buffered_buf d b l w : buf_of b (buffered d b l w) = l.
Proof. unfold buf_of, buffered. simpl. by rewrite lookup_insert_eq. Qed.

Lemma set_buf_buffered d b l l' w : (set_buf b l' (buffered d b l w)).2 = buffered d b l' w.
Proof. unfold buffered, set_buf, with_bufs. simpl. by rewrite insert_insert_eq. Qed.

Lemma flush_buffered d b l i w batch :
  w_faults w = [] → is_Some (runs d !! i) → lines_ok batch →
  run (flush_batch i batch) (buffered d b l w) =
    (Ok tt, buffered (add_logs i (w_clock w) batch d) b l w).
Proof.
  intros Hf Hi Hl. unfold flush_batch. destruct batch as [|e batch]; [done|].
  rewrite run_call. by rewrite append_logs_eq.
Qed.

Lemma flush_buffered_refused d b l i w batch :
  is_Some (runs d !! i) → ¬ lines_ok batch →
  (run (flush_batch i batch) (buffered d b l w)).1 = Raise DataError.
Proof.
  intros Hi Hl. unfold flush_batch. destruct batch as [|e batch]; [by destruct Hl; constructor|].
  rewrite run_call. by destruct (append_logs_refused i (e :: batch) (buffered d b l w) eq_refl Hl Hi) as (n & -> & _).
Qed.

(** One write: the line goes into the buffer, or the full buffer into the table. *)
Lemma log_write_buffered b i e d l w :
  w_faults w = [] → is_Some (runs d !! i) →
  (lines_ok (l ++ [e]) → ∃ l' fl, l ++ [e] = fl ++ l' ∧
     run (log_write b i e.1 e.2) (buffered d b l w) =
       (Ok tt, buffered (add_logs i (w_clock w) fl d) b l' w)) ∧
  (¬ lines_ok (l ++ [e]) →
     run (log_write b i e.1 e.2) (buffered d b l w) = (Ok tt, buffered d b (l ++ [e]) w) ∨
     (run (log_write b i e.1 e.2) (buffered d b l w)).1 = Raise DataError).
Proof.
  intros Hf Hi. unfold log_write. pose proof (buf_push_eq b (e.1, e.2) (buffered d b l w)) as Hp.
  cbv zeta in Hp. rewrite buffered_buf, !set_buf_buffered in Hp.
  replace (e.1, e.2) with e in * by (by destruct e).
  case_decide; rewrite (run_step _ _ _ _ _ Hp); split.
  - intros Hl. rewrite flush_buffered by done. eexists [], (l ++ [e]). by rewrite app_nil_r.
  - intros Hl. right. by apply flush_buffered_refused.
  - intros Hl. by eexists (l ++ [e]), [].
  - intros Hl. by left.
Qed.

(** Whatever was flushed on the way, flushed and buffered lines together are the
    lines written, in order. *)
Lemma log_writes_buffered b i es d l w :
  w_faults w = [] → is_Some (runs d !! i) → lines_ok (l ++ es) →
  ∃ flushed rest, l ++ es = flushed ++ rest ∧
    run (pfor_each es (λ e, log_write b i e.1 e.2)) (buffered d b l w) =
      (Ok tt, buffered (add_logs i (w_clock w) flushed d) b rest w).
Proof.
  intros Hf. revert d l. induction es as [|e es IH]; intros d l Hi Hok.
  { exists [], l. by rewrite app_nil_r. }
  cbn [pfor_each]. rewrite cons_middle, (app_assoc l) in Hok. pose proof Hok as Hok'.
  apply Forall_app in Hok' as [Hle Hes].
  destruct (proj1 (log_write_buffered b i e d l w Hf Hi) Hle) as (l' & fl & Hl & E).
  destruct (IH (add_logs i (w_clock w) fl d) l') as (fl' & rest & Heq & E').
  { by destruct (add_logs_keeps i (w_clock w) fl d) as (-> & _). }
  { rewrite Hl, <- app_assoc in Hok. by apply Forall_app in Hok as [_ Hok]. }
  exists (fl ++ fl'), rest. split.
  - rewrite cons_middle, (app_assoc l), Hl, <- !app_assoc. f_equal. exact Heq.
  - rewrite (run_then _ _ _ _ _ E), E'. by rewrite add_logs_app.
Qed.

Lemma run_fails {A B} (p : prog A) (f : A → prog B) w e :
  (run p w).1 = Raise e → (run (p ≫= f) w).1 = Raise e.
Proof. intros E. rewrite run_bind. unfold mbind, M_bind. destruct (run p w) as [[]]; naive_solver. Qed.

Lemma log_flush_buffered b i d l w :
  run (log_flush b i) (buffered d b l w) = run (flush_batch i l) (buffered d b [] w).
Proof.
  unfold log_flush. rewrite (run_step (buf_take b) _ _ (buf_of b (buffered d b l w)) (set_buf b [] (buffered d b l w)).2) by done.
  by rewrite buffered_buf, set_buf_buffered.
Qed.

(** A line that cannot be stored is noticed when its batch is sent. *)
Lemma log_writes_refused b i es d l w :
  w_faults w = [] → is_Some (runs d !! i) → ¬ lines_ok (l ++ es) →
  (run (pfor_each es (λ e, log_write b i e.1 e.2);; log_flush b i) (buffered d b l w)).1 = Raise DataError.
Proof.
  intros Hf. revert d l. induction es as [|e es IH]; intros d l Hi Hbad.
  { rewrite app_nil_r in Hbad. cbn [pfor_each]. rewrite run_bind. erewrite bind_ok by done.
    rewrite log_flush_buffered. by apply flush_buffered_refused. }
  rewrite cons_middle, (app_assoc l) in Hbad. cbn [pfor_each].
  destruct (log_write_buffered b i e d l w Hf Hi) as [Hgood Hfail].
  rewrite run_bind. destruct (decide (lines_ok (l ++ [e]))) as [Hle|Hle].
  - destruct (Hgood Hle) as (l' & fl & Hl & E).
    rewrite <- run_bind. rewrite (run_bind _ _ (buffered d b l w)).
    unfold mbind at 1, M_bind at 1. rewrite (run_then _ _ _ _ _ E).
    specialize (IH (add_logs i (w_clock w) fl d) l'). rewrite run_bind in IH. apply IH.
    + by destruct (add_logs_keeps i (w_clock w) fl d) as (-> & _).
    + intros Hok. apply Hbad, Forall_app. split; [done|]. by apply Forall_app in Hok as [_ ?].
  - destruct (Hfail Hle) as [E|E].
    + unfold mbind at 1, M_bind at 1. rewrite (run_then _ _ _ _ _ E).
      specialize (IH d (l ++ [e]) Hi Hbad). by rewrite run_bind in IH.
    + rewrite <- run_bind. apply run_fails, run_fails, E.
Qed.

(** C14: No log line is lost or reordered by the buffer.  Writing lines one by one
    through a [LogBuffer], which sends them to the database in batches of 25, and
    flushing it at the end leaves exactly the table that appending all of them at
    once would leave; so the API shows the lines of the run in the order they were
    written, after the ones it showed before.  When one of the lines cannot be stored,
    because it has a NUL character, both fail with [DataError]. *)
Theorem log_buffer_complete (b i : Z) (es : list entry) (w : World) :
  clean w → w_faults w = [] → db_wf (w_db w) → is_Some (runs (w_db w) !! i) →
  (∀ l, l ∈ run_logs i (w_db w) → ts l ≤ w_clock w) → w_bufs w !! b = Some [] →
  let buffered_writes := pfor_each es (λ e, log_write b i e.1 e.2);; log_flush b i in
  (lines_ok es →
     ∃ w', run buffered_writes w = (Ok tt, w') ∧ (append_logs i es w).2 = w' ∧
       run_lines i (w_db w') = run_lines i (w_db w) ++ es) ∧
  (¬ lines_ok es →
     (run buffered_writes w).1 = Raise DataError ∧ (append_logs i es w).1 = Raise DataError).
Proof.
  intros Hc Hf W Hi Hts Hb. cbv zeta.
  assert (buffered (w_db w) b [] w = w) as Hw.
  { unfold buffered. rewrite committed_id by done. unfold set_buf, with_bufs. simpl.
    rewrite insert_id by done. by destruct w. }
  split; intros Hok; cycle 1.
  { split; [rewrite <- Hw; by apply log_writes_refused|].
    by destruct (append_logs_refused i es w Hc Hok Hi) as (n & -> & _). }
  destruct (log_writes_buffered b i es (w_db w) [] w Hf Hi Hok) as (fl & rest & Heq & E).
  rewrite Hw in E. simpl in Heq. subst es. apply Forall_app in Hok as Hfr.
  exists (buffered (add_logs i (w_clock w) (fl ++ rest) (w_db w)) b [] w). split; [|split].
  - rewrite (run_then _ _ _ _ _ E), log_flush_buffered, flush_buffered, <- add_logs_app; [done..| |apply Hfr].
    by destruct (add_logs_keeps i (w_clock w) fl (w_db w)) as (-> & _).
  - rewrite append_logs_eq by done. simpl. unfold buffered, committed, set_buf, with_bufs. simpl.
    by rewrite insert_id.
  - simpl. by apply run_lines_add_logs.
Qed.

End runner.

(** ** Evaluation *)

Definition plain_exc_text : ExcText := {| exc_str _ := "error"%string |}.

#[local] Existing Instances echo_executors plain_exc_text.

(** Job 2 waits for job 1, whose run 1 is being executed. *)
Definition setup_running : M unit :=
  insert_user (demo_user "ann");;
  insert_job (demo_job "extract" "manual" None);;
  insert_job (demo_job "load" "manual" None);;
  insert_dep 2 1;;
  insert_run 1 MANUAL RUNNING 1 None;;
  mret tt.

Lemma wf_running : db_wf (demo_db setup_running).
Proof. apply db_wf_demo. unfold setup_running. demo_steps. Qed.

Definition world_running : World := demo_world empty_view (demo_db setup_running) 7.
Lemma clean_running : clean world_running.
Proof. apply clean_demo. Qed.
Lemma quiet_running : w_faults world_running = [].
Proof. apply quiet_demo. Qed.

Definition demo_claimed : Claimed :=
  {| c_run_id := 1; c_job_id := 1; c_attempt := 1; c_task_type := TaskType.SHELL;
     c_task_spec := []; c_timeout_sec := 300; c_max_retries := 2; c_retry_backoff_sec := 30;
     c_job_name := "extract" |}.

Lemma running_run : ∃ r, runs (w_db world_running) !! 1 = Some r ∧ status r ≠ CANCELED.
Proof. eexists. split; [vm_compute; reflexivity|done]. Qed.

Lemma running_job : is_Some (jobs (w_db world_running) !! 1).
Proof. vm_compute. eauto. Qed.

Lemma demo_outcome : outcome_status FAILED.
Proof. unfold outcome_status. set_solver. Qed.

Lemma on_failure_exact_witness :
  ∃ w', run (on_failure demo_claimed (exec_failed "boom" None None)) world_running = (Ok tt, w') ∧
    rv_delayed (w_redis w' : RedisView) !! "2"%string = Some (7 + 30 * usec).
Proof.
  destruct running_run as (r & Hr & Hs).
  destruct (on_failure_exact demo_claimed (exec_failed "boom" None None) r world_running
    clean_running quiet_running wf_running Hr running_job demo_outcome ltac:(done))
    as (o & w' & E & _ & _ & _ & Ho & Hretry & _). rewrite (Ho Hs) in E.
  exists w'. split; [exact E|]. destruct (Hretry Hs) as [-> _]; [done|]. vm_compute. reflexivity.
Defined.

Lemma on_success_exact_witness :
  ∃ w' l ids, run (on_success demo_claimed (exec_ok (Some 0) None)) world_running = (Ok tt, w') ∧
    Forall2 (queued_for (w_db w')) l ids ∧ published (w_redis world_running) ids (w_redis w').
Proof.
  destruct running_run as (r & Hr & Hs).
  destruct (on_success_exact demo_claimed (exec_ok (Some 0) None) r world_running
    clean_running quiet_running wf_running Hr) as (o & w' & E & _ & _ & _ & _ & Hex).
  destruct (Hex Hs eq_refl) as (-> & l & ids & _ & _ & Hq & Hp & _). exists w', l, ids. split; [exact E|]. split; [exact Hq|exact Hp].
Defined.

Lemma store_run_claimable :
  ∃ r j, runs (w_db world_store) !! 2 = Some r ∧ jobs (w_db world_store) !! run_job_id r = Some j ∧
    status r ∈ claimable_from false.
Proof. destruct store_run_2 as (r & j & ? & ? & ? & _). eauto. Qed.

(** The executor of the evaluations logs one line, without NUL. *)
Lemma echo_plain c : plain_task c.
Proof.
  split; [done|]. intros x Hx. assert (x = echo) as ->.
  { apply get_executor_elem in Hx. simpl in Hx. set_solver. }
  split; [|intros log; by apply returns_bind]. intros P log Hlog _.
  apply prog_all_bind; [by apply Hlog|done].
Qed.

Lemma process_run_finishes_witness :
  ∃ o w' r', run (process_run 2 false "w1") world_store = (o, w') ∧
    runs (w_db w') !! 2 = Some r' ∧ o ≠ Raise DataError ∧ status r' = SUCCEEDED.
Proof.
  destruct store_run_claimable as (r & j & Hr & Hj & Hs).
  destruct (process_run_finishes 2 false "w1" r j world_store clean_store quiet_store wf_store Hr Hj Hs)
    as (o & w' & r' & E & Hr' & Hend).
  exists o, w', r'. split; [exact E|]. split; [exact Hr'|]. split.
  - destruct Hend as [[-> _]|[[-> _]|(_ & _ & Hn)]]; [discriminate..|]. destruct Hn. apply echo_plain.
  - cut (status <$> runs (w_db (run (process_run 2 false "w1") world_store).2) !! 2 = Some SUCCEEDED).
    + rewrite E. simpl. rewrite Hr'. by intros [= ->].
    + vm_compute. reflexivity.
Defined.

(** Thirty lines: more than one batch. *)
Definition world_buffered : World := with_bufs {[ 0 := [] ]} 1 world_running.
Definition thirty_lines : list entry := replicate 30 (STDOUT, "x"%string).

Lemma running_no_logs l : l ∈ run_logs 1 (w_db world_buffered) → ts l ≤ w_clock world_buffered.
Proof.
  intros (k & Hk & _)%elem_of_run_logs.
  assert (logs (w_db world_buffered) = ∅) as E by (vm_compute; reflexivity).
  by rewrite E, lookup_empty in Hk.
Qed.

Lemma thirty_lines_ok : lines_ok thirty_lines.
Proof. by apply Forall_replicate. Qed.
Lemma nul_line_bad : ¬ lines_ok [(STDOUT, String Ascii.zero "")].
Proof. intros Hok. by inversion Hok. Qed.

Lemma log_buffer_complete_witness :
  (∃ w', run (pfor_each thirty_lines (λ e, log_write 0 1 e.1 e.2);; log_flush 0 1) world_buffered
      = (Ok tt, w') ∧ run_lines 1 (w_db w') = thirty_lines) ∧
  (append_logs 1 [(STDOUT, String Ascii.zero "")] world_buffered).1 = Raise DataError.
Proof.
  assert (is_Some (runs (w_db world_buffered) !! 1)) as Hr by (vm_compute; eauto).
  assert (w_bufs world_buffered !! 0 = Some []) as Hb by (vm_compute; reflexivity).
  split.
  - destruct (proj1 (log_buffer_complete 0 1 thirty_lines world_buffered clean_running quiet_running
      wf_running Hr running_no_logs Hb) thirty_lines_ok) as (w' & E & _ & Hl).
    exists w'. split; [exact E|]. etransitivity; [exact Hl|]. vm_compute. reflexivity.
  - exact (proj2 (proj2 (log_buffer_complete 0 1 [(STDOUT, String Ascii.zero "")] world_buffered
      clean_running quiet_running wf_running Hr running_no_logs Hb) nul_line_bad)).
Defined.
