(* ===== verification/Logging.v ===== *)
(** * Logging: common/logging.py

    Every module takes its logger when it is imported, and whoever comes first
    configures the root logger.  The state is what the standard library's root logger
    and the flag of the module hold. *)

From S2P Require Import Prelude PyBase PyText Models RedisServer Effects.
From Stdlib Require Import String.

Local Open Scope string_scope.
Local Open Scope Z_scope.
Local Open Scope list_scope.

(** [logging.StreamHandler] with its [logging.Formatter] *)
Record LogHandler := {
  lh_stream : string;
  lh_format : string;
  lh_datefmt : string
}.

(** [_CONFIGURED], and of the root logger its handlers and its level. *)
Record LogState := {
  CONFIGURED : bool;
  root_handlers : list LogHandler;
  root_level : Z
}.

(** The names of levels of the standard library. *)
Definition level_number (name : string) : option Z :=
  snd <$> List.find (λ e, String.eqb e.1 name)
    [("CRITICAL", 50); ("FATAL", 50); ("ERROR", 40); ("WARN", 30); ("WARNING", 30); ("INFO", 20);
     ("DEBUG", 10); ("NOTSET", 0)].

Definition stdout_handler : LogHandler :=
  {| lh_stream := "stdout"; lh_format := "%(asctime)s %(levelname)s %(name)s %(message)s";
     lh_datefmt := "%Y-%m-%dT%H:%M:%S%z" |}.

(** [configure_logging] with [settings.log_level]; [setLevel] raises when it does not
    know the level. *)
Definition configure_logging (log_level : string) (s : LogState) : Res unit * LogState :=
  if CONFIGURED s then (Ok tt, s)
  else
    match level_number (py_upper log_level) with
    | Some n => (Ok tt, {| CONFIGURED := true; root_handlers := [stdout_handler]; root_level := n |})
    | None =>
        (Raise (ValueError ("Unknown level: " ++ repr_str (py_upper log_level))),
         {| CONFIGURED := false; root_handlers := [stdout_handler]; root_level := root_level s |})
    end.

(** [get_logger]; a logger is known by its name. *)
Definition get_logger (log_level name : string) (s : LogState) : Res string * LogState :=
  match configure_logging log_level s with
  | (Ok _, s') => (Ok name, s')
  | (Raise e, s') => (Raise e, s')
  end.

(** The modules of a process, imported in their order: [logger = get_logger(__name__)];
    an error ends the process. *)
Fixpoint import_modules (log_level : string) (names : list string) (s : LogState) :
    Res (list string) * LogState :=
  match names with
  | [] => (Ok [], s)
  | n :: names =>
      match get_logger log_level n s with
      | (Raise e, s') => (Raise e, s')
      | (Ok l, s') =>
          match import_modules log_level names s' with
          | (Ok ls, s'') => (Ok (l :: ls), s'')
          | (Raise e, s'') => (Raise e, s'')
          end
      end
  end.

(** Once configured, whatever handlers were added since are left alone. *)
Lemma import_configured log_level names s :
  CONFIGURED s = true → import_modules log_level names s = (Ok names, s).
Proof.
  intros Hs. induction names as [|n names IH]; [done|]. simpl. unfold get_logger, configure_logging.
  by rewrite Hs, IH.
Qed.

(** However many modules a process imports, each line is printed once: there is one
    handler, whatever handlers the root logger had before; and an unknown level keeps
    the process from starting. *)
Lemma logging_configured_once log_level name names s :
  CONFIGURED s = false →
  match level_number (py_upper log_level) with
  | Some n =>
      import_modules log_level (name :: names) s =
        (Ok (name :: names), {| CONFIGURED := true; root_handlers := [stdout_handler]; root_level := n |})
  | None => ∃ msg s', import_modules log_level (name :: names) s = (Raise (ValueError msg), s') ∧
                      CONFIGURED s' = false ∧ root_handlers s' = [stdout_handler]
  end.
Proof.
  intros Hs. assert (get_logger log_level name s =
    match configure_logging log_level s with (Ok _, s') => (Ok name, s') | (Raise e, s') => (Raise e, s') end)
    as Hg by done.
  simpl. rewrite Hg. unfold configure_logging. rewrite Hs.
  destruct (level_number _) as [n|]; simpl; [by rewrite import_configured|]. eexists _, _. by split.
Qed.

Example log_levels :
  (level_number (py_upper "info"), level_number (py_upper "Warning"), level_number (py_upper "verbose"))
  = (Some 20, Some 30, None).
Proof. reflexivity. Qed.
