(* ===== verification/Monitoring.v ===== *)
(** * Metrics and health: common/metrics.py, api/main.py, api/routers/health.py

    The Prometheus registry as a second state beside the world of an action.  The
    wrappers that count and time calls are transparent: they return and change what
    the wrapped call returns and changes, which is why the other files leave them
    out; and every series they touch has the labels its collector declares.  The probes
    of the API report what they find. *)

From S2P Require Import Prelude PyBase PyCodec Models RedisServer Effects Database Store Executor.
From S2P Require Import Demo Runner.

Local Open Scope string_scope.
Local Open Scope Z_scope.
Local Open Scope list_scope.

(** ** The registry *)

(** A collector with its label values. *)
Notation series := (string * list string)%type.

Record Registry := {
  counters : gmap series Z;
  gauges : gmap string Z;
  observations : gmap series (list Z)     (* the latest first *)
}.

Definition counter (s : series) (r : Registry) : Z := default 0 (counters r !! s).
Definition gauge (g : string) (r : Registry) : Z := default 0 (gauges r !! g).
Definition observed (s : series) (r : Registry) : list Z := default [] (observations r !! s).

(** [C.labels(..).inc()], [G.set(v)], [G.inc()] and [G.dec()], [H.labels(..).observe(v)] *)
Definition counter_inc (s : series) (r : Registry) : Registry :=
  {| counters := <[s := counter s r + 1]> (counters r); gauges := gauges r;
     observations := observations r |}.
Definition gauge_set (g : string) (v : Z) (r : Registry) : Registry :=
  {| counters := counters r; gauges := <[g := v]> (gauges r); observations := observations r |}.
Definition gauge_add (g : string) (n : Z) (r : Registry) : Registry := gauge_set g (gauge g r + n) r.
Definition observe (s : series) (v : Z) (r : Registry) : Registry :=
  {| counters := counters r; gauges := gauges r;
     observations := <[s := v :: observed s r]> (observations r) |}.

Definition HTTP_REQUESTS : string := "api_http_requests_total".
Definition HTTP_REQUEST_DURATION : string := "api_http_request_duration_seconds".
Definition HTTP_INFLIGHT : string := "api_http_inflight_requests".
Definition REDIS_COMMANDS : string := "redis_commands_total".
Definition REDIS_COMMAND_DURATION : string := "redis_command_duration_seconds".
Definition DB_QUERIES : string := "db_queries_total".
Definition DB_QUERY_DURATION : string := "db_query_duration_seconds".
Definition DB_POOL_CHECKED_OUT : string := "db_pool_checked_out_connections".
Definition DB_POOL_SIZE : string := "db_pool_size_connections".
Definition DB_POOL_OVERFLOW : string := "db_pool_overflow_connections".

(** Those whose updates the other files leave out. *)
Definition JOBS_ENQUEUED : string := "scheduler_jobs_enqueued_total".
Definition RUNS_PROCESSED : string := "worker_runs_processed_total".
Definition RUNS_RECLAIMED : string := "worker_runs_reclaimed_total".
Definition RUN_DURATION : string := "worker_run_duration_seconds".
Definition INFLIGHT : string := "worker_inflight_runs".
Definition QUEUE_DEPTH : string := "scheduler_stream_pending".
Definition SCHEDULER_IS_LEADER : string := "scheduler_is_leader".
Definition REDIS_STREAM_LENGTH : string := "redis_stream_length".
Definition REDIS_DELAYED_RUNS : string := "redis_delayed_runs".

(** The collectors as metrics.py declares them, with the names of their labels; the
    bounds of a histogram's buckets are in microseconds. *)
Inductive Collector :=
  | Counter (name : string) (labelnames : list string)
  | Gauge (name : string)
  | Histogram (name : string) (labelnames : list string) (buckets : list Z).

Definition ms_buckets : list Z :=
  [1000; 2500; 5000; 10000; 25000; 50000; 100000; 250000; 500000; 1000000; 2500000; 5000000].

Definition scheduler_collectors : list Collector :=
  [Counter JOBS_ENQUEUED ["trigger_type"];
   Counter RUNS_PROCESSED ["status"; "task_type"];
   Counter RUNS_RECLAIMED [];
   Histogram RUN_DURATION ["task_type"]
     ((λ s, s * 100000) <$> [1; 5; 10; 20; 50; 100; 300; 600; 3000; 18000; 36000]);
   Gauge INFLIGHT; Gauge QUEUE_DEPTH; Gauge SCHEDULER_IS_LEADER].
Definition http_collectors : list Collector :=
  [Counter HTTP_REQUESTS ["method"; "path"; "status_code"];
   Histogram HTTP_REQUEST_DURATION ["method"; "path"]
     [5000; 10000; 25000; 50000; 100000; 250000; 500000; 1000000; 2500000; 5000000; 10000000];
   Gauge HTTP_INFLIGHT].
Definition db_collectors : list Collector :=
  [Counter DB_QUERIES ["operation"; "status"];
   Histogram DB_QUERY_DURATION ["operation"] ms_buckets;
   Gauge DB_POOL_CHECKED_OUT; Gauge DB_POOL_SIZE; Gauge DB_POOL_OVERFLOW].
Definition redis_collectors : list Collector :=
  [Counter REDIS_COMMANDS ["operation"; "status"];
   Histogram REDIS_COMMAND_DURATION ["operation"] ms_buckets;
   Gauge REDIS_STREAM_LENGTH; Gauge REDIS_DELAYED_RUNS].
Definition collectors : list Collector :=
  scheduler_collectors ++ http_collectors ++ db_collectors ++ redis_collectors.

(** ** Statements and the pool *)

(** The first word of a text without leading white space. *)
Fixpoint first_word (s : string) : string :=
  match s with
  | EmptyString => ""
  | String c s => if is_space c then "" else String c (first_word s)
  end.

(** [sql_operation] *)
Definition sql_operation (statement : option string) : string :=
  match statement with
  | None | Some "" => "unknown"
  | Some s => match first_word (lstrip s) with "" => "unknown" | first => py_lower first end
  end.

(** [set_db_pool_gauges]; [None] is a counter the pool does not have. *)
Definition set_db_pool_gauges (pool : string → option Z) (r : Registry) : Registry :=
  foldl (λ r '(metric, attr), match pool attr with Some v => gauge_set metric v r | None => r end) r
    [(DB_POOL_CHECKED_OUT, "checkedout"); (DB_POOL_SIZE, "size"); (DB_POOL_OVERFLOW, "overflow")].

(** [_before_cursor_execute] and [_after_cursor_execute], around a statement that
    ran from [start] to [now], and [_handle_db_error]. *)
Definition after_cursor_execute (pool : string → option Z) (statement : option string)
    (start now : Z) (r : Registry) : Registry :=
  let operation := sql_operation statement in
  set_db_pool_gauges pool
    (counter_inc (DB_QUERIES, [operation; "success"])
      (observe (DB_QUERY_DURATION, [operation]) (now - start) r)).
Definition handle_db_error (pool : string → option Z) (statement : option string) (r : Registry) : Registry :=
  set_db_pool_gauges pool (counter_inc (DB_QUERIES, [sql_operation statement; "error"]) r).

(** Only subclasses of [Exception] are errors; [CancelledError] is not one. *)
Definition is_exception (e : exn) : bool := bool_decide (e ≠ CancelledError).

(** ** Measured actions *)

Section monitoring.
Context `{RedisServer}.

(** An action on the world and the registry, and what it does to the world. *)
Definition MM (A : Type) : Type := World * Registry → Res A * (World * Registry).
Definition plain {A} (m : M A) : MM A := λ s, let '(o, w) := m s.1 in (o, (w, s.2)).
Definition erase {A} (m : MM A) (w : World) (r : Registry) : Res A * World :=
  let '(o, s) := m (w, r) in (o, s.1).

(** [observe_redis_command(operation)] around [m]. *)
Definition observe_redis_command {A} (operation : string) (m : MM A) : MM A := λ s,
  let start := w_clock s.1 in
  let '(o, (w, r)) := m s in
  let status := match o with Ok _ => "success" | Raise e => if is_exception e then "error" else "success" end in
  (o, (w, counter_inc (REDIS_COMMANDS, [operation; status])
            (observe (REDIS_COMMAND_DURATION, [operation]) (w_clock w - start) r))).

(** [_observe_async] of redis_queue.py and [_observe_redis] of worker/main.py: the same
    around an awaitable.  A cancellation is no [Exception], so it counts as a success. *)
Definition observe_async {A} (operation : string) (awaitable : MM A) : MM A := λ s,
  let start := w_clock s.1 in
  let '(o, (w, r)) := awaitable s in
  let status := match o with Ok _ => "success" | Raise e => if is_exception e then "error" else "success" end in
  (o, (w, counter_inc (REDIS_COMMANDS, [operation; status])
            (observe (REDIS_COMMAND_DURATION, [operation]) (w_clock w - start) r))).
Definition observe_redis {A} (operation : string) (awaitable : MM A) : MM A :=
  observe_async operation awaitable.

(** [_route_path]: the template of the route that matched. *)
Definition route_path (route : option string) : string :=
  match route with None | Some "" => "__unmatched__" | Some p => p end.

(** [metrics_middleware] around [call_next], which answers with a status and a body. *)
Definition metrics_middleware {B} (method : string) (route : option string) (call_next : MM (Z * B)) :
    MM (Z * B) := λ s,
  let start := w_clock s.1 in
  let '(o, (w, r)) := call_next (s.1, gauge_add HTTP_INFLIGHT 1 s.2) in
  let status_code := match o with Ok (code, _) => code | Raise _ => 500 end in
  let path := route_path route in
  (o, (w, gauge_add HTTP_INFLIGHT (-1)
            (counter_inc (HTTP_REQUESTS, [method; path; py_str status_code])
              (observe (HTTP_REQUEST_DURATION, [method; path]) (w_clock w - start) r)))).

(** [unhandled_exception_handler], outside the middleware: the answer to an
    exception no other handler takes; [render] makes a body of JSON. *)
Definition unhandled_exception_handler {B} (render : json → B) (m : MM (Z * B)) : MM (Z * B) := λ s,
  match m s with
  | (Ok a, s') => (Ok a, s')
  | (Raise e, s') =>
      if is_exception e then (Ok (500, render (JObj [("detail", JStr "internal server error")])), s')
      else (Raise e, s')
  end.

(** A request to the application, from its router outwards. *)
Definition app {B} (render : json → B) (method : string) (route : option string)
    (call_next : MM (Z * B)) : MM (Z * B) :=
  unhandled_exception_handler render (metrics_middleware method route call_next).

Lemma erase_plain {A} (m : M A) w r : erase (plain m) w r = m w.
Proof. unfold erase, plain. simpl. by destruct (m w). Qed.

(** Measuring a command changes neither its outcome nor its effect. *)
Lemma observe_redis_transparent {A} operation (m : MM A) w r :
  erase (observe_redis_command operation m) w r = erase m w r.
Proof. unfold erase, observe_redis_command. by destruct (m (w, r)) as [o [w' r']]. Qed.

(** The three wrappers are one. *)
Lemma observe_async_eq {A} operation (m : MM A) s :
  observe_async operation m s = observe_redis_command operation m s ∧
  observe_redis operation m s = observe_redis_command operation m s.
Proof. done. Qed.

(** A measured command is counted once, under how it ended. *)
Lemma observe_redis_counts {A} operation (m : M A) w r :
  let '(o, (w', r')) := observe_redis_command operation (plain m) (w, r) in
  let status := match o with Ok _ => "success" | Raise e => if is_exception e then "error" else "success" end in
  (∀ c, counter c r' = counter c r + (if decide (c = (REDIS_COMMANDS, [operation; status])) then 1 else 0)) ∧
  observed (REDIS_COMMAND_DURATION, [operation]) r' =
    (w_clock w' - w_clock w) :: observed (REDIS_COMMAND_DURATION, [operation]) r ∧
  gauges r' = gauges r.
Proof.
  unfold observe_redis_command, plain. simpl. destruct (m w) as [o w'].
  split; [|split; [|done]].
  - intros c. unfold counter at 1. simpl. case_decide as Hc.
    + subst c. by rewrite lookup_insert_eq.
    + rewrite lookup_insert_ne by done. unfold counter. simpl. lia.
  - unfold observed at 1. simpl. by rewrite lookup_insert_eq.
Qed.

Lemma metrics_middleware_transparent {B} method route (m : M (Z * B)) w r :
  erase (metrics_middleware method route (plain m)) w r = m w.
Proof. unfold erase, metrics_middleware, plain. simpl. by destruct (m w). Qed.

(** Answers and effects are those of the endpoint; only an exception that nobody
    else handles becomes a 500; and the number of requests in progress returns to
    what it was, whatever happens. *)
Lemma app_exact {B} (render : json → B) method route (m : M (Z * B)) w r :
  let '(o, (w', r')) := app render method route (plain m) (w, r) in
  w' = (m w).2 ∧
  o = match (m w).1 with
      | Ok a => Ok a
      | Raise e => if is_exception e then Ok (500, render (JObj [("detail", JStr "internal server error")])) else Raise e
      end ∧
  gauge HTTP_INFLIGHT r' = gauge HTTP_INFLIGHT r ∧
  let code := match (m w).1 with Ok (code, _) => code | Raise _ => 500 end in
  ∀ c, counter c r' = counter c r + (if decide (c = (HTTP_REQUESTS, [method; route_path route; py_str code])) then 1 else 0).
Proof.
  unfold app, unhandled_exception_handler, metrics_middleware, plain. simpl.
  assert (∀ s (v : Z) code,
    let r' := gauge_add HTTP_INFLIGHT (-1) (counter_inc (HTTP_REQUESTS, [method; route_path route; py_str code])
                (observe s v (gauge_add HTTP_INFLIGHT 1 r))) in
    gauge HTTP_INFLIGHT r' = gauge HTTP_INFLIGHT r ∧
    ∀ c, counter c r' = counter c r + (if decide (c = (HTTP_REQUESTS, [method; route_path route; py_str code])) then 1 else 0))
    as Hr.
  { intros s v code. simpl. split.
    - unfold gauge_add, gauge, gauge_set. simpl. rewrite !lookup_insert_eq. simpl. lia.
    - intros c. unfold counter at 1. simpl. case_decide as Hc.
      + subst c. by rewrite lookup_insert_eq.
      + rewrite lookup_insert_ne by done. unfold counter. simpl. lia. }
  destruct (m w) as [[[code b]|e] w']; simpl; [by split_and!; [| |apply Hr|apply Hr]|].
  destruct (is_exception e); split_and!; try done; apply Hr.
Qed.

(** ** Probes *)

(** Whether the database and Redis answer: [SELECT 1], [PING], and the closing of
    the client. *)
Class Probes := {
  select_1 : M unit;
  redis_ping : M unit;
  redis_close : M unit
}.

Context `{!Probes, ExcText}.

(** [healthz] *)
Definition healthz : json := JObj [("status", JStr "ok")].

(** [try: probe; "ok" except Exception as exc: f"error: {exc}"] *)
Definition check (probe : M unit) : M (bool * string) := λ w,
  match probe w with
  | (Ok _, w') => (Ok (true, "ok"), w')
  | (Raise e, w') =>
      if is_exception e then (Ok (false, ("error: " ++ exc_str e)%string), w') else (Raise e, w')
  end.

(** [try: m finally: client.close()] *)
Definition and_close {A} (m : M A) : M A := λ w,
  let '(o, w') := m w in (redis_close;; lift o) w'.

(** [readyz]: the status of the answer and its body. *)
Definition readyz : M (Z * json) :=
  '(db_ok, db) ← check select_1;
  '(redis_ok, redis) ← and_close (check redis_ping);
  let ok := (db_ok && redis_ok)%bool in
  mret (if ok then 200 else 503,
        JObj [("status", JStr (if ok then "ok" else "degraded"));
              ("checks", JObj [("database", JStr db); ("redis", JStr redis)])]).

(** Ready means that both answered; a failing database does not hide the state of
    Redis. *)
Lemma readyz_exact w o1 w1 o2 w2 w3 :
  select_1 w = (o1, w1) → redis_ping w1 = (o2, w2) → redis_close w2 = (Ok tt, w3) →
  o1 ≠ Raise CancelledError → o2 ≠ Raise CancelledError →
  let text (o : Res unit) := match o with Ok _ => "ok" | Raise e => ("error: " ++ exc_str e)%string end in
  let ready := match o1, o2 with Ok _, Ok _ => true | _, _ => false end in
  readyz w = (Ok (if ready then 200 else 503,
                  JObj [("status", JStr (if ready then "ok" else "degraded"));
                        ("checks", JObj [("database", JStr (text o1)); ("redis", JStr (text o2))])]), w3).
Proof.
  intros E1 E2 E3 Hc1 Hc2.
  assert (∀ p w o w', p w = (o, w') → o ≠ Raise CancelledError →
    check p w = (Ok (match o with Ok _ => (true, "ok") | Raise e => (false, ("error: " ++ exc_str e)%string) end), w'))
    as Hcheck.
  { intros p w0 o w' E Ho. unfold check. rewrite E. destruct o as [[]|e]; [done|].
    unfold is_exception. rewrite bool_decide_true by congruence. done. }
  unfold readyz. rewrite (bind_ok _ _ _ _ _ (Hcheck _ _ _ _ E1 Hc1)).
  destruct o1 as [[]|e1], o2 as [[]|e2]; unfold and_close, mbind, M_bind;
    rewrite (Hcheck _ _ _ _ E2 Hc2), E3; done.
Qed.

End monitoring.

(** ** Declared series *)

Definition collector_name (c : Collector) : string :=
  match c with Counter n _ => n | Gauge n => n | Histogram n _ _ => n end.

(** No name is declared twice, and the buckets of every histogram are in order. *)
Lemma collectors_well_formed :
  NoDup (collector_name <$> collectors) ∧
  ∀ n ls bs, Histogram n ls bs ∈ collectors → StronglySorted Z.lt bs.
Proof.
  split; [apply (bool_decide_unpack _); by vm_compute|].
  assert (Forall (λ c, match c with Histogram _ _ bs => StronglySorted Z.lt bs | _ => True end) collectors) as Hall.
  { unfold collectors. cbn. repeat (apply Forall_cons; split; [first [exact I|by repeat constructor]|]).
    by apply Forall_nil. }
  intros n ls bs Hin. exact (proj1 (Forall_forall _ _) Hall _ Hin).
Qed.

(** Every series of the registry belongs to a declared collector of its kind and has a
    value for each of its labels. *)
Record labelled (r : Registry) : Prop := {
  labelled_counters : ∀ n vs x, counters r !! (n, vs) = Some x →
    ∃ ls, Counter n ls ∈ collectors ∧ length vs = length ls;
  labelled_gauges : ∀ n x, gauges r !! n = Some x → Gauge n ∈ collectors;
  labelled_observations : ∀ n vs x, observations r !! (n, vs) = Some x →
    ∃ ls bs, Histogram n ls bs ∈ collectors ∧ length vs = length ls
}.

Lemma labelled_inc n vs ls r :
  Counter n ls ∈ collectors → length vs = length ls → labelled r → labelled (counter_inc (n, vs) r).
Proof.
  intros Hn Hl [Hc Hg Ho]. split; [|exact Hg|exact Ho]. intros n' vs' x. simpl.
  intros [[[= <- <-] _]|[_ Hx]]%lookup_insert_Some; [by exists ls|by eapply Hc].
Qed.

Lemma labelled_set n v r : Gauge n ∈ collectors → labelled r → labelled (gauge_set n v r).
Proof.
  intros Hn [Hc Hg Ho]. split; [exact Hc| |exact Ho]. intros n' x. simpl.
  intros [[<- _]|[_ Hx]]%lookup_insert_Some; [done|by eapply Hg].
Qed.

Lemma labelled_observe n vs ls bs v r :
  Histogram n ls bs ∈ collectors → length vs = length ls → labelled r → labelled (observe (n, vs) v r).
Proof.
  intros Hn Hl [Hc Hg Ho]. split; [exact Hc|exact Hg|]. intros n' vs' x. simpl.
  intros [[[= <- <-] _]|[_ Hx]]%lookup_insert_Some; [by exists ls, bs|by eapply Ho].
Qed.

(** Finds the declaration. *)
Ltac declared := unfold collectors, scheduler_collectors, http_collectors, db_collectors, redis_collectors;
  rewrite !elem_of_app, !elem_of_cons; tauto.

(** Whatever the program measures, with whatever arguments, it gives each series the
    labels it was declared with ([labels] and [inc] raise otherwise). *)
Lemma set_db_pool_gauges_labelled pool r : labelled r → labelled (set_db_pool_gauges pool r).
Proof. intros Hr. unfold set_db_pool_gauges. simpl. repeat case_match; repeat (apply labelled_set; [declared|]); done. Qed.

Lemma listeners_labelled pool statement start now r :
  labelled r →
  labelled (after_cursor_execute pool statement start now r) ∧ labelled (handle_db_error pool statement r).
Proof.
  intros Hr. split; apply set_db_pool_gauges_labelled; (eapply labelled_inc; [declared|done|]); [|done].
  eapply labelled_observe; [declared|done..].
Qed.

Lemma wrappers_labelled `{RedisServer} {A B} operation method route (m : M A) (next : M (Z * B)) w r :
  labelled r →
  labelled (observe_redis_command operation (plain m) (w, r)).2.2 ∧
  labelled (metrics_middleware method route (plain next) (w, r)).2.2.
Proof.
  intros Hr. unfold observe_redis_command, metrics_middleware, plain. simpl.
  destruct (m w) as [o w1], (next w) as [o' w2]. simpl. split.
  - eapply labelled_inc; [declared|done|]. eapply labelled_observe; [declared|done..].
  - apply labelled_set; [declared|]. eapply labelled_inc; [declared|done|].
    eapply labelled_observe; [declared|done|]. apply labelled_set; [declared|done].
Qed.

Example sql_operation_examples :
  (sql_operation None, sql_operation (Some ""), sql_operation (Some "  "),
   sql_operation (Some " SELECT 1"), sql_operation (Some "commit"))
  = ("unknown", "unknown", "unknown", "select", "commit").
Proof. reflexivity. Qed.
