(* ===== verification/Leader.v ===== *)
(** * Leader election: [backend/scheduler/leader.py]

    Several scheduler replicas run; the one whose database session holds a
    PostgreSQL advisory lock is the leader.  The lock server is a parameter with
    the documented behaviour of session-level advisory locks; any of its calls may
    fail, sessions die, replicas crash. *)

From S2P Require Import Prelude.

(** A session is named by the replica that opened it and a number. *)
Definition session : Type := Z * Z.

(** ** Session-level advisory locks *)

Class LockServer := {
  lock_state : Type;
  (** the session that holds the lock *)
  holder : lock_state → option session;
  (** the sessions the server knows *)
  alive : lock_state → session → Prop;

  (** [engine.connect()] of replica [p]; [None] is an exception. *)
  pg_connect : Z → lock_state → option session * lock_state;
  (** [SELECT pg_try_advisory_lock(k)] *)
  pg_try_lock : session → lock_state → option bool * lock_state;
  (** [SELECT 1]; [false] is an exception *)
  pg_ping : session → lock_state → bool;
  (** [SELECT pg_advisory_unlock(k)], failing or not *)
  pg_unlock : session → lock_state → lock_state;
  (** [conn.close()]: the session goes back to the pool or is closed. *)
  pg_close : session → lock_state → lock_state;
  (** the session ends: network failure, termination, crash of its replica *)
  pg_drop : session → lock_state → lock_state;

  connect_owner : ∀ p st s st', pg_connect p st = (Some s, st') → s.1 = p ∧ alive st' s;
  connect_holder : ∀ p st, holder (pg_connect p st).2 = holder st;
  connect_alive : ∀ p st c, alive (pg_connect p st).2 c → alive st c ∨ c.1 = p;
  (** The lock is granted when it is free or already held by the same session. *)
  try_lock_reply : ∀ s st b st', pg_try_lock s st = (Some b, st') →
    (b = true ↔ holder st = None ∨ holder st = Some s);
  try_lock_granted : ∀ s st st', pg_try_lock s st = (Some true, st') → holder st' = Some s;
  try_lock_refused : ∀ s st st', pg_try_lock s st = (Some false, st') → holder st' = holder st;
  (** A call that fails may have been executed. *)
  try_lock_failed : ∀ s st st', pg_try_lock s st = (None, st') →
    holder st' = holder st ∨ holder st = None ∧ holder st' = Some s;
  try_lock_alive : ∀ s st c, alive (pg_try_lock s st).2 c → alive st c;
  ping_alive : ∀ s st, pg_ping s st = true → alive st s;
  unlock_holder : ∀ s st,
    holder (pg_unlock s st) = holder st ∨ holder st = Some s ∧ holder (pg_unlock s st) = None;
  unlock_alive : ∀ s st c, alive (pg_unlock s st) c → alive st c;
  close_holder : ∀ s st,
    holder (pg_close s st) = holder st ∨ holder st = Some s ∧ holder (pg_close s st) = None;
  close_alive : ∀ s st c, alive (pg_close s st) c → alive st c;
  drop_holder : ∀ s st,
    holder (pg_drop s st) = if decide (holder st = Some s) then None else holder st;
  drop_alive : ∀ s st c, alive (pg_drop s st) c → alive st c ∧ c ≠ s
}.

(** ** The Leader object *)

Record Leader := {
  conn : option session;
  is_leader : bool
}.

Definition new_leader : Leader := {| conn := None; is_leader := false |}.

Section leader.
Context `{LockServer}.

(** [_connection_alive] *)
Definition connection_alive (l : Leader) (st : lock_state) : bool :=
  match conn l with None => false | Some s => pg_ping s st end.

(** [_reset] *)
Definition reset (l : Leader) (st : lock_state) : Leader * lock_state :=
  (new_leader, match conn l with Some s => pg_close s st | None => st end).

(** [acquire], by replica [p] *)
Definition acquire (p : Z) (l : Leader) (st : lock_state) : bool * Leader * lock_state :=
  if is_leader l && connection_alive l st then (true, l, st)
  else
    let '(l, st) := reset l st in
    match pg_connect p st with
    | (None, st) => let '(l, st) := reset l st in (false, l, st)
    | (Some s, st) =>
        let l := {| conn := Some s; is_leader := is_leader l |} in
        match pg_try_lock s st with
        | (None, st) => let '(l, st) := reset l st in (false, l, st)
        | (Some acquired, st) =>
            let l := {| conn := conn l; is_leader := acquired |} in
            if is_leader l then (true, l, st)
            else let '(l, st) := reset l st in (false, l, st)
        end
    end.

Definition release (l : Leader) (st : lock_state) : Leader * lock_state :=
  let st := match conn l with
            | Some s => if is_leader l then pg_unlock s st else st
            | None => st
            end in
  reset l st.

(** ** The cluster *)

Record Cluster := {
  cl_locks : lock_state;
  cl_leader : Z → Leader       (* the object of each replica *)
}.

Definition set_leader (p : Z) (l : Leader) (f : Z → Leader) : Z → Leader := λ q,
  if decide (q = p) then l else f q.

Inductive cluster_step : Cluster → Cluster → Prop :=
  | step_acquire p st f :
      cluster_step {| cl_locks := st; cl_leader := f |}
        {| cl_locks := (acquire p (f p) st).2;
           cl_leader := set_leader p (acquire p (f p) st).1.2 f |}
  | step_release p st f :
      cluster_step {| cl_locks := st; cl_leader := f |}
        {| cl_locks := (release (f p) st).2;
           cl_leader := set_leader p (release (f p) st).1 f |}
  | step_drop s st f :            (* a session dies, its replica does not know *)
      cluster_step {| cl_locks := st; cl_leader := f |}
        {| cl_locks := pg_drop s st; cl_leader := f |}
  | step_crash p ss st f :        (* a replica restarts, its sessions [ss] end *)
      (∀ s, s ∈ ss → s.1 = p) →
      cluster_step {| cl_locks := st; cl_leader := f |}
        {| cl_locks := foldr pg_drop st ss; cl_leader := set_leader p new_leader f |}.

(** A replica's connection is its own, and while that session lives the flag
    [is_leader] means that it holds the lock. *)
Definition leader_ok (st : lock_state) (p : Z) (l : Leader) : Prop :=
  (∀ s, conn l = Some s → s.1 = p) ∧
  (is_leader l = true → ∃ s, conn l = Some s ∧ (alive st s → holder st = Some s)).

Definition cluster_ok (c : Cluster) : Prop := ∀ p, leader_ok (cl_locks c) p (cl_leader c p).

(** ** Invariant *)

(** A step of the server that only replica [p] can profit from. *)
Definition lock_frame (p : Z) (st st' : lock_state) : Prop :=
  (∀ c, alive st' c → alive st c ∨ c.1 = p) ∧
  (∀ c, c.1 ≠ p → alive st' c → holder st = Some c → holder st' = Some c).

Lemma lock_frame_trans p st1 st2 st3 :
  lock_frame p st1 st2 → lock_frame p st2 st3 → lock_frame p st1 st3.
Proof.
  intros [A1 H1] [A2 H2]. split.
  - intros c Hc. destruct (A2 c Hc); auto.
  - intros c Hne Hc Hh. apply H2; [done..|]. apply H1; [done| |done].
    by destruct (A2 c Hc).
Qed.

Lemma lock_frame_refl p st : lock_frame p st st.
Proof. split; eauto. Qed.

Lemma leader_ok_frame p q l st st' :
  q ≠ p → lock_frame p st st' → leader_ok st q l → leader_ok st' q l.
Proof.
  intros Hne [Ha Hh] [Hown Hl]. split; [done|]. intros Ht. destruct (Hl Ht) as (s & Hs & Hal).
  exists s. split; [done|]. intros Hs'. pose proof (Hown s Hs) as Hq.
  apply Hh; [congruence|done|]. apply Hal. destruct (Ha s Hs'); [done|congruence].
Qed.

Lemma close_frame s st : lock_frame s.1 st (pg_close s st).
Proof.
  split; [intros c Hc%close_alive; by left|]. intros c Hne _ Hh.
  destruct (close_holder s st) as [->|[Hs _]]; congruence.
Qed.
Lemma unlock_frame s st : lock_frame s.1 st (pg_unlock s st).
Proof.
  split; [intros c Hc%unlock_alive; by left|]. intros c Hne _ Hh.
  destruct (unlock_holder s st) as [->|[Hs _]]; congruence.
Qed.
Lemma drop_frame s st : lock_frame s.1 st (pg_drop s st).
Proof.
  split; [intros c [Hc _]%drop_alive; by left|]. intros c Hne _ Hh.
  rewrite drop_holder. case_decide; congruence.
Qed.
Lemma connect_frame p st : lock_frame p st (pg_connect p st).2.
Proof. split; [apply connect_alive|]. intros c _ _. by rewrite connect_holder. Qed.
Lemma try_lock_frame s st : lock_frame s.1 st (pg_try_lock s st).2.
Proof.
  split; [intros c Hc%try_lock_alive; by left|]. intros c Hne _ Hh.
  destruct (pg_try_lock s st) as [[[]|] st'] eqn:E; simpl.
  - destruct (proj1 (try_lock_reply _ _ _ _ E) eq_refl); congruence.
  - by rewrite (try_lock_refused _ _ _ E).
  - destruct (try_lock_failed _ _ _ E) as [->|[? _]]; congruence.
Qed.

Lemma reset_frame p l st :
  (∀ s, conn l = Some s → s.1 = p) → lock_frame p st (reset l st).2.
Proof.
  intros Hown. unfold reset. simpl. destruct (conn l) as [s|]; [|apply lock_frame_refl].
  rewrite <- (Hown s eq_refl). apply close_frame.
Qed.

Lemma leader_ok_new st p : leader_ok st p new_leader.
Proof. by split. Qed.

(** [acquire] leaves a correct object and, when it answers [true], the lock in
    the hands of a live session of the replica or one that was. *)
Lemma acquire_ok p l st :
  leader_ok st p l →
  leader_ok (acquire p l st).2 p (acquire p l st).1.2 ∧
  lock_frame p st (acquire p l st).2 ∧
  is_leader (acquire p l st).1.2 = (acquire p l st).1.1 ∧
  ((acquire p l st).1.1 = true → ∃ s, conn (acquire p l st).1.2 = Some s ∧
     s.1 = p ∧ holder (acquire p l st).2 = Some s).
Proof.
  intros Hok. unfold acquire. destruct (is_leader l && connection_alive l st) eqn:E.
  - apply andb_true_iff in E as [El Ea]. simpl. split; [done|]. split; [apply lock_frame_refl|].
    split; [done|]. intros _. destruct Hok as [Hown Hl]. destruct (Hl El) as (s & Hs & Hal).
    unfold connection_alive in Ea. rewrite Hs in Ea. exists s. split; [done|].
    split; [by apply Hown|]. by apply Hal, ping_alive.
  - pose proof (reset_frame p l st (proj1 Hok)) as F1. unfold reset in *. simpl in *.
    set (st1 := match conn l with Some s => _ | None => st end) in *.
    pose proof (connect_frame p st1) as F2.
    pose proof (lock_frame_trans _ _ _ _ F1 F2) as F12.
    destruct (pg_connect p st1) as [[s|] st2] eqn:E2; simpl in *.
    2: { split; [apply leader_ok_new|]. by repeat split; try apply F12. }
    destruct (connect_owner _ _ _ _ E2) as [Hown _].
    pose proof (try_lock_frame s st2) as F3. rewrite Hown in F3.
    pose proof (lock_frame_trans _ _ _ _ F12 F3) as F123.
    pose proof (close_frame s (pg_try_lock s st2).2) as F4. rewrite Hown in F4.
    pose proof (lock_frame_trans _ _ _ _ F123 F4) as F1234.
    destruct (pg_try_lock s st2) as [[[]|] st3] eqn:E3; simpl in *.
    + pose proof (try_lock_granted _ _ _ E3) as Hh. split.
      { split; [by intros ? [= <-]|]. intros _. by exists s. }
      split; [done|]. split; [done|]. intros _. by exists s.
    + split; [apply leader_ok_new|]. by repeat split; try apply F1234.
    + split; [apply leader_ok_new|]. by repeat split; try apply F1234.
Qed.

Lemma release_ok p l st :
  leader_ok st p l → (release l st).1 = new_leader ∧ lock_frame p st (release l st).2.
Proof.
  intros [Hown _]. split; [done|]. unfold release.
  destruct (conn l) as [s|] eqn:Ec; [|by apply reset_frame; rewrite Ec].
  assert (lock_frame p st (if is_leader l then pg_unlock s st else st)) as F.
  { destruct (is_leader l); [|apply lock_frame_refl].
    rewrite <- (Hown s eq_refl). apply unlock_frame. }
  eapply lock_frame_trans; [exact F|]. apply reset_frame. rewrite Ec. done.
Qed.

Lemma drops_frame p ss st : (∀ s, s ∈ ss → s.1 = p) → lock_frame p st (foldr pg_drop st ss).
Proof.
  induction ss as [|s ss IH]; intros Hss; simpl; [apply lock_frame_refl|].
  eapply lock_frame_trans; [apply IH; set_solver|].
  rewrite <- (Hss s) by set_solver. apply drop_frame.
Qed.

Lemma leader_ok_drop p l s st : leader_ok st p l → leader_ok (pg_drop s st) p l.
Proof.
  intros [Hown Hl]. split; [done|]. intros Ht. destruct (Hl Ht) as (c & Hc & Hal).
  exists c. split; [done|]. intros [Ha Hne]%drop_alive. rewrite drop_holder, (Hal Ha).
  by rewrite decide_False by congruence.
Qed.

Lemma cluster_ok_update p l st st' f :
  leader_ok st' p l → lock_frame p st st' → (∀ q, leader_ok st q (f q)) →
  cluster_ok {| cl_locks := st'; cl_leader := set_leader p l f |}.
Proof.
  intros Hl Hfr Hall q. simpl. unfold set_leader. case_decide; [by subst|].
  by eapply leader_ok_frame.
Qed.

Lemma cluster_step_ok c c' : cluster_step c c' → cluster_ok c → cluster_ok c'.
Proof.
  intros Hstep Hok. unfold cluster_ok in Hok.
  destruct Hstep as [p st f|p st f|s st f|p ss st f Hss]; simpl in Hok.
  - destruct (acquire_ok p (f p) st (Hok p)) as (? & ? & _). by eapply cluster_ok_update.
  - destruct (release_ok p (f p) st (Hok p)) as [-> ?].
    eapply cluster_ok_update; [apply leader_ok_new|done|done].
  - intros p. simpl. by apply leader_ok_drop.
  - eapply cluster_ok_update; [apply leader_ok_new|by apply drops_frame|done].
Qed.

Lemma cluster_reachable c c' : rtc cluster_step c c' → cluster_ok c → cluster_ok c'.
Proof. induction 1; eauto using cluster_step_ok. Qed.

(** The replicas before any of them has called [acquire]. *)
Definition cluster_start (st : lock_state) : Cluster :=
  {| cl_locks := st; cl_leader := λ _, new_leader |}.

(** At most one replica leads.  In every state the replicas can reach, with
    sessions dying, calls failing and replicas crashing at any time, two different
    replicas that both believe to be leader never both have a live session; and
    when [acquire] answers [true], the lock is held by the caller's session and by
    no other. *)
Theorem leader_unique (st : lock_state) (c : Cluster) (p q : Z) (s s' : session) :
  rtc cluster_step (cluster_start st) c → p ≠ q →
  (is_leader (cl_leader c p) = true → is_leader (cl_leader c q) = true →
     conn (cl_leader c p) = Some s → conn (cl_leader c q) = Some s' →
     ¬ (alive (cl_locks c) s ∧ alive (cl_locks c) s')) ∧
  ((acquire p (cl_leader c p) (cl_locks c)).1.1 = true →
     ∃ s0, s0.1 = p ∧ holder (acquire p (cl_leader c p) (cl_locks c)).2 = Some s0 ∧
       (is_leader (cl_leader c q) = true → conn (cl_leader c q) = Some s' →
          ¬ alive (acquire p (cl_leader c p) (cl_locks c)).2 s')).
Proof.
  intros Hr Hne. assert (cluster_ok c) as Hok.
  { eapply cluster_reachable; [done|]. intros r. apply leader_ok_new. }
  split.
  - intros Hp Hq Hs Hs' [Ha Ha'].
    destruct (Hok p) as [Op Lp], (Hok q) as [Oq Lq].
    destruct (Lp Hp) as (? & ? & Hh), (Lq Hq) as (? & ? & Hh'). simplify_eq.
    rewrite (Hh Ha) in Hh'. specialize (Hh' Ha'). simplify_eq.
    apply Hne. rewrite <- (Op s') by done. by apply Oq.
  - intros Ht. destruct (acquire_ok p _ _ (Hok p)) as (_ & Hfr & _ & Hh).
    destruct (Hh Ht) as (s0 & _ & Hs0 & Hhold). exists s0. split; [done|]. split; [done|].
    intros Hq Hs' Ha'. destruct (leader_ok_frame _ q _ _ _ ltac:(done) Hfr (Hok q)) as [Oq Lq].
    destruct (Lq Hq) as (? & ? & Hh'). simplify_eq. specialize (Hh' Ha').
    rewrite Hhold in Hh'. simplify_eq. by apply Hne, Oq.
Qed.

(** A standby takes over.  Once the leader's session has ended, the first
    replica whose connection and lock request go through becomes leader. *)
Theorem leader_failover (p : Z) (l : Leader) (old s : session) (st st2 : lock_state)
    (b : bool) (st3 : lock_state) :
  is_leader l = false → conn l = None →
  holder st = Some old →
  pg_connect p (pg_drop old st) = (Some s, st2) → pg_try_lock s st2 = (Some b, st3) →
  acquire p l (pg_drop old st) = (true, {| conn := Some s; is_leader := true |}, st3) ∧
  holder st3 = Some s.
Proof.
  intros Hl Hc Hold E2 E3. assert (holder st2 = None) as Hfree.
  { change st2 with (Some s, st2).2. rewrite <- E2, connect_holder, drop_holder.
    by rewrite decide_True. }
  assert (b = true) as -> by (apply (try_lock_reply _ _ _ _ E3); by left).
  split; [|by eapply try_lock_granted].
  unfold acquire, reset. rewrite Hl, Hc. simpl. rewrite E2. simpl. by rewrite E3.
Qed.

End leader.

(** ** A reference lock server *)

Record Locks := {
  ls_holder : option session;
  ls_alive : list session;
  ls_next : Z
}.

Definition free_if (s : session) (o : option session) : option session :=
  if decide (o = Some s) then None else o.

Definition ref_try_lock (s : session) (st : Locks) : option bool * Locks :=
  if decide (s ∉ ls_alive st) then (None, st)
  else if decide (ls_holder st = None ∨ ls_holder st = Some s)
  then (Some true, {| ls_holder := Some s; ls_alive := ls_alive st; ls_next := ls_next st |})
  else (Some false, st).

Definition ref_end (s : session) (st : Locks) : Locks :=
  {| ls_holder := free_if s (ls_holder st); ls_alive := filter (λ c, c ≠ s) (ls_alive st);
     ls_next := ls_next st |}.

#[refine] Definition reference_locks : LockServer := {|
  lock_state := Locks;
  holder := ls_holder;
  alive st s := s ∈ ls_alive st;
  pg_connect p st := (Some (p, ls_next st),
    {| ls_holder := ls_holder st; ls_alive := (p, ls_next st) :: ls_alive st;
       ls_next := ls_next st + 1 |});
  pg_try_lock := ref_try_lock;
  pg_ping s st := bool_decide (s ∈ ls_alive st);
  pg_unlock s st := {| ls_holder := free_if s (ls_holder st); ls_alive := ls_alive st;
                       ls_next := ls_next st |};
  pg_close := ref_end;
  pg_drop := ref_end
|}.
Proof.
  all: simpl.
  - intros p st s st' [= <- <-]. simpl. set_solver.
  - done.
  - intros p st c [->|?]%elem_of_cons; [by right|by left].
  - intros s st b st'. unfold ref_try_lock. repeat case_decide; intros [= <- <-]; naive_solver.
  - intros s st st'. unfold ref_try_lock. by repeat case_decide; intros [= <-].
  - intros s st st'. unfold ref_try_lock. by repeat case_decide; intros [= <-].
  - intros s st st'. unfold ref_try_lock. repeat case_decide; intros [= <-]; by left.
  - intros s st c. unfold ref_try_lock. by repeat case_decide.
  - intros s st. by rewrite bool_decide_eq_true.
  - intros s st. unfold free_if. case_decide; [by right|by left].
  - done.
  - intros s st. unfold free_if. case_decide; [by right|by left].
  - intros s st c [_ ?]%list_elem_of_filter. done.
  - done.
  - intros s st c [? ?]%list_elem_of_filter. done.
Defined.

#[local] Existing Instance reference_locks.

Definition locks_start : @lock_state reference_locks := {| ls_holder := None; ls_alive := []; ls_next := 0 |}.

(** Replica 1 has become leader. *)
Definition cluster_led : Cluster :=
  {| cl_locks := (acquire 1 new_leader locks_start).2;
     cl_leader := set_leader 1 (acquire 1 new_leader locks_start).1.2 (λ _, new_leader) |}.

Lemma leader_unique_witness :
  ∃ s0 : session, s0.1 = 1 ∧
    holder (acquire 1 (cl_leader cluster_led 1) (cl_locks cluster_led)).2 = Some s0.
Proof.
  assert (rtc cluster_step (cluster_start locks_start) cluster_led) as Hr
    by (apply rtc_once, (step_acquire 1)).
  destruct (leader_unique locks_start cluster_led 1 2 (1, 0) (2, 0) Hr ltac:(lia)) as [_ Hacq].
  destruct Hacq as (s0 & Hs0 & Hh & _); [vm_compute; reflexivity|]. by exists s0.
Defined.

Lemma leader_failover_witness :
  let st : @lock_state reference_locks :=
    {| ls_holder := Some (1, 0); ls_alive := [(1, 0)]; ls_next := 1 |} in
  ∃ st3, acquire 2 new_leader (pg_drop (1, 0) st) =
    (true, {| conn := Some (2, 1); is_leader := true |}, st3) ∧ holder st3 = Some (2, 1).
Proof.
  intros st. eexists.
  refine (leader_failover 2 new_leader (1, 0) (2, 1) st _ true _ _ _ _ _ _); vm_compute; reflexivity.
Defined.
