(* ===== verification/WorkerMain.v ===== *)
(** * The worker process: [backend/worker/main.py]

    The loop reads messages of the consumer group, takes over stale ones, and
    spawns one task per message; a task executes the run and acknowledges its
    message.  Cancellation messages are routed to the task of the run.  Waiting
    (sleeps, blocking reads, the semaphore) is not represented: a task may start
    as soon as it is spawned. *)

From S2P Require Import Prelude PyBase Models RedisServer Effects Database RedisQueue Cron Retry.
From S2P Require Import Demo Store Executor Careful Runner.

Section worker.
Context `{RedisServer, Postgres, Settings, !Executors, ExcText}.

(** ** Memory *)

Definition mem_of (worker : string) (w : World) : WorkerMem := default empty_mem (w_mem w !! worker).

Definition update_mem (worker : string) (f : WorkerMem → WorkerMem) : M unit := λ w,
  (Ok tt, with_mem (<[worker := f (mem_of worker w)]> (w_mem w)) w).

(** [spawn]: the number of the new task *)
Definition spawn (worker : string) (message run : Z) (allow_running : bool) : M Z :=
  t ← read (λ w, next_task (mem_of worker w));
  update_mem worker (λ m,
    {| inflight := <[t := {| t_message := message; t_run := run; t_reclaim := allow_running |}]>
                     (inflight m);
       inflight_by_run := inflight_by_run m; next_task := t + 1 |});;
  mret t.

(** [task.add_done_callback(inflight.discard)] *)
Definition discard (worker : string) (t : Z) : M unit :=
  update_mem worker (λ m,
    {| inflight := delete t (inflight m); inflight_by_run := inflight_by_run m;
       next_task := next_task m |}).

(** [inflight_by_run[run_id] = task] *)
Definition register (worker : string) (run t : Z) : M unit :=
  update_mem worker (λ m,
    {| inflight := inflight m; inflight_by_run := <[run := t]> (inflight_by_run m);
       next_task := next_task m |}).

(** [if inflight_by_run.get(run_id) is task: inflight_by_run.pop(run_id, None)] *)
Definition unregister (worker : string) (run t : Z) : M unit :=
  update_mem worker (λ m,
    {| inflight := inflight m;
       inflight_by_run := if decide (inflight_by_run m !! run = Some t)
                          then delete run (inflight_by_run m) else inflight_by_run m;
       next_task := next_task m |}).

(** ** handle *)

Definition handle (worker : string) (t message run : Z) (allow_running : bool) : prog unit :=
  call (register worker run t);;
  pfinally
    (ptry (process_run run allow_running worker)
       (λ e, match e with CancelledError => Throw CancelledError | _ => Ret tt end))
    (call (unregister worker run t);;
     call (xack_cmd message);;
     call (xdel_cmd message)).

(** The task that runs [handle]. *)
Definition task (worker : string) (t message run : Z) (allow_running : bool) : prog unit :=
  pfinally (handle worker t message run allow_running) (call (discard worker t)).

(** ** The loop *)

(** One message of a reply: a task, or, when it names no run, acknowledge and
    drop it. *)
Definition accept_message (worker : string) (allow_running : bool)
    (m : Z * gmap string string) : prog unit :=
  match parse_run_id m.2 with
  | None => call (xack_cmd m.1);; call (xdel_cmd m.1)
  | Some run => call (spawn worker m.1 run allow_running);; Ret tt
  end.

Definition xautoclaim_cmd (worker : string) (count : Z) : M (list (Z * gmap string string)) :=
  fault_point RedisError;;
  now ← utcnow;
  s ← read w_redis;
  modify_redis (λ s, (xautoclaim worker (claim_min_idle_ms * 1000) count now s).2);;
  mret (xautoclaim worker (claim_min_idle_ms * 1000) count now s).1.

Definition xreadgroup_cmd (worker : string) (count : Z) : M (list (Z * gmap string string)) :=
  fault_point RedisError;;
  now ← utcnow;
  s ← read w_redis;
  modify_redis (λ s, (xreadgroup worker count now s).2);;
  mret (xreadgroup worker count now s).1.

(** [try: ... except Exception: return/continue] around a read. *)
Definition read_or_skip (m : M (list (Z * gmap string string))) :
    prog (option (list (Z * gmap string string))) :=
  ptry (r ← call m; Ret (Some r))
    (λ e, match e with CancelledError => Throw CancelledError | _ => Ret None end).

(** [_reclaim_stale] *)
Definition reclaim_stale (worker : string) (count : Z) : prog unit :=
  reply ← read_or_skip (xautoclaim_cmd worker count);
  match reply with
  | None => Ret tt
  | Some messages => pfor_each messages (accept_message worker true)
  end.

(** One turn of the [while] loop. *)
Definition poll_once (worker : string) : prog unit :=
  n ← call (read (λ w, Z.of_nat (size (inflight (mem_of worker w)))));
  let capacity := worker_concurrency - n in
  if capacity <=? 0 then Ret tt
  else
    let count := Z.min capacity worker_read_batch in
    reclaim_stale worker count;;
    resp ← read_or_skip (xreadgroup_cmd worker count);
    match resp with
    | None => Ret tt
    | Some messages => pfor_each messages (accept_message worker false)
    end.

(** ** Cancellation *)

(** [_cancel_listener] on one message: the task it cancels. *)
Definition cancel_target (worker data : string) : M (option Z) :=
  read (λ w,
    run ← py_int data;
    t ← inflight_by_run (mem_of worker w) !! run;
    if decide (is_Some (inflight (mem_of worker w) !! t)) then Some t else None).

(** ** Invariants *)

Lemma update_mem_respects worker f : respects evolves (update_mem worker f).
Proof. intros w Hw. by split. Qed.
#[local] Hint Resolve update_mem_respects : respect.

Lemma spawn_respects worker m i b : respects evolves (spawn worker m i b).
Proof. unfold spawn. respect. Qed.
#[local] Hint Resolve spawn_respects : respect.

Lemma handle_careful worker t m i b X : careful (handle worker t m i b) X.
Proof.
  unfold handle. apply careful_bind; [apply careful_presp; unfold register; respect|]. intros _ Y _.
  apply careful_finally.
  - apply careful_try; [apply process_run_careful|]. intros e Z' _. by destruct e.
  - unfold xack_cmd, xdel_cmd, unregister. respect.
Qed.

Lemma task_careful worker t m i b X : careful (task worker t m i b) X.
Proof. apply careful_finally; [apply handle_careful|unfold discard; respect]. Qed.

Lemma poll_once_respects worker : presp evolves (poll_once worker).
Proof.
  unfold poll_once, reclaim_stale, read_or_skip, accept_message, xautoclaim_cmd, xreadgroup_cmd,
    xack_cmd, xdel_cmd. respect.
Qed.

Lemma mem_of_set worker m ms w : mem_of worker (with_mem (<[worker := m]> ms) w) = m.
Proof. unfold mem_of. simpl. by rewrite lookup_insert_eq. Qed.

(** ** Tasks *)

(** Message [m] is neither in the stream nor pending. *)
Definition message_gone (m : Z) (v : RedisView) : Prop :=
  m ∉ (rv_entries v).*1 ∧ ∀ p, p ∈ rv_pel v → pe_id p ≠ m.

Lemma run_ack m w :
  w_faults w = [] →
  run (call (xack_cmd m);; call (xdel_cmd m)) w = (Ok tt, with_redis (xdel m (xack m (w_redis w))) w).
Proof.
  intros Hf. erewrite run_step; [|unfold xack_cmd, mbind, M_bind, fault_point; rewrite Hf; done].
  rewrite run_call. unfold xdel_cmd, mbind, M_bind, fault_point. simpl. by rewrite Hf.
Qed.

Lemma ack_gone m s : message_gone m (view (xdel m (xack m s))).
Proof.
  autorewrite with redis. unfold view_xdel, view_xack. split; simpl.
  - intros (e & -> & [Hne _]%list_elem_of_filter)%list_elem_of_fmap. done.
  - intros p [Hp _]%list_elem_of_filter. done.
Qed.

(** The [finally] block of [handle]. *)
Definition cleanup (worker : string) (t m i : Z) : prog unit :=
  call (unregister worker i t);; call (xack_cmd m);; call (xdel_cmd m).

Lemma run_cleanup worker t m i w :
  w_faults w = [] →
  ∃ w', run (cleanup worker t m i) w = (Ok tt, w') ∧
    w_db w' = w_db w ∧ w_faults w' = [] ∧ message_gone m (view (w_redis w')) ∧
    inflight_by_run (mem_of worker w') !! i ≠ Some t.
Proof.
  intros Hf. unfold cleanup. eexists. split.
  - erewrite run_step by done. by rewrite run_ack.
  - split; [done|]. split; [done|]. split; [apply ack_gone|].
    unfold mem_of at 1. simpl. rewrite lookup_insert_eq. simpl.
    case_decide; [by rewrite lookup_delete_eq|done].
Qed.

Lemma handle_ends (worker : string) (t m i : Z) (b : bool) (r : JobRun) (j : Job) (w : World) :
  clean w → w_faults w = [] → db_wf (w_db w) →
  runs (w_db w) !! i = Some r → jobs (w_db w) !! run_job_id r = Some j → status r ∈ claimable_from b →
  ∃ o w' r', run (handle worker t m i b) w = (o, w') ∧ w_faults w' = [] ∧ runs (w_db w') !! i = Some r' ∧
    message_gone m (view (w_redis w')) ∧
    inflight_by_run (mem_of worker w') !! i ≠ Some t ∧
    (o = Ok tt ∧ outcome_status (status r') ∨ o = Raise CancelledError ∧ status r' = RUNNING ∨
     o = Ok tt ∧ status r' = RUNNING ∧ ¬ plain_task (claimed_of r j)).
Proof.
  intros Hc Hf W Hi Hj Hs. set (w1 := (register worker i t w).2).
  destruct (process_run_ends i b worker r j w1 Hc Hf W Hi Hj Hs) as (o & w2 & r' & E & Hf2 & Hr' & Ho & Hpl).
  destruct (run_cleanup worker t m i w2 Hf2) as (w3 & E3 & Hd3 & Hf3 & Hg & Hm).
  set (o' := match o with Raise DataError => Ok tt | _ => o end).
  assert (run (ptry (process_run i b worker)
    (λ e, match e with CancelledError => Throw CancelledError | _ => Ret tt end)) w1 = (o', w2)) as E2.
  { rewrite run_try. unfold try_except. rewrite E.
    destruct Ho as [[-> _]|[[-> _]|[-> _]]]; done. }
  exists o', w3, r'. split; [|split; [done|split; [by rewrite Hd3|]]].
  - unfold handle. rewrite (run_step (register worker i t) _ w tt w1) by done.
    by apply (run_finally _ _ _ _ _ _ E2).
  - split; [done|]. split; [done|]. destruct Ho as [(-> & ? & _)|[(-> & ? & _)|[-> ?]]]; [by left|by right; left|].
    right; right. split; [done|]. split; [done|]. intros Ht. by apply Hpl.
Qed.

(** C5: The task of a claimable run, executed alone and without faults, brings the run to an
    outcome and returns, or is canceled with the run still running; or, when the output of
    the task cannot be stored, it returns and the run is left running.  In every case its
    message has left the stream and the pending list, so it is never delivered again, and
    the worker no longer lists the task for the run. *)
Theorem handle_completes (worker : string) (t m i : Z) (b : bool) (r : JobRun) (j : Job) (w : World) :
  clean w → w_faults w = [] → db_wf (w_db w) →
  runs (w_db w) !! i = Some r → jobs (w_db w) !! run_job_id r = Some j → status r ∈ claimable_from b →
  ∃ o w' r', run (handle worker t m i b) w = (o, w') ∧ runs (w_db w') !! i = Some r' ∧
    message_gone m (view (w_redis w')) ∧
    inflight_by_run (mem_of worker w') !! i ≠ Some t ∧
    (o = Ok tt ∧ outcome_status (status r') ∨ o = Raise CancelledError ∧ status r' = RUNNING ∨
     o = Ok tt ∧ status r' = RUNNING ∧ ¬ plain_task (claimed_of r j)).
Proof.
  intros Hc Hf W Hi Hj Hs.
  destruct (handle_ends worker t m i b r j w Hc Hf W Hi Hj Hs) as (o & w' & r' & E & _ & H').
  by exists o, w', r'.
Qed.

(** Duplicate deliveries are no-ops.  A message whose run is no longer
    claimable (already taken, finished, canceled or deleted) is acknowledged and
    dropped; no table changes. *)
Theorem handle_duplicate (worker : string) (t m i : Z) (b : bool) (w : World) :
  clean w → w_faults w = [] → db_wf (w_db w) →
  (∀ r, runs (w_db w) !! i = Some r → status r ∉ claimable_from b) →
  ∃ w', run (handle worker t m i b) w = (Ok tt, w') ∧ w_db w' = w_db w ∧
    message_gone m (view (w_redis w')).
Proof.
  intros Hc Hf W Hno. set (w1 := (register worker i t w).2).
  pose proof (proj2 (claim_run_exact i worker b w1 Hc Hf W) Hno) as Ecl.
  destruct (run_cleanup worker t m i w1 Hf) as (w3 & E3 & Hd3 & _ & Hg & _).
  exists w3. split; [|done]. unfold handle.
  rewrite (run_step (register worker i t) _ w tt w1) by done.
  apply (run_finally _ _ _ _ w1); [|done].
  rewrite run_try. unfold try_except, process_run. destruct (bigint _ i).
  - by rewrite (run_step _ _ _ _ _ Ecl).
  - rewrite run_bind. erewrite bind_raise by (rewrite run_call; exact Ecl). done.
Qed.

(** ** The loop *)

(** Task numbers are never reused. *)
Definition mem_ok (m : WorkerMem) : Prop := ∀ t x, inflight m !! t = Some x → t < next_task m.

(** The messages of [l] that name no run. *)
Definition unparsable (l : list (Z * gmap string string)) : list Z :=
  (filter (λ e, parse_run_id e.2 = None) l).*1.

(** The task of a message. *)
Definition task_of (b : bool) (e : Z * gmap string string) (x : Task) : Prop :=
  t_message x = e.1 ∧ parse_run_id e.2 = Some (t_run x) ∧ t_reclaim x = b.

(** What accepting the messages [l] does to the worker and to the queue. *)
Record accepted (worker : string) (b : bool) (l : list (Z * gmap string string)) (w w' : World)
    : Prop := {
  ac_db : w_db w' = w_db w;
  ac_quiet : w_faults w' = [];
  ac_clock : w_clock w' = w_clock w;
  ac_mem : mem_ok (mem_of worker w');
  ac_keep : inflight (mem_of worker w) ⊆ inflight (mem_of worker w');
  ac_size : (size (inflight (mem_of worker w')) ≤ size (inflight (mem_of worker w)) + length l)%nat;
  ac_tasks : ∀ e i, e ∈ l → parse_run_id e.2 = Some i →
    ∃ t, inflight (mem_of worker w') !! t =
      Some {| t_message := e.1; t_run := i; t_reclaim := b |};
  ac_only : ∀ t x, inflight (mem_of worker w') !! t = Some x →
    inflight (mem_of worker w) !! t = Some x ∨ ∃ e, e ∈ l ∧ task_of b e x;
  ac_entries : rv_entries (view (w_redis w')) =
    filter (λ e, e.1 ∉ unparsable l) (rv_entries (view (w_redis w)));
  ac_pel : rv_pel (view (w_redis w')) =
    filter (λ p, pe_id p ∉ unparsable l) (rv_pel (view (w_redis w)));
  ac_read : rv_read (view (w_redis w')) = rv_read (view (w_redis w))
}.

Lemma accepted_nil worker b w :
  w_faults w = [] → mem_ok (mem_of worker w) → accepted worker b [] w w.
Proof.
  intros Hf Hm. split; try done; try (by intros ? ? ?%elem_of_nil).
  - lia.
  - by left.
  - symmetry. apply list_filter_id. set_solver.
  - symmetry. apply list_filter_id. set_solver.
Qed.

Lemma filter_filter_notin {A} (f : A → Z) (k : Z) (ks : list Z) (l : list A) :
  filter (λ x, f x ∉ ks) (filter (λ x, f x ≠ k) l) = filter (λ x, f x ∉ k :: ks) l.
Proof. rewrite list_filter_filter. apply list_filter_iff. set_solver. Qed.

Lemma accepted_drop worker b e l w w' :
  parse_run_id e.2 = None →
  accepted worker b l (with_redis (xdel e.1 (xack e.1 (w_redis w))) w) w' →
  accepted worker b (e :: l) w w'.
Proof.
  intros Hp [Hd Hf Hcl Hm Hk Hs Ht Ho He Hpe Hrd]. simpl in *.
  assert (unparsable (e :: l) = e.1 :: unparsable l) as Hu.
  { unfold unparsable. by rewrite filter_cons_True. }
  autorewrite with redis in He, Hpe, Hrd. unfold view_xdel, view_xack in *. simpl in *.
  split; try done.
  - change (mem_of worker (with_redis _ w)) with (mem_of worker w) in Hs. simpl. lia.
  - intros e' i [->|He']%elem_of_cons Hi; [congruence|by apply Ht].
  - intros t x Hx. destruct (Ho t x Hx) as [?|(e' & ? & ?)]; [by left|right].
    exists e'. set_solver.
  - rewrite He, Hu. apply (filter_filter_notin fst).
  - rewrite Hpe, Hu. apply (filter_filter_notin pe_id).
Qed.

Lemma spawn_mem worker m i b w :
  let w1 := (spawn worker m i b w).2 in
  let t := next_task (mem_of worker w) in
  spawn worker m i b w = (Ok t, w1) ∧ w_redis w1 = w_redis w ∧ w_db w1 = w_db w ∧
  w_faults w1 = w_faults w ∧ w_clock w1 = w_clock w ∧
  inflight (mem_of worker w1) =
    <[t := {| t_message := m; t_run := i; t_reclaim := b |}]> (inflight (mem_of worker w)) ∧
  next_task (mem_of worker w1) = t + 1.
Proof.
  simpl. rewrite !mem_of_set. done.
Qed.

Lemma accepted_spawn worker b e i l w w' :
  mem_ok (mem_of worker w) → parse_run_id e.2 = Some i →
  accepted worker b l (spawn worker e.1 i b w).2 w' →
  accepted worker b (e :: l) w w'.
Proof.
  intros Hmo Hp [Hd Hf Hcl Hm Hk Hs Ht Ho He Hpe Hrd].
  destruct (spawn_mem worker e.1 i b w) as (_ & Er & Ed & _ & Ec & Ei & _).
  rewrite ?Er, ?Ed, ?Ec, ?Ei in *.
  set (t := next_task (mem_of worker w)) in *.
  set (x0 := {| t_message := e.1; t_run := i; t_reclaim := b |}) in *.
  assert (inflight (mem_of worker w) !! t = None) as Hfresh.
  { destruct (inflight (mem_of worker w) !! t) eqn:E; [|done]. apply Hmo in E. lia. }
  assert (unparsable (e :: l) = unparsable l) as Hu.
  { unfold unparsable. by rewrite filter_cons_False by congruence. }
  split; try done.
  - etrans; [|exact Hk]. by apply insert_subseteq.
  - rewrite map_size_insert_None in Hs by done. simpl. lia.
  - intros e' i' [->|He']%elem_of_cons Hi; [|by apply Ht].
    exists t. replace i' with i by congruence. fold x0.
    eapply lookup_weaken; [apply lookup_insert_eq|done].
  - intros t' x Hx. destruct (Ho t' x Hx) as [Hx'|(e' & ? & ?)]; [|right; exists e'; set_solver].
    apply lookup_insert_Some in Hx' as [[<- <-]|[_ ?]]; [right|by left].
    exists e. split; [set_solver|]. done.
  - by rewrite Hu.
  - by rewrite Hu.
Qed.

Lemma run_accept worker b l w :
  w_faults w = [] → mem_ok (mem_of worker w) →
  ∃ w', run (pfor_each l (accept_message worker b)) w = (Ok tt, w') ∧ accepted worker b l w w'.
Proof.
  revert w. induction l as [|e l IH]; intros w Hf Hm.
  { exists w. split; [done|by apply accepted_nil]. }
  cbn [pfor_each]. destruct (parse_run_id e.2) as [i|] eqn:Hp.
  - destruct (spawn_mem worker e.1 i b w) as (E & _ & _ & Ef & _ & Ei & En).
    destruct (IH (spawn worker e.1 i b w).2) as (w' & E' & Ha); [by rewrite Ef| |].
    { intros t x. rewrite Ei, En. intros [[<- _]|[_ Hx]]%lookup_insert_Some; [lia|].
      apply Hm in Hx. lia. }
    exists w'. split; [|by eapply accepted_spawn].
    erewrite run_then; [exact E'|]. unfold accept_message. rewrite Hp.
    by rewrite (run_step _ _ _ _ _ E).
  - destruct (IH (with_redis (xdel e.1 (xack e.1 (w_redis w))) w)) as (w' & E' & Ha); [done..|].
    exists w'. split; [|by apply accepted_drop].
    erewrite run_then; [exact E'|]. unfold accept_message. rewrite Hp. by apply run_ack.
Qed.

Lemma run_read_or_skip m w r w' :
  m w = (Ok r, w') → run (read_or_skip m) w = (Ok (Some r), w').
Proof.
  intros E. unfold read_or_skip. rewrite run_try. unfold try_except.
  by rewrite (run_step _ _ _ _ _ E).
Qed.

Lemma xautoclaim_cmd_eq worker count w :
  w_faults w = [] →
  let idle := claim_min_idle_ms * 1000 in
  xautoclaim_cmd worker count w =
    (Ok (xautoclaim worker idle count (w_clock w) (w_redis w)).1,
     with_redis (xautoclaim worker idle count (w_clock w) (w_redis w)).2 w).
Proof. intros Hf. unfold xautoclaim_cmd, mbind, M_bind, fault_point. by rewrite Hf. Qed.

Lemma xreadgroup_cmd_eq worker count w :
  w_faults w = [] →
  xreadgroup_cmd worker count w =
    (Ok (xreadgroup worker count (w_clock w) (w_redis w)).1,
     with_redis (xreadgroup worker count (w_clock w) (w_redis w)).2 w).
Proof. intros Hf. unfold xreadgroup_cmd, mbind, M_bind, fault_point. by rewrite Hf. Qed.

Lemma run_reclaim worker count w :
  w_faults w = [] → mem_ok (mem_of worker w) →
  let x := xautoclaim worker (claim_min_idle_ms * 1000) count (w_clock w) (w_redis w) in
  ∃ w', run (reclaim_stale worker count) w = (Ok tt, w') ∧
    accepted worker true x.1 (with_redis x.2 w) w'.
Proof.
  intros Hf Hm x. pose proof (xautoclaim_cmd_eq worker count w Hf) as E.
  destruct (run_accept worker true x.1 (with_redis x.2 w) Hf Hm) as (w' & E' & Ha).
  exists w'. split; [|done]. unfold reclaim_stale.
  by rewrite (run_then _ _ _ _ _ (run_read_or_skip _ _ _ _ E)).
Qed.

(** C15: Failover.  A pending message that has been idle for the configured time, with fewer
    than [count] stale or vanished messages before it in the pending list and within the
    ten times [count] entries that Redis scans, is taken over by [_reclaim_stale]: it becomes
    the caller's own, a task is spawned for it that may claim a running run, and that claim
    succeeds, so the run of a worker that died is executed again.  Nothing in the guard depends on whether the previous worker
    is dead: a run that takes longer than the idle time is taken over as well. *)
Theorem reclaim_takes_over (worker : string) (count i : Z) (before : list PelEntry)
    (p : PelEntry) (after : list PelEntry)
    (r : JobRun) (w : World) :
  clean w → w_faults w = [] → db_wf (w_db w) → mem_ok (mem_of worker w) →
  let v := view (w_redis w) in
  let idle := claim_min_idle_ms * 1000 in
  rv_pel v = before ++ p :: after → claimable idle (w_clock w) v p →
  Z.of_nat (length before) < 10 * count →
  Z.of_nat (length (filter (counted idle (w_clock w) v) before)) < count →
  (∀ f, (pe_id p, f) ∈ rv_entries v → parse_run_id f = Some i) →
  runs (w_db w) !! i = Some r → status r ∈ ACTIVE →
  ∃ w' t q, run (reclaim_stale worker count) w = (Ok tt, w') ∧
    inflight (mem_of worker w') !! t =
      Some {| t_message := pe_id p; t_run := i; t_reclaim := true |} ∧
    q ∈ rv_pel (view (w_redis w')) ∧ pe_id q = pe_id p ∧ pe_consumer q = worker ∧
    pe_time q = w_clock w ∧
    ∃ c, (claim_run i worker true w').1 = Ok (Some c) ∧ c_run_id c = i.
Proof.
  intros Hc Hf W Hm v idle Hpel Hclaim Hscan Hcount Hfields Hi Hs.
  destruct (run_reclaim worker count w Hf Hm) as (w' & E & Ha).
  fold idle in Ha.
  set (x := xautoclaim worker idle count (w_clock w) (w_redis w)) in *.
  assert (∀ f, (pe_id p, f) ∈ x.1 → parse_run_id f = Some i) as Hpf.
  { intros f Hin. apply Hfields. by apply (xautoclaim_sound worker idle count (w_clock w)). }
  pose proof (xautoclaim_scans worker idle count (w_clock w) (w_redis w) before p after Hpel Hclaim
    Hscan Hcount) as Hold. fold x in Hold. pose proof Hold as Hold'.
  apply list_elem_of_fmap in Hold as ([k f] & Hk & Hin). simpl in Hk. subst k.
  destruct (ac_tasks _ _ _ _ _ Ha _ i Hin (Hpf f Hin)) as [t Ht].
  exists w', t, (reown worker (w_clock w) x.1.*1 p). split; [done|]. split; [exact Ht|].
  unfold reown at 2 3 4. rewrite decide_True by done. simpl. split; [|do 3 (split; [done|])].
  - rewrite (ac_pel _ _ _ _ _ Ha). simpl.
    destruct (xautoclaim_view worker idle count (w_clock w) (w_redis w)) as (gone & Hgone & Hv).
    fold x in Hv. rewrite Hv. simpl. apply list_elem_of_filter. split.
    + unfold reown. rewrite decide_True by done. simpl. unfold unparsable.
      intros ([k f'] & Hk & [Hnone Hin']%list_elem_of_filter)%list_elem_of_fmap.
      simpl in *. subst k. rewrite (Hpf f' Hin') in Hnone. done.
    + apply list_elem_of_fmap_2, list_elem_of_filter. fold v. rewrite Hpel. split; [|set_solver].
      intros Hg. by apply (Hgone _ Hg), Hclaim.
  - destruct (wf_run_job _ W _ _ Hi) as [j Hj]. exists (claimed_of r j).
    pose proof (ac_db _ _ _ _ _ Ha) as Hd. simpl in Hd.
    split; [|by destruct (wf_run_key _ W _ _ Hi)].
    assert (w_faults w' = []) as Hf' by apply Ha.
    unfold claim_run. erewrite (scope_commits _ w'); [done|done|]. rewrite claim_body by (by rewrite Hd).
    rewrite Hd, Hi, decide_True, Hj by done. done.
Qed.

(** One turn of the worker's loop.  With free capacity it keeps the tasks it
    has, spawns a task for every new message of the batch that names a run (and
    acknowledges the others), and never has more than the concurrency limit plus
    one batch in flight; without capacity it reads nothing. *)
Theorem poll_once_dispatches (worker : string) (w : World) :
  w_faults w = [] → mem_ok (mem_of worker w) → 0 ≤ worker_read_batch →
  let n := Z.of_nat (size (inflight (mem_of worker w))) in
  let count := Z.min (worker_concurrency - n) worker_read_batch in
  (worker_concurrency ≤ n → run (poll_once worker) w = (Ok tt, w)) ∧
  (n < worker_concurrency →
     ∃ w1 w', run (reclaim_stale worker count) w = (Ok tt, w1) ∧
       run (poll_once worker) w = (Ok tt, w') ∧ w_db w' = w_db w ∧ w_faults w' = [] ∧
       mem_ok (mem_of worker w') ∧
       inflight (mem_of worker w) ⊆ inflight (mem_of worker w') ∧
       (∀ e i, e ∈ new_entries count (view (w_redis w1)) → parse_run_id e.2 = Some i →
          ∃ t, inflight (mem_of worker w') !! t =
            Some {| t_message := e.1; t_run := i; t_reclaim := false |}) ∧
       Z.of_nat (size (inflight (mem_of worker w'))) ≤ worker_concurrency + count).
Proof.
  intros Hf Hm Hb n count. unfold poll_once.
  rewrite (run_step (read _) _ w n w) by done. split.
  { intros Hn. by rewrite (proj2 (Z.leb_le _ _)) by lia. }
  intros Hn. rewrite (proj2 (Z.leb_gt _ _)) by lia. fold count.
  destruct (run_reclaim worker count w Hf Hm) as (w1 & E1 & Ha1).
  set (x := xautoclaim worker _ count (w_clock w) (w_redis w)) in *.
  destruct Ha1 as [Hd1 Hf1 Hc1 Hm1 Hk1 Hs1 _ _ _ _ _].
  pose proof (xreadgroup_cmd_eq worker count w1 Hf1) as E2. rewrite xreadgroup_reply in E2.
  set (s2 := (xreadgroup worker count (w_clock w1) (w_redis w1)).2) in *.
  destruct (run_accept worker false (new_entries count (view (w_redis w1))) (with_redis s2 w1) Hf1 Hm1)
    as (w' & E3 & [Hd3 Hf3 _ Hm3 Hk3 Hs3 Ht3 _ _ _ _]).
  exists w1, w'. split; [done|]. split.
  { by rewrite (run_then _ _ _ _ _ E1), (run_then _ _ _ _ _ (run_read_or_skip _ _ _ _ E2)). }
  split; [by rewrite Hd3|]. split; [done|]. split; [done|]. split; [by etrans|]. split; [done|].
  pose proof (xautoclaim_count worker (claim_min_idle_ms * 1000) count (w_clock w) (w_redis w)) as Hl1.
  fold x in Hl1. assert (length (new_entries count (view (w_redis w1))) ≤ Z.to_nat count)%nat as Hl2
    by apply firstn_le_length.
  change (mem_of worker (with_redis _ ?w)) with (mem_of worker w) in *. unfold n in *. lia.
Qed.

(** ** Cancellation *)

(** A task registered for a run executes that run. *)
Definition registered (m : WorkerMem) : Prop :=
  mem_ok m ∧ ∀ i t, inflight_by_run m !! i = Some t →
    t < next_task m ∧ ∀ x, inflight m !! t = Some x → t_run x = i.

Lemma registered_empty : registered empty_mem.
Proof. split; by intros ? ? ?. Qed.

Lemma registered_spawn worker msg i b w :
  registered (mem_of worker w) → registered (mem_of worker (spawn worker msg i b w).2).
Proof.
  intros [Hok Hr]. simpl. rewrite mem_of_set. split; [unfold mem_ok|]; simpl.
  - intros t x [[<- _]|[_ Hx]]%lookup_insert_Some; simpl; [lia|]. apply Hok in Hx. lia.
  - intros k t Hk. destruct (Hr k t Hk) as [Hlt Hx]. split; [lia|].
    intros x [[<- _]|[_ ?]]%lookup_insert_Some; [lia|by apply Hx].
Qed.

Lemma registered_register worker i t x w :
  registered (mem_of worker w) → inflight (mem_of worker w) !! t = Some x → t_run x = i →
  registered (mem_of worker (register worker i t w).2).
Proof.
  intros [Hok Hr] Ht Hx. unfold register, update_mem. simpl. rewrite mem_of_set.
  split; [done|]; simpl. intros k t' [[<- <-]|[_ Hk]]%lookup_insert_Some; [|by apply Hr].
  split; [by eapply Hok|]. intros y Hy. congruence.
Qed.

Lemma registered_unregister worker i t w :
  registered (mem_of worker w) → registered (mem_of worker (unregister worker i t w).2).
Proof.
  intros [Hok Hr]. unfold unregister, update_mem. simpl. rewrite mem_of_set.
  split; [done|]; simpl. intros k t'. case_decide; [|apply Hr].
  intros [_ Hk]%lookup_delete_Some. by apply Hr.
Qed.

Lemma registered_discard worker t w :
  registered (mem_of worker w) → registered (mem_of worker (discard worker t w).2).
Proof.
  intros [Hok Hr]. unfold discard, update_mem. simpl. rewrite mem_of_set. split; [unfold mem_ok|]; simpl.
  - intros t' x [_ Hx]%lookup_delete_Some. by apply Hok in Hx.
  - intros k t' Hk. destruct (Hr k t' Hk) as [Hlt Hx]. split; [done|].
    intros x [_ ?]%lookup_delete_Some. by apply Hx.
Qed.

(** A cancellation stops the right task.  The message that the API publishes
    for run [i] makes the listener cancel a task exactly when one in flight is
    registered for [i], and that task executes run [i] and no other; the
    operations of the loop keep this so. *)
Theorem cancel_routes (worker : string) (i : Z) (w : World) :
  registered (mem_of worker w) →
  (∀ t, (cancel_target worker (py_str i) w).1 = Ok (Some t) ↔
     inflight_by_run (mem_of worker w) !! i = Some t ∧ is_Some (inflight (mem_of worker w) !! t)) ∧
  (∀ t, (cancel_target worker (py_str i) w).1 = Ok (Some t) →
     ∃ x, inflight (mem_of worker w) !! t = Some x ∧ t_run x = i) ∧
  (∀ msg k b, registered (mem_of worker (spawn worker msg k b w).2)) ∧
  (∀ t x, inflight (mem_of worker w) !! t = Some x →
     registered (mem_of worker (register worker (t_run x) t w).2)) ∧
  (∀ k t, registered (mem_of worker (unregister worker k t w).2)) ∧
  (∀ t, registered (mem_of worker (discard worker t w).2)).
Proof.
  intros Hr.
  assert (∀ t, (cancel_target worker (py_str i) w).1 = Ok (Some t) ↔
     inflight_by_run (mem_of worker w) !! i = Some t ∧
     is_Some (inflight (mem_of worker w) !! t)) as Hct.
  { intros t. unfold cancel_target, read. cbn [fst]. rewrite py_int_str. simpl.
    destruct (inflight_by_run (mem_of worker w) !! i) as [t'|]; simpl; [|naive_solver].
    case_decide; naive_solver. }
  split; [done|]. split.
  { intros t [Hb [x Hx]]%Hct. exists x. split; [done|]. by apply (proj2 Hr i t). }
  split; [intros; by apply registered_spawn|]. split; [intros; by eapply registered_register|].
  split; intros; [by apply registered_unregister|by apply registered_discard].
Qed.

End worker.

(** ** Evaluation *)

#[local] Existing Instances echo_executors plain_exc_text.

(** Message 1 for run 2 of [world_store], delivered to a worker that died. *)
Definition stale_view : RedisView :=
  with_group true 1 [{| pe_id := 1; pe_consumer := "dead"; pe_time := 0 |}]
    (with_stream [(1, run_fields "2")] 1 empty_view).

Definition world_stale : World :=
  demo_world stale_view (demo_db setup_store) (31 * usec).

Lemma clean_stale : clean world_stale.
Proof. apply clean_demo. Qed.
Lemma quiet_stale : w_faults world_stale = [].
Proof. apply quiet_demo. Qed.

Lemma wf_stale : db_wf (w_db world_stale).
Proof. exact wf_store. Qed.

Lemma stale_run :
  ∃ r, runs (w_db world_stale) !! 2 = Some r ∧ status r = QUEUED.
Proof. eexists. split; vm_compute; reflexivity. Qed.

Lemma queued_claimable r : status r = QUEUED → status r ∈ claimable_from false.
Proof. intros ->. simpl. set_solver. Qed.

Lemma queued_active r : status r = QUEUED → status r ∈ ACTIVE.
Proof. intros ->. unfold ACTIVE. set_solver. Qed.

Lemma stale_job r : runs (w_db world_stale) !! 2 = Some r → is_Some (jobs (w_db world_stale) !! run_job_id r).
Proof. intros Hr. exact (wf_run_job _ wf_stale _ _ Hr). Qed.

Lemma handle_completes_witness :
  ∃ o w' r', run (handle "w1" 0 1 2 false) world_stale = (o, w') ∧
    runs (w_db w') !! 2 = Some r' ∧ outcome_status (status r') ∧
    message_gone 1 (w_redis w' : RedisView).
Proof.
  destruct stale_run as (r & Hr & Hs). destruct (stale_job r Hr) as [j Hj].
  destruct (handle_completes "w1" 0 1 2 false r j world_stale clean_stale quiet_stale wf_stale Hr Hj
    (queued_claimable r Hs))
    as (o & w' & r' & E & Hr' & Hg & _ & Hend).
  exists o, w', r'. split; [exact E|]. split; [exact Hr'|]. split; [|exact Hg].
  destruct Hend as [[_ Ho]|[[-> _]|(_ & _ & Hn)]]; [exact Ho| |destruct Hn; apply echo_plain].
  exfalso. assert ((run (handle "w1" 0 1 2 false) world_stale).1 = Ok tt) as E' by (vm_compute; reflexivity).
  rewrite E in E'. discriminate.
Defined.

Lemma run_1_done r : runs (w_db world_stale) !! 1 = Some r → status r ∉ claimable_from true.
Proof. intros Hr. vm_compute in Hr. injection Hr as <-. simpl. set_solver. Qed.

Lemma handle_duplicate_witness :
  ∃ w', run (handle "w1" 0 1 1 true) world_stale = (Ok tt, w') ∧ w_db w' = w_db world_stale.
Proof.
  destruct (handle_duplicate "w1" 0 1 1 true world_stale clean_stale quiet_stale wf_stale run_1_done)
    as (w' & E & Hd & _).
  exists w'. split; [exact E|exact Hd].
Defined.

Lemma stale_mem_ok : mem_ok (mem_of "w1" world_stale).
Proof. intros t x Hx. vm_compute in Hx. done. Qed.

(** Run 1 is running; its worker died.  Before its message, 2, another one is pending that
    was delivered a moment ago. *)
Definition abandoned_view : RedisView :=
  with_group true 2 [{| pe_id := 1; pe_consumer := "w2"; pe_time := 30 * usec |};
                     {| pe_id := 2; pe_consumer := "dead"; pe_time := 0 |}]
    (with_stream [(1, run_fields "7"); (2, run_fields "1")] 2 empty_view).
Definition world_abandoned : World := demo_world abandoned_view (demo_db setup_running) (31 * usec).

Lemma clean_abandoned : clean world_abandoned.
Proof. apply clean_demo. Qed.
Lemma quiet_abandoned : w_faults world_abandoned = [].
Proof. apply quiet_demo. Qed.
Lemma abandoned_mem_ok : mem_ok (mem_of "w1" world_abandoned).
Proof. intros t x Hx. vm_compute in Hx. done. Qed.
Lemma abandoned_run : ∃ r, runs (w_db world_abandoned) !! 1 = Some r ∧ status r = RUNNING.
Proof. eexists. split; vm_compute; reflexivity. Qed.
Lemma running_active r : status r = RUNNING → status r ∈ ACTIVE.
Proof. intros ->. unfold ACTIVE. set_solver. Qed.

Lemma abandoned_claimable :
  claimable (claim_min_idle_ms * 1000) (w_clock world_abandoned) (w_redis world_abandoned : RedisView)
    {| pe_id := 2; pe_consumer := "dead"; pe_time := 0 |}.
Proof. split; simpl; [vm_compute; congruence|set_solver]. Qed.

Lemma abandoned_fields f :
  ((2, f) : Z * gmap string string) ∈ rv_entries (w_redis world_abandoned : RedisView) →
  parse_run_id f = Some 1.
Proof.
  simpl. intros [E|E%list_elem_of_singleton]%elem_of_cons; [discriminate|].
  injection E as ->. vm_compute. reflexivity.
Qed.

Lemma reclaim_takes_over_witness :
  ∃ r w' t c, runs (w_db world_abandoned) !! 1 = Some r ∧ status r = RUNNING ∧
    run (reclaim_stale "w1" 1) world_abandoned = (Ok tt, w') ∧
    inflight (mem_of "w1" w') !! t = Some {| t_message := 2; t_run := 1; t_reclaim := true |} ∧
    (claim_run 1 "w1" true w').1 = Ok (Some c).
Proof.
  destruct abandoned_run as (r & Hr & Hs).
  destruct (reclaim_takes_over "w1" 1 1 [{| pe_id := 1; pe_consumer := "w2"; pe_time := 30 * usec |}]
    {| pe_id := 2; pe_consumer := "dead"; pe_time := 0 |} [] r world_abandoned clean_abandoned
    quiet_abandoned wf_running abandoned_mem_ok eq_refl abandoned_claimable
    ltac:(vm_compute; reflexivity) ltac:(vm_compute; reflexivity) abandoned_fields Hr (running_active r Hs))
    as (w' & t & q & E & Ht & _ & _ & _ & _ & c & Ec & _).
  exists r, w', t, c. split; [exact Hr|]. split; [exact Hs|]. split; [exact E|]. split; [exact Ht|exact Ec].
Defined.

Lemma poll_once_dispatches_witness :
  ∃ w', run (poll_once "w1") world_stale = (Ok tt, w') ∧
    (Z.of_nat (size (inflight (mem_of "w1" w'))) ≤ 20)%Z.
Proof.
  assert (0 ≤ @worker_read_batch default_settings) as Hb by (simpl; lia).
  destruct (proj2 (poll_once_dispatches "w1" world_stale quiet_stale stale_mem_ok Hb))
    as (w1 & w' & _ & E & _ & _ & _ & _ & _ & Hs); [vm_compute; reflexivity|].
  exists w'. split; [exact E|]. etransitivity; [exact Hs|]. vm_compute. congruence.
Defined.

Lemma cancel_routes_witness :
  let w := (register "w1" 2 0 (spawn "w1" 1 2 false world_stale).2).2 in
  (cancel_target "w1" (py_str 2) w).1 = Ok (Some 0) ∧
  ∃ x, inflight (mem_of "w1" w) !! 0 = Some x ∧ t_run x = 2.
Proof.
  intros w. assert (registered (mem_of "w1" w)) as Hr.
  { eapply registered_register; [|vm_compute; reflexivity|reflexivity].
    apply registered_spawn. unfold mem_of. simpl. apply registered_empty. }
  assert ((cancel_target "w1" (py_str 2) w).1 = Ok (Some 0)) as E by (vm_compute; reflexivity).
  split; [exact E|]. exact (proj1 (proj2 (cancel_routes "w1" 2 w Hr)) 0 E).
Defined.

(** The same task when the fourth commit, the one of [finish_run], fails. *)
Definition world_finish_fails : World :=
  with_faults [false; false; false; true] world_stale.

(** A run can be acknowledged without reaching an outcome.  When the commit
    that should record the outcome fails, the error is swallowed, the message is
    acknowledged and deleted all the same, and the run stays running: nothing in
    the queue, the pending list or the delayed set refers to it any more, and the
    scheduler's orphan rule only looks at queued runs. *)
Theorem handle_loses_run :
  ∃ w' r, run (handle "w1" 0 1 2 false) world_finish_fails = (Ok tt, w') ∧
    runs (w_saved w') !! 2 = Some r ∧ status r = RUNNING ∧
    rv_entries (w_redis w' : RedisView) = [] ∧ rv_pel (w_redis w' : RedisView) = [] ∧
    rv_delayed (w_redis w' : RedisView) = ∅.
Proof.
  destruct (run (handle "w1" 0 1 2 false) world_finish_fails) as [o w'] eqn:E.
  assert (o = Ok tt) as -> by (change o with (o, w').1; rewrite <- E; vm_compute; reflexivity).
  assert (∃ r, runs (w_saved w') !! 2 = Some r ∧ status r = RUNNING) as (r & Hr & Hs).
  { change w' with (Ok tt, w').2. rewrite <- E. eexists. split; vm_compute; reflexivity. }
  exists w', r. split; [done|]. split; [done|]. split; [done|].
  change w' with (Ok tt, w').2. rewrite <- E. split; [vm_compute; reflexivity|].
  split; vm_compute; reflexivity.
Qed.

(** Neither does a run whose command prints a NUL character: PostgreSQL refuses its log
    lines, with no other fault, and the run stays running for good. *)
Theorem handle_loses_output :
  ∃ w' r, run (@handle _ _ _ (say_executors (String Ascii.zero "")) _ "w1" 0 1 2 false) world_stale
      = (Ok tt, w') ∧
    runs (w_saved w') !! 2 = Some r ∧ status r = RUNNING ∧
    rv_entries (w_redis w' : RedisView) = [] ∧ rv_pel (w_redis w' : RedisView) = [] ∧
    rv_delayed (w_redis w' : RedisView) = ∅.
Proof.
  destruct (run (@handle _ _ _ (say_executors (String Ascii.zero "")) _ "w1" 0 1 2 false) world_stale)
    as [o w'] eqn:E.
  assert (o = Ok tt) as -> by (change o with (o, w').1; rewrite <- E; vm_compute; reflexivity).
  assert (∃ r, runs (w_saved w') !! 2 = Some r ∧ status r = RUNNING) as (r & Hr & Hs).
  { change w' with (Ok tt, w').2. rewrite <- E. eexists. split; vm_compute; reflexivity. }
  exists w', r. split; [done|]. split; [done|]. split; [done|].
  change w' with (Ok tt, w').2. rewrite <- E. split; [vm_compute; reflexivity|].
  split; vm_compute; reflexivity.
Qed.
