(* ===== verification/WorkerLoop.v ===== *)
(** * The loop of the worker process: [run] of backend/worker/main.py

    The coroutine [run] and its tasks as a state machine: the rounds of the [while]
    loop, the semaphore in front of the tasks, the signal that stops the worker, and
    the drain.  [WorkerMain] holds what one round does to the database, the queue and
    the memory; [poll_once_simulated] relates the two. *)

From S2P Require Import Prelude PyBase Models RedisServer Effects Database Cron Demo Store Executor.
From S2P Require Import Runner WorkerMain.

(** Where [run] is: at the test of the loop, before [_reclaim_stale], before
    [xreadgroup], waiting for its tasks, at its end, or left by an exception. *)
Inductive Phase := Top | Reclaiming (count : Z) | Reading (count : Z) | Draining | Stopped | Crashed.

(** [waiting]: the tasks in the queue of the semaphore, the oldest first; [running]:
    the tasks that hold it; both are [inflight].  [ended]: the tasks that are done, and
    [dropped] those that died with the process.  [next] numbers the tasks. *)
Record Proc := {
  waiting : list Z;
  running : list Z;
  ended : list Z;
  dropped : list Z;
  next : Z;
  stop : bool;
  phase : Phase
}.

Definition start_proc : Proc :=
  {| waiting := []; running := []; ended := []; dropped := []; next := 0; stop := false; phase := Top |}.

Definition load (p : Proc) : Z := Z.of_nat (length (waiting p) + length (running p)).

(** [k] messages are accepted: [spawn] of each; its task waits for the semaphore. *)
Definition spawned (k : Z) (ph : Phase) (p : Proc) : Proc :=
  {| waiting := waiting p ++ seqZ (next p) k; running := running p; ended := ended p;
     dropped := dropped p; next := next p + k; stop := stop p; phase := ph |}.
Definition with_phase (ph : Phase) (p : Proc) : Proc :=
  {| waiting := waiting p; running := running p; ended := ended p; dropped := dropped p;
     next := next p; stop := stop p; phase := ph |}.
Definition with_tasks (ws rs es : list Z) (p : Proc) : Proc :=
  {| waiting := ws; running := rs; ended := es; dropped := dropped p; next := next p;
     stop := stop p; phase := phase p |}.
Definition crashed (p : Proc) : Proc :=
  {| waiting := []; running := []; ended := ended p; dropped := waiting p ++ running p;
     next := next p; stop := stop p; phase := Crashed |}.

Section loop.
Context `{Settings}.

(** [capacity] and [count] *)
Definition capacity (p : Proc) : Z := worker_concurrency - load p.
Definition batch (p : Proc) : Z := Z.min (capacity p) worker_read_batch.

(** One step of the process.  A command that fails accepts no message ([k = 0]); the
    error of an acknowledgement in a round ends the process. *)
Inductive loop_step : Proc → Proc → Prop :=
  | loop_signal p :
      stop p = false →
      loop_step p {| waiting := waiting p; running := running p; ended := ended p; dropped := dropped p;
                     next := next p; stop := true; phase := phase p |}
  | loop_turn p :
      phase p = Top → stop p = false → 0 < capacity p →
      loop_step p (with_phase (Reclaiming (batch p)) p)
  | loop_reclaim p count k :
      phase p = Reclaiming count → 0 ≤ k ≤ count → loop_step p (spawned k (Reading count) p)
  | loop_read p count k :
      phase p = Reading count → 0 ≤ k ≤ count → loop_step p (spawned k Top p)
  | loop_crash p count :
      phase p = Reclaiming count ∨ phase p = Reading count →
      loop_step p (crashed p)
  | loop_exit p :
      phase p = Top → stop p = true → loop_step p (with_phase Draining p)
  | loop_start p t ws :
      waiting p = t :: ws → Z.of_nat (length (running p)) < worker_concurrency →
      loop_step p (with_tasks ws (running p ++ [t]) (ended p) p)
  | loop_finish p t l r :
      running p = l ++ t :: r → loop_step p (with_tasks (waiting p) (l ++ r) (ended p ++ [t]) p)
  | loop_end p :
      phase p = Draining → waiting p = [] → running p = [] → loop_step p (with_phase Stopped p).

(** ** Bounds *)

(** How many tasks a phase allows, with what the rest of its round may add. *)
Definition room (p : Proc) : Prop :=
  match phase p with
  | Reclaiming count => 0 ≤ count ≤ worker_read_batch ∧ load p + count ≤ worker_concurrency
  | Reading count => 0 ≤ count ≤ worker_read_batch ∧ load p ≤ worker_concurrency
  | _ => load p ≤ worker_concurrency + worker_read_batch
  end.

Record loop_inv (p : Proc) : Prop := {
  li_running : Z.of_nat (length (running p)) ≤ worker_concurrency;
  li_room : room p;
  li_stop : phase p = Draining ∨ phase p = Stopped → stop p = true;
  li_end : phase p = Stopped ∨ phase p = Crashed → waiting p = [] ∧ running p = [];
  li_next : 0 ≤ next p;
  li_tasks : waiting p ++ running p ++ ended p ++ dropped p ≡ₚ seqZ 0 (next p);
  li_dropped : phase p ≠ Crashed → dropped p = []
}.

Hypothesis concurrency_pos : 0 < worker_concurrency.
Hypothesis batch_pos : 0 < worker_read_batch.

Lemma loop_inv_start : loop_inv start_proc.
Proof.
  split; unfold room, load; simpl; try lia; try done. by intros [?|?].
Qed.

Lemma load_spawned k ph p : 0 ≤ k → load (spawned k ph p) = load p + k.
Proof. intros Hk. unfold load, spawned. simpl. rewrite length_app, length_seqZ. lia. Qed.

(** The new tasks have the next numbers. *)
Lemma spawned_tasks k ph p :
  0 ≤ k → 0 ≤ next p → waiting p ++ running p ++ ended p ++ dropped p ≡ₚ seqZ 0 (next p) →
  let p' := spawned k ph p in
  waiting p' ++ running p' ++ ended p' ++ dropped p' ≡ₚ seqZ 0 (next p').
Proof.
  intros Hk Hn Ht. simpl. rewrite seqZ_app, Z.add_0_l, <- Ht by done.
  rewrite <- !app_assoc. apply Permutation_app_head. rewrite Permutation_app_comm.
  by rewrite <- !app_assoc.
Qed.

(** A task that changes its queue. *)
Lemma moved_tasks ws rs es p :
  ws ++ rs ++ es ≡ₚ waiting p ++ running p ++ ended p →
  (length ws + length rs ≤ length (waiting p) + length (running p))%nat → loop_inv p →
  Z.of_nat (length rs) ≤ worker_concurrency → loop_inv (with_tasks ws rs es p).
Proof.
  intros Hsub Hlen [Hr Hroom Hst He Hn Ht Hd] Hrs.
  split; simpl; [done| |done| |done| |done].
  - unfold room, load in *. simpl. destruct (phase p); lia.
  - intros Hp. destruct (He Hp) as [Hw0 Hr0]. rewrite Hw0, Hr0 in Hlen. simpl in Hlen.
    destruct ws, rs; simpl in Hlen; [done|lia..].
  - rewrite <- Ht. trans ((ws ++ rs ++ es) ++ dropped p); [by rewrite <- !app_assoc|].
    rewrite Hsub. by rewrite <- !app_assoc.
Qed.

Lemma loop_step_inv p p' : loop_step p p' → loop_inv p → loop_inv p'.
Proof.
  intros Hs I. pose proof I as [Hr Hroom Hst He Hn Ht Hd].
  destruct Hs as [p Hp|p Hp Hp' Hc|p count k Hp Hk|p count k Hp Hk|p count Hp|p Hp Hp'|p t ws Hw Hc|p t l r Hrun|p Hp Hw Hrun].
  - by split.
  - split; simpl; try done; try (by intros [?|?]); try (intros _; apply Hd; congruence).
    unfold room, batch, capacity in *. simpl in *. unfold load in *. simpl in *. lia.
  - split; try done; try (by intros [?|?]); try (intros _; apply Hd; congruence);
      [|simpl; lia|by apply spawned_tasks; [lia|..]].
    unfold room in *. rewrite Hp in Hroom. simpl phase. cbv iota. rewrite load_spawned; lia.
  - split; try done; try (by intros [?|?]); try (intros _; apply Hd; congruence);
      [|simpl; lia|by apply spawned_tasks; [lia|..]].
    unfold room in *. rewrite Hp in Hroom. simpl phase. cbv iota. rewrite load_spawned; lia.
  - assert (dropped p = []) as Hd0 by (apply Hd; destruct Hp; congruence).
    split; simpl; try done; [lia|unfold room, load; simpl; lia|by intros [?|?]|].
    rewrite <- Ht, Hd0, app_nil_r. by rewrite Permutation_app_comm, <- app_assoc.
  - split; simpl; try done; try (by intros [?|?]); try (intros _; apply Hd; congruence).
    unfold room, load in *. simpl. by rewrite Hp in Hroom.
  - apply moved_tasks; [| |done|rewrite length_app; simpl; lia].
    + rewrite Hw. simpl. rewrite <- app_assoc. simpl. by rewrite <- !Permutation_middle.
    + rewrite Hw, length_app. simpl. lia.
  - apply moved_tasks; [| |done|].
    + rewrite Hrun, <- !app_assoc. do 2 apply Permutation_app_head. simpl.
      by rewrite (Permutation_app_comm (ended p)), Permutation_middle.
    + rewrite Hrun, !length_app. simpl. lia.
    + rewrite Hrun in Hr. rewrite !length_app in *. simpl in Hr. lia.
  - split; simpl; try done.
    + unfold room, load in *. simpl. by rewrite Hp in Hroom.
    + intros _. apply Hst. by left.
    + intros _. apply Hd. congruence.
Qed.

Lemma loop_reachable_inv p : rtc loop_step start_proc p → loop_inv p.
Proof.
  assert (∀ q, rtc loop_step q p → loop_inv q → loop_inv p) as Hind.
  { induction 1; eauto using loop_step_inv. }
  intros Hr. by eapply Hind; [|apply loop_inv_start].
Qed.

Lemma room_load p : loop_inv p → load p ≤ worker_concurrency + worker_read_batch.
Proof. intros [_ Hroom _ _ _ _ _]. unfold room in Hroom. destruct (phase p); lia. Qed.

(** ** Draining *)

(** How many steps are left once the loop has ended. *)
Definition remaining (p : Proc) : nat :=
  2 * length (waiting p) + length (running p) + match phase p with Draining => 1 | _ => 0 end.

(** The process is past its loop. *)
Definition past_loop (p : Proc) : Prop := phase p = Draining ∨ phase p = Stopped.

Lemma past_loop_step p p' :
  loop_inv p → past_loop p → loop_step p p' →
  past_loop p' ∧ next p' = next p ∧ (remaining p' < remaining p)%nat.
Proof.
  intros I Hp Hs. pose proof (li_stop _ I Hp) as Hstop. pose proof (li_end _ I) as Hend.
  destruct Hs as [p Hns|p Ht _ _|p ? ? Ht _|p ? ? Ht _|p ? Ht|p Ht _|p t ws Hw _|p t l r Hrun|p Ht Hw Hrun].
  - congruence.
  - destruct Hp; congruence.
  - destruct Hp; congruence.
  - destruct Hp; congruence.
  - destruct Hp, Ht; congruence.
  - destruct Hp; congruence.
  - split; [done|]. split; [done|]. unfold remaining. simpl. rewrite Hw, length_app. simpl. lia.
  - split; [done|]. split; [done|]. unfold remaining. simpl. rewrite Hrun, !length_app. simpl. lia.
  - split; [by right|]. split; [done|]. unfold remaining. simpl. rewrite Ht. lia.
Qed.

Lemma draining_progress p : phase p = Draining → ∃ p', loop_step p p'.
Proof.
  intros Hp. destruct (running p) as [|t r] eqn:Hr.
  - destruct (waiting p) as [|t ws] eqn:Hw; eexists.
    + by apply loop_end.
    + apply (loop_start p t ws); [done|]. rewrite Hr. simpl. lia.
  - eexists. by apply (loop_finish p t [] r).
Qed.

Lemma past_loop_steps n p p' :
  nsteps loop_step n p p' → loop_inv p → past_loop p →
  loop_inv p' ∧ past_loop p' ∧ next p' = next p ∧ (n + remaining p' ≤ remaining p)%nat.
Proof.
  induction 1 as [p|n p p1 p2 Hs _ IH]; intros I Hp; [by split_and!|].
  destruct (past_loop_step _ _ I Hp Hs) as (Hp1 & Hn1 & Hr1).
  destruct (IH (loop_step_inv _ _ Hs I) Hp1) as (I2 & Hp2 & Hn2 & Hr2).
  split_and!; [done|done|congruence|lia].
Qed.

(** C39: The worker's concurrency.  However rounds, signals, failing commands and tasks
    interleave: at most [worker_concurrency] runs are executed at once and at most one
    batch more is in flight; every task that was spawned is waiting, running or done, and
    only one of these, or it was dropped by a crash of the process, and nothing else drops a
    task; so when a worker has stopped, all the tasks it ever spawned have ended. *)
Theorem worker_bounded (p : Proc) :
  rtc loop_step start_proc p →
  Z.of_nat (length (running p)) ≤ worker_concurrency ∧
  load p ≤ worker_concurrency + worker_read_batch ∧
  NoDup (waiting p ++ running p ++ ended p ++ dropped p) ∧
  (∀ t, 0 ≤ t < next p ↔ t ∈ waiting p ++ running p ++ ended p ++ dropped p) ∧
  (phase p ≠ Crashed → dropped p = []) ∧
  (phase p = Stopped → ended p ≡ₚ seqZ 0 (next p)).
Proof.
  intros Hr. pose proof (loop_reachable_inv p Hr) as I. pose proof (li_tasks _ I) as Ht.
  split; [apply I|]. split; [by apply room_load|]. split; [rewrite Ht; apply NoDup_seqZ|].
  split; [intros t; rewrite Ht, elem_of_seqZ; lia|]. split; [apply I|].
  intros Hp. destruct (li_end _ I) as [Hw Hru]; [by left|].
  rewrite Hw, Hru, (li_dropped _ I), app_nil_r in Ht by congruence. done.
Qed.

(** C40: Graceful shutdown.  Once the loop has seen the signal, the worker accepts no
    further message, and ends: every sequence of steps is shorter than twice its
    waiting tasks, its running tasks and two; until it has stopped, with all tasks
    done, some step is possible. *)
Theorem worker_drains (p p' : Proc) (n : nat) :
  rtc loop_step start_proc p → phase p = Draining → nsteps loop_step n p p' →
  (n ≤ 2 * length (waiting p) + length (running p) + 1)%nat ∧ next p' = next p ∧
  ((phase p' = Stopped ∧ waiting p' = [] ∧ running p' = []) ∨
   (phase p' = Draining ∧ ∃ p'', loop_step p' p'')).
Proof.
  intros Hr Hp Hn. pose proof (loop_reachable_inv p Hr) as I.
  destruct (past_loop_steps n p p' Hn I (or_introl Hp)) as (I' & Hp' & Hnext & Hm).
  unfold remaining in Hm. rewrite Hp in Hm. split; [lia|]. split; [done|].
  destruct Hp' as [Hp'|Hp'].
  - right. split; [done|by apply draining_progress].
  - left. split; [done|]. apply (li_end _ I'). by left.
Qed.

(** ** The rounds of [WorkerMain] *)

Context `{RedisServer, Postgres, !Executors, ExcText}.

Lemma accepted_grows worker b l w w' :
  accepted worker b l w w' →
  ∃ k, 0 ≤ k ≤ Z.of_nat (length l) ∧
    Z.of_nat (size (inflight (mem_of worker w'))) = Z.of_nat (size (inflight (mem_of worker w))) + k.
Proof.
  intros Ha. pose proof (map_subseteq_size _ _ (ac_keep _ _ _ _ _ Ha)) as Hge.
  pose proof (ac_size _ _ _ _ _ Ha) as Hle.
  exists (Z.of_nat (size (inflight (mem_of worker w'))) - Z.of_nat (size (inflight (mem_of worker w)))).
  lia.
Qed.

(** A round of [poll_once] is a round of the state machine with as many tasks. *)
Lemma poll_once_simulated worker w p :
  w_faults w = [] → mem_ok (mem_of worker w) → phase p = Top → stop p = false →
  load p = Z.of_nat (size (inflight (mem_of worker w))) →
  ∃ p' w', run (poll_once worker) w = (Ok tt, w') ∧ rtc loop_step p p' ∧
    phase p' = Top ∧ stop p' = false ∧
    load p' = Z.of_nat (size (inflight (mem_of worker w'))).
Proof.
  intros Hf Hm Hp Hns Hl. unfold poll_once.
  rewrite (run_step (read _) _ w (load p) w) by (unfold read; simpl; by rewrite Hl).
  destruct (worker_concurrency - load p <=? 0) eqn:Hcap.
  { exists p, w. split; [done|]. by split_and!. }
  apply Z.leb_gt in Hcap. set (count := Z.min (worker_concurrency - load p) worker_read_batch).
  destruct (run_reclaim worker count w Hf Hm) as (w1 & E1 & Ha1).
  pose proof (xautoclaim_count worker (claim_min_idle_ms * 1000) count (w_clock w) (w_redis w)) as Hn1.
  destruct (accepted_grows _ _ _ _ _ Ha1) as (k1 & Hk1 & Hs1).
  pose proof (ac_quiet _ _ _ _ _ Ha1) as Hf1. pose proof (ac_mem _ _ _ _ _ Ha1) as Hm1.
  pose proof (xreadgroup_cmd_eq worker count w1 Hf1) as E2. rewrite xreadgroup_reply in E2.
  set (s2 := (xreadgroup worker count (w_clock w1) (w_redis w1)).2) in *.
  destruct (run_accept worker false (new_entries count (view (w_redis w1))) (with_redis s2 w1) Hf1 Hm1)
    as (w' & E3 & Ha2).
  assert (length (new_entries count (view (w_redis w1))) ≤ Z.to_nat count)%nat as Hn2
    by apply firstn_le_length.
  destruct (accepted_grows _ _ _ _ _ Ha2) as (k2 & Hk2 & Hs2).
  change (mem_of worker (with_redis _ ?w)) with (mem_of worker w) in *.
  set (pr := with_phase (Reclaiming count) p).
  exists (spawned k2 Top (spawned k1 (Reading count) pr)), w'. split.
  { by rewrite (run_then _ _ _ _ _ E1), (run_then _ _ _ _ _ (run_read_or_skip _ _ _ _ E2)). }
  split.
  { eapply rtc_l; [by apply (loop_turn p)|]. change (with_phase (Reclaiming (batch p)) p) with pr.
    eapply rtc_l; [by apply (loop_reclaim pr count k1); [|lia]|].
    eapply rtc_l; [by apply (loop_read _ count k2); [|lia]|done]. }
  split; [done|]. split; [done|]. rewrite !load_spawned by lia.
  change (load pr) with (load p). lia.
Qed.

End loop.

(** ** Evaluation *)

#[local] Existing Instance default_settings.

Lemma default_concurrency_pos : 0 < worker_concurrency.
Proof. reflexivity. Qed.
Lemma default_batch_pos : 0 < worker_read_batch.
Proof. reflexivity. Qed.

(** One task is executed and one waits when the signal arrives. *)
Definition demo_draining : Proc :=
  {| waiting := [1]; running := [0]; ended := []; dropped := []; next := 2; stop := true;
     phase := Draining |}.

Lemma demo_draining_reachable : rtc loop_step start_proc demo_draining.
Proof.
  eapply rtc_l; [by apply loop_turn|].
  eapply rtc_l; [apply (loop_reclaim _ 10 0); [reflexivity|lia]|].
  eapply rtc_l; [apply (loop_read _ 10 2); [reflexivity|lia]|].
  eapply rtc_l; [by eapply (loop_start _ 0)|].
  eapply rtc_l; [by apply loop_signal|].
  eapply rtc_l; [by apply loop_exit|]. done.
Qed.

Definition demo_stopped : Proc :=
  {| waiting := []; running := []; ended := [0; 1]; dropped := []; next := 2; stop := true;
     phase := Stopped |}.

Lemma demo_stopped_reachable : rtc loop_step start_proc demo_stopped.
Proof.
  etrans; [exact demo_draining_reachable|].
  eapply rtc_l; [by apply (loop_finish demo_draining 0 [] [])|].
  eapply rtc_l; [by eapply (loop_start _ 1)|].
  eapply rtc_l; [by apply (loop_finish _ 1 [] [])|].
  eapply rtc_l; [by apply loop_end|]. done.
Qed.

Lemma worker_bounded_witness : load demo_draining ≤ 10 + 20 ∧ ended demo_stopped ≡ₚ seqZ 0 2.
Proof.
  split.
  - exact (proj1 (proj2 (worker_bounded default_concurrency_pos default_batch_pos demo_draining demo_draining_reachable))).
  - destruct (worker_bounded default_concurrency_pos default_batch_pos demo_stopped demo_stopped_reachable)
      as (_ & _ & _ & _ & _ & Hend).
    exact (Hend eq_refl).
Defined.

Lemma worker_drains_witness : ∃ p, loop_step demo_draining p.
Proof.
  destruct (worker_drains default_concurrency_pos default_batch_pos demo_draining demo_draining 0
    demo_draining_reachable eq_refl (nsteps_O _ _)) as (_ & _ & [[H _]|[_ H]]).
  - discriminate H.
  - exact H.
Defined.
