(* ===== verification/Schemas.v ===== *)
(** * Request validation: [backend/common/schemas.py]

    The payloads of the job endpoints and the checks pydantic performs on them:
    the field constraints and the validators of [JobBase].  A request body whose
    fields have other types is rejected before and is not represented.  A string
    is a sequence of one-byte characters, so lengths are those of ASCII text. *)

From S2P Require Import Prelude PyBase Models RedisServer Effects Cron Store Executor.

(** ** Payloads *)

Record JobBase := {
  jb_name : string;
  jb_description : option string;
  jb_category : option string;
  jb_task_type : string;
  jb_task_spec : list (string * json);
  jb_schedule_type : string;
  jb_schedule_expr : option string;
  jb_timezone : string;
  jb_enabled : bool;
  jb_max_retries : Z;
  jb_retry_backoff_sec : Z;
  jb_timeout_sec : Z;
  jb_depends_on : list Z
}.

(** [JobUpdate]: a field is absent ([None]), explicitly null ([Some None]) or has
    a value. *)
Record JobUpdate := {
  ju_description : option (option string);
  ju_category : option (option string);
  ju_task_type : option (option string);
  ju_task_spec : option (option (list (string * json)));
  ju_schedule_type : option (option string);
  ju_schedule_expr : option (option string);
  ju_timezone : option (option string);
  ju_enabled : option (option bool);
  ju_max_retries : option (option Z);
  ju_retry_backoff_sec : option (option Z);
  ju_timeout_sec : option (option Z);
  ju_depends_on : option (option (list Z))
}.

(** ** Checks *)

(** [Field(min_length=lo, max_length=hi)], [Field(ge=lo, le=hi)] *)
Definition length_ok (lo hi : nat) (s : string) : bool :=
  (lo <=? String.length s)%nat && (String.length s <=? hi)%nat.
Definition range_ok (lo hi n : Z) : bool := (lo <=? n) && (n <=? hi).

Definition fields_ok (p : JobBase) : bool :=
  length_ok 1 255 (jb_name p)
  && match jb_category p with None => true | Some c => length_ok 0 64 c end
  && range_ok 0 100 (jb_max_retries p)
  && range_ok 0 86400 (jb_retry_backoff_sec p)
  && range_ok 1 86400 (jb_timeout_sec p).

Definition validate_task_type (p : JobBase) : bool :=
  bool_decide (jb_task_type p ∈ TaskType.ALL).
Definition validate_schedule_type (p : JobBase) : bool :=
  bool_decide (jb_schedule_type p ∈ ScheduleType.ALL).

(** [spec.get(k)] has a true value *)
Definition spec_has (k : string) (spec : list (string * json)) : bool :=
  match dict_get k spec with None => false | Some v => truthy v end.

(** [_validate_task_spec] *)
Definition validate_task_spec (p : JobBase) : bool :=
  if bool_decide (jb_task_type p ∈ [TaskType.HTTP; TaskType.HTTP_ASYNC])
  then spec_has "url" (jb_task_spec p)
  else if bool_decide (jb_task_type p = TaskType.SHELL)
  then spec_has "command" (jb_task_spec p)
  else true.

Section schemas.
Context `{Croniter}.

(** The body of [_validate_schedule_expr] before it checks the task. *)
Definition schedule_expr_ok (p : JobBase) : bool :=
  if bool_decide (jb_schedule_type p = ScheduleType.CRON) then
    match jb_schedule_expr p with
    | None => false
    | Some e => negb (String.eqb e "") && cron_is_valid e
    end
  else if bool_decide (jb_schedule_type p = ScheduleType.INTERVAL) then
    match jb_schedule_expr p with
    | None => false
    | Some e => negb (String.eqb e "") && isdigit e
                && match py_int e with Some n => 0 <? n | None => false end
    end
  else true.

(** [_validate_schedule_expr] *)
Definition validate_schedule_expr (p : JobBase) : bool :=
  schedule_expr_ok p && validate_task_spec p.

(** [JobBase(...)] succeeds. *)
Definition job_base_valid (p : JobBase) : bool :=
  fields_ok p && validate_task_type p && validate_schedule_type p && validate_schedule_expr p.

(** The bounds [JobUpdate] itself declares. *)
Definition job_update_valid (u : JobUpdate) : bool :=
  match ju_category u with Some (Some c) => length_ok 0 64 c | _ => true end
  && match ju_max_retries u with Some (Some n) => range_ok 0 100 n | _ => true end
  && match ju_retry_backoff_sec u with Some (Some n) => range_ok 0 86400 n | _ => true end
  && match ju_timeout_sec u with Some (Some n) => range_ok 1 86400 n | _ => true end.

(** ** What the rest of the system can rely on *)

(** Digits only: [int] cannot fail. *)
Lemma isdigit_not_empty e : isdigit e = true → e ≠ ""%string.
Proof. by intros He ->. Qed.

Lemma interval_next_run p e tz t :
  jb_schedule_type p = ScheduleType.INTERVAL → jb_schedule_expr p = Some e →
  schedule_expr_ok p = true →
  ∃ n, py_int e = Some n ∧ 0 < n ∧
    next_run_time (jb_schedule_type p) (jb_schedule_expr p) tz t = (t' ← add_seconds t n; Ok (Some t')).
Proof.
  intros Ht He Hok. unfold schedule_expr_ok in Hok. rewrite Ht, He in Hok. simpl in Hok.
  apply andb_true_iff in Hok as [[Hne Hd]%andb_true_iff Hn].
  destruct (py_int e) as [n|] eqn:Hp; [|done]. apply Z.ltb_lt in Hn.
  exists n. split; [done|]. split; [done|]. unfold next_run_time. rewrite Ht, He. simpl.
  rewrite Hd, Hp. apply negb_true_iff in Hne. rewrite Hne. simpl.
  by rewrite (proj2 (Z.leb_gt n 0)) by lia.
Qed.

(** C33: An accepted job can be executed.  For every payload [JobBase] accepts there
    is a registered executor; the name is not empty and the numbers are in their
    documented ranges; the task has the field its executor requires; an interval
    schedule has a positive number of seconds and its next fire time is that much
    later, or the date overflows, and never any other error. *)
Theorem accepted_job_runnable `{RedisServer, !Executors} (p : JobBase) :
  job_base_valid p = true →
  (∃ x, get_executor (jb_task_type p) = Ok x) ∧
  (1 ≤ String.length (jb_name p) ≤ 255)%nat ∧
  0 ≤ jb_max_retries p ≤ 100 ∧ 0 ≤ jb_retry_backoff_sec p ≤ 86400 ∧
  1 ≤ jb_timeout_sec p ≤ 86400 ∧
  (jb_task_type p = TaskType.SHELL → spec_has "command" (jb_task_spec p) = true) ∧
  (jb_task_type p = TaskType.HTTP ∨ jb_task_type p = TaskType.HTTP_ASYNC →
     spec_has "url" (jb_task_spec p) = true) ∧
  (jb_schedule_type p = ScheduleType.INTERVAL → ∃ n, 0 < n ∧ ∀ tz t,
     next_run_time (jb_schedule_type p) (jb_schedule_expr p) tz t = Ok (Some (t + n * usec)) ∨
     next_run_time (jb_schedule_type p) (jb_schedule_expr p) tz t = Raise OverflowError).
Proof.
  unfold job_base_valid, fields_ok, length_ok, range_ok, validate_task_type, validate_schedule_expr.
  rewrite !andb_true_iff, bool_decide_eq_true, !Z.leb_le, !Nat.leb_le.
  intros [[[[[[[? _] ?] ?] ?] Htt] _] [Hse Hts]].
  split; [by apply get_executor_total|]. do 4 (split; [done|]).
  unfold validate_task_spec in Hts. split; [|split].
  - intros E. by rewrite E in Hts.
  - intros [E|E]; by rewrite E in Hts.
  - intros E. destruct (jb_schedule_expr p) as [e|] eqn:He.
    2: { unfold schedule_expr_ok in Hse. by rewrite E, He in Hse. }
    assert (∃ n, py_int e = Some n ∧ 0 < n) as (n & Hp & Hn).
    { destruct (interval_next_run p e "" 0 E He Hse) as (n & ? & ? & _). eauto. }
    exists n. split; [done|]. intros tz t.
    destruct (interval_next_run p e tz t E He Hse) as (n' & Hp' & _ & Hnext).
    rewrite He in Hnext. rewrite Hnext. simplify_eq. unfold add_seconds. repeat case_match; auto.
Qed.

End schemas.

(** ** Evaluation *)

#[local] Existing Instances reference_redis reference_croniter echo_executors.

Definition demo_payload : JobBase :=
  {| jb_name := "report"; jb_description := None; jb_category := None;
     jb_task_type := TaskType.SHELL; jb_task_spec := [("command"%string, JStr "true")];
     jb_schedule_type := ScheduleType.INTERVAL; jb_schedule_expr := Some "60"%string;
     jb_timezone := "UTC"; jb_enabled := true; jb_max_retries := 2; jb_retry_backoff_sec := 30;
     jb_timeout_sec := 300; jb_depends_on := [] |}.

Lemma accepted_job_runnable_witness :
  job_base_valid demo_payload = true ∧
  (∃ x, get_executor (jb_task_type demo_payload) = Ok x) ∧ 1 ≤ jb_timeout_sec demo_payload ≤ 86400.
Proof.
  assert (job_base_valid demo_payload = true) as Hv by (vm_compute; reflexivity).
  destruct (accepted_job_runnable demo_payload Hv) as (Hx & _ & _ & _ & Ht & _).
  split; [exact Hv|]. split; [exact Hx|exact Ht].
Defined.
