(* ===== verification/Crud.v ===== *)
(** * Jobs of the API: [backend/api/crud.py]

    The functions work on the session of the request and commit themselves.  The
    arguments of their statements are checked where PostgreSQL casts them ([bind_text],
    [bind_id], [bind_offset]), the values of a row where it is stored ([stored_job]). *)

From S2P Require Import Prelude PyBase Models RedisServer Effects Database RedisQueue Cron Demo.
From S2P Require Import Store Executor Schemas.

(** The dictionary of [job_to_dict]. *)
Record JobOut := {
  jo_id : Z;
  jo_owner_user_id : option Z;
  jo_name : string;
  jo_description : option string;
  jo_category : option string;
  jo_task_type : string;
  jo_task_spec : list (string * json);
  jo_schedule_type : string;
  jo_schedule_expr : option string;
  jo_timezone : string;
  jo_enabled : bool;
  jo_max_retries : Z;
  jo_retry_backoff_sec : Z;
  jo_timeout_sec : Z;
  jo_depends_on : list Z;
  jo_created_at : Z;
  jo_updated_at : Z
}.

(** [str(exc)] of a pydantic [ValidationError]. *)
Class ValidationText := { validation_text : JobUpdate → string }.

(** [str] of a list of integers *)
Definition py_list_str (l : list Z) : string := ("[" ++ py_join ", " (py_str <$> l) ++ "]")%string.

(** ** Merging an update *)

(** [merged[k]] when [k] may be null, and when it may not ([None]: the value null
    does not validate). *)
Definition merge_null {A} (old : option A) (new : option (option A)) : option A := default old new.
Definition merge_value {A} (old : A) (new : option (option A)) : option A :=
  match new with None => Some old | Some v => v end.

(** [depends_on] of the payload, once popped: absent and null are the same. *)
Definition update_deps (u : JobUpdate) : option (list Z) := mjoin (ju_depends_on u).

(** The arguments [merged] and [depends_on or []] of [JobBase], before its
    validators. *)
Definition merged (j : Job) (u : JobUpdate) : option JobBase :=
  tt ← merge_value (task_type j) (ju_task_type u);
  sp ← merge_value (task_spec j) (ju_task_spec u);
  st ← merge_value (schedule_type j) (ju_schedule_type u);
  tz ← merge_value (timezone j) (ju_timezone u);
  en ← merge_value (enabled j) (ju_enabled u);
  mr ← merge_value (max_retries j) (ju_max_retries u);
  rb ← merge_value (retry_backoff_sec j) (ju_retry_backoff_sec u);
  ts ← merge_value (timeout_sec j) (ju_timeout_sec u);
  Some {| jb_name := name j; jb_description := merge_null (description j) (ju_description u);
          jb_category := merge_null (category j) (ju_category u); jb_task_type := tt;
          jb_task_spec := sp; jb_schedule_type := st;
          jb_schedule_expr := merge_null (schedule_expr j) (ju_schedule_expr u);
          jb_timezone := tz; jb_enabled := en; jb_max_retries := mr; jb_retry_backoff_sec := rb;
          jb_timeout_sec := ts; jb_depends_on := default [] (update_deps u) |}.

(** [for key, value in data.items(): setattr(job, key, value)] *)
Definition apply_update (u : JobUpdate) (j : Job) : Job := {|
  job_id := job_id j; owner_user_id := owner_user_id j; name := name j;
  description := merge_null (description j) (ju_description u);
  category := merge_null (category j) (ju_category u);
  task_type := default (task_type j) (merge_value (task_type j) (ju_task_type u));
  task_spec := default (task_spec j) (merge_value (task_spec j) (ju_task_spec u));
  schedule_type := default (schedule_type j) (merge_value (schedule_type j) (ju_schedule_type u));
  schedule_expr := merge_null (schedule_expr j) (ju_schedule_expr u);
  timezone := default (timezone j) (merge_value (timezone j) (ju_timezone u));
  enabled := default (enabled j) (merge_value (enabled j) (ju_enabled u));
  max_retries := default (max_retries j) (merge_value (max_retries j) (ju_max_retries u));
  retry_backoff_sec :=
    default (retry_backoff_sec j) (merge_value (retry_backoff_sec j) (ju_retry_backoff_sec u));
  timeout_sec := default (timeout_sec j) (merge_value (timeout_sec j) (ju_timeout_sec u));
  last_scheduled_for := last_scheduled_for j; job_created_at := job_created_at j;
  job_updated_at := job_updated_at j |}.

Section crud.
Context `{RedisServer, Postgres, Croniter, ValidationText}.

(** ** Operations *)

(** [_dependency_ids] *)
Definition dependency_ids (job : Z) : M (list Z) :=
  rows ← select_deps (λ e, dep_job_id e = job); mret (depends_on_job_id <$> rows).

(** [_validate_dependencies] *)
Definition validate_dependencies (job : option Z) (owner : option Z) (depends_on : list Z) : M unit :=
  let unique := dict_fromkeys depends_on in
  if decide (is_Some (j ← job; if decide (j ∈ unique) then Some j else None))
  then raise (CrudError "a job cannot depend on itself")
  else match unique with
  | [] => mret tt
  | _ =>
      for_each unique (bind_id jobs);;
      found ← select_jobs (λ j, job_id j ∈ unique ∧ owner_user_id j = owner);
      let missing := filter (λ k, k ∉ job_id <$> found) unique in
      match missing with
      | [] => mret tt
      | _ => raise (CrudError ("unknown dependency job ids: "
                               ++ py_list_str (merge_sort Z.le missing)))
      end
  end.

(** [_set_dependencies] *)
Definition set_dependencies (job : Z) (depends_on : list Z) : M unit :=
  delete_deps_of job;; for_each (dict_fromkeys depends_on) (insert_dep job).

Definition job_to_dict (j : Job) : M JobOut :=
  deps ← dependency_ids (job_id j);
  mret {| jo_id := job_id j; jo_owner_user_id := owner_user_id j; jo_name := name j;
          jo_description := description j; jo_category := category j; jo_task_type := task_type j;
          jo_task_spec := task_spec j; jo_schedule_type := schedule_type j;
          jo_schedule_expr := schedule_expr j; jo_timezone := timezone j; jo_enabled := enabled j;
          jo_max_retries := max_retries j; jo_retry_backoff_sec := retry_backoff_sec j;
          jo_timeout_sec := timeout_sec j; jo_depends_on := deps;
          jo_created_at := job_created_at j; jo_updated_at := job_updated_at j |}.

(** The row [Job(...)] gets when it is flushed. *)
Definition new_job (owner now : Z) (p : JobBase) (i : Z) : Job :=
  {| job_id := i; owner_user_id := Some owner; name := jb_name p;
     description := jb_description p; category := jb_category p; task_type := jb_task_type p;
     task_spec := jb_task_spec p; schedule_type := jb_schedule_type p;
     schedule_expr := jb_schedule_expr p; timezone := jb_timezone p; enabled := jb_enabled p;
     max_retries := jb_max_retries p; retry_backoff_sec := jb_retry_backoff_sec p;
     timeout_sec := jb_timeout_sec p; last_scheduled_for := None;
     job_created_at := now; job_updated_at := now |}.

(** [session.refresh(job)] *)
Definition refresh_job (i : Z) : M Job :=
  o ← get_job_row i; match o with Some j => mret j | None => raise DbError end.

Definition create_job (p : JobBase) (owner : Z) : M Job :=
  bind_text (jb_name p);;
  existing ← (rows ← select_jobs (λ j, owner_user_id j = Some owner ∧ name j = jb_name p);
              scalar_one_or_none rows);
  match existing with
  | Some _ => raise (CrudError ("job name '" ++ jb_name p ++ "' already exists"))
  | None =>
      validate_dependencies None (Some owner) (jb_depends_on p);;
      now ← utcnow;
      j ← insert_job (new_job owner now p);
      set_dependencies (job_id j) (jb_depends_on p);;
      commit;;
      refresh_job (job_id j)
  end.

Definition get_job (i owner : Z) : M (option Job) :=
  bind_id jobs i;;
  rows ← select_jobs (λ j, job_id j = i ∧ owner_user_id j = Some owner); scalar_one_or_none rows.

Definition id_le (j j' : Job) : Prop := job_id j ≤ job_id j'.
#[global] Instance id_le_dec : RelDecision id_le.
Proof. intros j j'. unfold id_le. apply _. Defined.

Definition list_jobs (owner : Z) (en : option bool) (limit offset : Z) : M (list Job) :=
  bind_offset offset;;
  rows ← select_jobs (λ j, owner_user_id j = Some owner ∧ where_opt en (enabled j));
  mret (limit_offset limit offset (merge_sort id_le rows)).

Definition update_job (j : Job) (u : JobUpdate) : M Job :=
  match update_deps u with
  | Some ds => validate_dependencies (Some (job_id j)) (owner_user_id j) ds
  | None => mret tt
  end;;
  match merged j u with
  | None => raise (CrudError (validation_text u))
  | Some p =>
      if job_base_valid p then
        update_job_row (job_id j) (apply_update u);;
        match update_deps u with
        | Some ds => set_dependencies (job_id j) ds
        | None => mret tt
        end;;
        commit;;
        refresh_job (job_id j)
      else raise (CrudError (validation_text u))
  end.

Definition delete_job (j : Job) : M unit := delete_job_row (job_id j);; commit.

(** ** Invariants *)

Lemma steps_for_each {A} (l : list A) f : (∀ x, steps evolves (f x)) → steps evolves (for_each l f).
Proof.
  intros Hf. induction l as [|x l IH]; simpl; [apply steps_ret, _|].
  apply steps_bind; [apply _|apply Hf|done].
Qed.

Lemma set_dependencies_steps job ds : steps evolves (set_dependencies job ds).
Proof.
  apply steps_bind; [apply _|apply steps_delete_deps_of|]. intros _. apply steps_for_each.
  intros p. apply steps_insert_dep.
Qed.

Lemma set_dependencies_respects job ds : respects evolves (set_dependencies job ds).
Proof. apply steps_respects; [apply _|apply set_dependencies_steps]. Qed.
#[local] Hint Resolve set_dependencies_respects : respect.

Lemma validate_dependencies_respects job o ds : respects evolves (validate_dependencies job o ds).
Proof. unfold validate_dependencies. respect. Qed.
#[local] Hint Resolve validate_dependencies_respects : respect.

Lemma insert_new_job_respects owner now p : respects evolves (insert_job (new_job owner now p)).
Proof. apply steps_respects; [apply _|by apply steps_insert_job]. Qed.
#[local] Hint Resolve insert_new_job_respects : respect.

Lemma create_job_respects p owner : respects evolves (create_job p owner).
Proof. unfold create_job, refresh_job. respect. Qed.

Lemma update_job_respects j u : respects evolves (update_job j u).
Proof.
  unfold update_job, refresh_job. respect.
  apply steps_respects; [apply _|by apply steps_update_job_row].
Qed.

Lemma delete_job_respects j : respects evolves (delete_job j).
Proof. unfold delete_job. respect. Qed.

(** ** Reading *)

(** A check of an argument of a statement. *)
Definition gate (m : M unit) : Prop := ∀ w, m w = (Ok tt, w) ∨ m w = (Raise DataError, w).

Lemma gate_text s : gate (bind_text s).
Proof. intros w. unfold bind_text. destruct (text_ok s); auto. Qed.
Lemma gate_offset n : gate (bind_offset n).
Proof. intros w. unfold bind_offset. destruct (in_width 32 n); auto. Qed.
Lemma gate_id {A} (table : Db → gmap Z A) i : gate (bind_id table i).
Proof. intros w. rewrite bind_id_eq. destruct (bigint _ i); auto. Qed.

Lemma gate_inv {A} (m : M unit) (k : M A) w y w' :
  gate m → (m;; k) w = (Ok y, w') → k w = (Ok y, w').
Proof. intros Hm. unfold mbind, M_bind. by destruct (Hm w) as [-> | ->]. Qed.

Lemma get_job_eq i u w :
  db_wf (w_db w) →
  get_job i u w =
    (if bigint (jobs (w_db w)) i then
       Ok (match jobs (w_db w) !! i with
           | Some j => if decide (owner_user_id j = Some u) then Some j else None
           | None => None
           end)
     else Raise DataError, w).
Proof.
  intros W. unfold get_job. pose proof (bind_id_eq jobs i w) as E. destruct (bigint _ i).
  2: { by rewrite (bind_raise _ _ _ _ _ E). }
  rewrite (bind_ok _ _ _ _ _ E). unfold select_jobs, mbind, M_bind, read.
  rewrite (select_key job_id (λ j, owner_user_id j = Some u)) by (intros; by apply (wf_job_key _ W)).
  destruct (jobs (w_db w) !! i) as [j|]; [|done]. by case_decide.
Qed.

(** ** Dependencies *)

(** Job [a] depends on job [b]. *)
Definition edge (d : Db) (a b : Z) : Prop :=
  ∃ i e, deps d !! i = Some e ∧ dep_job_id e = a ∧ depends_on_job_id e = b.

(** Everything but the dependencies is the same. *)
Definition same_but_deps (d d' : Db) : Prop :=
  users d' = users d ∧ jobs d' = jobs d ∧ runs d' = runs d ∧ logs d' = logs d.

Lemma dep_free_edge d a b : dep_free d a b ↔ ¬ edge d a b.
Proof. unfold dep_free, edge, map_Forall. naive_solver. Qed.

Lemma insert_dep_eq a b w :
  is_Some (jobs (w_db w) !! a) → is_Some (jobs (w_db w) !! b) → ¬ edge (w_db w) a b →
  (∀ i e, deps (w_db w) !! i = Some e → i < deps_seq (w_db w)) →
  ∃ d', insert_dep a b w = (Ok tt, with_db d' w) ∧ same_but_deps (w_db w) d' ∧
    (∀ i e, deps d' !! i = Some e → i < deps_seq d') ∧
    ∀ x y, edge d' x y ↔ edge (w_db w) x y ∨ x = a ∧ y = b.
Proof.
  intros Ha Hb Hne Hseq. set (d := w_db w) in *.
  set (row := {| dep_id := deps_seq d; dep_job_id := a; depends_on_job_id := b |}).
  exists (with_deps (<[deps_seq d := row]> (deps d)) (next_deps d)). split.
  { unfold insert_dep. rewrite decide_True; [done|]. by rewrite dep_free_edge. }
  assert (deps d !! deps_seq d = None) as Hfresh.
  { destruct (deps d !! deps_seq d) eqn:E; [|done]. apply Hseq in E. lia. }
  split; [done|]. split.
  - simpl. intros i e [[<- _]|[_ He]]%lookup_insert_Some; [lia|]. apply Hseq in He. lia.
  - intros x y. unfold edge. simpl. split.
    + intros (i & e & [[<- <-]|[_ He]]%lookup_insert_Some & <- & <-); [by right|left; eauto].
    + intros [(i & e & He & Hx)|[-> ->]].
      * exists i, e. rewrite lookup_insert_ne; [done|]. intros <-. congruence.
      * exists (deps_seq d), row. by rewrite lookup_insert_eq.
Qed.

Lemma insert_deps_eq a l w :
  NoDup l → is_Some (jobs (w_db w) !! a) →
  (∀ b, b ∈ l → is_Some (jobs (w_db w) !! b) ∧ ¬ edge (w_db w) a b) →
  (∀ i e, deps (w_db w) !! i = Some e → i < deps_seq (w_db w)) →
  ∃ d', for_each l (insert_dep a) w = (Ok tt, with_db d' w) ∧ same_but_deps (w_db w) d' ∧
    ∀ x y, edge d' x y ↔ edge (w_db w) x y ∨ x = a ∧ y ∈ l.
Proof.
  revert w. induction l as [|b l IH]; intros w Hnd Ha Hl Hseq.
  { exists (w_db w). split; [by destruct w|]. split; [done|]. set_solver. }
  apply NoDup_cons in Hnd as [Hb Hnd].
  destruct (Hl b) as [Hjb Hnb]; [set_solver|].
  destruct (insert_dep_eq a b w Ha Hjb Hnb Hseq) as (d1 & E1 & Hs1 & Hseq1 & He1).
  pose proof Hs1 as (_ & Hj1 & _).
  destruct (IH (with_db d1 w)) as (d2 & E2 & Hs2 & He2); simpl; try done.
  { by rewrite Hj1. }
  { intros c Hc. rewrite Hj1, He1. destruct (Hl c) as [? ?]; [set_solver|].
    split; [done|]. intros [?|[_ ->]]; done. }
  exists d2. split; [by rewrite (bind_ok _ _ _ _ _ E1)|]. split.
  - destruct Hs1 as (? & ? & ? & ?), Hs2 as (? & ? & ? & ?). simpl in *. repeat split; congruence.
  - intros x y. rewrite He2. simpl. rewrite He1, elem_of_cons. naive_solver.
Qed.

Lemma set_dependencies_eq job ds w :
  db_wf (w_db w) → is_Some (jobs (w_db w) !! job) →
  (∀ k, k ∈ ds → is_Some (jobs (w_db w) !! k)) →
  ∃ d', set_dependencies job ds w = (Ok tt, with_db d' w) ∧ same_but_deps (w_db w) d' ∧
    ∀ x y, edge d' x y ↔ x ≠ job ∧ edge (w_db w) x y ∨ x = job ∧ y ∈ ds.
Proof.
  intros W Hj Hds. set (d := w_db w).
  set (d1 := with_deps (filter (λ e, dep_job_id e.2 ≠ job) (deps d)) d).
  assert (∀ x y, edge d1 x y ↔ x ≠ job ∧ edge d x y) as He1.
  { intros x y. unfold edge, d1. simpl. split.
    - intros (i & e & [He Hne]%map_lookup_filter_Some & <- & <-). eauto 6.
    - intros (Hne & i & e & He & <- & <-). exists i, e. by rewrite map_lookup_filter_Some. }
  destruct (insert_deps_eq job (dict_fromkeys ds) (with_db d1 w)) as (d2 & E2 & Hs2 & He2); simpl.
  - apply NoDup_dict_fromkeys.
  - done.
  - intros b Hb. rewrite elem_of_dict_fromkeys in Hb. split; [by apply Hds|]. rewrite He1. by intros [? _].
  - intros i e [He _]%map_lookup_filter_Some. by apply (wf_dep_key _ W) in He as [_ ?].
  - exists d2. split; [unfold set_dependencies; by rewrite (bind_ok (delete_deps_of job) _ w tt (with_db d1 w))|].
    split; [done|]. intros x y. rewrite He2. simpl. by rewrite He1, elem_of_dict_fromkeys.
Qed.

(** A job of user [owner]. *)
Definition owned (d : Db) (owner : option Z) (k : Z) : Prop :=
  ∃ j, jobs d !! k = Some j ∧ owner_user_id j = owner.

(** Every number can be compared with the keys of the table. *)
Definition bigints (d : Db) (ds : list Z) : Prop := Forall (λ k, bigint (jobs d) k = true) ds.
#[global] Instance bigints_dec d ds : Decision (bigints d ds).
Proof. unfold bigints. apply _. Defined.

Lemma owned_bigints d owner ds : (∀ k, k ∈ ds → owned d owner k) → bigints d ds.
Proof.
  intros Ho. apply Forall_forall. intros k Hk. destruct (Ho k Hk) as (j & Hj & _).
  unfold bigint. rewrite bool_decide_eq_true_2 by eauto. apply orb_true_r.
Qed.

Lemma bind_ids_eq l w :
  for_each l (bind_id jobs) w =
    (if decide (bigints (w_db w) l) then Ok tt else Raise DataError, w).
Proof.
  induction l as [|k l IH]; cbn [for_each]; [by rewrite decide_True by constructor|].
  unfold mbind, M_bind. rewrite bind_id_eq. destruct (bigint _ k) eqn:E.
  - rewrite IH. destruct (decide (bigints _ l)) as [Hl|Hl].
    + by rewrite decide_True by (by constructor).
    + by rewrite decide_False by (by intros [_ ?]%Forall_cons).
  - by rewrite decide_False by (intros [? _]%Forall_cons; congruence).
Qed.

Lemma validate_dependencies_eq job owner ds w :
  db_wf (w_db w) →
  (job ∉ Some <$> ds → (∀ k, k ∈ ds → owned (w_db w) owner k) →
     validate_dependencies job owner ds w = (Ok tt, w)) ∧
  (job ∈ Some <$> ds ∨ bigints (w_db w) ds ∧ (∃ k, k ∈ ds ∧ ¬ owned (w_db w) owner k) →
     ∃ msg, validate_dependencies job owner ds w = (Raise (CrudError msg), w)) ∧
  (job ∉ Some <$> ds → ¬ bigints (w_db w) ds →
     validate_dependencies job owner ds w = (Raise DataError, w)).
Proof.
  intros W. unfold validate_dependencies. set (u := dict_fromkeys ds).
  assert (is_Some (j ← job; if decide (j ∈ u) then Some j else None) ↔ job ∈ Some <$> ds) as Hself.
  { destruct job as [j|]; simpl.
    - rewrite list_elem_of_fmap. case_decide as Hd; unfold u in Hd;
        rewrite elem_of_dict_fromkeys in Hd; [naive_solver|].
      split; [by intros []|]. naive_solver.
    - rewrite list_elem_of_fmap. split; [by intros []|naive_solver]. }
  set (found := filter (λ j, job_id j ∈ u ∧ owner_user_id j = owner) (heap_scan (jobs (w_db w)))).
  set (missing := filter (λ k, k ∉ job_id <$> found) u).
  assert (∀ k, k ∈ missing ↔ k ∈ ds ∧ ¬ owned (w_db w) owner k) as Hmiss.
  { intros k. unfold missing, found. rewrite list_elem_of_filter, list_elem_of_fmap.
    setoid_rewrite elem_of_select. unfold u. rewrite elem_of_dict_fromkeys.
    setoid_rewrite elem_of_dict_fromkeys. unfold owned. split.
    - intros [Hn Hk]. split; [done|]. intros (j & Hj & Ho). apply Hn. exists j.
      destruct (wf_job_key _ W _ _ Hj) as [-> _]. eauto.
    - intros [Hk Hn]. split; [|done]. intros (j & -> & i & Hi & _ & Ho). apply Hn. exists j.
      by destruct (wf_job_key _ W _ _ Hi) as [-> _]. }
  assert (bigints (w_db w) u ↔ bigints (w_db w) ds) as Hbig.
  { unfold bigints. rewrite !Forall_forall. unfold u. by setoid_rewrite elem_of_dict_fromkeys. }
  match goal with |- (_ → _ → (if _ then _ else ?m) w = _) ∧ _ =>
    assert (m w = (if decide (bigints (w_db w) u) then
                    match missing with
                    | [] => mret tt
                    | _ => raise (CrudError ("unknown dependency job ids: "
                                             ++ py_list_str (merge_sort Z.le missing)))
                    end
                   else raise DataError) w) as Hm end.
  { unfold missing, found. destruct u as [|k l] eqn:Eu; [by rewrite decide_True by constructor|].
    pose proof (bind_ids_eq (k :: l) w) as E. destruct (decide _).
    - by rewrite (bind_ok _ _ _ _ _ E).
    - by rewrite (bind_raise _ _ _ _ _ E). }
  split; [|split].
  - intros Hns Hall. rewrite decide_False by (by rewrite Hself).
    assert (missing = []) as Hnil.
    { apply elem_of_nil_inv. intros k [Hk Hn]%Hmiss. by apply Hn, Hall. }
    rewrite Hm, decide_True by (apply Hbig; by eapply owned_bigints). by rewrite Hnil.
  - intros [Hs|(Hb & k & Hk & Hn)].
    { rewrite decide_True by (by rewrite Hself). by eexists. }
    match goal with |- ∃ _, (if ?c then _ else _) w = _ => destruct c end; [by eexists|].
    assert (k ∈ missing) as Hkm by by apply Hmiss.
    rewrite Hm, decide_True by (by apply Hbig). destruct missing; [set_solver|]. by eexists.
  - intros Hns Hb. rewrite decide_False by (by rewrite Hself).
    by rewrite Hm, decide_False by (by rewrite Hbig).
Qed.

(** The name is in use by the user. *)
Definition name_taken (d : Db) (owner : Z) (n : string) : Prop :=
  ∃ k j, jobs d !! k = Some j ∧ owner_user_id j = Some owner ∧ name j = n.

Lemma name_taken_free d owner n : ¬ name_taken d owner n → name_free d (Some owner) n.
Proof. intros Hn k j Hk [Ho Hna]. apply Hn. by exists k, j. Qed.

Lemma existing_job_eq owner n w :
  db_wf (w_db w) →
  ∃ o, (rows ← select_jobs (λ j, owner_user_id j = Some owner ∧ name j = n);
        scalar_one_or_none rows) w = (Ok o, w) ∧ (is_Some o ↔ name_taken (w_db w) owner n).
Proof.
  intros W. unfold select_jobs, mbind, M_bind, read. cbn beta iota.
  set (P := λ j, owner_user_id j = Some owner ∧ name j = n). set (l := filter _ _).
  assert (∀ j, j ∈ l ↔ ∃ k, jobs (w_db w) !! k = Some j ∧ P j) as Hl
    by (intros j; apply (elem_of_select P)).
  pose proof (select_keys_nodup job_id P (jobs (w_db w))
    (λ k j Hk, proj1 (wf_job_key _ W k j Hk))) as Hnd. fold l in Hnd.
  destruct l as [|j [|j' l']].
  - exists None. split; [done|]. split; [by intros []|]. intros (k & j & Hk & HP).
    exfalso. apply (not_elem_of_nil j), Hl. by exists k.
  - exists (Some j). split; [done|]. split; [|done]. intros _.
    destruct (proj1 (Hl j)) as (k & Hk & HP); [set_solver|]. by exists k, j.
  - exfalso. destruct (proj1 (Hl j)) as (k & Hk & Ho & Hn); [set_solver|].
    destruct (proj1 (Hl j')) as (k' & Hk' & Ho' & Hn'); [set_solver|].
    assert (k = k') as -> by (apply (wf_job_name _ W k k' j j' owner); congruence).
    simplify_eq. apply NoDup_cons in Hnd as [Hni _]. set_solver.
Qed.

Lemma stored_new_job owner now p i j' :
  stored_job None (new_job owner now p i) = Some j' →
  job_id j' = i ∧ owner_user_id j' = Some owner ∧ (job_base_valid p = true → name j' = jb_name p).
Proof.
  intros (Hid & Ho & Hn)%stored_job_keys. split; [done|]. split; [done|]. intros Hv.
  unfold assign in Hn. rewrite decide_False in Hn by done. simpl in Hn. unfold varchar in Hn.
  unfold job_base_valid, fields_ok, length_ok in Hv. rewrite !andb_true_iff in Hv.
  destruct Hv as [[[[[[[[_ Hlen] _] _] _] _] _] _] _]. rewrite Hlen in Hn. by case_match; simplify_eq.
Qed.

(** C31: Creating a job from a validated payload.  A name the user already has, or a
    dependency that is not a job of the user, is refused with [CrudError]; a text with a NUL
    character, a dependency beyond [BIGINT], or a value too long for its column (the
    validators bound neither [timezone] nor [schedule_expr]) with [DataError]; nothing
    changes then.  Otherwise the job is stored under a new number with the payload's
    columns, exactly if they fit and else without the blanks a column cuts off, its
    dependencies are exactly the listed ones, and no other job, dependency or run
    changes. *)
Theorem create_job_exact (p : JobBase) (owner : Z) (w : World) :
  clean w → w_faults w = [] → db_wf (w_db w) → is_Some (users (w_db w) !! owner) →
  job_base_valid p = true →
  let d := w_db w in
  let j := new_job owner (w_clock w) p (jobs_seq d) in
  let ds := jb_depends_on p in
  (text_ok (jb_name p) = false → create_job p owner w = (Raise DataError, w)) ∧
  (text_ok (jb_name p) = true → name_taken d owner (jb_name p) ∨
     bigints d ds ∧ (∃ k, k ∈ ds ∧ ¬ owned d (Some owner) k) →
     ∃ msg, create_job p owner w = (Raise (CrudError msg), w)) ∧
  (text_ok (jb_name p) = true → ¬ name_taken d owner (jb_name p) → ¬ bigints d ds →
     create_job p owner w = (Raise DataError, w)) ∧
  (¬ name_taken d owner (jb_name p) → (∀ k, k ∈ ds → owned d (Some owner) k) →
     match stored_job None j with
     | None => create_job p owner w = (Raise DataError, w)
     | Some j' => (job_fits j = true → j' = j) ∧
         ∃ d', create_job p owner w = (Ok j', committed d' w) ∧
           jobs d' = <[jobs_seq d := j']> (jobs d) ∧ users d' = users d ∧ runs d' = runs d ∧
           ∀ x y, edge d' x y ↔ edge d x y ∨ x = jobs_seq d ∧ y ∈ ds
     end).
Proof.
  intros Hc Hf W Hu Hv d j ds. unfold create_job, bind_text.
  destruct (existing_job_eq owner (jb_name p) w W) as (o & Eo & Ho).
  destruct (validate_dependencies_eq None (Some owner) ds w W) as (Hok & Hbad & Hbig).
  assert (None ∉ Some <$> ds) as Hns by (intros (? & ? & _)%list_elem_of_fmap; done).
  destruct (text_ok (jb_name p)) eqn:Htext; cycle 1.
  { split; [done|]. split; [done|]. split; [done|]. intros _ _.
    assert (stored_job None j = None) as ->; [|done].
    unfold stored_job, assign. simpl. unfold varchar. by rewrite Htext. }
  split; [done|]. erewrite bind_ok by done. rewrite (bind_ok _ _ _ _ _ Eo). destruct o as [j0|].
  { assert (name_taken d owner (jb_name p)) as Ht by (apply Ho; eauto).
    split; [intros _ _; by eexists|]. by split; intros. }
  assert (¬ name_taken d owner (jb_name p)) as Hnt by (intros Ht; by apply Ho in Ht as []).
  split; [|split].
  { intros _ [?|Hb]; [done|]. destruct (Hbad (or_intror Hb)) as [msg E]. exists msg.
    by rewrite (bind_raise _ _ _ _ _ E). }
  { intros _ _ Hb. by rewrite (bind_raise _ _ _ _ _ (Hbig Hns Hb)). }
  intros _ Hall. rewrite (bind_ok _ _ _ _ _ (Hok Hns Hall)). erewrite bind_ok by done.
  destruct (stored_job None j) as [j'|] eqn:Es; cycle 1.
  { erewrite bind_raise; [done|]. unfold insert_job. fold d. fold j. by rewrite Es. }
  destruct (stored_new_job _ _ _ _ _ Es) as (Hid & How & Hnm). specialize (Hnm Hv).
  split; [intros Hfit; rewrite (stored_job_fits _ Hfit) in Es; congruence|].
  set (d1 := with_jobs (<[jobs_seq d := j']> (jobs d)) (next_jobs d)).
  assert (insert_job (new_job owner (w_clock w) p) w = (Ok j', with_db d1 w)) as E1.
  { unfold insert_job. fold d. fold j. rewrite Es, decide_True; [done|]. rewrite How, Hnm.
    split; [done|]. by apply name_taken_free. }
  assert (db_wf d1) as W1.
  { refine (ev_wf d d1 _ W). change d1 with (w_db (with_db d1 w)).
    replace (with_db d1 w) with (insert_job (new_job owner (w_clock w) p) w).2 by (by rewrite E1).
    by apply steps_insert_job. }
  rewrite (bind_ok _ _ _ _ _ E1), Hid.
  destruct (set_dependencies_eq (jobs_seq d) ds (with_db d1 w) W1)
    as (d2 & E2 & (Hus & Hjs & Hrs & _) & He); simpl.
  { rewrite lookup_insert_eq. eauto. }
  { intros k Hk. destruct (Hall k Hk) as (jk & Hjk & _). apply insert_is_Some. eauto. }
  simpl in *. exists d2. split.
  { rewrite (bind_ok _ _ _ _ _ E2). unfold commit, mbind, M_bind, fault_point. simpl. rewrite Hf.
    unfold save, refresh_job, get_job_row, mbind, M_bind, read. simpl.
    by rewrite Hjs, lookup_insert_eq. }
  split; [done|]. split; [done|]. split; [done|]. intros x y. rewrite He.
  assert (∀ x y, edge d1 x y ↔ edge d x y) as Hd1 by done. rewrite Hd1.
  split; [naive_solver|]. intros [Hxy|?]; [left|by right]. split; [|done]. intros ->.
  destruct Hxy as (i & e & Hi & Hje & _). destruct (wf_dep_job _ W _ _ Hi) as [[jj Hjj] _].
  apply (wf_job_key _ W) in Hjj as [_ ?]. unfold d in *. lia.
Qed.

(** ** Stored jobs are valid *)

Definition base_of (j : Job) : JobBase :=
  {| jb_name := name j; jb_description := description j; jb_category := category j;
     jb_task_type := task_type j; jb_task_spec := task_spec j;
     jb_schedule_type := schedule_type j; jb_schedule_expr := schedule_expr j;
     jb_timezone := timezone j; jb_enabled := enabled j; jb_max_retries := max_retries j;
     jb_retry_backoff_sec := retry_backoff_sec j; jb_timeout_sec := timeout_sec j;
     jb_depends_on := [] |}.

(** The row would pass the validation of a payload. *)
Definition job_valid (j : Job) : Prop := job_base_valid (base_of j) = true.
Definition all_jobs_valid (d : Db) : Prop := ∀ i j, jobs d !! i = Some j → job_valid j.

Definition keeps_valid (d d' : Db) : Prop := all_jobs_valid d → all_jobs_valid d'.

#[global] Instance keeps_valid_dbrel : DbRel keeps_valid.
Proof.
  split; [split|].
  - by intros d Hd.
  - intros d1 d2 d3 H12 H23 Hd. by apply H23, H12.
  - by intros d d' _ Hd.
Qed.

Lemma new_job_valid owner now p i : job_base_valid p = true → job_valid (new_job owner now p i).
Proof. done. Qed.

Lemma merged_valid j u p :
  merged j u = Some p → job_base_valid p = true → job_valid (apply_update u j).
Proof.
  unfold merged. intros Hm Hp. repeat (apply bind_Some in Hm as (? & ? & Hm)). injection Hm as <-.
  unfold job_valid, base_of, apply_update. cbn [name description category task_type task_spec schedule_type
    schedule_expr timezone enabled max_retries retry_backoff_sec timeout_sec].
  repeat match goal with E : merge_value _ _ = Some _ |- _ => rewrite E; clear E end. exact Hp.
Qed.

(** A column that is long enough holds what was assigned; another one may have lost blanks
    at the end. *)
Lemma assigned_short n old x y :
  (String.length x ≤ n)%nat → assign (varchar n) old x = Some y → y = x.
Proof.
  intros Hn. unfold assign, varchar. case_decide; [congruence|]. destruct (text_ok x); [|done].
  rewrite (proj2 (Nat.leb_le _ _) Hn). simpl. congruence.
Qed.

Lemma assigned_category n old x y :
  match x with None => true | Some c => length_ok 0 n c end = true →
  assign (varchar_opt n) old x = Some y → y = x.
Proof.
  intros Hn. unfold assign. case_decide; [congruence|]. destruct x as [c|]; simpl; [|congruence].
  apply andb_true_iff in Hn as [_ Hn%Nat.leb_le]. intros E.
  destruct (varchar n c) as [c'|] eqn:Ec; simplify_eq/=. f_equal.
  apply (assigned_short n None c c' Hn). unfold assign. by rewrite decide_False.
Qed.

Lemma assigned_checked {A} `{EqDecision A} (f : A → bool) old x y :
  assign (checked f) old x = Some y → y = x.
Proof. unfold assign, checked. case_decide; [congruence|]. destruct (f x); congruence. Qed.

Lemma assigned_text n old x y :
  assign (varchar_opt (S n)) old x = Some y →
  y = x ∨ ∃ s s' b, x = Some s ∧ y = Some s' ∧ all_blank b = true ∧ s = (s' ++ b)%string ∧
    (s ≠ "" → s' ≠ "")%string.
Proof.
  unfold assign. case_decide; [intros [= ->]; by left|]. destruct x as [s|]; simpl; [|intros [= <-]; by left].
  destruct (varchar (S n) s) as [s'|] eqn:E; [|done]. intros [= <-].
  destruct (varchar_inv _ _ _ E) as (b & Hb & Hs). right. exists s, s', b.
  do 4 (split; [done|]). intros Hne ->. unfold varchar in E. destruct s; [done|].
  repeat case_match; simplify_eq.
Qed.

Lemma digits_no_blank s b : isdigit (s ++ b) = true → all_blank b = true → s ≠ ""%string → b = ""%string.
Proof.
  intros Hd Hb Hs. assert (string_forallb is_digit b = true) as Hd'.
  { destruct s as [|c s]; [done|]. change (String c s ++ b)%string with (String c (s ++ b)) in Hd.
    simpl in Hd. apply andb_true_iff in Hd as [_ Hd]. clear Hs. induction s as [|c' s IH]; [done|].
    apply IH. change (String c' s ++ b)%string with (String c' (s ++ b)) in Hd. simpl in Hd.
    by apply andb_true_iff in Hd as [_ ?]. }
  destruct b as [|c b]; [done|]. simpl in *. apply andb_true_iff in Hb as [Hc _].
  apply Ascii.eqb_eq in Hc as ->. done.
Qed.

Lemma stored_expr_ok p p' :
  jb_schedule_type p' = jb_schedule_type p →
  (jb_schedule_expr p' = jb_schedule_expr p ∨
   ∃ s s' b, jb_schedule_expr p = Some s ∧ jb_schedule_expr p' = Some s' ∧ all_blank b = true ∧
     s = (s' ++ b)%string ∧ (s ≠ "" → s' ≠ "")%string) →
  schedule_expr_ok p = true → schedule_expr_ok p' = true.
Proof.
  unfold schedule_expr_ok. intros -> [->|(s & s' & b & -> & -> & Hb & Hs & Hne)]; [done|].
  case_bool_decide; [|case_bool_decide; [|done]]; rewrite !andb_true_iff, !negb_true_iff, !String.eqb_neq.
  - intros [Hs0 Hv]. split; [by apply Hne|]. rewrite Hs in Hv. by rewrite cron_valid_blanks in Hv.
  - intros ((Hs0 & Hd) & Hn). specialize (Hne Hs0).
    assert (b = ""%string) as -> by (apply (digits_no_blank s'); congruence).
    rewrite string_app_nil_r in Hs. by subst s'.
Qed.

(** The row that is stored for a valid job is one. *)
Lemma stored_job_valid o j j' : stored_job o j = Some j' → job_valid j → job_valid j'.
Proof.
  unfold stored_job. intros E Hv.
  apply bind_Some in E as (nm & En & E). apply bind_Some in E as (ds & _ & E).
  apply bind_Some in E as (cat & Ec & E). apply bind_Some in E as (tt & Et & E).
  apply bind_Some in E as (sp & Esp & E). apply bind_Some in E as (st & Est & E).
  apply bind_Some in E as (se & Ese & E). apply bind_Some in E as (tz & _ & E).
  injection E as <-. unfold job_valid, job_base_valid, fields_ok, validate_task_type,
    validate_schedule_type, validate_schedule_expr in *. rewrite !andb_true_iff in *.
  destruct Hv as [[[[[[[Hn Hc] Hr1] Hr2] Hr3] Htt] Hst] [Hse Hsp]]. simpl in *.
  assert (nm = name j) as ->.
  { eapply assigned_short, En. apply andb_true_iff in Hn as [_ ?%Nat.leb_le]. done. }
  assert (cat = category j) as -> by by eapply assigned_category.
  assert (tt = task_type j) as ->.
  { eapply assigned_short, Et. apply bool_decide_eq_true in Htt. unfold TaskType.ALL in Htt.
    set_unfold in Htt. destruct Htt as [->|[->|[->|[]]]]; apply Nat.leb_le; vm_compute; reflexivity. }
  assert (st = schedule_type j) as ->.
  { eapply assigned_short, Est. apply bool_decide_eq_true in Hst. unfold ScheduleType.ALL in Hst.
    set_unfold in Hst. destruct Hst as [->|[->|[->|[]]]]; apply Nat.leb_le; vm_compute; reflexivity. }
  apply assigned_checked in Esp as ->. apply assigned_text in Ese.
  repeat split; try done. eapply stored_expr_ok; [| |exact Hse]; [done|]. exact Ese.
Qed.

Lemma steps_jobs_same {A} (m : M A) :
  (∀ w, w_saved (m w).2 = w_saved w ∧ jobs (w_db (m w).2) = jobs (w_db w)) → steps keeps_valid m.
Proof.
  intros Hm w. destruct (Hm w) as [Hs Hj]. split; [done|].
  intros Hd i j. rewrite Hj. apply Hd.
Qed.

Lemma set_dependencies_valid job ds : respects keeps_valid (set_dependencies job ds).
Proof.
  apply steps_respects; [apply _|]. apply steps_bind; [apply _|by apply steps_jobs_same|].
  intros _. induction (dict_fromkeys ds) as [|x l IH]; simpl; [apply steps_ret, _|].
  apply steps_bind; [apply _| |intros _; exact IH]. apply steps_jobs_same. intros w.
  unfold insert_dep. by case_decide.
Qed.

Lemma insert_job_valid owner now p :
  job_base_valid p = true → respects keeps_valid (insert_job (new_job owner now p)).
Proof.
  intros Hp. apply steps_respects; [apply _|]. intros w. unfold insert_job.
  destruct (stored_job None _) as [j'|] eqn:E; [|by split].
  case_decide; simpl; (split; [done|]); [|by intros Hd].
  intros Hd i j. simpl.
  intros [[_ <-]|[_ Hj]]%lookup_insert_Some; [|by eapply Hd].
  eapply stored_job_valid; [exact E|by apply new_job_valid].
Qed.

#[local] Hint Resolve set_dependencies_valid insert_job_valid : respect.
#[local] Hint Extern 4 (respects _ (select_jobs _)) => apply respects_read : respect.
#[local] Hint Extern 4 (respects _ (select_deps _)) => apply respects_read : respect.
#[local] Hint Extern 4 (respects _ (get_job_row _)) => apply respects_read : respect.
#[local] Hint Extern 4 (respects _ utcnow) => apply respects_read : respect.

Lemma scalar_valid {A} (l : list A) : respects keeps_valid (scalar_one_or_none l).
Proof. unfold scalar_one_or_none. respect. Qed.
Lemma bind_id_valid i : respects keeps_valid (bind_id jobs i).
Proof. unfold bind_id. respect. Qed.
Lemma bind_text_valid s : respects keeps_valid (bind_text s).
Proof. unfold bind_text. respect. Qed.
#[local] Hint Resolve bind_id_valid bind_text_valid : respect.
Lemma validate_dependencies_valid job o ds : respects keeps_valid (validate_dependencies job o ds).
Proof. unfold validate_dependencies. respect. Qed.
Lemma validate_dependencies_read job o ds : pure_read (validate_dependencies job o ds).
Proof.
  intros w. unfold validate_dependencies. case_decide; [done|].
  destruct (dict_fromkeys ds) as [|k l]; [done|]. pose proof (bind_ids_eq (k :: l) w) as E.
  destruct (decide _); [rewrite (bind_ok _ _ _ _ _ E)|by rewrite (bind_raise _ _ _ _ _ E)].
  unfold select_jobs, mbind, M_bind, read. by case_match.
Qed.
Lemma refresh_job_valid i : respects keeps_valid (refresh_job i).
Proof. unfold refresh_job. respect. Qed.
#[local] Hint Resolve scalar_valid validate_dependencies_valid refresh_job_valid : respect.

(** The write of [update_job], when the row is the one that was merged. *)
Lemma update_row_valid j u p w :
  jobs (w_db w) !! job_id j = Some j → merged j u = Some p → job_base_valid p = true →
  respects_at keeps_valid (update_job_row (job_id j) (apply_update u)) w.
Proof.
  intros Hj Hm Hp Hw. unfold update_job_row. rewrite Hj. case_decide; [by split|].
  destruct (stored_job (Some j) _) as [j'|] eqn:E; [|by split].
  split; [reflexivity|]. etrans; [exact Hw|]. intros Hd i ji. simpl.
  intros [[_ <-]|[_ Hi]]%lookup_insert_Some; [|by eapply Hd].
  apply (stored_job_valid _ _ _ E). by eapply merged_valid.
Qed.

(** C32: The table of jobs only ever holds valid jobs.  Creating a validated payload,
    updating a job with any payload (also one with explicit nulls) and deleting a
    job keep every stored job one that the validation of [JobBase] accepts,
    whichever of the checks or external calls fail on the way. *)
Theorem jobs_stay_valid (p : JobBase) (owner : Z) (j : Job) (u : JobUpdate) (w : World) :
  clean w → all_jobs_valid (w_db w) →
  job_base_valid p = true → jobs (w_db w) !! job_id j = Some j →
  all_jobs_valid (w_db (session_scope (create_job p owner) w).2) ∧
  all_jobs_valid (w_db (session_scope (update_job j u) w).2) ∧
  all_jobs_valid (w_db (session_scope (delete_job j) w).2).
Proof.
  intros Hc Hd Hp Hj.
  assert (∀ A (m : M A), respects_at keeps_valid m w →
    all_jobs_valid (w_db (session_scope m w).2)) as Hscope.
  { intros A m Hm. destruct Hm as [H1' H2']; [by rewrite Hc|].
    rewrite session_scope_clean. unfold session_scope, try_except, mbind, M_bind.
    destruct (m w) as [[a|e] w1] eqn:E; simpl in *.
    - unfold commit, mbind, M_bind, fault_point. rewrite Hc in Hd.
      destruct (w_faults w1) as [|[] ?]; simpl; auto.
    - rewrite Hc in Hd. auto. }
  split; [|split]; apply Hscope.
  - assert (respects keeps_valid (create_job p owner)) as Hr; [|apply Hr].
    unfold create_job. respect; by apply insert_job_valid.
  - unfold update_job. apply respects_at_bind; [apply _| |].
    { destruct (update_deps u); [apply validate_dependencies_valid|apply respects_ret; apply _]. }
    intros [] w1 E1.
    assert (jobs (w_db w1) !! job_id j = Some j) as Hj1.
    { destruct (update_deps u) as [l|]; [|by injection E1 as <-].
      pose proof (validate_dependencies_read (Some (job_id j)) (owner_user_id j) l w) as Hr.
      rewrite E1 in Hr. simpl in Hr. by subst. }
    destruct (merged j u) as [q|] eqn:Hm; [|apply respects_raise; apply _].
    destruct (job_base_valid q) eqn:Hq; [|apply respects_raise; apply _].
    apply respects_at_bind; [apply _|by eapply update_row_valid|]. intros _ w2 _.
    match goal with |- respects_at _ ?m _ => assert (respects keeps_valid m) as Hr; [|apply Hr] end.
    respect.
  - assert (respects keeps_valid (delete_job j)) as Hr; [|apply Hr].
    unfold delete_job. respect. apply steps_respects; [apply _|]. intros w'. split; [done|].
    intros Hd' i j'. simpl. intros [_ Hi]%lookup_delete_Some. by eapply Hd'.
Qed.

End crud.

(** ** Evaluation *)

#[local] Existing Instances reference_redis reference_pg reference_croniter.

Definition plain_validation_text : ValidationText := {| validation_text _ := "invalid"%string |}.
#[local] Existing Instance plain_validation_text.

(** User 1 has the jobs "extract" (1) and "load" (2), which depends on the first. *)
Definition setup_crud : M unit :=
  insert_user (demo_user "ana");;
  insert_job (demo_job "extract" ScheduleType.MANUAL None);;
  insert_job (demo_job "load" ScheduleType.MANUAL None);;
  insert_dep 2 1.

Lemma wf_crud : db_wf (demo_db setup_crud).
Proof. apply db_wf_demo. unfold setup_crud. demo_steps. Qed.

Definition world_crud : World := demo_world empty_view (demo_db setup_crud) 7.

Lemma clean_crud : clean world_crud.
Proof. apply clean_demo. Qed.
Lemma quiet_crud : w_faults world_crud = [].
Proof. apply quiet_demo. Qed.
Lemma user_crud : is_Some (users (w_db world_crud) !! 1).
Proof. vm_compute. eauto. Qed.

(** A new job "report" that depends on both. *)
Definition report_payload : JobBase :=
  {| jb_name := "report"; jb_description := None; jb_category := None;
     jb_task_type := TaskType.SHELL; jb_task_spec := [("command"%string, JStr "true")];
     jb_schedule_type := ScheduleType.MANUAL; jb_schedule_expr := None; jb_timezone := "UTC";
     jb_enabled := true; jb_max_retries := 2; jb_retry_backoff_sec := 30; jb_timeout_sec := 300;
     jb_depends_on := [1; 2; 1] |}.

Lemma crud_owned_1 : owned (w_db world_crud) (Some 1) 1.
Proof. eexists. split; vm_compute; reflexivity. Qed.
Lemma crud_owned_2 : owned (w_db world_crud) (Some 1) 2.
Proof. eexists. split; vm_compute; reflexivity. Qed.

Lemma crud_report_free : ¬ name_taken (w_db world_crud) 1 "report".
Proof.
  intros (k & j & Hj & _ & Hn).
  refine (rows_decide (λ j, name j ≠ "report"%string) (jobs (w_db world_crud)) _ k j Hj Hn).
  vm_compute. reflexivity.
Qed.

Lemma report_deps_owned k : k ∈ jb_depends_on report_payload → owned (w_db world_crud) (Some 1) k.
Proof.
  change (jb_depends_on report_payload) with [1; 2; 1].
  intros [->|[->|[->|[]%elem_of_nil]%elem_of_cons]%elem_of_cons]%elem_of_cons;
    [exact crud_owned_1|exact crud_owned_2|exact crud_owned_1].
Qed.

Lemma report_valid : job_base_valid report_payload = true.
Proof. vm_compute. reflexivity. Qed.

(** The same in a time zone of 65 characters, which the validation lets through. *)
Definition long_zone_payload : JobBase :=
  {| jb_name := "report"; jb_description := None; jb_category := None;
     jb_task_type := TaskType.SHELL; jb_task_spec := [("command"%string, JStr "true")];
     jb_schedule_type := ScheduleType.MANUAL; jb_schedule_expr := None;
     jb_timezone := String.concat "" (repeat "zone/"%string 13);
     jb_enabled := true; jb_max_retries := 2; jb_retry_backoff_sec := 30; jb_timeout_sec := 300;
     jb_depends_on := [1; 2; 1] |}.

Lemma long_zone_valid : job_base_valid long_zone_payload = true.
Proof. vm_compute. reflexivity. Qed.

Lemma create_job_exact_witness :
  (∃ j d', create_job report_payload 1 world_crud = (Ok j, committed d' world_crud) ∧
    jobs d' !! 3 = Some j ∧ edge d' 3 1 ∧ edge d' 2 1) ∧
  create_job long_zone_payload 1 world_crud = (Raise DataError, world_crud).
Proof.
  split.
  - destruct (create_job_exact report_payload 1 world_crud clean_crud quiet_crud wf_crud user_crud
      report_valid) as (_ & _ & _ & Hok).
    specialize (Hok crud_report_free report_deps_owned).
    destruct (stored_job None _) as [j|] eqn:Es; [|vm_compute in Es; discriminate Es].
    destruct Hok as (_ & d' & E & Hj & _ & _ & He).
    exists j, d'. split; [exact E|]. split; [|split].
    + rewrite Hj. apply lookup_insert_eq.
    + apply He. right. split; [vm_compute; reflexivity|]. apply elem_of_cons. by left.
    + apply He. left. exists 1, {| dep_id := 1; dep_job_id := 2; depends_on_job_id := 1 |}.
      split; [vm_compute; reflexivity|]. split; reflexivity.
  - destruct (create_job_exact long_zone_payload 1 world_crud clean_crud quiet_crud wf_crud user_crud
      long_zone_valid) as (_ & _ & _ & Hok).
    specialize (Hok crud_report_free report_deps_owned).
    destruct (stored_job None _) as [j|] eqn:Es; [vm_compute in Es; discriminate Es|exact Hok].
Defined.

Lemma crud_jobs_valid : all_jobs_valid (w_db world_crud).
Proof.
  intros i j. apply (rows_decide (λ j, job_base_valid (base_of j) = true) (jobs (w_db world_crud))).
  vm_compute. reflexivity.
Qed.

(** [{"max_retries": 5, "depends_on": []}] *)
Definition demo_update : JobUpdate :=
  {| ju_description := None; ju_category := None; ju_task_type := None; ju_task_spec := None;
     ju_schedule_type := None; ju_schedule_expr := None; ju_timezone := None; ju_enabled := None;
     ju_max_retries := Some (Some 5); ju_retry_backoff_sec := None; ju_timeout_sec := None;
     ju_depends_on := Some (Some []) |}.

Lemma crud_job_2 : ∃ j, jobs (w_db world_crud) !! job_id j = Some j ∧ job_id j = 2.
Proof.
  eexists (demo_job "load" ScheduleType.MANUAL None 2). split; vm_compute; reflexivity.
Qed.

Lemma jobs_stay_valid_witness :
  ∃ j, job_id j = 2 ∧ all_jobs_valid (w_db (session_scope (update_job j demo_update) world_crud).2).
Proof.
  destruct crud_job_2 as (j & Hj & Hi). exists j. split; [exact Hi|].
  exact (proj1 (proj2 (jobs_stay_valid report_payload 1 j demo_update world_crud clean_crud
    crud_jobs_valid report_valid Hj))).
Defined.
