(* ===== verification/Responses.v ===== *)
(** * Response models: the output classes of [backend/common/schemas.py]

    What the API renders of a run, a log line, a user and the recent jobs.  A response
    that does not fit its model ends the request with an error, so a stored value that no
    model accepts would make its rows unreadable. *)

From S2P Require Import Prelude PyBase PyText Models RedisServer Effects Database RedisQueue Store Executor.
From S2P Require Import Runner HttpTasks ShellTask Schemas Crud.

Local Open Scope string_scope.
Local Open Scope Z_scope.

Record JobRunOut := {
  ro_id : Z;
  ro_job_id : Z;
  ro_trigger_type : string;
  ro_status : string;
  ro_attempt : Z;
  ro_scheduled_for : option Z;
  ro_started_at : option Z;
  ro_finished_at : option Z;
  ro_exit_code : option Z;
  ro_result : option (list (string * json));
  ro_error : option string;
  ro_worker_id : option string;
  ro_created_at : Z
}.

(** [dict[str, Any] | None]; a JSON null is read as [None]. *)
Definition dict_or_none (v : option json) : option (option (list (string * json))) :=
  match v with
  | None | Some JNull => Some None
  | Some (JObj d) => Some (Some d)
  | Some _ => None
  end.

(** [JobRunOut.model_validate(run)]; [None] is a validation error. *)
Definition run_out (r : JobRun) : option JobRunOut :=
  v ← dict_or_none (result r);
  Some {| ro_id := run_id r; ro_job_id := run_job_id r; ro_trigger_type := trigger_str (trigger_type r);
          ro_status := status_str (status r); ro_attempt := attempt r;
          ro_scheduled_for := scheduled_for r; ro_started_at := started_at r;
          ro_finished_at := finished_at r; ro_exit_code := exit_code r; ro_result := v;
          ro_error := error r; ro_worker_id := worker_id r; ro_created_at := run_created_at r |}.

Record JobRunLogOut := {
  lo_id : Z;
  lo_run_id : Z;
  lo_ts : Z;
  lo_stream : string;
  lo_line : string
}.

Definition log_out (l : JobRunLog) : JobRunLogOut :=
  {| lo_id := log_id l; lo_run_id := log_run_id l; lo_ts := ts l; lo_stream := stream_str (stream l);
     lo_line := line l |}.

Record JobRecentOut := {
  re_job : JobOut;
  re_latest_run : option JobRunOut
}.

(** One element of the answer of [list_recent_jobs]. *)
Definition job_recent_out (o : JobOut * option JobRun) : option JobRecentOut :=
  match o.2 with
  | None => Some {| re_job := o.1; re_latest_run := None |}
  | Some r => v ← run_out r; Some {| re_job := o.1; re_latest_run := Some v |}
  end.

Record UserOut := {
  uo_id : Z;
  uo_username : string;
  uo_email : option string;
  uo_is_active : bool;
  uo_created_at : Z
}.

Definition user_out (u : User) : UserOut :=
  {| uo_id := user_id u; uo_username := username u; uo_email := email u; uo_is_active := is_active u;
     uo_created_at := user_created_at u |}.

(** ** Every recorded outcome can be rendered *)

(** Different statuses, triggers and streams are rendered differently. *)
Lemma status_str_inj s s' : status_str s = status_str s' → s = s'.
Proof. by destruct s, s'. Qed.
Lemma trigger_str_inj t t' : trigger_str t = trigger_str t' → t = t'.
Proof. by destruct t, t'. Qed.
Lemma stream_str_inj s s' : stream_str s = stream_str s' → s = s'.
Proof. by destruct s, s'. Qed.

Lemma plain_result_renders r : plain_result (result r) → is_Some (run_out r).
Proof. unfold run_out. destruct (result r) as [[]|]; simpl; eauto; done. Qed.

(** A new run has no result yet, and one that the worker closes has its executor's. *)
Lemma new_run_renders i j tt st att s now : is_Some (run_out (new_run i j tt st att s now)).
Proof. by apply plain_result_renders. Qed.

Section executors.
Context `{RedisServer, !HttpClient, !Subprocess, FloatText}.

(** Whatever one of the three executors returns, the row that [finish_run] writes is
    accepted by the response model, with the executor's result. *)
Theorem recorded_outcome_renders busy t (x : Executor) spec timeout log :
  @get_executor _ (task_executors busy) t = Ok x →
  returns (λ res, ∀ now e r, ∃ out, run_out (finished_row now res e r) = Some out ∧
             ro_status out = status_str (er_status res) ∧ JObj <$> ro_result out = er_result res)
    (x spec timeout log).
Proof.
  intros Hx. pose proof (get_executor_elem (H := _) t x Hx) as Hin.
  eapply returns_impl; [|exact (executors_outcome (Executors := task_executors busy) x Hin _ _ _)].
  intros res [_ Hp] now e r. unfold run_out. simpl. unfold plain_result in Hp.
  destruct (er_result res) as [[]|]; try done; eexists; (split; [reflexivity|done]).
Qed.

End executors.
