(* ===== verification/JobsApi.v ===== *)
(** * Endpoints on jobs: [backend/api/routers/jobs.py]

    Every endpoint runs on the session of [db.get_session], which commits when the
    endpoint returns and rolls back when it raises, as [session_scope] does.
    Query parameters have passed their [ge]/[le] bounds; the current user has been
    established by [deps.get_current_user] (see [Auth]).  [trigger_job] publishes
    after its commit, so it is a program of several actions. *)

From S2P Require Import Prelude PyBase Models RedisServer Effects Database RedisQueue Cron Demo.
From S2P Require Import Store Executor Schemas Crud.

Local Open Scope string_scope.
Local Open Scope Z_scope.
Local Open Scope list_scope.

(** ** Drafts of uploaded files *)

Definition MAX_DRAFT_FILE_BYTES : Z := 128 * 1024.

(** [JobDraftOut] *)
Record JobDraftOut := {
  jd_base : JobBase;
  jd_source_filename : option string;
  jd_file_content : string
}.

(** [filename or default]: null and the empty name are false. *)
Definition str_or (s : option string) (d : string) : string :=
  match s with Some s => if String.eqb s "" then d else s | None => d end.

(** [_job_name_from_filename] *)
Definition job_name_from_filename (filename : option string) : string :=
  let stem := strip (path_stem (str_or filename "uploaded-task")) in
  str_or (Some (String.substring 0 255 stem)) "uploaded-task".

(** [_decode_text_file]: the text is kept as its UTF-8 bytes. *)
Definition decode_text_file (data : string) : Res string :=
  if utf8_valid data then Ok data
  else Raise (HTTPException 400 "uploaded file must be UTF-8 text").

(** The arguments [_draft_from_text] gives to [JobDraftOut]; the other fields have
    their defaults. *)
Definition draft_base (filename : option string) (content : string) : JobBase :=
  let suffix := py_lower (path_suffix (str_or filename "")) in
  let command := if String.eqb suffix ".py" then "python" else "sh" in
  let source_filename := path_name (str_or filename "uploaded-task") in
  {| jb_name := job_name_from_filename filename;
     jb_description := Some (match filename with
       | Some f => if String.eqb f "" then "Draft imported from text file"
                   else ("Draft imported from " ++ f)%string
       | None => "Draft imported from text file"
       end);
     jb_category := None; jb_task_type := TaskType.SHELL;
     jb_task_spec := [("command", JStr command); ("args", JArr [JStr source_filename]);
                      ("source_filename", JStr source_filename); ("file_content", JStr content)];
     jb_schedule_type := ScheduleType.MANUAL; jb_schedule_expr := None; jb_timezone := "UTC";
     jb_enabled := true; jb_max_retries := 0; jb_retry_backoff_sec := 30; jb_timeout_sec := 300;
     jb_depends_on := [] |}.

Section jobs_api.
Context `{RedisServer, Postgres, Croniter, ValidationText}.

(** [_draft_from_text]: [JobDraftOut] validates as [JobBase] does. *)
Definition draft_from_text (filename : option string) (content : string) : Res JobDraftOut :=
  let p := draft_base filename content in
  if job_base_valid p
  then Ok {| jd_base := p; jd_source_filename := filename; jd_file_content := content |}
  else Raise (ValueError "JobDraftOut").

(** [create_job_draft_from_file]: [upload] is what the client sends. *)
Definition create_job_draft_from_file (filename : option string) (upload : string) :
    Res JobDraftOut :=
  let data := String.substring 0 (Z.to_nat (MAX_DRAFT_FILE_BYTES + 1)) upload in
  if MAX_DRAFT_FILE_BYTES <? Z.of_nat (String.length data)
  then Raise (HTTPException 413 ("uploaded file must be <= " ++ py_str MAX_DRAFT_FILE_BYTES ++ " bytes"))
  else content ← decode_text_file data; draft_from_text filename content.

(** ** Jobs *)

(** [except crud.CrudError as exc: raise HTTPException(code, str(exc))] *)
Definition crud_errors {A} (code : Z) (m : M A) : M A :=
  try_except m (λ e, match e with
                     | CrudError msg => raise (HTTPException code msg)
                     | e => raise e
                     end).

(** [crud.get_job], or 404. *)
Definition owned_job (i : Z) (user : User) : M Job :=
  o ← get_job i (user_id user);
  match o with
  | None => raise (HTTPException 404 "job not found")
  | Some j => mret j
  end.

Definition api_create_job (p : JobBase) (user : User) : M JobOut :=
  session_scope (j ← crud_errors 409 (create_job p (user_id user)); job_to_dict j).

(** [[f(x) for x in l]] *)
Fixpoint map_each {A B} (f : A → M B) (l : list A) : M (list B) :=
  match l with
  | [] => mret []
  | x :: l => y ← f x; ys ← map_each f l; mret (y :: ys)
  end.

Definition api_list_jobs (en : option bool) (limit offset : Z) (user : User) : M (list JobOut) :=
  session_scope (js ← list_jobs (user_id user) en limit offset; map_each job_to_dict js).

(** [ORDER BY created_at DESC] *)
Definition newest_job (j j' : Job) : Prop := job_created_at j' ≤ job_created_at j.
#[global] Instance newest_job_dec : RelDecision newest_job.
Proof. intros j j'. unfold newest_job. apply _. Defined.
Definition newest_run (r r' : JobRun) : Prop := run_created_at r' ≤ run_created_at r.
#[global] Instance newest_run_dec : RelDecision newest_run.
Proof. intros r r'. unfold newest_run. apply _. Defined.

(** The newest run of a job. *)
Definition latest_run (i : Z) : M (option JobRun) :=
  rows ← select_runs (λ r, run_job_id r = i);
  scalar_one_or_none (take 1 (merge_sort newest_run rows)).

(** One [JobRecentOut]. *)
Definition recent_out (j : Job) : M (JobOut * option JobRun) :=
  latest ← latest_run (job_id j); d ← job_to_dict j; mret (d, latest).

Definition list_recent_jobs (limit : Z) (user : User) : M (list (JobOut * option JobRun)) :=
  session_scope (
    rows ← select_jobs (λ j, owner_user_id j = Some (user_id user));
    map_each recent_out (take (Z.to_nat limit) (merge_sort newest_job rows))).

Definition api_get_job (i : Z) (user : User) : M JobOut :=
  session_scope (j ← owned_job i user; job_to_dict j).

Definition api_update_job (i : Z) (u : JobUpdate) (user : User) : M JobOut :=
  session_scope (
    j ← owned_job i user;
    j' ← crud_errors 400 (update_job j u);
    job_to_dict j').

Definition api_delete_job (i : Z) (user : User) : M unit :=
  session_scope (j ← owned_job i user; delete_job j).

Definition get_latest_job_run (i : Z) (user : User) : M (option JobRun) :=
  owned_job i user;; latest_run i.

Definition get_latest_job_run_logs (i limit offset : Z) (user : User) : M (list JobRunLog) :=
  session_scope (
    latest ← get_latest_job_run i user;
    match latest with
    | None => mret []
    | Some r =>
        bind_offset offset;;
        rows ← select_run_logs (run_id r); mret (limit_offset limit offset rows)
    end).

(** [JobRun.status == status_filter], where the filter is any string. *)
Definition where_status (f : option string) (r : JobRun) : Prop := where_opt f (status_str (status r)).
Definition bind_filter (f : option string) : M unit :=
  match f with None => mret tt | Some s => bind_text s end.

Definition list_job_runs (i : Z) (f : option string) (limit offset : Z) (user : User) : M (list JobRun) :=
  session_scope (
    owned_job i user;;
    bind_filter f;; bind_offset offset;;
    rows ← select_runs (λ r, run_job_id r = i ∧ where_status f r);
    mret (limit_offset limit offset (merge_sort newest_run rows))).

(** ** Triggering a job *)

(** [_active_run] *)
Definition active_run (i : Z) : M (option JobRun) :=
  rows ← select_runs (λ r, run_job_id r = i ∧ status r ∈ ACTIVE);
  scalar_one_or_none (take 1 (merge_sort created_before rows)).

Definition cycle_error (stack : list Z) (i : Z) : exn :=
  HTTPException 409 ("job dependency cycle detected: " ++ py_join " -> " (py_str <$> (stack ++ [i])%list)).

(** The loop over the dependencies; [rec] is the recursive call. *)
Fixpoint prepare_dependencies (rec : Z → list JobRun → M (JobRun * list JobRun))
    (ids : list Z) (queue : list JobRun) : M (list JobRun) :=
  match ids with
  | [] => mret queue
  | k :: ids =>
      a ← active_run k;
      match a with
      | Some _ => prepare_dependencies rec ids queue
      | None => o ← rec k queue; prepare_dependencies rec ids o.2
      end
  end.

(** [_prepare_trigger_run]; [queue] is [runs_to_publish], which the callers share:
    the extended list is returned.  [fuel] bounds the depth of the recursion. *)
Fixpoint prepare_trigger_run (fuel : nat) (i : Z) (tt : TriggerType) (queue : list JobRun)
    (stack : list Z) : M (JobRun * list JobRun) :=
  match fuel with
  | O => raise Diverged
  | S fuel =>
      if decide (i ∈ stack) then raise (cycle_error stack i)
      else
        ids ← dependency_ids i;
        match ids with
        | [] => r ← create_run i tt None 1 QUEUED; mret (r, queue ++ [r])
        | _ =>
            queue ← prepare_dependencies
              (λ k q, prepare_trigger_run fuel k DEPENDENCY q (stack ++ [i])) ids queue;
            existing ← active_run i;
            match existing with
            | Some r => mret (r, queue)
            | None => r ← create_run i tt None 1 PENDING; mret (r, queue)
            end
        end
  end.

(** Every job can be on the stack once. *)
Definition trigger_fuel (w : World) : nat := S (size (jobs (w_db w))).

(** What the session does before the runs are published. *)
Definition trigger_body (i : Z) (user : User) : M (JobRun * list JobRun) :=
  owned_job i user;;
  fuel ← read trigger_fuel;
  o ← prepare_trigger_run fuel i MANUAL [] [];
  commit;;
  mret o.

(** [session.refresh(run)] *)
Definition refresh_run (i : Z) : M JobRun :=
  o ← get_run_row i; match o with Some r => mret r | None => raise DbError end.

(** An exception of the endpoint rolls its session back. *)
Definition in_session {A} (m : M A) : M A := try_except m (λ e, rollback;; raise e).

Definition trigger_job (i : Z) (user : User) : prog JobRun :=
  o ← call (in_session (o ← trigger_body i user; r ← refresh_run (run_id o.1); mret (r, o.2)));
  pfor_each o.2 publish;;
  call (in_session commit);;
  Ret o.1.

(** ** Runs a trigger creates *)

Implicit Types (d : Db) (w : World) (l : list JobRun).

Definition has_active d (k : Z) : Prop :=
  ∃ i r, runs d !! i = Some r ∧ run_job_id r = k ∧ status r ∈ ACTIVE.

(** The job depends on nothing. *)
Definition leaf d (k : Z) : Prop := map_Forall (λ _ e, dep_job_id e ≠ k) (deps d).
#[global] Instance leaf_dec d k : Decision (leaf d k).
Proof. unfold leaf. apply _. Defined.

Definition start_status d (k : Z) : RunStatus := if decide (leaf d k) then QUEUED else PENDING.

(** The run a trigger inserts for job [k]. *)
Definition trigger_run d (k : Z) (tt : TriggerType) (now : Z) : JobRun :=
  new_run (runs_seq d) k tt (start_status d k) 1 None now.

Definition add_run d (r : JobRun) : Db := with_runs (<[run_id r := r]> (runs d)) (next_runs d).
Definition add_runs d l : Db := foldl add_run d l.

(** Runs created one after the other for jobs that satisfy [P]: each for a job
    without an active run, when all jobs it depends on have one. *)
Inductive batch d (now : Z) (P : Z → Prop) : list JobRun → Prop :=
  | batch_nil : batch d now P []
  | batch_snoc l k :
      batch d now P l → is_Some (jobs d !! k) → P k → ¬ has_active (add_runs d l) k →
      (∀ k', edge d k k' → has_active (add_runs d l) k') →
      batch d now P (l ++ [trigger_run (add_runs d l) k DEPENDENCY now]).

Lemma add_runs_app d l l' : add_runs d (l ++ l') = add_runs (add_runs d l) l'.
Proof. apply foldl_app. Qed.

Lemma add_runs_snoc d l r : add_runs d (l ++ [r]) = add_run (add_runs d l) r.
Proof. by rewrite add_runs_app. Qed.

Lemma add_runs_same d l :
  users (add_runs d l) = users d ∧ jobs (add_runs d l) = jobs d ∧
  deps (add_runs d l) = deps d ∧ logs (add_runs d l) = logs d.
Proof. revert d. induction l as [|r l IH]; intros d; [done|]. simpl. by destruct (IH (add_run d r)). Qed.

Lemma add_runs_jobs d l : jobs (add_runs d l) = jobs d.
Proof. by destruct (add_runs_same d l) as (_ & ? & _). Qed.

Lemma edge_add_runs d l : edge (add_runs d l) = edge d.
Proof. unfold edge. by destruct (add_runs_same d l) as (_ & _ & -> & _). Qed.

Lemma start_status_add_runs d l k : start_status (add_runs d l) k = start_status d k.
Proof.
  unfold start_status. apply decide_ext. unfold leaf.
  by destruct (add_runs_same d l) as (_ & _ & -> & _).
Qed.

Lemma leaf_edge d k : leaf d k ↔ ∀ k', ¬ edge d k k'.
Proof. unfold leaf, edge, map_Forall. naive_solver. Qed.

Lemma start_status_active d k : start_status d k ∈ ACTIVE.
Proof. unfold start_status, ACTIVE. case_decide; set_solver. Qed.

Lemma batch_mono d now (P P' : Z → Prop) l : (∀ k, P k → P' k) → batch d now P l → batch d now P' l.
Proof. intros HP. induction 1; constructor; auto. Qed.

Lemma batch_app d now P l l' :
  batch d now P l → batch (add_runs d l) now P l' → batch d now P (l ++ l').
Proof.
  intros Hl. induction 1 as [|l' k _ IH Hk HP Hna Hdeps]; [by rewrite app_nil_r|].
  rewrite app_assoc, <- add_runs_app. rewrite add_runs_jobs in Hk.
  rewrite <- add_runs_app in Hna. rewrite edge_add_runs, <- add_runs_app in Hdeps.
  by constructor.
Qed.

Lemma add_run_wf d k tt now :
  db_wf d → is_Some (jobs d !! k) → db_wf (add_run d (trigger_run d k tt now)).
Proof. intros W Hk. by apply db_wf_insert_run. Qed.

Lemma batch_wf d now P l : db_wf d → batch d now P l → db_wf (add_runs d l).
Proof.
  intros W. induction 1 as [|l k _ IH Hk _ _ _]; [done|]. rewrite add_runs_snoc.
  apply add_run_wf; [done|by rewrite add_runs_jobs].
Qed.

(** The new run is the only new row. *)
Lemma add_run_lookup d k tt now i r :
  db_wf d →
  runs (add_run d (trigger_run d k tt now)) !! i = Some r ↔
  runs d !! i = Some r ∨ r = trigger_run d k tt now ∧ run_id r = i.
Proof.
  intros W. simpl. rewrite lookup_insert_Some. split.
  - intros [[<- <-]|[_ Hi]]; [by right|by left].
  - intros [Hi|[-> <-]]; [right|by left]. split; [|done].
    destruct (wf_run_key _ W _ _ Hi) as [_ ?]. lia.
Qed.

Lemma batch_lookup d now P l i r :
  db_wf d → batch d now P l →
  runs (add_runs d l) !! i = Some r ↔ runs d !! i = Some r ∨ r ∈ l ∧ run_id r = i.
Proof.
  intros W Hb. revert i r. induction Hb as [|l k Hb IH Hk _ _ _]; intros i r; [set_solver|].
  rewrite add_runs_snoc, add_run_lookup by by eapply batch_wf.
  rewrite IH, elem_of_app, list_elem_of_singleton. naive_solver.
Qed.

Lemma add_run_active d k tt now k' :
  db_wf d → has_active (add_run d (trigger_run d k tt now)) k' ↔ has_active d k' ∨ k' = k.
Proof.
  intros W. unfold has_active. setoid_rewrite add_run_lookup; [|done].
  pose proof (start_status_active d k). split.
  - intros (i & r & [Hi|[-> _]] & Hj & Hs); [left; by eauto|right; by rewrite <- Hj].
  - intros [(i & r & Hi & Hj & Hs)|E]; [by eauto 6|]. rewrite E.
    exists (runs_seq d), (trigger_run d k tt now). split; [by right|done].
Qed.

Lemma batch_active d now P l k :
  db_wf d → batch d now P l →
  has_active (add_runs d l) k ↔ has_active d k ∨ k ∈ run_job_id <$> l.
Proof.
  intros W Hb. revert k. induction Hb as [|l k0 Hb IH Hk _ _ _]; intros k; [set_solver|].
  rewrite add_runs_snoc, add_run_active by by eapply batch_wf.
  rewrite IH, fmap_app, elem_of_app. set_solver.
Qed.

(** ** Reading *)

Lemma active_run_spec k w :
  ∃ o, active_run k w = (Ok o, w) ∧
    match o with
    | Some r => first_row (λ r, run_job_id r = k ∧ status r ∈ ACTIVE) (w_db w) r
    | None => ¬ has_active (w_db w) k
    end.
Proof.
  destruct (select_first_spec (λ r, run_job_id r = k ∧ status r ∈ ACTIVE) w) as (o & Eo & Ho).
  exists o. split; [exact Eo|]. destruct o as [r|]; [done|].
  intros (i & r & Hi & Hj & Hs). by apply (Ho i r Hi).
Qed.

Lemma dependency_ids_spec i w :
  ∃ ids, dependency_ids i w = (Ok ids, w) ∧ ∀ k, k ∈ ids ↔ edge (w_db w) i k.
Proof.
  eexists. split; [reflexivity|]. intros k. rewrite list_elem_of_fmap.
  setoid_rewrite elem_of_select. unfold edge. naive_solver.
Qed.

Lemma create_run_eq i tt w :
  is_Some (jobs (w_db w) !! i) →
  create_run i tt None 1 (start_status (w_db w) i) w =
    (Ok (trigger_run (w_db w) i tt (w_clock w)),
     with_db (add_run (w_db w) (trigger_run (w_db w) i tt (w_clock w))) w).
Proof. intros Hi. unfold create_run, insert_run. by rewrite decide_True. Qed.

(** ** The recursion *)

Definition queued (r : JobRun) : Prop := status r = QUEUED.
#[local] Instance queued_dec r : Decision (queued r).
Proof. unfold queued. apply _. Defined.

(** Some job depends on itself, through any number of jobs. *)
Definition cyclic d : Prop := ∃ k, tc (edge d) k k.

(** The action stops with the 409 of a dependency cycle; its writes are pending. *)
Definition stops {A} (m : M A) w : Prop :=
  (∃ msg d', m w = (Raise (HTTPException 409 msg), with_db d' w)) ∧ cyclic (w_db w).

(** The recursive call, from any state with the jobs and dependencies of [d0], on a
    job without an active run: it creates a batch that leaves the job active. *)
Definition prepares d0 (P : Z → Prop) (rec : Z → list JobRun → M (JobRun * list JobRun)) (k : Z) : Prop :=
  ∀ q w, db_wf (w_db w) → jobs (w_db w) = jobs d0 → deps (w_db w) = deps d0 →
    ¬ has_active (w_db w) k →
    (∃ l r, rec k q w = (Ok (r, q ++ filter queued l), with_db (add_runs (w_db w) l) w) ∧
       batch (w_db w) (w_clock w) P l ∧ has_active (add_runs (w_db w) l) k) ∨
    stops (rec k q) w.

Lemma batch_active_mono d now P l k :
  db_wf d → batch d now P l → has_active d k → has_active (add_runs d l) k.
Proof. intros W Hb Hk. eapply batch_active; [done..|by left]. Qed.

Lemma prepare_dependencies_spec d0 P rec ids q w :
  (∀ k, k ∈ ids → prepares d0 P rec k) →
  db_wf (w_db w) → jobs (w_db w) = jobs d0 → deps (w_db w) = deps d0 →
  (∃ l, prepare_dependencies rec ids q w =
          (Ok (q ++ filter queued l), with_db (add_runs (w_db w) l) w) ∧
     batch (w_db w) (w_clock w) P l ∧ ∀ k, k ∈ ids → has_active (add_runs (w_db w) l) k) ∨
  stops (prepare_dependencies rec ids q) w.
Proof.
  intros Hrec. revert q w. induction ids as [|k ids IH]; intros q w W HJ HD.
  { left. exists []. rewrite app_nil_r. split; [by destruct w|]. split; [constructor|set_solver]. }
  assert (∀ k', k' ∈ ids → prepares d0 P rec k') as Hrec' by (intros; apply Hrec; set_solver).
  destruct (active_run_spec k w) as (o & Eo & Ho).
  cbn [prepare_dependencies]. unfold stops. rewrite (bind_ok _ _ _ _ _ Eo). destruct o as [r|].
  - assert (has_active (w_db w) k) as Hk.
    { destruct Ho as ([i Hi] & [? ?] & _). by exists i, r. }
    destruct (IH Hrec' q w W HJ HD) as [(l & E & Hb & Hl)|Hst]; [left|by right].
    exists l. split; [done|]. split; [done|]. intros k' [->|Hk']%elem_of_cons; [|by apply Hl].
    by eapply batch_active_mono.
  - destruct (Hrec k ltac:(set_solver) q w W HJ HD Ho) as [(l1 & r & E1 & Hb1 & Hk)|Hst].
    2: { right. destruct Hst as [(msg & d' & E) Hc]. split; [|done]. exists msg, d'.
         by rewrite (bind_raise _ _ _ _ _ E). }
    rewrite (bind_ok _ _ _ _ _ E1). simpl.
    destruct (add_runs_same (w_db w) l1) as (_ & HJ1 & HD1 & _).
    set (d1 := add_runs (w_db w) l1) in *.
    assert (db_wf d1) as W1 by by eapply batch_wf.
    destruct (IH Hrec' (q ++ filter queued l1) (with_db d1 w)) as [(l2 & E2 & Hb2 & Hl2)|Hst];
      simpl in *; [done|by rewrite HJ1|by rewrite HD1| |].
    + left. exists (l1 ++ l2). rewrite filter_app, app_assoc, add_runs_app. fold d1.
      split; [done|]. split; [by apply batch_app|].
      intros k' [->|Hk']%elem_of_cons; [|by apply Hl2]. by eapply batch_active_mono.
    + right. destruct Hst as [(msg & d' & E) Hc]. split; [by exists msg, d'|].
      unfold cyclic in *. simpl in Hc. unfold d1 in Hc. by rewrite edge_add_runs in Hc.
Qed.

(** What [_prepare_trigger_run] leaves for job [i]: the dependencies' runs [sub],
    then its own unless it has an active one. *)
Definition prepared d (now : Z) (i : Z) (tt : TriggerType) (stack : list Z) (new : list JobRun)
    (r : JobRun) : Prop :=
  i ∉ stack ∧ ∃ sub, batch d now (λ k, k ∉ stack ++ [i] ∧ tc (edge d) i k) sub ∧
    (∀ k, edge d i k → has_active (add_runs d sub) k) ∧
    (new = sub ++ [r] ∧ r = trigger_run (add_runs d sub) i tt now ∧
       (has_active d i → leaf d i ∧ sub = []) ∨
     new = sub ∧ first_row (λ r, run_job_id r = i ∧ status r ∈ ACTIVE) (add_runs d sub) r ∧ has_active d i ∧ ¬ leaf d i).

Lemma batch_jobs d now P l k : batch d now P l → k ∈ run_job_id <$> l → P k.
Proof. induction 1 as [|l k' _ IH _ HP _ _]; [set_solver|]. rewrite fmap_app. set_solver. Qed.

Lemma stack_bound d stack :
  NoDup stack → (∀ s, s ∈ stack → is_Some (jobs d !! s)) → (length stack ≤ size (jobs d))%nat.
Proof.
  intros Hnd Hs. rewrite <- (size_list_to_set (C := gset Z)) by done. rewrite <- size_dom.
  apply subseteq_size. intros s. rewrite elem_of_list_to_set, elem_of_dom. apply Hs.
Qed.

(** The call for a dependency [k] of [i] creates a batch that is also one for [i]. *)
Lemma prepared_dependency d now i k stack l r :
  db_wf d → edge d i k → ¬ has_active d k → is_Some (jobs d !! k) →
  prepared d now k DEPENDENCY (stack ++ [i]) l r →
  batch d now (λ k, k ∉ stack ++ [i] ∧ tc (edge d) i k) l ∧ has_active (add_runs d l) k.
Proof.
  intros W He Hna Hk (Hns & sub & Hb & Hdeps & [(-> & -> & _)|(_ & _ & ? & _)]); [|done].
  assert (¬ has_active (add_runs d sub) k) as Hna'.
  { erewrite batch_active by done. intros [?|Hin]; [done|].
    apply (batch_jobs _ _ _ _ _ Hb) in Hin as [Hin _]. set_solver. }
  split.
  - constructor; [|done|split; [done|by apply tc_once]|done|done].
    eapply batch_mono; [|exact Hb]. intros k' [Hk' Ht]. split; [set_solver|by eapply tc_l].
  - rewrite add_runs_snoc, add_run_active by by eapply batch_wf. by right.
Qed.

Lemma prepare_trigger_run_spec fuel i tt q stack w :
  db_wf (w_db w) → is_Some (jobs (w_db w) !! i) → NoDup stack →
  (∀ s, s ∈ stack → is_Some (jobs (w_db w) !! s) ∧ tc (edge (w_db w)) s i) →
  (size (jobs (w_db w)) < fuel + length stack)%nat →
  (∃ new r, prepare_trigger_run fuel i tt q stack w =
       (Ok (r, q ++ filter queued new), with_db (add_runs (w_db w) new) w) ∧
     prepared (w_db w) (w_clock w) i tt stack new r) ∨
  stops (prepare_trigger_run fuel i tt q stack) w.
Proof.
  revert i tt q stack w. induction fuel as [|fuel IH]; intros i tt q stack w W Hi Hnd Hst Hf.
  { pose proof (stack_bound (w_db w) stack Hnd (λ s Hs, proj1 (Hst s Hs))). lia. }
  simpl. case_decide as Hin.
  { right. split; [|exists i; by apply Hst]. eexists _, (w_db w). unfold cycle_error, raise.
    by destruct w. }
  destruct (dependency_ids_spec i w) as (ids & E & Hids). unfold stops.
  rewrite (bind_ok _ _ _ _ _ E). destruct ids as [|k0 ids].
  - left. assert (leaf (w_db w) i) as Hl by (apply leaf_edge; intros k Hk%Hids; set_solver).
    pose proof (create_run_eq i tt w Hi) as Ec.
    assert (start_status (w_db w) i = QUEUED) as Es by (unfold start_status; by rewrite decide_True).
    rewrite Es in Ec. rewrite (bind_ok _ _ _ _ _ Ec).
    exists [trigger_run (w_db w) i tt (w_clock w)], (trigger_run (w_db w) i tt (w_clock w)).
    split; [by rewrite filter_cons_True|]. split; [done|]. exists []. split; [constructor|].
    split; [intros k Hk%Hids; set_solver|]. by left.
  - assert (¬ leaf (w_db w) i) as Hnl.
    { rewrite leaf_edge. intros Hl. apply (Hl k0), Hids. set_solver. }
    cbn beta iota. revert Hids. generalize (k0 :: ids) as l0. clear k0 ids E. intros ids Hids.
    destruct (prepare_dependencies_spec (w_db w)
      (λ k, k ∉ stack ++ [i] ∧ tc (edge (w_db w)) i k)
      (λ k q, prepare_trigger_run fuel k DEPENDENCY q (stack ++ [i])) ids q w)
      as [(l & E & Hb & Hact)|[(msg & d' & E) Hc]]; try done.
    3: { right. split; [|done]. exists msg, d'. by rewrite (bind_raise _ _ _ _ _ E). }
    { intros k Hk%Hids q' w' W' HJ HD Hna.
      assert (edge (w_db w') = edge (w_db w)) as He by (unfold edge; by rewrite HD).
      assert (is_Some (jobs (w_db w') !! k)) as Hjk.
      { destruct Hk as (n & e & Hn & _ & <-). rewrite HJ. by destruct (wf_dep_job _ W _ _ Hn). }
      destruct (IH k DEPENDENCY q' (stack ++ [i]) w') as [(l & r & E & Hp)|Hs]; try done.
      - apply NoDup_app. split; [done|]. split; [set_solver|apply NoDup_singleton].
      - rewrite He, HJ. intros s [Hs| ->%list_elem_of_singleton]%elem_of_app.
        + destruct (Hst s Hs). split; [done|]. by eapply tc_r.
        + split; [done|by apply tc_once].
      - rewrite HJ, length_app. simpl. lia.
      - left. exists l, r. split; [done|]. rewrite <- He. eapply prepared_dependency; try done.
        by rewrite He.
      - by right. }
    left. rewrite (bind_ok _ _ _ _ _ E).
    set (d1 := add_runs (w_db w) l) in *.
    assert (db_wf d1) as W1 by by eapply batch_wf.
    assert (has_active d1 i → has_active (w_db w) i) as Hback.
    { intros [?|Hj]%(batch_active _ _ _ _ _ W Hb); [done|].
      apply (batch_jobs _ _ _ _ _ Hb) in Hj as [Hj _]. set_solver. }
    assert (∀ k, edge (w_db w) i k → has_active d1 k) as Hdeps
      by (intros k Hk; by apply Hact, Hids).
    destruct (active_run_spec i (with_db d1 w)) as (o & Eo & Ho). rewrite (bind_ok _ _ _ _ _ Eo).
    destruct o as [r|]; simpl in Ho.
    + exists l, r. split; [done|]. split; [done|]. exists l. do 2 (split; [done|]). right.
      split; [done|]. split; [done|]. split; [|done]. apply Hback.
      destruct Ho as ([n Hn] & [? ?] & _). by exists n, r.
    + assert (is_Some (jobs d1 !! i)) as Hi1 by (unfold d1; by rewrite add_runs_jobs).
      pose proof (create_run_eq i tt (with_db d1 w) Hi1) as Ec. simpl in Ec.
      assert (start_status d1 i = PENDING) as Es.
      { unfold d1. rewrite start_status_add_runs. unfold start_status. by rewrite decide_False. }
      rewrite Es in Ec. rewrite (bind_ok _ _ _ _ _ Ec).
      exists (l ++ [trigger_run d1 i tt (w_clock w)]), (trigger_run d1 i tt (w_clock w)). split.
      { rewrite filter_app, filter_cons_False, filter_nil, app_nil_r, add_runs_snoc;
          [done|]. unfold queued. simpl. by rewrite Es. }
      split; [done|]. exists l. do 2 (split; [done|]). left. split; [done|]. split; [done|].
      intros Ha. exfalso. apply Ho. by eapply batch_active_mono.
Qed.

(** ** What a trigger achieves *)

(** [new] are the runs created for the trigger of job [i], [r] the run it answers. *)
Record triggered d (i : Z) (new : list JobRun) (r : JobRun) : Prop := {
  trig_nodup : NoDup (run_job_id <$> new);
  trig_row x : x ∈ new →
    rtc (edge d) i (run_job_id x) ∧ status x = start_status d (run_job_id x) ∧
    trigger_type x = (if decide (run_job_id x = i) then MANUAL else DEPENDENCY) ∧
    attempt x = 1 ∧ scheduled_for x = None;
  trig_idle x : x ∈ new → has_active d (run_job_id x) → run_job_id x = i ∧ leaf d i;
  trig_deps k k' : k = i ∨ k ∈ run_job_id <$> new → edge d k k' →
    has_active (add_runs d new) k';
  trig_rows n x : runs (add_runs d new) !! n = Some x ↔
    runs d !! n = Some x ∨ x ∈ new ∧ run_id x = n;
  trig_run : runs (add_runs d new) !! run_id r = Some r ∧ run_job_id r = i ∧ status r ∈ ACTIVE
}.

Lemma batch_nodup d now P l : db_wf d → batch d now P l → NoDup (run_job_id <$> l).
Proof.
  intros W. induction 1 as [|l k Hb IH _ _ Hna _]; [constructor|]. rewrite fmap_app.
  apply NoDup_app. split; [done|]. split; [|apply NoDup_singleton].
  intros k' Hk' ->%list_elem_of_singleton. apply Hna. eapply batch_active; [done..|by right].
Qed.

Lemma batch_row d now P l x :
  db_wf d → batch d now P l → x ∈ l →
  P (run_job_id x) ∧ ¬ has_active d (run_job_id x) ∧ status x = start_status d (run_job_id x) ∧
  trigger_type x = DEPENDENCY ∧ attempt x = 1 ∧ scheduled_for x = None.
Proof.
  intros W. induction 1 as [|l k Hb IH _ HP Hna _]; [set_solver|].
  intros [?| ->%list_elem_of_singleton]%elem_of_app; [by apply IH|]. simpl.
  rewrite start_status_add_runs. split; [done|]. split; [|done].
  intros Ha. apply Hna. by eapply batch_active_mono.
Qed.

Lemma batch_closed d now P l k k' :
  db_wf d → batch d now P l → k ∈ run_job_id <$> l → edge d k k' → has_active (add_runs d l) k'.
Proof.
  intros W. induction 1 as [|l k0 Hb IH Hk0 _ _ Hdeps]; [set_solver|]. rewrite fmap_app.
  intros Hk He. rewrite add_runs_snoc, add_run_active by by eapply batch_wf. left.
  apply elem_of_app in Hk as [Hk| ->%list_elem_of_singleton]; [by apply IH|by apply Hdeps].
Qed.

Lemma batch_triggered d now i l r :
  db_wf d → batch d now (λ k, k ∉ [] ++ [i] ∧ tc (edge d) i k) l →
  (∀ k, edge d i k → has_active (add_runs d l) k) →
  runs (add_runs d l) !! run_id r = Some r ∧ run_job_id r = i ∧ status r ∈ ACTIVE →
  triggered d i l r.
Proof.
  intros W Hb Hdeps Hr. split; [by eapply batch_nodup| | | |by intros; eapply batch_lookup|done].
  - intros x Hx. destruct (batch_row _ _ _ _ _ W Hb Hx) as ([Hni Ht] & _ & -> & -> & -> & ->).
    rewrite decide_False by set_solver. split; [by apply tc_rtc|done].
  - intros x Hx Ha. by destruct (batch_row _ _ _ _ _ W Hb Hx) as (_ & ? & _).
  - intros k k' [->|Hk] He; [by apply Hdeps|by eapply batch_closed].
Qed.

Lemma prepared_triggered d now i new r :
  db_wf d → is_Some (jobs d !! i) → prepared d now i MANUAL [] new r → triggered d i new r.
Proof.
  intros W Hi (_ & sub & Hb & Hdeps & [(-> & Er & Hact)|(-> & Hr & _ & _)]).
  2: { eapply batch_triggered; try done. destruct Hr as ([n Hn] & [? ?] & _).
       by destruct (wf_run_key _ (batch_wf _ _ _ _ W Hb) _ _ Hn) as [-> _]. }
  assert (db_wf (add_runs d sub)) as W1 by by eapply batch_wf.
  assert (i ∉ run_job_id <$> sub) as Hni.
  { intros Hj. apply (batch_jobs _ _ _ _ _ Hb) in Hj as [Hj _]. set_solver. }
  assert (run_job_id r = i ∧ status r = start_status d i ∧ trigger_type r = MANUAL ∧
    attempt r = 1 ∧ scheduled_for r = None) as (Hj & Hs & Ht & Ha & Hsch).
  { rewrite Er. simpl. by rewrite start_status_add_runs. }
  split.
  - rewrite fmap_app. apply NoDup_app. split; [exact (batch_nodup _ _ _ _ W Hb)|]. split; [|apply NoDup_singleton].
    intros k Hk ->%list_elem_of_singleton. by rewrite Hj in Hk.
  - intros x [Hx| ->%list_elem_of_singleton]%elem_of_app.
    + destruct (batch_row _ _ _ _ _ W Hb Hx) as ([Hn Htc] & _ & -> & -> & -> & ->).
      rewrite decide_False by set_solver. split; [by apply tc_rtc|done].
    + rewrite Hj, Hs, decide_True by done. by split; [apply rtc_refl|].
  - intros x [Hx| ->%list_elem_of_singleton]%elem_of_app Hx'.
    + by destruct (batch_row _ _ _ _ _ W Hb Hx) as (_ & ? & _).
    + rewrite Hj in *. by destruct (Hact Hx').
  - intros k k' Hk He. rewrite add_runs_snoc, Er, add_run_active by done. left.
    destruct Hk as [->|Hk]; [by apply Hdeps|]. rewrite fmap_app in Hk.
    apply elem_of_app in Hk as [Hk| ->%list_elem_of_singleton]; [exact (batch_closed _ _ _ _ _ _ W Hb Hk He)|].
    rewrite Hj in He. by apply Hdeps.
  - intros n x. rewrite add_runs_snoc, Er, add_run_lookup by done. rewrite <- Er.
    rewrite (batch_lookup _ _ _ _ _ _ W Hb), elem_of_app, list_elem_of_singleton. naive_solver.
  - rewrite add_runs_snoc. simpl. rewrite lookup_insert_eq, Hj, Hs. split; [done|].
    split; [done|apply start_status_active].
Qed.

Lemma owned_job_eq i user w :
  db_wf (w_db w) →
  owned_job i user w =
    (match jobs (w_db w) !! i with
     | Some j => if decide (owner_user_id j = Some (user_id user)) then Ok j
                 else Raise (HTTPException 404 "job not found")
     | None => Raise (if bigint (jobs (w_db w)) i then HTTPException 404 "job not found" else DataError)
     end, w).
Proof.
  intros W. unfold owned_job, mbind at 1, M_bind. rewrite (get_job_eq i (user_id user) w W).
  destruct (jobs (w_db w) !! i) as [j|] eqn:Hj.
  - assert (bigint (jobs (w_db w)) i = true) as ->; [|by case_decide].
    unfold bigint. rewrite bool_decide_eq_true_2 by eauto. apply orb_true_r.
  - by destruct (bigint _ i).
Qed.

#[global] Instance owned_dec d o k : Decision (owned d o k).
Proof.
  unfold owned. destruct (jobs d !! k) as [j|] eqn:Hj.
  - destruct (decide (owner_user_id j = o)) as [Ho|Ho]; [left; eauto|right; naive_solver].
  - right. naive_solver.
Defined.

Lemma owned_job_ok i user w :
  db_wf (w_db w) → owned (w_db w) (Some (user_id user)) i → ∃ j, owned_job i user w = (Ok j, w).
Proof.
  intros W (j & Hj & Ho). exists j. rewrite owned_job_eq by done. by rewrite Hj, decide_True.
Qed.

Lemma owned_job_missing i user w :
  db_wf (w_db w) → ¬ owned (w_db w) (Some (user_id user)) i →
  owned_job i user w =
    (Raise (if bigint (jobs (w_db w)) i then HTTPException 404 "job not found" else DataError), w).
Proof.
  intros W Hn. rewrite owned_job_eq by done. destruct (jobs (w_db w) !! i) as [j|] eqn:Hj; [|done].
  rewrite decide_False by (intros Ho; apply Hn; by exists j).
  unfold bigint. rewrite bool_decide_eq_true_2 by eauto. by rewrite orb_true_r.
Qed.

(** The transaction up to its commit. *)
Lemma trigger_body_spec i user w :
  db_wf (w_db w) → owned (w_db w) (Some (user_id user)) i →
  (∃ new r, trigger_body i user w =
     (commit;; mret (r, filter queued new)) (with_db (add_runs (w_db w) new) w) ∧
     triggered (w_db w) i new r) ∨
  stops (trigger_body i user) w.
Proof.
  intros W Ho. destruct (owned_job_ok i user w W Ho) as [j Ej].
  assert (is_Some (jobs (w_db w) !! i)) as Hi by (destruct Ho as (? & ? & _); eauto).
  destruct (prepare_trigger_run_spec (trigger_fuel w) i MANUAL [] [] w) as
    [(new & r & E & Hp)|[(msg & d' & E) Hc]]; try done; [constructor|set_solver|unfold trigger_fuel; lia|..].
  - left. exists new, r. split; [|by eapply prepared_triggered].
    unfold trigger_body. rewrite (bind_ok _ _ _ _ _ Ej). erewrite bind_ok by done.
    by rewrite (bind_ok _ _ _ _ _ E).
  - right. split; [|done]. exists msg, d'. unfold trigger_body. rewrite (bind_ok _ _ _ _ _ Ej).
    erewrite bind_ok by done. by rewrite (bind_raise _ _ _ _ _ E).
Qed.

(** The same rows in every table. *)
Definition same_tables d d' : Prop :=
  users d' = users d ∧ jobs d' = jobs d ∧ deps d' = deps d ∧ runs d' = runs d ∧ logs d' = logs d.

Lemma run_publish_all l w :
  w_faults w = [] →
  ∃ s', run (pfor_each l publish) w = (Ok tt, with_redis s' w) ∧
    appended (view (w_redis w)) (py_str ∘ run_id <$> l) (view s') ∧
    rv_delayed (view s') = rv_delayed (view (w_redis w)).
Proof.
  intros Hf. destruct (run_enqueue_all (run_id <$> l) w Hf) as (s' & E & Ha & Hd).
  exists s'. rewrite list_fmap_compose. split; [|done]. rewrite <- E. clear.
  f_equal. induction l as [|r l IH]; [done|]. simpl. by rewrite IH.
Qed.

(** C16: Triggering a job of the user.  Either every run that is missing is created:
    at most one per job, only for the job and the jobs it depends on, directly or
    not; afterwards every dependency of the job and of every job that got a run has
    an active run; jobs without dependencies are queued, the others wait; the runs
    that are queued, and no others, are published, once each, and the answer is an
    active run of the job.  Or there is a dependency cycle: the answer is 409, and
    nothing is created or published.  Without a cycle it always succeeds. *)
Theorem trigger_exact (i : Z) (user : User) (w : World) :
  clean w → w_faults w = [] → db_wf (w_db w) → owned (w_db w) (Some (user_id user)) i →
  (∃ new r w', run (trigger_job i user) w = (Ok r, w') ∧ triggered (w_db w) i new r ∧
     w_db w' = add_runs (w_db w) new ∧ clean w' ∧
     appended (view (w_redis w)) (py_str ∘ run_id <$> filter queued new) (view (w_redis w')) ∧
     rv_delayed (view (w_redis w')) = rv_delayed (view (w_redis w))) ∨
  (∃ msg w', run (trigger_job i user) w = (Raise (HTTPException 409 msg), w') ∧
     cyclic (w_db w) ∧ same_tables (w_db w) (w_db w') ∧ clean w' ∧ w_redis w' = w_redis w).
Proof.
  intros Hc Hf W Ho. unfold trigger_job, in_session.
  destruct (trigger_body_spec i user w W Ho) as [(new & r & E & Ht)|[(msg & d' & E) Hcy]].
  - left. set (d := add_runs (w_db w) new) in *. set (w1 := with_saved d (with_db d w)).
    assert (trigger_body i user w = (Ok (r, filter queued new), w1)) as E1.
    { rewrite E. unfold commit, mbind, M_bind, fault_point. simpl. by rewrite Hf. }
    destruct (run_publish_all (filter queued new) w1 Hf) as (s' & Ep & Ha & Hd).
    pose proof (proj1 (trig_run _ _ _ _ Ht)) as Hr. fold d in Hr.
    exists new, r, (with_redis s' w1). split; [|done].
    erewrite run_step; [|unfold try_except; rewrite (bind_ok _ _ _ _ _ E1); unfold refresh_run,
      get_run_row, mbind, M_bind, read; simpl; by rewrite Hr].
    cbn beta. cbn [snd fst]. rewrite (run_then _ _ _ _ _ Ep). cbn beta. erewrite run_step; [reflexivity|].
    unfold try_except, commit, mbind, M_bind, fault_point. simpl. by rewrite Hf.
  - right. eexists msg, _. split.
    { rewrite run_bind. erewrite bind_raise; [reflexivity|]. rewrite run_call.
      unfold try_except. by rewrite (bind_raise _ _ _ _ _ E). }
    simpl. split; [done|]. rewrite <- Hc. by destruct (w_db w).
Qed.

(** The action does not run out of the model's fuel. *)
Definition converges {A} (m : M A) w : Prop := (m w).1 ≠ Raise Diverged.

Lemma converges_bind {A B} (m : M A) (f : A → M B) w :
  converges m w → (∀ a w', m w = (Ok a, w') → converges (f a) w') → converges (m ≫= f) w.
Proof.
  unfold converges, mbind, M_bind. intros Hm Hf.
  destruct (m w) as [[a|e] w']; simpl in *; [by apply Hf|congruence].
Qed.

Lemma converges_run_bind {A B} (p : prog A) (f : A → prog B) w :
  converges (run p) w → (∀ a w', converges (run (f a)) w') → converges (run (p ≫= f)) w.
Proof.
  intros Hp Hf. unfold converges. rewrite run_bind. apply converges_bind; [done|]. intros; apply Hf.
Qed.

Lemma converges_call {A} (m : M A) w : converges m w → converges (run (call m)) w.
Proof. unfold converges. by rewrite run_call. Qed.

Lemma converges_in_session {A} (m : M A) w : converges m w → converges (in_session m) w.
Proof.
  unfold converges, in_session, try_except. destruct (m w) as [[a|e] w']; simpl; [done|congruence].
Qed.

Lemma converges_fault e w : e ≠ Diverged → converges (fault_point e) w.
Proof. unfold converges, fault_point. intros He. destruct (w_faults w) as [|[] ?]; simpl; congruence. Qed.

Lemma converges_commit w : converges commit w.
Proof. apply converges_bind; [by apply converges_fault|done]. Qed.

Lemma converges_publish r w : converges (run (publish r)) w.
Proof.
  assert (∀ A e (m : M A), e ≠ Diverged → (∀ w, converges m w) →
    ∀ w, converges (run (call (fault_point e;; m))) w) as Hcall.
  { intros A e m He Hm w0. apply converges_call, converges_bind; [by apply converges_fault|].
    intros; apply Hm. }
  unfold publish, enqueue_run, update_queue_gauges, xadd_cmd, xlen_cmd, zcard_cmd.
  repeat (first [apply converges_run_bind; [|intros ? ?]|apply Hcall]; try done).
Qed.

Lemma converges_publish_all l w : converges (run (pfor_each l publish)) w.
Proof.
  revert w. induction l as [|r l IH]; intros w; [done|].
  apply (converges_run_bind (publish r)); [apply converges_publish|]. intros; apply IH.
Qed.

Lemma converges_trigger_body i user w : db_wf (w_db w) → converges (trigger_body i user) w.
Proof.
  intros W. destruct (decide (owned (w_db w) (Some (user_id user)) i)) as [Ho|Hno].
  - destruct (trigger_body_spec i user w W Ho) as [(new & r & E & _)|[(msg & d' & E) _]];
      unfold converges; rewrite E; [|done].
    apply converges_bind; [apply converges_commit|done].
  - unfold trigger_body, converges.
    rewrite (bind_raise _ _ _ _ _ (owned_job_missing i user w W Hno)). by destruct (bigint _ i).
Qed.

(** C17: The recursion over the dependencies ends.  With one level per job, and so
    with any more, [_prepare_trigger_run] returns or answers the 409 of a cycle,
    whatever the dependencies are; so a trigger never recurses without end, also
    when a commit or a command fails. *)
Theorem trigger_terminates (i : Z) (user : User) (w : World) :
  db_wf (w_db w) →
  (∀ fuel tt q, is_Some (jobs (w_db w) !! i) → (size (jobs (w_db w)) < fuel)%nat →
     (∃ o w', prepare_trigger_run fuel i tt q [] w = (Ok o, w')) ∨
     (∃ msg w', prepare_trigger_run fuel i tt q [] w = (Raise (HTTPException 409 msg), w') ∧
        cyclic (w_db w))) ∧
  (run (trigger_job i user) w).1 ≠ Raise Diverged.
Proof.
  intros W. split.
  - intros fuel tt q Hi Hf.
    destruct (prepare_trigger_run_spec fuel i tt q [] w) as
      [(new & r & E & _)|[(msg & d' & E) Hc]]; try done; [constructor|set_solver|simpl; lia|by eauto|].
    right. eauto.
  - apply (converges_run_bind (call _)).
    + apply converges_call, converges_in_session, converges_bind; [by apply converges_trigger_body|].
      intros o w' _. unfold converges, refresh_run, get_run_row, mbind, M_bind, read.
      by destruct (runs (w_db w') !! _).
    + intros o w'. apply converges_run_bind; [apply converges_publish_all|]. intros _ w2.
      apply converges_run_bind; [|done]. apply converges_call, converges_in_session, converges_commit.
Qed.

(** ** Drafts *)

Lemma substring_length n s : String.length (String.substring 0 n s) = Nat.min n (String.length s).
Proof. revert s. induction n as [|n IH]; intros [|c s]; simpl; try done. by rewrite IH. Qed.

Lemma str_or_length (s other : string) (n : nat) :
  (1 ≤ String.length other ≤ n)%nat → (String.length s ≤ n)%nat →
  (1 ≤ String.length (str_or (Some s) other) ≤ n)%nat.
Proof. intros Hd Hs. simpl. destruct s; simpl in *; lia. Qed.

Lemma draft_name_length f : (1 ≤ String.length (job_name_from_filename f) ≤ 255)%nat.
Proof.
  apply str_or_length; [simpl; lia|]. rewrite substring_length. apply Nat.le_min_l.
Qed.

Lemma draft_base_valid f content : job_base_valid (draft_base f content) = true.
Proof.
  pose proof (draft_name_length f) as [Hlo Hhi].
  unfold job_base_valid, fields_ok, length_ok. unfold draft_base at 1 2.
  cbn [jb_name jb_category jb_max_retries jb_retry_backoff_sec jb_timeout_sec].
  apply Nat.leb_le in Hlo as ->. apply Nat.leb_le in Hhi as ->. simpl.
  unfold validate_schedule_expr, validate_task_spec, schedule_expr_ok, spec_has. simpl.
  by destruct (String.eqb (py_lower _) _).
Qed.

(** Importing a file as a draft.  A file over 128 KiB is refused with 413, one
    that is not UTF-8 with 400; every other file gives a draft that holds the whole
    text and that [JobCreate] accepts as it is: its name has 1 to 255 characters
    whatever the file is called, and a [.py] file, in any case, is run by python,
    all others by sh. *)
Theorem draft_importable (filename : option string) (upload : string) :
  (MAX_DRAFT_FILE_BYTES < Z.of_nat (String.length upload) →
     ∃ msg, create_job_draft_from_file filename upload = Raise (HTTPException 413 msg)) ∧
  (Z.of_nat (String.length upload) ≤ MAX_DRAFT_FILE_BYTES → utf8_valid upload = false →
     ∃ msg, create_job_draft_from_file filename upload = Raise (HTTPException 400 msg)) ∧
  (Z.of_nat (String.length upload) ≤ MAX_DRAFT_FILE_BYTES → utf8_valid upload = true →
     ∃ draft, create_job_draft_from_file filename upload = Ok draft ∧
       jd_file_content draft = upload ∧ job_base_valid (jd_base draft) = true ∧
       (1 ≤ String.length (jb_name (jd_base draft)) ≤ 255)%nat ∧
       dict_get "file_content" (jb_task_spec (jd_base draft)) = Some (JStr upload) ∧
       dict_get "command" (jb_task_spec (jd_base draft)) =
         Some (JStr (if String.eqb (py_lower (path_suffix (str_or filename ""))) ".py"
                     then "python" else "sh"))).
Proof.
  unfold create_job_draft_from_file. set (data := String.substring _ _ _).
  assert (Z.of_nat (String.length upload) ≤ MAX_DRAFT_FILE_BYTES → data = upload) as Hall.
  { intros Hle. apply substring_all. lia. }
  split; [|split].
  - intros Hlt. assert (MAX_DRAFT_FILE_BYTES <? Z.of_nat (String.length data) = true) as ->;
      [|by eexists]. unfold data. rewrite substring_length. apply Z.ltb_lt. lia.
  - intros Hle Hu. rewrite (Hall Hle), (proj2 (Z.ltb_ge _ _) Hle).
    unfold decode_text_file. rewrite Hu. by eexists.
  - intros Hle Hu. rewrite (Hall Hle), (proj2 (Z.ltb_ge _ _) Hle).
    unfold decode_text_file, draft_from_text. rewrite Hu. simpl.
    rewrite draft_base_valid. eexists. split; [reflexivity|]. split; [done|].
    split; [apply draft_base_valid|]. split; [apply draft_name_length|]. by split.
Qed.

End jobs_api.

(** ** Evaluation *)

#[local] Existing Instances reference_redis reference_pg reference_croniter plain_validation_text.

Lemma owned_crud_2 : owned (w_db world_crud) (Some (user_id (demo_user "ana" 1))) 2.
Proof. eexists. split; vm_compute; reflexivity. Qed.

(** Triggering "load" queues "extract" first. *)
Lemma trigger_exact_witness :
  ∃ new r w', run (trigger_job 2 (demo_user "ana" 1)) world_crud = (Ok r, w') ∧
    triggered (w_db world_crud) 2 new r ∧ run_job_id r = 2 ∧ status r = PENDING.
Proof.
  destruct (trigger_exact 2 (demo_user "ana" 1) world_crud clean_crud quiet_crud wf_crud owned_crud_2)
    as [(new & r & w' & E & Ht & _)|(msg & w' & E & _)].
  - exists new, r, w'. split; [exact E|]. split; [exact Ht|].
    split; [exact (proj1 (proj2 (trig_run _ _ _ _ Ht)))|].
    cut (((run (trigger_job 2 (demo_user "ana" 1)) world_crud).1 ≫= (λ r, Ok (status r))) = Ok PENDING).
    + rewrite E. simpl. intros [= H]. exact H.
    + vm_compute. reflexivity.
  - exfalso. cut (((run (trigger_job 2 (demo_user "ana" 1)) world_crud).1 ≫= (λ r, Ok (status r))) = Ok PENDING).
    + rewrite E. discriminate.
    + vm_compute. reflexivity.
Defined.

Lemma trigger_terminates_witness :
  (run (trigger_job 2 (demo_user "ana" 1)) world_crud).1 ≠ Raise Diverged.
Proof. exact (proj2 (trigger_terminates 2 (demo_user "ana" 1) world_crud wf_crud)). Defined.

Lemma draft_importable_witness :
  ∃ draft, create_job_draft_from_file (Some "in/Report.PY"%string) "print(1)" = Ok draft ∧
    dict_get "command" (jb_task_spec (jd_base draft)) = Some (JStr "python").
Proof.
  destruct (proj2 (proj2 (draft_importable (Some "in/Report.PY"%string) "print(1)")))
    as (draft & E & _ & _ & _ & _ & Hc); [discriminate|reflexivity|].
  exists draft. split; [exact E|]. exact Hc.
Defined.
