(* ===== verification/RunsApi.v ===== *)
(** * Endpoints on runs: [backend/api/routers/runs.py]

    As in [JobsApi], a request works on one session; [retry_run] and [cancel_run]
    reach other processes after a commit, so they are programs of several
    actions.  The group of theorems here is about what a user can see and change
    through either router. *)

From S2P Require Import Prelude PyBase Models RedisServer Effects Database RedisQueue Cron Demo.
From S2P Require Import Store Executor Schemas Crud JobsApi.

Local Open Scope list_scope.

Section runs_api.
Context `{RedisServer, Postgres, Croniter, ValidationText}.
Implicit Types (d : Db) (w : World).

(** [select(JobRun).join(Job).where(Job.owner_user_id == u, Q)] *)
Definition select_owned_runs (u : Z) (Q : JobRun → Prop) `{∀ r, Decision (Q r)} : M (list JobRun) :=
  read (λ w, filter (λ r, Q r ∧ owned (w_db w) (Some u) (run_job_id r)) (heap_scan (runs (w_db w)))).

Definition list_runs (f : option string) (limit offset : Z) (user : User) : M (list JobRun) :=
  session_scope (
    bind_filter f;; bind_offset offset;;
    rows ← select_owned_runs (user_id user) (where_status f);
    mret (limit_offset limit offset (merge_sort newest_run rows))).

(** [_get_owned_run] *)
Definition get_owned_run (i u : Z) : M (option JobRun) :=
  bind_id runs i;;
  rows ← select_owned_runs u (λ r, run_id r = i); scalar_one_or_none rows.

(** [_get_owned_run], or 404. *)
Definition owned_run (i : Z) (user : User) : M JobRun :=
  o ← get_owned_run i (user_id user);
  match o with
  | None => raise (HTTPException 404 "run not found")
  | Some r => mret r
  end.

Definition get_run (i : Z) (user : User) : M JobRun := session_scope (owned_run i user).

Definition get_run_logs (i limit offset : Z) (user : User) : M (list JobRunLog) :=
  session_scope (
    owned_run i user;;
    bind_offset offset;;
    rows ← select_run_logs i;
    mret (limit_offset limit offset rows)).

(** What [retry_run] does before it publishes. *)
Definition retry_body (i : Z) (user : User) : M JobRun :=
  r ← owned_run i user;
  if decide (status r ∈ TERMINAL) then
    r' ← create_run (run_job_id r) RETRY None (attempt r + 1) QUEUED;
    commit;;
    refresh_run (run_id r')
  else raise (HTTPException 409 ("run is not in a terminal state (current: "
                                 ++ status_str (status r) ++ ")")).

Definition api_retry_run (i : Z) (user : User) : prog JobRun :=
  r ← call (in_session (retry_body i user));
  publish r;;
  call (in_session commit);;
  Ret r.

(** The checks of [cancel_run]. *)
Definition cancelable_run (i : Z) (user : User) : M JobRun :=
  r ← owned_run i user;
  if decide (status r ∈ TERMINAL)
  then raise (HTTPException 409 ("run is already terminal (current: "
                                 ++ status_str (status r) ++ ")"))
  else mret r.

Definition api_cancel_run (i : Z) (user : User) : prog JobRun :=
  call (in_session (cancelable_run i user));;
  ok ← call (cancel_run i);
  if (ok : bool) then
    publish_cancel i;;
    r ← call (in_session (owned_run i user));
    call (in_session commit);;
    Ret r
  else Throw (HTTPException 409 "run could not be canceled").

(** ** Reading *)

(** The run [i] belongs to a job of the user. *)
Definition visible d (user : User) (i : Z) (r : JobRun) : Prop :=
  runs d !! i = Some r ∧ owned d (Some (user_id user)) (run_job_id r).

Lemma owned_run_eq i user w :
  db_wf (w_db w) →
  owned_run i user w =
    (match runs (w_db w) !! i with
     | Some r => if decide (owned (w_db w) (Some (user_id user)) (run_job_id r)) then Ok r
                 else Raise (HTTPException 404 "run not found")
     | None => Raise (if bigint (runs (w_db w)) i then HTTPException 404 "run not found" else DataError)
     end, w).
Proof.
  intros W. unfold owned_run, get_owned_run, mbind, M_bind. rewrite bind_id_eq.
  destruct (runs (w_db w) !! i) as [r|] eqn:Hr.
  - assert (bigint (runs (w_db w)) i = true) as ->.
    { unfold bigint. rewrite bool_decide_eq_true_2 by eauto. apply orb_true_r. }
    unfold select_owned_runs, read.
    rewrite (select_key run_id (λ r, owned (w_db w) (Some (user_id user)) (run_job_id r)))
      by (intros; by apply (wf_run_key _ W)).
    rewrite Hr. by case_decide.
  - destruct (bigint _ i); [|done]. unfold select_owned_runs, read.
    rewrite (select_key run_id (λ r, owned (w_db w) (Some (user_id user)) (run_job_id r)))
      by (intros; by apply (wf_run_key _ W)).
    by rewrite Hr.
Qed.

Lemma owned_run_ok i user w r :
  db_wf (w_db w) → visible (w_db w) user i r → owned_run i user w = (Ok r, w).
Proof. intros W [Hr Ho]. rewrite owned_run_eq by done. by rewrite Hr, decide_True. Qed.

Lemma owned_run_missing i user w :
  db_wf (w_db w) → (∀ r, ¬ visible (w_db w) user i r) →
  owned_run i user w =
    (Raise (if bigint (runs (w_db w)) i then HTTPException 404 "run not found" else DataError), w).
Proof.
  intros W Hn. rewrite owned_run_eq by done. destruct (runs (w_db w) !! i) as [r|] eqn:Hr; [|done].
  rewrite decide_False by (intros Ho; by apply (Hn r)).
  unfold bigint. rewrite bool_decide_eq_true_2 by eauto. by rewrite orb_true_r.
Qed.

(** ** Requests that fail before they write *)

Lemma rollback_clean w : clean w → rollback w = (Ok tt, w).
Proof.
  unfold clean, rollback. intros Hc. destruct w as [d s ? ? ? ? ? ?]. simpl in *. subst.
  by destruct s.
Qed.

Lemma in_session_raise {A} (m : M A) w e :
  clean w → m w = (Raise e, w) → in_session m w = (Raise e, w).
Proof.
  intros Hc E. unfold in_session, try_except. rewrite E.
  by rewrite (bind_ok _ _ _ _ _ (rollback_clean w Hc)).
Qed.

Lemma session_scope_raise {A} (m : M A) w e :
  clean w → m w = (Raise e, w) → session_scope m w = (Raise e, w).
Proof.
  intros Hc E. unfold session_scope, try_except. rewrite (bind_raise _ _ _ _ _ E).
  by rewrite (bind_ok _ _ _ _ _ (rollback_clean w Hc)).
Qed.

(** A request that ends with 404, or with an error of the database if the number it
    names is not [known], and has no effect. *)
Definition not_found (known : bool) {A} (m : M A) w : Prop :=
  ∃ msg, m w = (Raise (if known then HTTPException 404 msg else DataError), w).

Lemma not_found_scope {A B} (m : M A) (f : A → M B) (b : bool) msg w :
  clean w → m w = (Raise (if b then HTTPException 404 msg else DataError), w) →
  not_found b (session_scope (m ≫= f)) w.
Proof. intros Hc E. exists msg. apply session_scope_raise; [done|]. by apply bind_raise. Qed.

Lemma not_found_run {A B C} (m : M A) (f : A → M B) (g : B → prog C) (b : bool) msg w :
  clean w → m w = (Raise (if b then HTTPException 404 msg else DataError), w) →
  not_found b (run (call (in_session (m ≫= f)) ≫= g)) w.
Proof.
  intros Hc E. exists msg. rewrite run_bind. apply bind_raise. rewrite run_call.
  apply in_session_raise; [done|]. by apply bind_raise.
Qed.

(** ** Lists *)

Lemma elem_of_limit_offset {A} (l : list A) limit offset x :
  x ∈ limit_offset limit offset l → x ∈ l.
Proof.
  intros Hx. eapply elem_of_submseteq; [exact Hx|]. etrans; [apply sublist_submseteq, sublist_take|].
  apply sublist_submseteq, sublist_drop.
Qed.

Lemma map_each_in {A B} (f : A → M B) l w ys w' :
  map_each f l w = (Ok ys, w') → ∀ y, y ∈ ys → ∃ x w0 w1, x ∈ l ∧ f x w0 = (Ok y, w1).
Proof.
  revert w ys w'. induction l as [|x l IH]; intros w ys w' E y Hy; simpl in E.
  - injection E as <- _. set_solver.
  - unfold mbind, M_bind in E. destruct (f x w) as [[y0|] w1] eqn:E1; [|done].
    destruct (map_each f l w1) as [[ys0|] w2] eqn:E2; [|done]. injection E as <- _.
    apply elem_of_cons in Hy as [->|Hy].
    + exists x, w, w1. split; [set_solver|done].
    + destruct (IH _ _ _ E2 y Hy) as (x' & w0 & w3 & Hx & Hf). exists x', w0, w3. set_solver.
Qed.

(** A body that starts with a selection, and returns. *)
Lemma scope_read_inv {A B} (g : World → A) (f : A → M B) w y w' :
  session_scope (read g ≫= f) w = (Ok y, w') → ∃ w1, f (g w) w = (Ok y, w1).
Proof. intros (w1 & E & _)%session_scope_inv. by exists w1. Qed.

Lemma job_to_dict_owner j w o w' : job_to_dict j w = (Ok o, w') → jo_owner_user_id o = owner_user_id j.
Proof. by intros [= <- _]. Qed.

Lemma elem_of_page {A} (R : relation A) `{RelDecision _ _ R} (l : list A) limit offset x :
  x ∈ limit_offset limit offset (merge_sort R l) → x ∈ l.
Proof. intros Hx%elem_of_limit_offset. by rewrite (merge_sort_Permutation R) in Hx. Qed.

Lemma list_runs_own f limit offset user w rs w' :
  list_runs f limit offset user w = (Ok rs, w') →
  ∀ r, r ∈ rs → owned (w_db w) (Some (user_id user)) (run_job_id r).
Proof.
  intros (w1 & E & _)%session_scope_inv r Hr.
  apply gate_inv in E; [|destruct f; [apply gate_text|by left]]. apply gate_inv in E; [|apply gate_offset].
  injection E as <- _. apply elem_of_page in Hr.
  by apply list_elem_of_filter in Hr as [[_ Ho] _].
Qed.

Lemma list_jobs_own en limit offset user w os w' :
  api_list_jobs en limit offset user w = (Ok os, w') →
  ∀ o, o ∈ os → jo_owner_user_id o = Some (user_id user).
Proof.
  intros (w1 & E & _)%session_scope_inv o Ho. unfold list_jobs, mbind, M_bind in E.
  destruct (gate_offset offset w) as [Eo|Eo]; rewrite Eo in E; [|done]. cbn beta iota in E.
  destruct (map_each_in _ _ _ _ _ E o Ho) as (j & w2 & w3 & Hj & Ed).
  rewrite (job_to_dict_owner _ _ _ _ Ed). apply elem_of_page, list_elem_of_filter in Hj. tauto.
Qed.

Lemma list_recent_own limit user w os w' :
  list_recent_jobs limit user w = (Ok os, w') →
  ∀ o, o ∈ os → jo_owner_user_id o.1 = Some (user_id user).
Proof.
  intros (w1 & E)%scope_read_inv o Ho.
  destruct (map_each_in _ _ _ _ _ E o Ho) as (j & w2 & w3 & Hj & Ed).
  unfold recent_out, mbind, M_bind in Ed. destruct (latest_run _ w2) as [[l|] w4]; [|done].
  destruct (job_to_dict j w4) as [[d|] w5] eqn:Ej; [|done]. injection Ed as <- _.
  simpl. rewrite (job_to_dict_owner _ _ _ _ Ej).
  apply (elem_of_limit_offset _ limit 0) in Hj.
  rewrite (merge_sort_Permutation newest_job) in Hj. apply list_elem_of_filter in Hj. tauto.
Qed.

(** C25: Users are isolated.  Whatever exists, an endpoint that names a job or a run
    of somebody else, or one that does not exist, answers 404 (an error of the database, if
    the number is no [BIGINT]) and leaves the tables, the queue and the cancellation channel
    as they were; the lists hold only the user's own jobs and the runs of those. *)
Theorem users_isolated (user : User) (w : World) :
  clean w → db_wf (w_db w) →
  (∀ i, ¬ owned (w_db w) (Some (user_id user)) i → let b := bigint (jobs (w_db w)) i in
     not_found b (api_get_job i user) w ∧ (∀ u, not_found b (api_update_job i u user) w) ∧
     not_found b (api_delete_job i user) w ∧ not_found b (run (trigger_job i user)) w ∧
     not_found b (session_scope (get_latest_job_run i user)) w ∧
     (∀ n k, not_found b (get_latest_job_run_logs i n k user) w) ∧
     (∀ f n k, not_found b (list_job_runs i f n k user) w)) ∧
  (∀ i, (∀ r, ¬ visible (w_db w) user i r) → let b := bigint (runs (w_db w)) i in
     not_found b (get_run i user) w ∧ (∀ n k, not_found b (get_run_logs i n k user) w) ∧
     not_found b (run (api_retry_run i user)) w ∧ not_found b (run (api_cancel_run i user)) w) ∧
  (∀ en n k os w', api_list_jobs en n k user w = (Ok os, w') →
     ∀ o, o ∈ os → jo_owner_user_id o = Some (user_id user)) ∧
  (∀ n os w', list_recent_jobs n user w = (Ok os, w') →
     ∀ o, o ∈ os → jo_owner_user_id o.1 = Some (user_id user)) ∧
  (∀ f n k rs w', list_runs f n k user w = (Ok rs, w') →
     ∀ r, r ∈ rs → owned (w_db w) (Some (user_id user)) (run_job_id r)).
Proof.
  intros Hc W. split; [|split; [|split; [|split]]].
  - intros i Hn b. pose proof (owned_job_missing i user w W Hn) as E.
    assert (not_found b (session_scope (get_latest_job_run i user)) w) as Hlatest
      by by eapply not_found_scope.
    split; [by eapply not_found_scope|]. split; [intros; by eapply not_found_scope|].
    split; [by eapply not_found_scope|]. split.
    { eapply not_found_run; [done|]. by apply bind_raise. }
    split; [done|]. split; [|intros; by eapply not_found_scope].
    intros n k. eapply not_found_scope; [done|]. by apply bind_raise.
  - intros i Hn b. pose proof (owned_run_missing i user w W Hn) as E.
    split; [eexists; by apply session_scope_raise|]. split; [intros; by eapply not_found_scope|].
    split; by eapply not_found_run.
  - intros; by eapply list_jobs_own.
  - intros; by eapply list_recent_own.
  - intros; by eapply list_runs_own.
Qed.

(** ** Retrying and canceling *)

Lemma in_session_commit w :
  w_faults w = [] → clean w → in_session commit w = (Ok tt, w).
Proof.
  intros Hf Hc. unfold in_session, try_except, commit, mbind, M_bind, fault_point. rewrite Hf. simpl.
  unfold clean in Hc. rewrite Hc. by destruct w; simpl in *; subst.
Qed.

Lemma run_publish r w :
  w_faults w = [] →
  ∃ s', run (publish r) w = (Ok tt, with_redis s' w) ∧
    appended (view (w_redis w)) [py_str (run_id r)] (view s') ∧
    rv_delayed (view s') = rv_delayed (view (w_redis w)).
Proof.
  intros Hf. destruct (run_publish_all [r] w Hf) as (s' & E & Ha & Hd). exists s'.
  split; [|done]. cbn [pfor_each] in E. rewrite run_bind in E. unfold mbind, M_bind in E.
  destruct (run (publish r) w) as [[[]|e] w1]; [exact E|done].
Qed.

Lemma retry_body_eq i user w r :
  w_faults w = [] → db_wf (w_db w) → visible (w_db w) user i r → status r ∈ TERMINAL →
  let r' := new_run (runs_seq (w_db w)) (run_job_id r) RETRY QUEUED (attempt r + 1) None (w_clock w) in
  retry_body i user w = (Ok r', committed (add_run (w_db w) r') w).
Proof.
  intros Hf W Hv Hs r'. unfold retry_body. rewrite (bind_ok _ _ _ _ _ (owned_run_ok i user w r W Hv)).
  rewrite decide_True by done.
  assert (create_run (run_job_id r) RETRY None (attempt r + 1) QUEUED w =
    (Ok r', with_db (add_run (w_db w) r') w)) as E.
  { unfold create_run, insert_run. rewrite decide_True; [done|]. split; [|done].
    by apply (wf_run_job _ W i), Hv. }
  rewrite (bind_ok _ _ _ _ _ E).
  assert (commit (with_db (add_run (w_db w) r') w) =
    (Ok tt, committed (add_run (w_db w) r') w)) as Ec.
  { unfold commit, mbind, M_bind, fault_point. simpl. by rewrite Hf. }
  rewrite (bind_ok _ _ _ _ _ Ec). unfold refresh_run, get_run_row, mbind, M_bind, read. simpl.
  by rewrite lookup_insert_eq.
Qed.

(** Retrying a run of one's own.  A run that has ended gets one new queued run of
    the same job with the next attempt number, which is published once and
    answered; the old run and all others stay as they are.  A run that has not ended
    is refused with 409 without any effect. *)
Theorem retry_run_exact (i : Z) (user : User) (r : JobRun) (w : World) :
  clean w → w_faults w = [] → db_wf (w_db w) → visible (w_db w) user i r →
  let r' := new_run (runs_seq (w_db w)) (run_job_id r) RETRY QUEUED (attempt r + 1) None (w_clock w) in
  (status r ∈ TERMINAL →
     ∃ w', run (api_retry_run i user) w = (Ok r', w') ∧ clean w' ∧
       runs (w_db w') = <[run_id r' := r']> (runs (w_db w)) ∧ runs (w_db w) !! run_id r' = None ∧
       appended (view (w_redis w)) [py_str (run_id r')] (view (w_redis w')) ∧
       rv_delayed (view (w_redis w')) = rv_delayed (view (w_redis w))) ∧
  (status r ∉ TERMINAL →
     ∃ msg, run (api_retry_run i user) w = (Raise (HTTPException 409 msg), w)).
Proof.
  intros Hc Hf W Hv r'. unfold api_retry_run. split; intros Hs.
  - pose proof (retry_body_eq i user w r Hf W Hv Hs) as E. cbn zeta in E. fold r' in E.
    set (w1 := committed (add_run (w_db w) r') w) in *.
    destruct (run_publish r' w1 Hf) as (s' & Ep & Ha & Hd).
    exists (with_redis s' w1). split.
    + erewrite run_step by (unfold in_session, try_except; by rewrite E). cbn beta.
      rewrite (run_then _ _ _ _ _ Ep). cbn beta.
      by erewrite run_step by by apply in_session_commit.
    + split; [done|]. split; [done|]. split; [|done].
      destruct (runs (w_db w) !! run_id r') eqn:Hk; [|done].
      apply (wf_run_key _ W) in Hk as [_ Hk]. simpl in Hk. lia.
  - eexists. rewrite run_bind. erewrite bind_raise; [reflexivity|]. rewrite run_call.
    apply in_session_raise; [done|]. unfold retry_body.
    rewrite (bind_ok _ _ _ _ _ (owned_run_ok i user w r W Hv)). by rewrite decide_False.
Qed.

Lemma not_terminal_active st : st ∉ TERMINAL → st ∈ ACTIVE.
Proof. unfold TERMINAL, ACTIVE. destruct st; set_solver. Qed.

Lemma cancelable_run_eq i user r w :
  db_wf (w_db w) → visible (w_db w) user i r →
  cancelable_run i user w =
    (if decide (status r ∈ TERMINAL)
     then raise (HTTPException 409 ("run is already terminal (current: "
                                    ++ status_str (status r) ++ ")"))
     else mret r) w.
Proof.
  intros W Hv. unfold cancelable_run. by rewrite (bind_ok _ _ _ _ _ (owned_run_ok i user w r W Hv)).
Qed.

(** What a cancellation leaves: the row, and its message. *)
Definition after_cancel (i : Z) (r : JobRun) (w : World) : World :=
  with_redis (publish_msg (py_str i) (w_redis w))
    (committed (put_run i (canceled_row (w_clock w) r) (w_db w)) w).

Lemma cancel_request_run i user r w :
  clean w → w_faults w = [] → db_wf (w_db w) → visible (w_db w) user i r → status r ∉ TERMINAL →
  run (api_cancel_run i user) w = (Ok (canceled_row (w_clock w) r), after_cancel i r w).
Proof.
  intros Hc Hf W Hv Hs. unfold api_cancel_run.
  assert (in_session (cancelable_run i user) w = (Ok r, w)) as Hin.
  { unfold in_session, try_except. rewrite (cancelable_run_eq i user r w W Hv). by rewrite decide_False. }
  rewrite (run_step _ _ _ _ _ Hin). cbn beta. destruct Hv as [Hi Ho].
  pose proof (cancel_run_active i r w Hf W Hi (not_terminal_active _ Hs)) as Ec.
  set (r' := canceled_row (w_clock w) r) in *.
  rewrite (run_step _ _ _ _ _ Ec). cbn beta iota.
  set (w2 := after_cancel i r w).
  assert (run (publish_cancel i) (committed (put_run i r' (w_db w)) w) = (Ok tt, w2)) as Ep.
  { unfold publish_cancel. rewrite run_call. unfold publish_cmd, mbind, M_bind, fault_point.
    simpl. by rewrite Hf. }
  rewrite (run_then _ _ _ _ _ Ep). cbn beta.
  assert (db_wf (w_db w2)) as W2.
  { eapply ev_wf, W. apply (evolves_put_run _ _ r); [done|].
    by apply cancel_evolves, not_terminal_active. }
  assert (visible (w_db w2) user i r') as Hv2 by (split; [apply lookup_insert_eq|done]).
  erewrite run_step by (unfold in_session, try_except; by rewrite (owned_run_ok i user w2 r' W2 Hv2)).
  cbn beta. by erewrite run_step by by apply in_session_commit.
Qed.

(** Canceling a run of one's own.  A run that has not ended becomes canceled with
    the current time and the message, the row is answered, and exactly its number
    is announced on the cancellation channel; no other row and no message of the
    queue changes.  A run that has ended is refused with 409 without any effect. *)
Theorem cancel_request_exact (i : Z) (user : User) (r : JobRun) (w : World) :
  clean w → w_faults w = [] → db_wf (w_db w) → visible (w_db w) user i r →
  let r' := set_status CANCELED (set_finished (w_clock w) (Some "canceled by user"%string) r) in
  (status r ∉ TERMINAL →
     ∃ w', run (api_cancel_run i user) w = (Ok r', w') ∧ clean w' ∧
       runs (w_db w') = <[i := r']> (runs (w_db w)) ∧
       view (w_redis w') =
         with_published (rv_published (view (w_redis w)) ++ [py_str i]) (view (w_redis w))) ∧
  (status r ∈ TERMINAL →
     ∃ msg, run (api_cancel_run i user) w = (Raise (HTTPException 409 msg), w)).
Proof.
  intros Hc Hf W Hv r'. split; intros Hs.
  - exists (after_cancel i r w). split; [by apply cancel_request_run|].
    split; [done|]. split; [done|apply publish_view].
  - eexists. unfold api_cancel_run. rewrite run_bind. erewrite bind_raise; [reflexivity|].
    rewrite run_call. apply in_session_raise; [done|].
    rewrite (cancelable_run_eq i user r w W Hv). by rewrite decide_True.
Qed.

End runs_api.

(** ** Evaluation *)

#[local] Existing Instances reference_redis reference_pg reference_croniter plain_validation_text.

Lemma store_job_owner :
  (owner_user_id <$> jobs (w_db world_store) !! 1) = Some (Some 1).
Proof. vm_compute. reflexivity. Qed.

Lemma eve_not_owner : ¬ owned (w_db world_store) (Some (user_id (demo_user "eve" 2))) 1.
Proof.
  intros (j & Hj & Ho). pose proof store_job_owner as E. rewrite Hj in E. simpl in E, Ho. congruence.
Qed.

Lemma users_isolated_witness :
  not_found true (api_get_job 1 (demo_user "eve" 2)) world_store ∧
  not_found true (run (trigger_job 1 (demo_user "eve" 2))) world_store.
Proof.
  destruct (proj1 (users_isolated (demo_user "eve" 2) world_store clean_store wf_store) 1 eve_not_owner)
    as (Hget & _ & _ & Htrig & _).
  split; [exact Hget|exact Htrig].
Defined.

Lemma visible_store i :
  i = 1 ∨ i = 2 → ∃ r, visible (w_db world_store) (demo_user "ann" 1) i r ∧
    status r = (if decide (i = 1) then SUCCEEDED else QUEUED).
Proof.
  intros [->| ->]; eexists; (split; [split; [vm_compute; reflexivity|]|vm_compute; reflexivity]);
    eexists; split; vm_compute; reflexivity.
Qed.

Lemma retry_run_exact_witness :
  ∃ r' w', run (api_retry_run 1 (demo_user "ann" 1)) world_store = (Ok r', w') ∧
    runs (w_db w') !! run_id r' = Some r' ∧ status r' = QUEUED.
Proof.
  destruct (visible_store 1 (or_introl eq_refl)) as (r & Hv & Hs).
  assert (status r ∈ TERMINAL) as Ht by (rewrite Hs; apply elem_of_cons; left; reflexivity).
  destruct (proj1 (retry_run_exact 1 (demo_user "ann" 1) r world_store clean_store quiet_store
    wf_store Hv) Ht) as (w' & E & _ & Hr & _).
  eexists _, w'. split; [exact E|]. split; [rewrite Hr; apply lookup_insert_eq|reflexivity].
Defined.

Lemma store_no_messages : rv_published (view (w_redis world_store)) = [].
Proof. reflexivity. Qed.

Lemma published_one v m : rv_published v = [] → rv_published (with_published (rv_published v ++ [m]) v) = [m].
Proof. by intros ->. Qed.

Lemma queued_not_terminal st : st = (if decide (2 = 1) then SUCCEEDED else QUEUED) → st ∉ TERMINAL.
Proof. intros ->. simpl. unfold TERMINAL. set_solver. Qed.

Lemma cancel_request_exact_witness :
  ∃ r' w', run (api_cancel_run 2 (demo_user "ann" 1)) world_store = (Ok r', w') ∧
    status r' = CANCELED ∧ rv_published (view (w_redis w')) = [py_str 2].
Proof.
  destruct (visible_store 2 (or_intror eq_refl)) as (r & Hv & Hs).
  destruct (proj1 (cancel_request_exact 2 (demo_user "ann" 1) r world_store clean_store quiet_store
    wf_store Hv) (queued_not_terminal _ Hs)) as (w' & E & _ & _ & Hp).
  eexists _, w'. split; [exact E|]. split; [reflexivity|]. rewrite Hp.
  exact (published_one _ _ store_no_messages).
Defined.
