(* ===== verification/Auth.v ===== *)
(** * Accounts: [backend/common/auth.py], [api/deps.py], [api/routers/auth.py]

    Password hashes, access tokens, the check of a bearer token that precedes every
    endpoint, registration and login.  Text is a sequence of bytes, so a password
    is its own UTF-8 encoding; the digests of [hashlib] and [hmac] are parameters
    about which nothing is assumed, and a random salt is an argument. *)

From S2P Require Import Prelude PyBase PyCodec Models RedisServer Effects Database RedisQueue Cron.
From S2P Require Import Demo Store Schemas Crud JobsApi RunsApi.
From Stdlib Require Import Ascii.

Local Open Scope string_scope.
Local Open Scope Z_scope.
Local Open Scope list_scope.

(** [hmac.new(key, msg, sha256).digest()] and
    [hashlib.pbkdf2_hmac("sha256", password, salt, iterations)] *)
Class Digests := {
  hmac_sha256 : string → string → string;
  pbkdf2_sha256 : string → string → Z → string
}.

(** ** auth.py *)

Definition PBKDF2_ITERATIONS : Z := 210000.

(** [_b64encode], [_b64decode] *)
Definition b64encode (raw : string) : string := rstrip_char "=" (urlsafe_b64encode raw).
Definition b64decode (value : string) : option string :=
  urlsafe_b64decode (value ++ repeat_char "=" (padding value)).

(** [s.split(c, 1)] when the separator occurs, and [s.split(c, n)]. *)
Fixpoint split_once (c : ascii) (s : string) : option (string * string) :=
  match s with
  | EmptyString => None
  | String a s =>
      if Ascii.eqb a c then Some (""%string, s)
      else '(l, r) ← split_once c s; Some (String a l, r)
  end.
Fixpoint split_max (c : ascii) (n : nat) (s : string) : list string :=
  match n with
  | O => [s]
  | S n => match split_once c s with
           | None => [s]
           | Some (l, r) => l :: split_max c n r
           end
  end.

(** The claims of a token. *)
Definition token_payload (i : Z) (name : string) (iat exp : Z) : list (string * json) :=
  [("sub", JStr (py_str i)); ("username", JStr name); ("iat", JInt iat); ("exp", JInt exp)].

(** [isinstance(v, int)], and its value: [bool] is a subclass of [int]. *)
Definition json_is_int (v : json) : option Z :=
  match v with JInt n => Some n | JBool b => Some (if b then 1 else 0) | _ => None end.

(** [int(v)]; [None] is [ValueError] or [TypeError]. *)
Definition json_int (v : json) : option Z :=
  match v with
  | JStr s => py_int s
  | JInt n => Some n
  | JBool b => Some (if b then 1 else 0)
  | JFloat m e => Some (if 0 <=? e then m * 10 ^ e else Z.quot m (10 ^ (- e)))
  | _ => None
  end.

Section auth.
Context `{RedisServer, Postgres, Settings, Digests}.

Definition hash_password (password salt : string) : string :=
  ("pbkdf2_sha256$" ++ py_str PBKDF2_ITERATIONS ++ "$" ++ b64encode salt ++ "$"
   ++ b64encode (pbkdf2_sha256 password salt PBKDF2_ITERATIONS))%string.

(** [hashlib.pbkdf2_hmac] refuses counts out of its range. *)
Definition verify_password (password hash : string) : Res bool :=
  match split_max "$" 3 hash with
  | [algorithm; iterations_raw; salt_raw; digest_raw] =>
      if negb (String.eqb algorithm "pbkdf2_sha256") then Ok false
      else match py_int iterations_raw, b64decode salt_raw, b64decode digest_raw with
      | Some iterations, Some salt, Some expected =>
          if iterations <? 1 then Raise (ValueError "iteration value must be greater than 0.")
          else if 2147483647 <? iterations then Raise OverflowError
          else Ok (String.eqb (pbkdf2_sha256 password salt iterations) expected)
      | _, _, _ => Ok false
      end
  | _ => Ok false
  end.

(** [signature] of [payload_raw] *)
Definition sign (secret payload_raw : string) : string := b64encode (hmac_sha256 secret payload_raw).

(** [expires_delta] in microseconds. *)
Definition create_access_token (i : Z) (name secret : string) (expires_delta : Z) : M string :=
  now ← utcnow;
  match json_dumps (JObj (token_payload i name (now `div` usec) ((now + expires_delta) `div` usec))) with
  | None => raise TypeError
  | Some text =>
      let payload_raw := b64encode text in
      mret (payload_raw ++ "." ++ sign secret payload_raw)%string
  end.

(** The checks after the signature's. *)
Definition payload_unexpired (payload : list (string * json)) : M (option (list (string * json))) :=
  now ← utcnow;
  mret (match dict_get "exp" payload ≫= json_is_int with
        | None => None
        | Some exp => if exp <? now `div` usec then None else Some payload
        end).

Definition decode_access_token (token secret : string) : M (option (list (string * json))) :=
  match split_once "." token with
  | None => mret None
  | Some (payload_raw, signature_raw) =>
      if negb (is_ascii payload_raw) then raise (ValueError "'ascii' codec can't encode")
      else if negb (is_ascii signature_raw) then raise TypeError
      else if negb (String.eqb (sign secret payload_raw) signature_raw) then mret None
      else match b64decode payload_raw ≫= json_loads with
      | None => mret None
      | Some (JObj payload) => payload_unexpired payload
      | Some _ => raise AttributeError
      end
  end.

(** ** deps.py *)

Definition unauthorized {A} (detail : string) : M A := raise (HTTPException 401 detail).

(** [get_current_user]; [credentials] are the scheme and the token of the header. *)
Definition get_current_user (credentials : option (string * string)) : M User :=
  match credentials with
  | None => unauthorized "missing bearer token"
  | Some (scheme, token) =>
      if negb (String.eqb (py_lower scheme) "bearer") then unauthorized "missing bearer token"
      else
        payload ← decode_access_token token auth_secret_key;
        match payload with
        | None => unauthorized "invalid or expired token"
        | Some payload =>
            match dict_get "sub" payload ≫= json_int with
            | None => unauthorized "invalid token subject"
            | Some user_id =>
                bind_id users user_id;;
                user ← get_user_row user_id;
                match user with
                | None => unauthorized "user not found or inactive"
                | Some u => if is_active u then mret u
                            else unauthorized "user not found or inactive"
                end
            end
        end
  end.

(** ** routers/auth.py *)

Record UserCreate := {
  uc_username : string;
  uc_password : string;
  uc_email : option string
}.

(** [^[A-Za-z0-9_.-]+$] *)
Definition username_char (c : ascii) : bool :=
  byte_in 65 90 c || byte_in 97 122 c || is_digit c || Ascii.eqb c "_" || Ascii.eqb c "."
  || Ascii.eqb c "-".

Definition user_create_valid (p : UserCreate) : bool :=
  length_ok 3 64 (uc_username p) && string_forallb username_char (uc_username p)
  && length_ok 8 128 (uc_password p)
  && match uc_email p with None => true | Some e => length_ok 0 255 e end.

(** [TokenOut]; the token type is always bearer. *)
Record TokenOut := {
  access_token : string;
  expires_in : Z;
  tok_user : User
}.

(** [_token_for_user] *)
Definition token_for_user (u : User) : M TokenOut :=
  let seconds := auth_token_expire_minutes * 60 in
  t ← create_access_token (user_id u) (username u) auth_secret_key (seconds * usec);
  mret {| access_token := t; expires_in := seconds; tok_user := u |}.

Definition new_user (p : UserCreate) (hash : string) (now i : Z) : User :=
  {| user_id := i; username := uc_username p; email := uc_email p; password_hash := hash;
     is_active := true; user_created_at := now; user_updated_at := now |}.

(** [session.refresh(user)] *)
Definition refresh_user (i : Z) : M User :=
  o ← get_user_row i; match o with Some u => mret u | None => raise DbError end.

(** The texts of a registration as arguments of a statement. *)
Definition account_texts (p : UserCreate) : bool :=
  text_ok (uc_username p) && opt_ok text_ok (uc_email p).

Definition register (p : UserCreate) (salt : string) : M TokenOut :=
  session_scope (
    bind_text (uc_username p);; bind_text (default "" (uc_email p));;
    existing ← (rows ← select_users (λ u, username u = uc_username p ∨
                                          uc_email p ≠ None ∧ email u = uc_email p);
                scalar_one_or_none rows);
    match existing with
    | Some _ => raise (HTTPException 409 "username or email already exists")
    | None =>
        now ← utcnow;
        u ← insert_user (new_user p (hash_password (uc_password p) salt) now);
        commit;;
        u ← refresh_user (user_id u);
        token_for_user u
    end).

Definition login (name password : string) : M TokenOut :=
  session_scope (
    bind_text name;;
    user ← (rows ← select_users (λ u, username u = name ∨ email u = Some name);
            scalar_one_or_none rows);
    match user with
    | None => unauthorized "invalid username or password"
    | Some u =>
        if is_active u then
          ok ← lift (verify_password password (password_hash u));
          if (ok : bool) then token_for_user u else unauthorized "invalid username or password"
        else unauthorized "invalid username or password"
    end).

(** An endpoint that requires a user: the check shares the endpoint's session. *)
Definition authenticated {A} (credentials : option (string * string)) (body : User → M A) : M A :=
  session_scope (u ← get_current_user credentials; body u).

Definition me (credentials : option (string * string)) : M User :=
  authenticated credentials (λ u, mret u).

(** ** Encodings can be read back *)

Lemma b64decode_b64encode raw : b64decode (b64encode raw) = Some raw.
Proof. apply b64_unpadded_roundtrip. Qed.

Lemma b64encode_text raw : b64_text (b64encode raw) = true.
Proof. apply b64_padding. Qed.

Lemma b64encode_ascii raw : is_ascii (b64encode raw) = true.
Proof.
  eapply string_forallb_impl; [|apply b64encode_text].
  intros c. by destruct c as [[] [] [] [] [] [] [] []].
Qed.

Definition no_char (c : ascii) (s : string) : Prop :=
  string_forallb (λ a, negb (Ascii.eqb a c)) s = true.

Lemma split_once_app c l r : no_char c l → split_once c (l ++ String c r) = Some (l, r).
Proof.
  unfold no_char. induction l as [|a l IH]; intros Hl.
  - rewrite app_string_nil. cbn [split_once]. by rewrite Ascii.eqb_refl.
  - simpl in Hl. apply andb_true_iff in Hl as [Ha Hl]. apply negb_true_iff in Ha.
    rewrite app_string_cons. cbn [split_once]. by rewrite Ha, (IH Hl).
Qed.

Lemma split_once_inv c s l r : split_once c s = Some (l, r) → s = (l ++ String c r)%string.
Proof.
  revert l. induction s as [|a s IH]; intros l; [done|]. cbn [split_once].
  destruct (Ascii.eqb a c) eqn:Ha.
  - apply Ascii.eqb_eq in Ha as ->. by intros [= <- <-].
  - destruct (split_once c s) as [[l' r']|]; [|done]. intros [= <- <-].
    by rewrite app_string_cons, <- (IH l').
Qed.

Lemma is_ascii_app s t : is_ascii (s ++ t) = is_ascii s && is_ascii t.
Proof.
  unfold is_ascii. induction s as [|c s IH]; [done|]. rewrite app_string_cons. cbn [string_forallb].
  by rewrite IH, andb_assoc.
Qed.

Lemma b64encode_no_char c raw : b64_val c = None → no_char c (b64encode raw).
Proof.
  intros Hc. eapply string_forallb_impl; [|apply b64encode_text]. intros a Ha.
  apply negb_true_iff, Ascii.eqb_neq. intros ->. by rewrite Hc in Ha.
Qed.

(** A password is verified by comparing the digests under the stored salt. *)
Lemma verify_hash_password password password' salt :
  verify_password password' (hash_password password salt) =
    Ok (String.eqb (pbkdf2_sha256 password' salt PBKDF2_ITERATIONS)
                   (pbkdf2_sha256 password salt PBKDF2_ITERATIONS)).
Proof.
  unfold verify_password.
  assert (split_max "$" 3 (hash_password password salt) =
    ["pbkdf2_sha256"; py_str PBKDF2_ITERATIONS; b64encode salt;
     b64encode (pbkdf2_sha256 password salt PBKDF2_ITERATIONS)]%string) as ->.
  { change (hash_password password salt) with
      ("pbkdf2_sha256" ++ String "$" (py_str PBKDF2_ITERATIONS ++ String "$" (b64encode salt ++
        String "$" (b64encode (pbkdf2_sha256 password salt PBKDF2_ITERATIONS)))))%string.
    cbn [split_max]. rewrite split_once_app by done. rewrite split_once_app by done.
    by rewrite split_once_app by by apply b64encode_no_char. }
  rewrite !b64decode_b64encode, py_int_str. done.
Qed.

Definition seconds (t : Z) : Z := t `div` usec.

(** A token is read back as its claims until it expires. *)
Lemma token_roundtrip i name secret delta w :
  ∃ t, create_access_token i name secret delta w = (Ok t, w) ∧
    ∀ w', decode_access_token t secret w' =
      (Ok (if seconds (w_clock w + delta) <? seconds (w_clock w') then None
           else Some (token_payload i name (seconds (w_clock w)) (seconds (w_clock w + delta)))), w').
Proof.
  set (payload := token_payload i name (seconds (w_clock w)) (seconds (w_clock w + delta))).
  destruct (json_roundtrip payload) as (text & Ed & El).
  - done.
  - by apply (bool_decide_unpack (NoDup payload.*1)).
  - repeat constructor.
  - exists (b64encode text ++ String "." (sign secret (b64encode text)))%string. split.
    + unfold create_access_token. erewrite bind_ok by done.
      change (json_dumps _) with (json_dumps (JObj payload)). by rewrite Ed.
    + intros w'. unfold decode_access_token. rewrite split_once_app by by apply b64encode_no_char.
      unfold sign at 1 3. rewrite !b64encode_ascii. cbn [negb]. fold (sign secret (b64encode text)).
      rewrite String.eqb_refl. cbn [negb]. rewrite b64decode_b64encode. simpl. rewrite El. done.
Qed.

(** ** Accounts *)

Lemma select_users_unique (P : User → Prop) `{∀ u, Decision (P u)} w i u :
  db_wf (w_db w) → users (w_db w) !! i = Some u → P u →
  (∀ k u', users (w_db w) !! k = Some u' → P u' → k = i) →
  (rows ← select_users P; scalar_one_or_none rows) w = (Ok (Some u), w).
Proof.
  intros W Hi HP Huniq. unfold select_users, mbind, M_bind, read. cbn beta iota.
  pose proof (select_keys_nodup user_id P (users (w_db w))
    (λ k u Hk, proj1 (wf_user_key _ W k u Hk))) as Hnd.
  assert (∀ u', u' ∈ filter P (heap_scan (users (w_db w))) ↔ u' = u) as Hin.
  { intros u'. rewrite elem_of_select. split; [|intros ->; eauto].
    intros (k & Hk & HP'). pose proof (Huniq k u' Hk HP'). congruence. }
  destruct (filter P _) as [|u1 [|u2 l]].
  - destruct (not_elem_of_nil u). by apply Hin.
  - assert (u1 = u) as -> by (apply Hin; set_solver). done.
  - assert (u1 = u) as -> by (apply Hin; set_solver).
    assert (u2 = u) as -> by (apply Hin; set_solver).
    apply NoDup_cons in Hnd as [Hn _]. simpl in Hn. set_solver.
Qed.

Lemma select_users_none (P : User → Prop) `{∀ u, Decision (P u)} w :
  (∀ k u, users (w_db w) !! k = Some u → ¬ P u) →
  (rows ← select_users P; scalar_one_or_none rows) w = (Ok None, w).
Proof.
  intros Hn. unfold select_users, mbind, M_bind, read. cbn beta iota.
  rewrite filter_nothing; [done|]. intros u (k & Hk & HP)%elem_of_select. by eapply Hn.
Qed.

Lemma token_for_user_eq u w :
  ∃ tok, token_for_user u w = (Ok tok, w) ∧ tok_user tok = u ∧
    expires_in tok = auth_token_expire_minutes * 60 ∧
    ∀ scheme w2, py_lower scheme = "bearer" → users (w_db w2) !! user_id u = Some u →
      is_active u = true →
      get_current_user (Some (scheme, access_token tok)) w2 =
        (if seconds (w_clock w + expires_in tok * usec) <? seconds (w_clock w2)
         then Raise (HTTPException 401 "invalid or expired token") else Ok u, w2).
Proof.
  destruct (token_roundtrip (user_id u) (username u) auth_secret_key
    (auth_token_expire_minutes * 60 * usec) w) as (t & Et & Hdec).
  exists {| access_token := t; expires_in := auth_token_expire_minutes * 60; tok_user := u |}.
  split; [unfold token_for_user; by rewrite (bind_ok _ _ _ _ _ Et)|]. split; [done|]. split; [done|].
  intros scheme w2 Hs Hu Ha. unfold get_current_user. rewrite Hs. cbn [access_token].
  rewrite String.eqb_refl. cbn [negb]. rewrite (bind_ok _ _ _ _ _ (Hdec w2)). cbn [expires_in].
  destruct (_ <? _); [done|]. simpl. rewrite py_int_str.
  rewrite (bind_ok _ _ _ _ _ (bind_id_ok users (user_id u) w2 (or_intror (mk_is_Some _ _ Hu)))).
  unfold get_user_row, mbind, M_bind, read. by rewrite Hu, Ha.
Qed.

Lemma register_eq p salt w :
  clean w → w_faults w = [] → account_texts p = true →
  user_free (w_db w) (uc_username p) (uc_email p) →
  let d := w_db w in
  let u := new_user p (hash_password (uc_password p) salt) (w_clock w) (users_seq d) in
  let w1 := committed (with_users (<[users_seq d := u]> (users d)) (next_users d)) w in
  register p salt w = token_for_user u w1.
Proof.
  intros Hc Hf [Hn He]%andb_true_iff Hfree d u w1.
  destruct (token_for_user_eq u w1) as (tok & Et & _). unfold register, bind_text. rewrite Et.
  apply (session_scope_quiet _ w tok w1); [|done].
  assert (text_ok (default "" (uc_email p)) = true) as -> by (by destruct (uc_email p)).
  rewrite Hn. do 2 erewrite bind_ok by done.
  assert (∀ k u', users (w_db w) !! k = Some u' → ¬ (username u' = uc_username p ∨
    uc_email p ≠ None ∧ email u' = uc_email p)) as Hnone.
  { intros k u' Hk. destruct (Hfree k u' Hk) as [? [?|?]]; naive_solver. }
  rewrite (bind_ok _ _ _ _ _ (select_users_none _ _ Hnone)).
  erewrite bind_ok by done.
  assert (insert_user (new_user p (hash_password (uc_password p) salt) (w_clock w)) w =
    (Ok u, with_db (with_users (<[users_seq d := u]> (users d)) (next_users d)) w)) as Ei
    by (unfold insert_user; by rewrite decide_True).
  rewrite (bind_ok _ _ _ _ _ Ei).
  assert (commit (with_db (with_users (<[users_seq d := u]> (users d)) (next_users d)) w) =
    (Ok tt, w1)) as Ec by (unfold commit, mbind, M_bind, fault_point; simpl; by rewrite Hf).
  rewrite (bind_ok _ _ _ _ _ Ec).
  assert (refresh_user (user_id u) w1 = (Ok u, w1)) as Er.
  { unfold refresh_user, get_user_row, mbind, M_bind, read. simpl. by rewrite lookup_insert_eq. }
  by rewrite (bind_ok _ _ _ _ _ Er).
Qed.

Lemma login_eq i u password w :
  clean w → w_faults w = [] → db_wf (w_db w) → users (w_db w) !! i = Some u → is_active u = true →
  text_ok (username u) = true →
  (∀ k u', users (w_db w) !! k = Some u' → email u' = Some (username u) → k = i) →
  login (username u) password w =
    match verify_password password (password_hash u) with
    | Ok true => token_for_user u w
    | Ok false => (Raise (HTTPException 401 "invalid username or password"), w)
    | Raise e => (Raise e, w)
    end.
Proof.
  intros Hc Hf W Hi Ha Ht Hemail.
  assert (∀ k u', users (w_db w) !! k = Some u' →
    username u' = username u ∨ email u' = Some (username u) → k = i) as Huniq.
  { intros k u' Hk [Hn|He]; [by eapply (wf_username _ W)|by eapply Hemail]. }
  pose proof (select_users_unique (λ u', username u' = username u ∨ email u' = Some (username u))
    w i u W Hi (or_introl eq_refl) Huniq) as Es.
  unfold login, bind_text. rewrite Ht.
  destruct (verify_password password (password_hash u)) as [[]|e] eqn:Ev.
  - destruct (token_for_user_eq u w) as (tok & Et & _). rewrite Et.
    apply scope_unchanged; [done..|]. erewrite bind_ok by done. rewrite (bind_ok _ _ _ _ _ Es), Ha, Ev.
    by erewrite bind_ok by done.
  - apply session_scope_raise; [done|]. erewrite bind_ok by done. rewrite (bind_ok _ _ _ _ _ Es), Ha, Ev.
    by erewrite bind_ok by done.
  - apply session_scope_raise; [done|]. erewrite bind_ok by done. rewrite (bind_ok _ _ _ _ _ Es), Ha, Ev.
    by erewrite bind_raise by done.
Qed.

(** C28: An account can be used.  Registering a free name and address, where the name is
    nobody's address, stores one new active user and answers a token; as long as the user's
    row is there, that token, under any spelling of "bearer", is accepted as exactly this
    user until it expires and refused with 401 afterwards; and logging in under the name
    succeeds with the same password, and fails with 401 for one with another digest.  An
    address with a NUL character is refused by the database without a trace. *)
Theorem account_roundtrip (p : UserCreate) (salt : string) (w : World) :
  clean w → w_faults w = [] → db_wf (w_db w) →
  user_free (w_db w) (uc_username p) (uc_email p) →
  (∀ k u, users (w_db w) !! k = Some u → email u ≠ Some (uc_username p)) →
  let i := users_seq (w_db w) in
  let u := new_user p (hash_password (uc_password p) salt) (w_clock w) i in
  (account_texts p = false → register p salt w = (Raise DataError, w)) ∧
  (account_texts p = true → ∃ tok w1,
    register p salt w = (Ok tok, w1) ∧ tok_user tok = u ∧ clean w1 ∧
    w_db w1 = with_users (<[i := u]> (users (w_db w))) (next_users (w_db w)) ∧
    (∀ scheme w2, py_lower scheme = "bearer"%string → users (w_db w2) !! i = Some u →
       get_current_user (Some (scheme, access_token tok)) w2 =
         (if seconds (w_clock w + expires_in tok * usec) <? seconds (w_clock w2)
          then Raise (HTTPException 401 "invalid or expired token") else Ok u, w2)) ∧
    (∀ password w2, clean w2 → w_faults w2 = [] → w_db w2 = w_db w1 →
       (pbkdf2_sha256 password salt PBKDF2_ITERATIONS =
          pbkdf2_sha256 (uc_password p) salt PBKDF2_ITERATIONS →
        ∃ tok', login (uc_username p) password w2 = (Ok tok', w2) ∧ tok_user tok' = u) ∧
       (pbkdf2_sha256 password salt PBKDF2_ITERATIONS ≠
          pbkdf2_sha256 (uc_password p) salt PBKDF2_ITERATIONS →
        login (uc_username p) password w2 =
          (Raise (HTTPException 401 "invalid username or password"), w2)))).
Proof.
  intros Hc Hf W Hfree Hemail i u. split.
  { intros Ht. apply session_scope_raise; [done|]. unfold account_texts in Ht. unfold bind_text.
    destruct (text_ok (uc_username p)); [|by erewrite bind_raise by done].
    erewrite bind_ok by done. destruct (uc_email p) as [a|]; simpl in *; [|done].
    rewrite Ht. by erewrite bind_raise by done. }
  intros Ht. pose proof (register_eq p salt w Hc Hf Ht Hfree) as Er.
  cbn zeta in Er. fold i u in Er. set (d1 := with_users (<[i := u]> (users (w_db w))) (next_users (w_db w))) in *.
  destruct (token_for_user_eq u (committed d1 w)) as (tok & Et & Hu & Hexp & Hcur).
  exists tok, (committed d1 w). split; [by rewrite Er|]. split; [done|]. split; [done|].
  split; [done|]. split; [intros scheme w2 Hs Hi; by apply Hcur|].
  intros password w2 Hc2 Hf2 Hd.
  assert (db_wf (w_db w2)) as W2.
  { rewrite Hd. simpl. refine (ev_wf (w_db w) d1 _ W).
    replace d1 with (w_db (insert_user (new_user p (hash_password (uc_password p) salt) (w_clock w)) w).2)
      by (unfold insert_user; by rewrite decide_True).
    by apply steps_insert_user. }
  assert (users (w_db w2) !! i = Some u) as Hi2 by (rewrite Hd; apply lookup_insert_eq).
  assert (∀ k u', users (w_db w2) !! k = Some u' → email u' = Some (username u) → k = i) as Hem2.
  { rewrite Hd. simpl. intros k u' [[<- _]|[_ Hk]]%lookup_insert_Some He; [done|].
    by destruct (Hemail k u' Hk). }
  apply andb_true_iff in Ht as [Ht _].
  pose proof (login_eq i u password w2 Hc2 Hf2 W2 Hi2 eq_refl Ht Hem2) as El.
  change (username u) with (uc_username p) in El.
  change (password_hash u) with (hash_password (uc_password p) salt) in El.
  rewrite verify_hash_password in El. rewrite El. split.
  - intros ->. rewrite String.eqb_refl. destruct (token_for_user_eq u w2) as (tok' & Et' & Hu' & _).
    by exists tok'.
  - intros Hne. apply String.eqb_neq in Hne. by rewrite Hne.
Qed.

Lemma payload_unexpired_eq payload w :
  payload_unexpired payload w =
    (Ok (match dict_get "exp" payload ≫= json_is_int with
         | None => None
         | Some exp => if exp <? seconds (w_clock w) then None else Some payload
         end), w).
Proof. done. Qed.

(** C30: No access without a valid token.  If a request is let in, its credentials are
    a bearer token whose second part is the signature of the first under the
    secret, whose claims have not expired, and whose subject is the number of an
    active user, the one that is returned; checking changes nothing.  A token with a wrong
    signature never gets in: it gets 401 if it is ASCII, and else an exception that is no
    401 leaves the check. *)
Theorem bearer_sound (credentials : option (string * string)) (w : World) :
  (∀ u w', get_current_user credentials w = (Ok u, w') →
     w' = w ∧ ∃ scheme raw signature text payload i exp,
       credentials = Some (scheme, raw ++ String "." signature)%string ∧
       py_lower scheme = "bearer"%string ∧ signature = sign auth_secret_key raw ∧
       b64decode raw = Some text ∧ json_loads text = Some (JObj payload) ∧
       dict_get "exp" payload ≫= json_is_int = Some exp ∧ seconds (w_clock w) ≤ exp ∧
       dict_get "sub" payload ≫= json_int = Some i ∧
       users (w_db w) !! i = Some u ∧ is_active u = true) ∧
  (∀ scheme raw signature, credentials = Some (scheme, raw ++ String "." signature)%string →
     is_ascii (raw ++ String "." signature) = true → no_char "." raw →
     signature ≠ sign auth_secret_key raw →
     ∃ msg, get_current_user credentials w = (Raise (HTTPException 401 msg), w)) ∧
  (∀ scheme raw signature, credentials = Some (scheme, raw ++ String "." signature)%string →
     py_lower scheme = "bearer"%string → no_char "." raw →
     is_ascii (raw ++ String "." signature) = false →
     ∃ e, get_current_user credentials w = (Raise e, w) ∧
       (e = TypeError ∨ ∃ msg, e = ValueError msg)).
Proof.
  split; [|split].
  - intros u w' E. unfold get_current_user in E. destruct credentials as [[scheme token]|]; [|done].
    destruct (String.eqb (py_lower scheme) "bearer") eqn:Hs; [|done]. apply String.eqb_eq in Hs.
    cbn [negb] in E. unfold decode_access_token in E.
    destruct (split_once "." token) as [[raw signature]|] eqn:Et; [|done].
    apply split_once_inv in Et.
    destruct (is_ascii raw); [|done]. destruct (is_ascii signature); [|done].
    destruct (String.eqb (sign auth_secret_key raw) signature) eqn:Hsig; [|done].
    apply String.eqb_eq in Hsig. cbn [negb] in E.
    destruct (b64decode raw) as [text|] eqn:Hb; [|done]. simpl in E.
    destruct (json_loads text) as [v|] eqn:Hj; [|done].
    destruct v as [| | | | | |payload]; try done.
    rewrite (bind_ok _ _ _ _ _ (payload_unexpired_eq payload w)) in E.
    destruct (dict_get "exp" payload ≫= json_is_int) as [exp|] eqn:Hexp; [|done].
    destruct (exp <? seconds (w_clock w)) eqn:Hlt; [done|]. apply Z.ltb_ge in Hlt.
    destruct (dict_get "sub" payload ≫= json_int) as [i|] eqn:Hsub; [|done].
    apply gate_inv in E; [|apply gate_id].
    unfold get_user_row, mbind, M_bind, read in E. cbn beta iota zeta in E.
    destruct (users (w_db w) !! i) as [u'|] eqn:Hi; [|done].
    destruct (is_active u') eqn:Ha; [|done]. injection E as <- <-. split; [done|].
    exists scheme, raw, signature, text, payload, i, exp. by subst.
  - intros scheme raw signature -> Ha Hdot Hsig. unfold get_current_user.
    destruct (String.eqb (py_lower scheme) "bearer"); [|by eexists]. cbn [negb].
    rewrite is_ascii_app in Ha. apply andb_true_iff in Ha as [Ha1 Ha2].
    change (is_ascii (String "." signature)) with (is_ascii signature) in Ha2.
    unfold decode_access_token. rewrite (split_once_app _ _ _ Hdot), Ha1, Ha2. cbn [negb].
    assert (String.eqb (sign auth_secret_key raw) signature = false) as -> by (by apply String.eqb_neq).
    by eexists.
  - intros scheme raw signature -> Hs Hdot Ha. unfold get_current_user. rewrite Hs. cbn.
    rewrite is_ascii_app in Ha. change (is_ascii (String "." signature)) with (is_ascii signature) in Ha.
    unfold decode_access_token. rewrite (split_once_app _ _ _ Hdot).
    destruct (is_ascii raw); cbn [negb]; [|by eexists; split; [|right; eexists]].
    simpl in Ha. rewrite Ha. by eexists; split; [|left].
Qed.

End auth.

(** ** Evaluation *)

#[local] Existing Instances reference_redis reference_pg default_settings.

(** Digests that keep their inputs apart. *)
Definition plain_digests : Digests :=
  {| hmac_sha256 key msg := (key ++ "/" ++ msg)%string;
     pbkdf2_sha256 password salt n := (password ++ "/" ++ salt)%string |}.
#[local] Existing Instance plain_digests.

Definition demo_account : UserCreate :=
  {| uc_username := "bob"; uc_password := "correct horse"; uc_email := None |}.

Lemma demo_account_free : user_free (w_db world_store) "bob" None.
Proof.
  intros k u Hu. split; [|by left].
  refine (rows_decide (λ u, username u ≠ "bob"%string) (users (w_db world_store)) _ k u Hu).
  vm_compute. reflexivity.
Qed.

Lemma demo_no_email k u : users (w_db world_store) !! k = Some u → email u ≠ Some "bob"%string.
Proof.
  intros Hu. refine (rows_decide (λ u, email u ≠ Some "bob"%string) (users (w_db world_store)) _ k u Hu).
  vm_compute. reflexivity.
Qed.

Lemma account_roundtrip_witness :
  ∃ tok w1, register demo_account "salt" world_store = (Ok tok, w1) ∧
    username (tok_user tok) = "bob"%string ∧
    ∃ tok', login "bob" "correct horse" w1 = (Ok tok', w1).
Proof.
  destruct (account_roundtrip demo_account "salt" world_store clean_store quiet_store wf_store
    demo_account_free demo_no_email) as [_ Hreg].
  destruct (Hreg eq_refl) as (tok & w1 & E & Hu & Hc & Hd & _ & Hlogin).
  exists tok, w1. split; [exact E|]. split; [rewrite Hu; reflexivity|].
  assert (w_faults w1 = []) as Hf.
  { change (w_faults (Ok tok, w1).2 = []). rewrite <- E. vm_compute. reflexivity. }
  destruct (proj1 (Hlogin "correct horse"%string w1 Hc Hf eq_refl) eq_refl) as (tok' & El & _).
  exists tok'. exact El.
Defined.

(** The token that the user "ann" gets at the start. *)
Definition ann_token : string :=
  match (token_for_user (demo_user "ann" 1) world_store).1 with
  | Ok tok => access_token tok
  | Raise _ => ""
  end.

Lemma ann_token_accepted :
  (get_current_user (Some ("Bearer"%string, ann_token)) world_store).1 = Ok (demo_user "ann" 1).
Proof. vm_compute. reflexivity. Qed.

Lemma forged_signature : "forged"%string ≠ sign auth_secret_key "e30".
Proof. vm_compute. discriminate. Qed.

Lemma bearer_sound_witness :
  (∃ raw text payload exp, ann_token = (raw ++ String "." (sign auth_secret_key raw))%string ∧
     b64decode raw = Some text ∧ json_loads text = Some (JObj payload) ∧
     dict_get "exp" payload ≫= json_is_int = Some exp ∧ seconds (w_clock world_store) ≤ exp) ∧
  (∃ msg, get_current_user (Some ("Bearer", "e30.forged")%string) world_store =
     (Raise (HTTPException 401 msg), world_store)).
Proof.
  split.
  - pose proof ann_token_accepted as E.
    destruct (get_current_user _ world_store) as [o w] eqn:Eg. simpl in E. subst o.
    destruct (proj1 (bearer_sound (Some ("Bearer"%string, ann_token)) world_store) _ _ Eg) as (_ & scheme & raw & signature & text & payload & i & exp & Hc & _ & Hs
        & Hb & Hj & He & Hle & _).
    exists raw, text, payload, exp. injection Hc as _ Hc. rewrite <- Hs.
    split; [exact Hc|]. split; [exact Hb|]. split; [exact Hj|]. split; [exact He|exact Hle].
  - exact (proj1 (proj2 (bearer_sound (Some ("Bearer", "e30.forged")%string) world_store))
      "Bearer"%string "e30"%string "forged"%string eq_refl eq_refl eq_refl forged_signature).
Defined.
