(* ===== verification/Drafts.v ===== *)
(** * Uploaded scripts, from the API to the process

    What [create_job_draft_from_file] of api/routers/jobs.py writes into a task is
    what the shell executor of the worker reads. *)

From S2P Require Import Prelude PyBase PyCodec PyText Models RedisServer Effects Database Store.
From S2P Require Import Cron Executor HttpTasks ShellTask Schemas Crud JobsApi.
From Stdlib Require Import Ascii.

Local Open Scope string_scope.
Local Open Scope list_scope.

(** The name of the script and the interpreter of a draft. *)
Definition draft_script (filename : option string) : string :=
  path_name (str_or filename "uploaded-task").
Definition draft_interpreter (filename : option string) : string :=
  if String.eqb (py_lower (path_suffix (str_or filename ""))) ".py" then "python" else "sh".

Lemma draft_script_idem f : path_name (draft_script f) = draft_script f.
Proof. apply path_name_idem. Qed.

(** Only a file with the suffix [.py] gets [python], so no script has the name of
    that interpreter. *)
Lemma draft_script_not_python f : draft_interpreter f = "python" → draft_script f ≠ "python" ∧ draft_script f ≠ "sh".
Proof.
  unfold draft_interpreter, draft_script. destruct (String.eqb _ ".py") eqn:E; [intros _|done].
  apply String.eqb_eq in E. destruct f as [f|]; [|done]. revert E. unfold str_or.
  destruct (String.eqb f "") eqn:Ef; [done|].
  unfold path_suffix, path_split. intros E. split; intros Hn; rewrite Hn in E; discriminate E.
Qed.

Lemma interpreter_cases f : draft_interpreter f = "python" ∨ draft_interpreter f = "sh".
Proof. unfold draft_interpreter. case_match; auto. Qed.

Section drafts.
Context `{RedisServer, !HttpClient, !Subprocess, FloatText}.

Lemma draft_argv f content :
  build_argv (jb_task_spec (draft_base f content)) = Ok [draft_interpreter f; draft_script f].
Proof.
  unfold draft_base. simpl. fold (draft_interpreter f). fold (draft_script f).
  unfold build_argv. simpl. destruct (interpreter_cases f) as [-> | ->]; done.
Qed.

Lemma draft_upload f content :
  valid_script_name (draft_script f) = true →
  uploaded_script (jb_task_spec (draft_base f content)) = Some (Ok (draft_script f, content)).
Proof.
  intros Hv. unfold uploaded_script, draft_base. simpl. fold (draft_script f).
  by rewrite draft_script_idem, Hv.
Qed.

(** An interpreter with the name of the script is taken for it. *)
Lemma draft_rewrite f path :
  rewrite_argv (draft_script f) path [draft_interpreter f; draft_script f]
  = [if decide (draft_script f = "sh") then path else draft_interpreter f; path].
Proof.
  unfold rewrite_argv, rewrite_arg. simpl. rewrite draft_script_idem, String.eqb_refl, orb_true_r. simpl.
  do 2 f_equal. case_decide as Hsh.
  - rewrite Hsh. destruct (interpreter_cases f) as [E | ->]; [|done].
    by destruct (draft_script_not_python f E).
  - assert (String.eqb (path_name (draft_interpreter f)) (draft_script f) = false) as ->; [|done].
    apply String.eqb_neq. destruct (interpreter_cases f) as [E|E]; rewrite E.
    + intros Hp. by destruct (draft_script_not_python f E).
    + intros Hp. by apply Hsh.
Qed.

(** C38: An uploaded script is what its job runs.  When the worker prepares the task
    of a draft, it writes the uploaded text, as it is, to a file of the uploaded
    name in a fresh directory and hands the process the interpreter of its suffix with that
    file as its argument vector.  One name is special: a file named [sh] also replaces the interpreter. *)
Theorem draft_runs_script (filename : option string) (content d : string) (w w1 w2 : World) :
  let spec := jb_task_spec (draft_base filename content) in
  let script := (d ++ "/" ++ draft_script filename)%string in
  valid_script_name (draft_script filename) = true →
  make_temp_dir "job-scheduler-script-" w = (Ok d, w1) →
  write_text script content w1 = (Ok tt, w2) →
  run (argv ← plift (build_argv spec); materialize_uploaded_script spec argv) w
  = (Ok (Some d, [if decide (draft_script filename = "sh") then script
                  else draft_interpreter filename; script]), w2).
Proof.
  intros spec script Hv Hd Hw. unfold spec. rewrite draft_argv. cbn [plift].
  change (run (materialize_uploaded_script (jb_task_spec (draft_base filename content))
            [draft_interpreter filename; draft_script filename]) w
          = (Ok (Some d, [if decide (draft_script filename = "sh") then script
                          else draft_interpreter filename; script]), w2)).
  unfold materialize_uploaded_script. rewrite (draft_upload _ _ Hv). cbn [plift].
  change (run (temp_dir ← call (make_temp_dir "job-scheduler-script-");
     call (write_text (temp_dir ++ "/" ++ draft_script filename)%string content);;
     Ret (Some temp_dir, rewrite_argv (draft_script filename) (temp_dir ++ "/" ++ draft_script filename)%string
            [draft_interpreter filename; draft_script filename])) w
          = (Ok (Some d, [if decide (draft_script filename = "sh") then script
                          else draft_interpreter filename; script]), w2)).
  rewrite (run_step _ _ _ _ _ Hd). fold script. rewrite (run_step _ _ _ _ _ Hw). by rewrite draft_rewrite.
Qed.

End drafts.

(** ** Evaluation *)

#[local] Existing Instances reference_redis busy_server plain_floats background_os.

(** A file named [sh]: the script is started in place of the interpreter. *)
Lemma draft_named_sh :
  run (argv ← plift (build_argv (jb_task_spec (draft_base (Some "sh") "echo")));
       materialize_uploaded_script (jb_task_spec (draft_base (Some "sh") "echo")) argv) demo_world
  = (Ok (Some "/tmp/job-scheduler-script-1",
         ["/tmp/job-scheduler-script-1/sh"; "/tmp/job-scheduler-script-1/sh"]), demo_world).
Proof. reflexivity. Qed.

Lemma draft_runs_script_witness :
  valid_script_name (draft_script (Some "jobs/Report.PY")) = true ∧
  run (argv ← plift (build_argv (jb_task_spec (draft_base (Some "jobs/Report.PY") "print(1)")));
       materialize_uploaded_script (jb_task_spec (draft_base (Some "jobs/Report.PY") "print(1)")) argv) demo_world
  = (Ok (Some "/tmp/job-scheduler-script-1",
         ["python"; "/tmp/job-scheduler-script-1/Report.PY"]), demo_world).
Proof.
  split; [reflexivity|].
  exact (draft_runs_script (Some "jobs/Report.PY") "print(1)" "/tmp/job-scheduler-script-1"
           demo_world demo_world demo_world eq_refl eq_refl eq_refl).
Defined.
