(* ===== verification/System.v ===== *)
(** * All processes together

    Workers, schedulers and API requests share the database and Redis.  A state of
    the system is the world and the programs in progress; a step executes the next
    action of one program, cancels one at its current [await] (the call may go on in its
    thread, and with it the rest of a [create_dependency_run]), kills one, starts
    another, lets time pass or decides which of the coming calls fail.  The
    theorems hold of every interleaving; where they have an exception,
    [stale_promotion] says exactly which step of the execution it is. *)

From S2P Require Import Prelude PyBase Models RedisServer Effects Database RedisQueue Cron Retry.
From S2P Require Import Demo Scheduler Store Executor Careful Runner WorkerMain Schemas Crud JobsApi RunsApi.

Section system.
Context `{RedisServer, Postgres, Settings, Croniter, !Executors, ExcText, ValidationText}.

(** ** The scheduler process *)

(** One turn of the [while] loop of scheduler/main.py, once [leader.acquire()] has
    answered: a failing tick does not end the loop. *)
Definition scheduler_turn (leading : bool) : prog unit :=
  ptry (if leading then tick else Ret tt) (λ _, Ret tt).

(** ** Programs of the system *)

(** The requests that write. *)
Inductive request : prog unit → Prop :=
  | req_create p user : request (call (api_create_job p user);; Ret tt)
  | req_update i u user : request (call (api_update_job i u user);; Ret tt)
  | req_delete i user : request (call (api_delete_job i user);; Ret tt)
  | req_trigger i user : request (trigger_job i user;; Ret tt)
  | req_retry i user : request (api_retry_run i user;; Ret tt)
  | req_cancel i user : request (api_cancel_run i user;; Ret tt).

Inductive started : prog unit → Prop :=
  | start_worker worker : started (poll_once worker)
  | start_task worker t m i b : started (task worker t m i b)
  | start_scheduler leading : started (scheduler_turn leading)
  | start_request p : request p → started p.

Record Sys := {
  sys_world : World;
  sys_threads : list (prog unit)
}.

(** What is left to do of a call of [create_dependency_run]. *)
Inductive dependency_thread : prog (option Z) → Prop :=
  | dependency_start job : dependency_thread (create_dependency_run job)
  | dependency_next B (m : M B) k r : dependency_thread (Atomic B m k) → dependency_thread (k r).

(** The program [p] starts by executing [q]. *)
Fixpoint begins {A B} (q : prog A) (p : prog B) : Prop :=
  match q with
  | Ret _ | Throw _ => True
  | Atomic C m k => ∃ k', p = Atomic C m k' ∧ ∀ r, begins (k r) (k' r)
  end.

Inductive sys_step : Sys → Sys → Prop :=
  | sys_exec w ts n B (m : M B) k :
      ts !! n = Some (Atomic B m k) →
      sys_step {| sys_world := w; sys_threads := ts |}
        {| sys_world := (m w).2; sys_threads := <[n := k (m w).1]> ts |}
  | sys_cancel w ts n B (m : M B) k :         (* the awaited call is not made *)
      ts !! n = Some (Atomic B m k) →
      sys_step {| sys_world := w; sys_threads := ts |}
        {| sys_world := w; sys_threads := <[n := k (Raise CancelledError)]> ts |}
  | sys_detach w ts n B (m : M B) k :          (* the call goes on in its thread *)
      ts !! n = Some (Atomic B m k) →
      sys_step {| sys_world := w; sys_threads := ts |}
        {| sys_world := w; sys_threads := <[n := k (Raise CancelledError)]> ts ++ [call m;; Ret tt] |}
  | sys_detach_dependency w ts n B (m : M B) k q : (* and so does the rest of it *)
      ts !! n = Some (Atomic B m k) → dependency_thread q → begins q (Atomic B m k) →
      sys_step {| sys_world := w; sys_threads := ts |}
        {| sys_world := w; sys_threads := <[n := k (Raise CancelledError)]> ts ++ [q;; Ret tt] |}
  | sys_spawn w ts p :
      started p →
      sys_step {| sys_world := w; sys_threads := ts |}
        {| sys_world := w; sys_threads := ts ++ [p] |}
  | sys_kill w ts n :
      sys_step {| sys_world := w; sys_threads := ts |}
        {| sys_world := w; sys_threads := delete n ts |}
  | sys_time w ts t :
      w_clock w ≤ t →
      sys_step {| sys_world := w; sys_threads := ts |}
        {| sys_world := with_clock t w; sys_threads := ts |}
  | sys_faults w ts fs :
      sys_step {| sys_world := w; sys_threads := ts |}
        {| sys_world := with_faults fs w; sys_threads := ts |}.

(** ** Every program respects the life cycle and leaves no open transaction *)

Lemma enqueue_run_respects i : presp evolves (enqueue_run i).
Proof. apply enqueue_respects. Qed.

Lemma tick_respects : presp evolves tick.
Proof.
  unfold tick, promote_due_delayed, update_queue_gauges, xlen_cmd, zcard_cmd, pending_count,
    requeue_orphans.
  respect; try apply enqueue_run_respects.
  apply steps_respects; [apply _|apply schedule_due_jobs_steps].
Qed.

Lemma owned_job_respects i user : respects evolves (owned_job i user).
Proof. unfold owned_job, get_job. respect. Qed.
Lemma owned_run_respects i user : respects evolves (owned_run i user).
Proof. unfold owned_run, get_owned_run, select_owned_runs. respect. Qed.
Lemma crud_errors_respects {A} code (m : M A) : respects evolves m → respects evolves (crud_errors code m).
Proof. intros Hm. unfold crud_errors. respect. Qed.
Lemma in_session_respects {A} (m : M A) : respects evolves m → respects evolves (in_session m).
Proof. intros Hm. unfold in_session. respect. Qed.
Lemma job_to_dict_respects j : respects evolves (job_to_dict j).
Proof. unfold job_to_dict, dependency_ids. respect. Qed.
#[local] Hint Resolve owned_job_respects owned_run_respects crud_errors_respects in_session_respects
  job_to_dict_respects create_job_respects update_job_respects delete_job_respects : respect.

Lemma active_run_respects k : respects evolves (active_run k).
Proof. unfold active_run. respect. Qed.
Lemma refresh_run_respects i : respects evolves (refresh_run i).
Proof. unfold refresh_run. respect. Qed.
#[local] Hint Resolve active_run_respects refresh_run_respects : respect.

Lemma prepare_trigger_run_respects fuel i tt q stack :
  respects evolves (prepare_trigger_run fuel i tt q stack).
Proof.
  revert i tt q stack. induction fuel as [|fuel IH]; intros i tt q stack; simpl; [respect|].
  assert (∀ ids q', respects evolves (prepare_dependencies
    (λ k q, prepare_trigger_run fuel k DEPENDENCY q (stack ++ [i])) ids q')) as Hdeps.
  { induction ids as [|k ids IHids]; intros q'; simpl; respect; apply IH || apply IHids. }
  unfold dependency_ids. respect; apply Hdeps.
Qed.
#[local] Hint Resolve prepare_trigger_run_respects : respect.

Lemma trigger_body_respects i user : respects evolves (trigger_body i user).
Proof. unfold trigger_body. respect. Qed.
Lemma retry_body_respects i user : respects evolves (retry_body i user).
Proof. unfold retry_body. respect. Qed.
Lemma cancelable_run_respects i user : respects evolves (cancelable_run i user).
Proof. unfold cancelable_run. respect. Qed.
Lemma publish_respects r : presp evolves (publish r).
Proof. unfold publish. respect. apply enqueue_run_respects. Qed.
#[local] Hint Resolve trigger_body_respects retry_body_respects cancelable_run_respects
  publish_respects : respect.

Lemma request_respects p : request p → presp evolves p.
Proof.
  destruct 1; unfold api_create_job, api_update_job, api_delete_job, trigger_job, api_retry_run,
    api_cancel_run, publish_cancel, publish_cmd; respect.
  apply in_session_respects. respect.
Qed.

Lemma scheduler_turn_respects leading : presp evolves (scheduler_turn leading).
Proof. unfold scheduler_turn. apply presp_try; [|done]. destruct leading; [apply tick_respects|done]. Qed.

(** Every action respects the life cycle, or promotes a run it has seen pending. *)
Lemma started_careful p X : started p → careful p X.
Proof.
  destruct 1; [|apply task_careful| |]; apply careful_presp;
    [apply poll_once_respects|apply scheduler_turn_respects|by apply request_respects].
Qed.

#[local] Hint Extern 4 (tidy (claim_run _ _ _)) => apply tidy_session_scope : respect.
#[local] Hint Extern 4 (tidy (cancel_run _)) => apply tidy_session_scope : respect.
#[local] Hint Extern 4 (tidy (is_run_canceled _)) => apply tidy_session_scope : respect.
#[local] Hint Extern 4 (tidy (finish_run _ _ _ _ _)) => apply tidy_session_scope : respect.
#[local] Hint Extern 4 (tidy (create_retry_run _ _)) => apply tidy_session_scope : respect.
#[local] Hint Extern 4 (tidy (dependents_ready _)) => apply tidy_session_scope : respect.

Lemma append_logs_tidy i es : tidy (append_logs i es).
Proof. unfold append_logs. tidy. Qed.
Lemma set_buf_tidy b l : tidy (set_buf b l).
Proof. by intros w Hw. Qed.
Lemma new_buf_tidy : tidy new_buf.
Proof. by intros w Hw. Qed.
Lemma update_mem_tidy worker f : tidy (update_mem worker f).
Proof. by intros w Hw. Qed.
#[local] Hint Resolve append_logs_tidy set_buf_tidy new_buf_tidy update_mem_tidy : respect.

Lemma flush_batch_tidy i l : ptidy (flush_batch i l).
Proof. unfold flush_batch. tidy. Qed.
#[local] Hint Resolve flush_batch_tidy : respect.
Lemma log_write_tidy b i s l : ptidy (log_write b i s l).
Proof. unfold log_write, buf_push, buf_take. tidy. Qed.
Lemma log_flush_tidy b i : ptidy (log_flush b i).
Proof. unfold log_flush, buf_take. tidy. Qed.
#[local] Hint Resolve log_write_tidy log_flush_tidy : respect.

Lemma create_dependency_run_tidy job : ptidy (create_dependency_run job).
Proof.
  unfold create_dependency_run, has_dispatched_run, pending_run, promotion, insertion,
    scalar_one_or_none. tidy; apply tidy_session_scope.
Qed.
#[local] Hint Resolve create_dependency_run_tidy : respect.

Lemma execute_task_tidy c b i : ptidy (execute_task c b i).
Proof.
  unfold execute_task. apply ptidy_try; [|intros e; tidy].
  destruct (get_executor (c_task_type c)) eqn:Hx; [|done].
  eapply executor_ptidy; [done|]. tidy.
Qed.
#[local] Hint Resolve execute_task_tidy : respect.

Lemma process_run_tidy i b worker : ptidy (process_run i b worker).
Proof.
  unfold process_run, on_success, on_failure, start_dependent, enqueue_run_async,
    schedule_delayed_async, update_queue_gauges_async, xadd_cmd, zadd_cmd, xlen_cmd, zcard_cmd. tidy.
Qed.
#[local] Hint Resolve process_run_tidy : respect.

(** A request's session: an exception rolls it back. *)
Lemma in_session_tidy {A} (m : M A) :
  (∀ w a w', clean w → m w = (Ok a, w') → clean w') → tidy (in_session m).
Proof.
  intros Hm w Hw. specialize (Hm w). unfold in_session, try_except.
  destruct (m w) as [[a|e] w1]; [by eapply Hm|done].
Qed.

Lemma in_session_tidy_tidy {A} (m : M A) : tidy m → tidy (in_session m).
Proof. intros Hm. apply in_session_tidy. intros w a w' Hw E. specialize (Hm w Hw). by rewrite E in Hm. Qed.

(** After a commit there is nothing left to write. *)
Lemma commit_then_clean {A} (k : M A) w a w' : tidy k → (commit;; k) w = (Ok a, w') → clean w'.
Proof.
  intros Hk. unfold commit, mbind, M_bind, fault_point, save.
  assert (∀ w0, clean (with_saved (w_db w0) w0)) as Hs by done.
  destruct (w_faults w) as [|[] fs]; simpl; intros E; try done;
    match type of E with k ?w0 = _ => specialize (Hk w0 (Hs _)); by rewrite E in Hk end.
Qed.

Lemma bind_ok_inv {A B} (m : M A) (f : A → M B) w b w' :
  (m ≫= f) w = (Ok b, w') → ∃ a w1, m w = (Ok a, w1) ∧ f a w1 = (Ok b, w').
Proof. unfold mbind, M_bind. destruct (m w) as [[a|e] w1]; [by eauto|done]. Qed.

Lemma refresh_run_tidy i : tidy (refresh_run i).
Proof. unfold refresh_run, get_run_row. tidy. Qed.
Lemma owned_run_tidy i user : tidy (owned_run i user).
Proof. unfold owned_run, get_owned_run, select_owned_runs, scalar_one_or_none. tidy. Qed.
Lemma cancelable_run_tidy i user : tidy (cancelable_run i user).
Proof. unfold cancelable_run. tidy. apply owned_run_tidy. Qed.
Lemma publish_tidy r : ptidy (publish r).
Proof. unfold publish, enqueue_run, update_queue_gauges, xadd_cmd, xlen_cmd, zcard_cmd. tidy. Qed.
#[local] Hint Resolve publish_tidy : respect.

Lemma in_session_commit_tidy : tidy (in_session commit).
Proof.
  apply in_session_tidy. intros w [] w' _ E. apply (commit_then_clean (mret tt) w tt w' (tidy_ret tt)).
  by rewrite (bind_ok _ _ _ _ _ E).
Qed.
#[local] Hint Resolve in_session_commit_tidy : respect.

Lemma trigger_session_tidy i user :
  tidy (in_session (o ← trigger_body i user; r ← refresh_run (run_id o.1); mret (r, o.2))).
Proof.
  apply in_session_tidy. intros w a w' _ (o & w1 & E1 & E2)%bind_ok_inv.
  assert (clean w1) as Hc1.
  { unfold trigger_body in E1. apply bind_ok_inv in E1 as (j & w2 & _ & E1).
    apply bind_ok_inv in E1 as (f & w3 & _ & E1). apply bind_ok_inv in E1 as (o' & w4 & _ & E1).
    exact (commit_then_clean _ _ _ _ (tidy_ret o') E1). }
  assert (tidy (r ← refresh_run (run_id o.1); mret (r, o.2))) as Ht by (tidy; apply refresh_run_tidy).
  specialize (Ht w1 Hc1). by rewrite E2 in Ht.
Qed.

Lemma retry_session_tidy i user : tidy (in_session (retry_body i user)).
Proof.
  apply in_session_tidy. intros w a w' _ (r & w1 & _ & E)%bind_ok_inv.
  case_decide; [|done]. apply bind_ok_inv in E as (r' & w2 & _ & E).
  exact (commit_then_clean _ _ _ _ (refresh_run_tidy _) E).
Qed.

Lemma request_tidy p : request p → ptidy p.
Proof.
  destruct 1; unfold api_create_job, api_update_job, api_delete_job, trigger_job, api_retry_run,
    api_cancel_run, publish_cancel, publish_cmd; tidy.
  all: first [apply trigger_session_tidy|apply retry_session_tidy|apply in_session_tidy_tidy].
  all: first [apply cancelable_run_tidy|apply owned_run_tidy].
Qed.

Lemma started_tidy p : started p → ptidy p.
Proof.
  destruct 1.
  - unfold poll_once, reclaim_stale, read_or_skip, accept_message, xautoclaim_cmd, xreadgroup_cmd,
      xack_cmd, xdel_cmd, spawn. tidy.
  - unfold task, handle, discard, register, unregister, xack_cmd, xdel_cmd. tidy.
  - unfold scheduler_turn, tick, promote_due_delayed, enqueue_run, update_queue_gauges, xadd_cmd,
      xlen_cmd, zcard_cmd, pending_count. tidy.
  - by apply request_tidy.
Qed.

(** ** Executions *)

Lemma careful_begins {A B} (q : prog A) (p : prog B) X : begins q p → careful p X → careful q X.
Proof.
  revert p X. induction q as [a|e|C m k IH]; intros p X; [done|done|].
  intros (k' & -> & Hk') (Hm & Hk & Hc). split; [done|]. split.
  - intros w Y Hxy Hw. eapply IH; [apply Hk'|by apply Hk].
  - eapply IH; [apply Hk'|done].
Qed.

Lemma ptidy_begins {A B} (q : prog A) (p : prog B) : begins q p → ptidy p → ptidy q.
Proof.
  revert p. induction q as [a|e|C m k IH]; intros p; [done|done|].
  intros (k' & -> & Hk') [Hm Hk]. split; [done|]. intros r. eapply IH; [apply Hk'|apply Hk].
Qed.

(** A program begins with its parts. *)
Lemma begins_bind {A B} (q : prog A) (f : A → prog B) : begins q (q ≫= f).
Proof. induction q as [a|e|C m k IH]; [done|done|]. eexists. split; [reflexivity|exact IH]. Qed.

(** The system at rest: committed tables that satisfy the schema, nothing in
    progress. *)
Definition sys_start (w : World) : Sys := {| sys_world := w; sys_threads := [] |}.

Definition run_at (s : Sys) (i : Z) : option JobRun := runs (w_db (sys_world s)) !! i.

(** The run [i] was pending in some state of an execution up to [s]. *)
Definition was_pending (w : World) (s : Sys) (i : Z) : Prop :=
  ∃ s0 r, rtc sys_step (sys_start w) s0 ∧ rtc sys_step s0 s ∧ run_at s0 i = Some r ∧ status r = PENDING.

(** The programs in progress are ones the system runs. *)
Record sys_ok (w : World) (s : Sys) : Prop := {
  ok_reached : rtc sys_step (sys_start w) s;
  ok_clean : clean (sys_world s);
  ok_wf : db_wf (w_db (sys_world s));
  ok_threads : ∀ p, p ∈ sys_threads s → careful p (was_pending w s) ∧ ptidy p
}.

(** Between [s] and [s'] the run [i], which had been pending, was put into the queue when
    it no longer was pending. *)
Definition promoted_stale (s s' : Sys) (i : Z) : Prop :=
  ∃ n k r, sys_threads s !! n = Some (Atomic (option Z) (promotion i) k) ∧
    run_at s i = Some r ∧ status r ≠ PENDING ∧
    s' = {| sys_world := (promotion i (sys_world s)).2;
            sys_threads := <[n := k (promotion i (sys_world s)).1]> (sys_threads s) |}.
Definition stale_promotion (w : World) (s s' : Sys) (i : Z) : Prop :=
  ∃ s1 s2, rtc sys_step s s1 ∧ was_pending w s1 i ∧ promoted_stale s1 s2 i ∧ rtc sys_step s2 s'.

Lemma elem_of_insert_thread (n : nat) (q p : prog unit) (ts : list (prog unit)) : p ∈ <[n := q]> ts → p = q ∨ p ∈ ts.
Proof.
  intros [k Hk]%list_elem_of_lookup.
  apply list_lookup_insert_Some in Hk as [(_ & -> & _)|[_ Hk]]; [by left|].
  right. by eapply list_elem_of_lookup_2.
Qed.

Lemma was_pending_mono w s s' i : rtc sys_step s s' → was_pending w s i → was_pending w s' i.
Proof. intros Hs (s0 & r & ? & ? & ? & ?). exists s0, r. do 2 (split; [by try etrans|]). done. Qed.

Lemma stale_before w s s1 s' i : rtc sys_step s s1 → stale_promotion w s1 s' i → stale_promotion w s s' i.
Proof. intros Hs (s2 & s3 & ? & ? & ? & ?). exists s2, s3. split; [by etrans|done]. Qed.
Lemma stale_after w s s1 s' i : rtc sys_step s1 s' → stale_promotion w s s1 i → stale_promotion w s s' i.
Proof. intros Hs (s2 & s3 & ? & ? & ? & ?). exists s2, s3. do 3 (split; [done|]). by etrans. Qed.

(** The action of a program in progress. *)
Lemma thread_action w s n B (m : M B) k :
  sys_ok w s → sys_threads s !! n = Some (Atomic B m k) →
  clean (m (sys_world s)).2 ∧ persists (w_db (sys_world s)) (w_db (m (sys_world s)).2) ∧
  ∀ i, evolves_at i (w_db (sys_world s)) (w_db (m (sys_world s)).2) ∨
    was_pending w s i ∧ promoted_stale s
      {| sys_world := (m (sys_world s)).2; sys_threads := <[n := k (m (sys_world s)).1]> (sys_threads s) |} i.
Proof.
  intros [_ Hc W Hts] Hn. destruct (Hts _ (list_elem_of_lookup_2 _ _ _ Hn)) as [[Hm _] [Ht _]].
  split; [by apply Ht|]. split.
  { destruct Hm as [?|(i & _ & ?)]; [by apply (careful_action m 0); [|left]|by apply (careful_action m i); [|right]]. }
  intros i. destruct Hm as [Hm|(j & Hj & Hp)]; [left; by apply evolves_evolves_at, respects_evolves|].
  clear Ht. revert k Hn. destruct Hp. intros k Hn. destruct (run_at s i) as [r|] eqn:Hi.
  2: { left. apply promotion_evolves_at; [done|]. intros _ r Hr. unfold run_at in Hi. congruence. }
  destruct (decide (j = i ∧ status r ≠ PENDING)) as [[-> Hs]|Hno].
  - right. split; [done|]. exists n, k, r. done.
  - left. apply promotion_evolves_at; [done|]. intros -> r' Hr'. unfold run_at in Hi. simplify_eq.
    destruct (decide (status r = PENDING)); [done|]. by destruct Hno.
Qed.

Lemma sys_step_cases w s s' :
  sys_step s s' → sys_ok w s →
  clean (sys_world s') ∧ persists (w_db (sys_world s)) (w_db (sys_world s')) ∧
  ∀ i, evolves_at i (w_db (sys_world s)) (w_db (sys_world s')) ∨ was_pending w s i ∧ promoted_stale s s' i.
Proof.
  intros Hstep Hok. pose proof (ok_clean _ _ Hok) as Hc.
  destruct Hstep as [w0 ts n B m k Hn|w0 ts n B m k Hn|w0 ts n B m k Hn|w0 ts n B m k q Hn ? ?|w0 ts q ?
    |w0 ts n|w0 ts t ?|w0 ts fs];
    [exact (thread_action w _ n B m k Hok Hn)|..];
    (split; [done|]; split; [reflexivity|]; intros; left; reflexivity).
Qed.

Lemma sys_step_ok w s s' : sys_step s s' → sys_ok w s → sys_ok w s'.
Proof.
  intros Hstep Hok. destruct (sys_step_cases w s s' Hstep Hok) as (Hc & Hp & _).
  assert (rtc sys_step s s') as Hs by by apply rtc_once.
  destruct Hok as [Hr Hc0 W Hts]. split; [by etrans|done|by eapply ps_wf|].
  assert (∀ p, p ∈ sys_threads s → careful p (was_pending w s') ∧ ptidy p) as Hold.
  { intros p Hin. destruct (Hts p Hin) as [? ?]. split; [|done].
    eapply careful_mono; [|done]. intros i. by apply was_pending_mono. }
  assert (∀ n B (m : M B) k, sys_threads s !! n = Some (Atomic B m k) →
    careful (Atomic B m k) (was_pending w s') ∧ ptidy (Atomic B m k)) as Hat.
  { intros n B m k Hn. eapply Hold, list_elem_of_lookup_2, Hn. }
  assert (∀ n B (m : M B) k, sys_threads s !! n = Some (Atomic B m k) →
    careful (k (Raise CancelledError)) (was_pending w s') ∧ ptidy (k (Raise CancelledError))) as Hcancel.
  { intros n B m k Hn. destruct (Hat _ _ _ _ Hn) as [(_ & _ & ?) [_ Hk]]. split; [done|apply Hk]. }
  intros p. destruct Hstep; simpl in *.
  - intros [->|Hin]%elem_of_insert_thread; [|by apply Hold].
    destruct (Hat _ _ _ _ ltac:(eassumption)) as [(_ & Hk & _) [_ Hk']]. split; [|apply Hk'].
    apply Hk; [done|]. intros i r Hi Hst.
    rewrite (proj1 (wf_run_key _ W _ _ Hi)). exists {| sys_world := w0; sys_threads := ts |}, r. done.
  - intros [->|Hin]%elem_of_insert_thread; [by eapply Hcancel|by apply Hold].
  - intros [[->|Hin]%elem_of_insert_thread| ->%list_elem_of_singleton]%elem_of_app;
      [by eapply Hcancel|by apply Hold|].
    destruct (Hat _ _ _ _ ltac:(eassumption)) as [(Hm & _) [Ht _]].
    split; (split; [done|]); [split; [intros ? ? _ _; by case_match|done]|intros []; by simpl].
  - intros [[->|Hin]%elem_of_insert_thread| ->%list_elem_of_singleton]%elem_of_app;
      [by eapply Hcancel|by apply Hold|].
    destruct (Hat _ _ _ _ ltac:(eassumption)) as [Hca Hti].
    split; [apply careful_bind; [by eapply careful_begins|done]|].
    apply ptidy_bind; [by eapply ptidy_begins|done].
  - intros [Hin| ->%list_elem_of_singleton]%elem_of_app; [by apply Hold|].
    split; [by apply started_careful|by apply started_tidy].
  - intros Hin. apply Hold. by eapply list_elem_of_delete_inv.
  - apply Hold.
  - apply Hold.
Qed.

Lemma sys_start_ok w : clean w → db_wf (w_db w) → sys_ok w (sys_start w).
Proof. intros Hc W. split; [done..|]. simpl. set_solver. Qed.

(** An execution keeps every row, up to its status, and moves a run along the life cycle
    unless it is promoted too late. *)
Lemma sys_steps_ok w s s' :
  rtc sys_step s s' → sys_ok w s →
  sys_ok w s' ∧ persists (w_db (sys_world s)) (w_db (sys_world s')) ∧
  ∀ i, evolves_at i (w_db (sys_world s)) (w_db (sys_world s')) ∨ stale_promotion w s s' i.
Proof.
  induction 1 as [s|s1 s2 s3 Hstep Hs IH]; intros Hok.
  { split; [done|]. split; [reflexivity|]. intros i. left. reflexivity. }
  destruct (sys_step_cases w _ _ Hstep Hok) as (_ & Hp & Hcase).
  destruct (IH (sys_step_ok _ _ _ Hstep Hok)) as (Hok3 & Hp' & Hcase').
  split; [done|]. split; [by etrans|]. intros i.
  destruct (Hcase i) as [E1|[Hw Hst]]; [|right; by exists s1, s2].
  destruct (Hcase' i) as [E2|E2]; [left; by etrans|right].
  eapply stale_before, E2. by apply rtc_once.
Qed.

Lemma sys_reached_ok w s : clean w → db_wf (w_db w) → rtc sys_step (sys_start w) s → sys_ok w s.
Proof. intros Hc W Hs. by apply (sys_steps_ok w _ _ Hs), sys_start_ok. Qed.

(** A run that is not pending when the system starts is never promoted late. *)
Lemma never_stale w s s' i r :
  clean w → db_wf (w_db w) → runs (w_db w) !! i = Some r → status r ≠ PENDING →
  ¬ stale_promotion w s s' i.
Proof.
  intros Hc W Hi Hst (s1 & s2 & _ & (s0 & r0 & Hs0 & _ & Hi0 & Hp) & _).
  destruct (sys_steps_ok w _ _ Hs0 (sys_start_ok w Hc W)) as (_ & Hpers & _).
  destruct (persists_gone _ _ _ _ W Hpers Hi) as [?|(r1 & ? & Hre)]; unfold run_at in Hi0; [congruence|].
  simplify_eq. by apply Hst, (rk_pending _ _ Hre).
Qed.

(** ** What holds in every execution *)

(** C1: Every execution respects the life cycle, but for one race.  However workers,
    schedulers, API requests, cancellations and threads that outlive them interleave,
    whatever fails or crashes, in every later state the schema's constraints hold (keys,
    foreign keys, one run per job and tick, unique names), a run that existed keeps its job,
    trigger, attempt and tick and is pending only if it was.  Its status is one the life
    cycle reaches from the earlier one, a canceled run is unchanged, and a run that has an
    outcome never runs again and never becomes canceled, unless on the way
    [create_dependency_run] put this run, which it had read as pending, into the queue
    after it had left that state. *)
Theorem system_lifecycle (w : World) (s s' : Sys) (i : Z) (r r' : JobRun) :
  clean w → db_wf (w_db w) → rtc sys_step (sys_start w) s → rtc sys_step s s' →
  runs (w_db (sys_world s)) !! i = Some r → runs (w_db (sys_world s')) !! i = Some r' →
  db_wf (w_db (sys_world s')) ∧
  run_job_id r' = run_job_id r ∧ trigger_type r' = trigger_type r ∧
  attempt r' = attempt r ∧ scheduled_for r' = scheduled_for r ∧
  (status r' = PENDING → status r = PENDING) ∧
  (rtc status_step (status r) (status r') ∧ (status r = CANCELED → r' = r) ∧
     (outcome_status (status r) → outcome_status (status r')) ∨
   stale_promotion w s s' i).
Proof.
  intros Hc W Hs Hs' Hi Hi'. pose proof (sys_reached_ok w s Hc W Hs) as Hok.
  destruct (sys_steps_ok w _ _ Hs' Hok) as (Hok' & Hp & Hcase).
  destruct (persists_gone _ _ _ _ (ok_wf _ _ Hok) Hp Hi) as [?|(r0 & Hi0 & Hre)]; [congruence|].
  simplify_eq. destruct Hre as [? ? ? ? ? ? Hpend _]. split; [by apply (ok_wf _ _ Hok')|].
  do 5 (split; [done|]). destruct (Hcase i) as [Hev|?]; [left|by right].
  pose proof (ea_run _ _ _ Hev (ok_wf _ _ Hok)) as Hre. rewrite Hi, Hi' in Hre.
  destruct Hre as [_ _ _ _ _ _ Hst Hcan _]. split; [by apply reaches_rtc|]. split; [done|].
  unfold outcome_status. rewrite !elem_of_cons, elem_of_nil.
  intros [E|[E|[E|[]]]]; rewrite E in Hst; simpl in Hst; intuition.
Qed.

(** C2: No double execution, but for the same race.  After a program has claimed a run,
    with success, in no later state of any execution does an ordinary delivery of that run
    get to execute it: its claim answers [None], so however often its message is published
    or delivered, the run is executed once (unless it is reclaimed as stale).  The exception
    is a run that [create_dependency_run], which had read it as pending, puts back into the
    queue after the claim. *)
Theorem system_single_execution (w : World) (s s' : Sys) (n : nat) (i : Z) (worker worker' : string)
    (b : bool) (k : Res (option Claimed) → prog unit) (c : Claimed) :
  clean w → db_wf (w_db w) → rtc sys_step (sys_start w) s →
  sys_threads s !! n = Some (Atomic (option Claimed) (claim_run i worker b) k) →
  (claim_run i worker b (sys_world s)).1 = Ok (Some c) →
  let s1 := {| sys_world := (claim_run i worker b (sys_world s)).2;
               sys_threads := <[n := k (Ok (Some c))]> (sys_threads s) |} in
  rtc sys_step s1 s' →
  (∀ c', (claim_run i worker' false (sys_world s')).1 ≠ Ok (Some c')) ∨ stale_promotion w s1 s' i.
Proof.
  intros Hc W Hs Hn Hcl s1 Hs'. pose proof (sys_reached_ok w s Hc W Hs) as Hok.
  assert (sys_step s s1) as Hstep.
  { unfold s1. rewrite <- Hcl. destruct s as [w0 ts]. by apply sys_exec. }
  pose proof (sys_step_ok _ _ _ Hstep Hok) as Hok1.
  destruct (sys_steps_ok w _ _ Hs' Hok1) as (Hok' & _ & Hcase).
  destruct (Hcase i) as [Hev|?]; [left|by right].
  apply (claim_once i worker worker' b c (sys_world s) (sys_world s1) (sys_world s')).
  - apply (ok_wf _ _ Hok).
  - simpl. rewrite <- Hcl. by destruct (claim_run i worker b (sys_world s)).
  - apply (ok_wf _ _ Hok').
  - intros r1 r2 E1 E2. pose proof (ea_run _ _ _ Hev (ok_wf _ _ Hok1)) as Hre. by rewrite E1, E2 in Hre.
Qed.

End system.

(** ** Evaluation *)

#[local] Existing Instances echo_executors plain_exc_text plain_validation_text.

(** A task for run 2 is started and makes its first step: it is about to claim the run. *)
Lemma demo_execution :
  ∃ s k, rtc sys_step (sys_start world_store) s ∧
    runs (w_db (sys_world s)) = runs (w_db world_store) ∧
    (claim_run 2 "w1" false (sys_world s)).1 = (claim_run 2 "w1" false world_store).1 ∧
    sys_threads s !! 0%nat = Some (Atomic (option Claimed) (claim_run 2 "w1" false) k).
Proof.
  eexists _, _. split; [|split; [|split]].
  - eapply rtc_l; [apply (sys_spawn world_store [] _ (start_task "w1" 0 1 2 false))|].
    apply rtc_once. by apply (sys_exec world_store _ 0).
  - reflexivity.
  - vm_compute. reflexivity.
  - reflexivity.
Qed.

Lemma store_run_1 : ∃ r, runs (w_db world_store) !! 1 = Some r ∧ status r = SUCCEEDED.
Proof. eexists. split; vm_compute; reflexivity. Qed.
Lemma store_queued_2 : ∃ r, runs (w_db world_store) !! 2 = Some r ∧ status r = QUEUED.
Proof. eexists. split; vm_compute; reflexivity. Qed.

Lemma succeeded_outcome r : status r = SUCCEEDED → outcome_status (status r).
Proof. intros ->. unfold outcome_status. set_solver. Qed.

Lemma succeeded_not_pending r : status r = SUCCEEDED → status r ≠ PENDING.
Proof. by intros ->. Qed.
Lemma queued_not_pending r : status r = QUEUED → status r ≠ PENDING.
Proof. by intros ->. Qed.

Lemma system_lifecycle_witness :
  ∃ s r, rtc sys_step (sys_start world_store) s ∧ runs (w_db (sys_world s)) !! 1 = Some r ∧
    db_wf (w_db (sys_world s)) ∧ outcome_status (status r).
Proof.
  destruct demo_execution as (s & k & Hs & Hr & _ & _).
  destruct store_run_1 as (r & Hi & Hst).
  assert (runs (w_db (sys_world s)) !! 1 = Some r) as Hi' by (rewrite Hr; exact Hi).
  destruct (system_lifecycle world_store (sys_start world_store) s 1 r r clean_store wf_store
    (rtc_refl _ _) Hs Hi Hi') as (W & _ & _ & _ & _ & _ & [(_ & _ & Hout)|Hstale]).
  - exists s, r. split; [exact Hs|]. split; [exact Hi'|]. split; [exact W|].
    exact (Hout (succeeded_outcome r Hst)).
  - destruct (never_stale world_store (sys_start world_store) s 1 r clean_store wf_store Hi
      (succeeded_not_pending r Hst) Hstale).
Defined.

Lemma store_claims : ∃ c, (claim_run 2 "w1" false world_store).1 = Ok (Some c).
Proof. eexists. vm_compute. reflexivity. Qed.

Lemma system_single_execution_witness :
  ∃ s c, rtc sys_step (sys_start world_store) s ∧ (claim_run 2 "w1" false (sys_world s)).1 = Ok (Some c) ∧
    ∀ c', (claim_run 2 "w2" false (claim_run 2 "w1" false (sys_world s)).2).1 ≠ Ok (Some c').
Proof.
  destruct demo_execution as (s & k & Hs & _ & Hcl & Hn). destruct store_claims as [c Hc].
  rewrite Hc in Hcl. exists s, c. split; [exact Hs|]. split; [exact Hcl|].
  destruct (system_single_execution world_store s _ 0 2 "w1" "w2" false k c clean_store wf_store Hs Hn
    Hcl (rtc_refl _ _)) as [Hno|Hstale]; [exact Hno|].
  destruct store_queued_2 as (r & Hi & Hst).
  destruct (never_stale world_store _ _ 2 r clean_store wf_store Hi (queued_not_pending r Hst) Hstale).
Defined.
