(* ===== verification/ReadCommitted.v ===== *)
(** * Races of [create_dependency_run]

    PostgreSQL runs the sources' transactions at READ COMMITTED: every statement sees
    what is committed when it starts.  [create_dependency_run] of worker/store.py
    reads twice before its only write, so two of them, or one and a cancellation, can
    interleave between the statements.  The schedules here are executions of [System]. *)

From S2P Require Import Prelude PyBase Models RedisServer Effects Database RedisQueue Cron Retry.
From S2P Require Import Demo Scheduler Store Executor Careful Runner WorkerMain Schemas Crud JobsApi RunsApi System.

(** ** Schedules *)

Section races.
Context `{RedisServer, Postgres, Settings, Croniter, !Executors, ExcText, ValidationText}.

(** The next action of thread [n]. *)
Definition turn (s : Sys) (n : nat) : Sys :=
  match sys_threads s !! n with
  | Some (Atomic B m k) =>
      {| sys_world := (m (sys_world s)).2;
         sys_threads := <[n := k (m (sys_world s)).1]> (sys_threads s) |}
  | _ => s
  end.

#[local] Arguments turn : simpl never.

(** The threads take their turns in this order. *)
Definition schedule (l : list nat) (s : Sys) : Sys := foldl turn s l.

Lemma turn_steps s n : rtc sys_step s (turn s n).
Proof.
  destruct s as [w ts]. unfold turn. simpl. destruct (ts !! n) as [[a|e|B m k]|] eqn:E; [done..| |done].
  by apply rtc_once, sys_exec.
Qed.

Lemma schedule_steps l s : rtc sys_step s (schedule l s).
Proof.
  revert s. induction l as [|n l IH]; intros s; [done|]. simpl.
  etrans; [apply turn_steps|apply IH].
Qed.

(** A thread whose next call is known. *)
Lemma turn_call {A B} (m : M A) (f : A → prog B) (g : B → prog unit) a w w' ts n :
  ts !! n = Some ((call m ≫= f) ≫= g) → m w = (Ok a, w') →
  turn {| sys_world := w; sys_threads := ts |} n =
    {| sys_world := w'; sys_threads := <[n := f a ≫= g]> ts |}.
Proof. intros Hn E. unfold turn. simpl. rewrite Hn. simpl. by rewrite E. Qed.

Lemma turn_last {A} (m : M A) (g : A → prog unit) a w w' ts n :
  ts !! n = Some (call m ≫= g) → m w = (Ok a, w') →
  turn {| sys_world := w; sys_threads := ts |} n =
    {| sys_world := w'; sys_threads := <[n := g a]> ts |}.
Proof. intros Hn E. unfold turn. simpl. rewrite Hn. simpl. by rewrite E. Qed.

(** A worker that starts the dependent [job]. *)
Definition starter (job : Z) : prog unit := create_dependency_run job;; Ret tt.

(** The worker after its second read. *)
Definition starter_decided (job : Z) (o : option JobRun) : prog unit :=
  match o with
  | Some r => call (promotion (run_id r))
  | None => call (insertion job)
  end;; Ret tt.

(** Two turns bring a worker to its write, if no run is dispatched. *)
Lemma starter_reads job w ts n :
  ts !! n = Some (starter job) → ¬ dispatched (w_db w) job →
  ∃ o, first_pending (w_db w) job o ∧
    schedule [n; n] {| sys_world := w; sys_threads := ts |} =
      {| sys_world := w; sys_threads := <[n := starter_decided job o]> ts |}.
Proof.
  intros Hn Hd. destruct (has_dispatched_run_spec job w) as (b & Eb & Hb).
  assert (b = false) as -> by (destruct b; naive_solver).
  destruct (pending_run_spec job w) as (o & Eo & Ho). exists o. split; [done|].
  unfold schedule. simpl. unfold starter, create_dependency_run in Hn.
  rewrite (turn_call _ _ _ _ _ _ _ _ Hn Eb).
  erewrite turn_call; [|apply list_lookup_insert_eq; by eapply lookup_lt_Some|exact Eo].
  rewrite list_insert_insert_eq. by destruct o.
Qed.

(** The write of a worker that found no pending run. *)
Lemma starter_inserts job w ts n :
  ts !! n = Some (starter_decided job None) → w_faults w = [] → is_Some (jobs (w_db w) !! job) →
  turn {| sys_world := w; sys_threads := ts |} n =
    {| sys_world := committed (add_run (w_db w) (new_run (runs_seq (w_db w)) job DEPENDENCY QUEUED 1 None (w_clock w))) w;
       sys_threads := <[n := Ret tt]> ts |}.
Proof.
  intros Hn Hf Hj. unfold starter_decided in Hn.
  refine (turn_last _ _ _ _ _ _ _ Hn _). by apply insertion_eq.
Qed.

(** The write of a worker that found the pending run [r]. *)
Lemma starter_promotes job r r' w ts n :
  ts !! n = Some (starter_decided job (Some r)) → w_faults w = [] →
  runs (w_db w) !! run_id r = Some r' →
  turn {| sys_world := w; sys_threads := ts |} n =
    {| sys_world := committed (put_run (run_id r) (set_status QUEUED r') (w_db w)) w;
       sys_threads := <[n := Ret tt]> ts |}.
Proof.
  intros Hn Hf Hr. unfold starter_decided in Hn. refine (turn_last _ _ _ _ _ _ _ Hn _).
  by apply promotion_eq.
Qed.

(** C20: Two workers can start a dependent twice.  When the last dependencies of a job
    end at the same time, two workers can both find no dispatched run before either
    of them writes; each then queues a run of its own, although
    [create_dependency_run] is there to prevent it. *)
Theorem dependency_started_twice (job : Z) (w : World) :
  clean w → w_faults w = [] → db_wf (w_db w) → is_Some (jobs (w_db w) !! job) →
  ¬ dispatched (w_db w) job → no_pending (w_db w) job →
  ∃ s', rtc sys_step {| sys_world := w; sys_threads := [starter job; starter job] |} s' ∧
    sys_threads s' = [Ret tt; Ret tt] ∧
    ∃ i k r r', i ≠ k ∧ runs (w_db (sys_world s')) !! i = Some r ∧
      runs (w_db (sys_world s')) !! k = Some r' ∧ run_job_id r = job ∧ run_job_id r' = job ∧
      status r = QUEUED ∧ status r' = QUEUED.
Proof.
  intros Hc Hf W Hj Hd Hp.
  exists (schedule [0; 0; 1; 1; 0; 1]%nat {| sys_world := w; sys_threads := [starter job; starter job] |}).
  split; [apply schedule_steps|].
  change [0; 0; 1; 1; 0; 1]%nat with ([0; 0] ++ [1; 1] ++ [0] ++ [1])%nat.
  unfold schedule. rewrite !foldl_app.
  assert (∀ o, first_pending (w_db w) job o → o = None) as Hnone.
  { intros [r|] Ho; [|done]. destruct Ho as ([i Hi] & Hjob & Hs & _). by destruct (Hp i r Hi Hjob). }
  destruct (starter_reads job w [starter job; starter job] 0 eq_refl Hd) as (o & Ho%Hnone & E1).
  destruct (starter_reads job w [starter_decided job o; starter job] 1 eq_refl Hd) as (o' & Ho'%Hnone & E2).
  subst o o'. unfold schedule in E1, E2. simpl insert in E1, E2. rewrite E1, E2. cbn [foldl insert list_insert].
  rewrite (starter_inserts job w _ 0) by done. cbn [insert list_insert].
  set (r := new_run _ job DEPENDENCY QUEUED 1 None _).
  rewrite (starter_inserts job _ _ 1) by done. simpl.
  split; [done|]. exists (runs_seq (w_db w)), (runs_seq (w_db w) + 1), r.
  eexists. split; [lia|]. split; [|split; [apply lookup_insert_eq|done]].
  rewrite lookup_insert_ne by lia. apply lookup_insert_eq.
Qed.

Lemma oldest_pending_unique d job r r' :
  db_wf d → oldest_pending d job r → oldest_pending d job r' → r = r'.
Proof.
  intros W Hr Hr'. pose proof (oldest_pending_key _ _ _ W Hr) as Hk.
  pose proof (oldest_pending_key _ _ _ W Hr') as Hk'.
  destruct Hr as (_ & Hj & Hs & Hmin), Hr' as (_ & Hj' & Hs' & Hmin').
  pose proof (Hmin _ _ Hk' Hj' Hs') as Hle. pose proof (Hmin' _ _ Hk Hj Hs) as Hge.
  unfold created_before in Hle, Hge. assert (run_id r = run_id r') as E by lia. congruence.
Qed.

(** C19: A cancellation can be undone.  A worker that promotes the pending run of a
    dependent job has read it before; when a user cancels the run between the read
    and the write, the cancellation is confirmed and committed, and the write, which
    only looks at the primary key, puts the run back into the queue, where the next
    delivery claims it. *)
Theorem promotion_revives_canceled (job : Z) (w : World) :
  clean w → w_faults w = [] → db_wf (w_db w) →
  ¬ dispatched (w_db w) job → ¬ no_pending (w_db w) job →
  ∃ r w1 s', oldest_pending (w_db w) job r ∧
    cancel_run (run_id r) w = (Ok true, w1) ∧
    rtc sys_step {| sys_world := w; sys_threads := [starter job; call (cancel_run (run_id r));; Ret tt] |}
      {| sys_world := w1; sys_threads := [starter_decided job (Some r); Ret tt] |} ∧
    runs (w_db w1) !! run_id r = Some (canceled_row (w_clock w) r) ∧
    rtc sys_step {| sys_world := w1; sys_threads := [starter_decided job (Some r); Ret tt] |} s' ∧
    runs (w_db (sys_world s')) !! run_id r = Some (set_status QUEUED (canceled_row (w_clock w) r)) ∧
    ∀ worker, ∃ c, (claim_run (run_id r) worker false (sys_world s')).1 = Ok (Some c).
Proof.
  intros Hc Hf W Hd Hp.
  destruct (starter_reads job w [starter job; Ret tt] 0 eq_refl Hd) as (o & Ho & _).
  destruct o as [r|]; [|done].
  pose proof (oldest_pending_key _ _ _ W Ho) as Hr.
  assert (status r ∈ ACTIVE) as Hs by (destruct Ho as (_ & _ & -> & _); unfold ACTIVE; set_solver).
  pose proof (cancel_run_active _ _ _ Hf W Hr Hs) as Ec.
  set (w1 := committed _ w) in Ec. exists r, w1.
  exists (turn {| sys_world := w1; sys_threads := [starter_decided job (Some r); Ret tt] |} 0).
  assert (runs (w_db w1) !! run_id r = Some (canceled_row (w_clock w) r)) as Hr1 by apply lookup_insert_eq.
  split; [done|]. split; [done|]. split.
  { set (p := call (cancel_run (run_id r));; Ret tt).
    destruct (starter_reads job w [starter job; p] 0 eq_refl Hd) as (o & Ho' & E).
    assert (o = Some r) as ->.
    { destruct o as [r'|]; [|by destruct (proj1 Ho) as [k Hk]; destruct (Ho' k r Hk); apply Ho].
      f_equal. by eapply oldest_pending_unique. }
    etrans; [apply (schedule_steps [0; 0]%nat)|]. rewrite E.
    etrans; [apply (turn_steps _ 1)|]. simpl insert.
    erewrite (turn_last (cancel_run (run_id r)) (λ _, Ret tt)); [|done|exact Ec]. done. }
  split; [done|]. split; [apply turn_steps|].
  rewrite (starter_promotes job r (canceled_row (w_clock w) r)) by done.
  split; [apply lookup_insert_eq|]. intros worker. cbn [sys_world].
  set (w2 := committed _ w1).
  assert (db_wf (w_db w2)) as W2.
  { eapply ps_wf; [apply (persists_put_run _ _ (canceled_row (w_clock w) r)); [done|apply promoted_persists]|].
    eapply ev_wf, W. apply (evolves_put_run _ _ r); [done|by apply cancel_evolves]. }
  assert (runs (w_db w2) !! run_id r = Some (set_status QUEUED (canceled_row (w_clock w) r))) as Hr2
    by apply lookup_insert_eq.
  destruct (wf_run_job _ W2 _ _ Hr2) as [j Hj].
  eexists. by rewrite (proj1 (claim_run_exact (run_id r) worker false w2 eq_refl Hf W2) _ j Hr2 ltac:(set_solver) Hj).
Qed.

End races.

(** ** Evaluation *)

(** Job 2 waits for job 1 and has a pending run. *)
Definition setup_pending : M unit := setup_store;; insert_run 2 MANUAL PENDING 1 None;; mret tt.

Lemma wf_pending : db_wf (demo_db setup_pending).
Proof. apply db_wf_demo. unfold setup_pending, setup_store. demo_steps. Qed.

Definition world_pending : World := demo_world empty_view (demo_db setup_pending) 9.

Lemma clean_pending : clean world_pending.
Proof. apply clean_demo. Qed.
Lemma quiet_pending : w_faults world_pending = [].
Proof. apply quiet_demo. Qed.

Lemma store_no_pending : no_pending (w_db world_store) 2.
Proof.
  intros i r Hi Hj. exfalso.
  refine (rows_decide (λ r, run_job_id r ≠ 2) (runs (w_db world_store)) _ i r Hi Hj).
  vm_compute. reflexivity.
Qed.

Lemma store_job_2 : is_Some (jobs (w_db world_store) !! 2).
Proof. vm_compute. eauto. Qed.

Lemma pending_not_dispatched : ¬ dispatched (w_db world_pending) 2.
Proof.
  intros (i & r & Hi & Hj & Hs).
  refine (rows_decide (λ r, ¬ (run_job_id r = 2 ∧ status r ∈ [QUEUED; RUNNING]))
    (runs (w_db world_pending)) _ i r Hi (conj Hj Hs)).
  vm_compute. reflexivity.
Qed.

Lemma pending_has_pending : ¬ no_pending (w_db world_pending) 2.
Proof.
  intros Hn. assert (∃ r, runs (w_db world_pending) !! 3 = Some r ∧ run_job_id r = 2 ∧ status r = PENDING)
    as (r & Hr & Hj & Hs) by (eexists; split; [|split]; vm_compute; reflexivity).
  exact (Hn 3 r Hr Hj Hs).
Qed.

#[local] Existing Instances echo_executors plain_exc_text plain_validation_text.

Lemma dependency_started_twice_witness :
  ∃ s' i k r r', rtc sys_step {| sys_world := world_store; sys_threads := [starter 2; starter 2] |} s' ∧
    i ≠ k ∧ runs (w_db (sys_world s')) !! i = Some r ∧ runs (w_db (sys_world s')) !! k = Some r' ∧
    status r = QUEUED ∧ status r' = QUEUED.
Proof.
  destruct (dependency_started_twice 2 world_store clean_store quiet_store wf_store store_job_2
    store_not_dispatched store_no_pending) as (s' & Hs & _ & i & k & r & r' & Hne & Hi & Hk & _ & _ & Hq & Hq').
  exists s', i, k, r, r'. split; [exact Hs|]. split; [exact Hne|]. split; [exact Hi|].
  split; [exact Hk|]. split; [exact Hq|exact Hq'].
Defined.

Lemma promotion_revives_canceled_witness :
  ∃ r w1 s', cancel_run (run_id r) world_pending = (Ok true, w1) ∧
    runs (w_db (sys_world s')) !! run_id r = Some (set_status QUEUED (canceled_row (w_clock world_pending) r)) ∧
    ∃ c, (claim_run (run_id r) "w2" false (sys_world s')).1 = Ok (Some c).
Proof.
  destruct (promotion_revives_canceled 2 world_pending clean_pending quiet_pending wf_pending
    pending_not_dispatched pending_has_pending) as (r & w1 & s' & _ & Hc & _ & _ & _ & Hr & Hcl).
  exists r, w1, s'. split; [exact Hc|]. split; [exact Hr|exact (Hcl "w2"%string)].
Defined.
