(* ===== verification/Replicas.v ===== *)
(** * Scheduler replicas: [main] of [backend/scheduler/main.py]

    The loop of a scheduler process, with its [Leader] and the ticks it runs, and
    several replicas of it on one database, one lock server and one Redis.  Sessions
    die, replicas restart and calls fail at any moment, also in the middle of a tick. *)

From S2P Require Import Prelude PyBase Models RedisServer Effects Database RedisQueue Cron Retry.
From S2P Require Import Demo Scheduler Store Executor Runner WorkerMain Schemas Crud JobsApi RunsApi.
From S2P Require Import System Leader.

Section replicas.
Context `{RedisServer, Postgres, Settings, Croniter, !Executors, ExcText, ValidationText, !LockServer}.

(** ** One replica *)

Inductive Phase :=
  | Starting (p : prog unit)      (* before the loop *)
  | Polling                       (* at the head of the loop, or asleep *)
  | Ticking (p : prog unit)       (* what is left of this turn's tick *)
  | Stopped.

Record Replica := {
  rp_leader : Leader;
  rp_phase : Phase;
  rp_stop : bool;                 (* [_stop] *)
  rp_gauge : Z                    (* [SCHEDULER_IS_LEADER] *)
}.

Definition with_phase (ph : Phase) (r : Replica) : Replica :=
  {| rp_leader := rp_leader r; rp_phase := ph; rp_stop := rp_stop r; rp_gauge := rp_gauge r |}.

(** A process that has just been started: [ensure_group] comes first. *)
Definition start_replica : Replica :=
  {| rp_leader := new_leader; rp_phase := Starting (call ensure_group); rp_stop := false; rp_gauge := 0 |}.

(** [_handle_signal] *)
Definition handle_signal (r : Replica) : Replica :=
  {| rp_leader := rp_leader r; rp_phase := rp_phase r; rp_stop := true; rp_gauge := rp_gauge r |}.

(** The head of the loop, for replica [p]: the election, or the way out. *)
Definition poll (p : Z) (r : Replica) (st : lock_state) : Replica * lock_state :=
  if rp_stop r then
    let '(l, st) := release (rp_leader r) st in
    ({| rp_leader := l; rp_phase := Stopped; rp_stop := true; rp_gauge := 0 |}, st)
  else
    let '(leading, l, st) := acquire p (rp_leader r) st in
    ({| rp_leader := l; rp_phase := if leading then Ticking (scheduler_turn true) else Polling;
        rp_stop := false; rp_gauge := if leading then 1 else 0 |}, st).

(** The next action of a program, or what follows its end. *)
Definition advance (r : Replica) (w : World) : option (Replica * World) :=
  match rp_phase r with
  | Starting (Atomic B m k) => Some (with_phase (Starting (k (m w).1)) r, (m w).2)
  | Starting (Ret _) => Some (with_phase Polling r, w)
  | Starting (Throw _) => Some (with_phase Stopped r, w)
  | Ticking (Atomic B m k) => Some (with_phase (Ticking (k (m w).1)) r, (m w).2)
  | Ticking _ => Some (with_phase Polling r, w)
  | Polling | Stopped => None
  end.

(** ** All replicas *)

Record Replicas := {
  rs_locks : lock_state;
  rs_world : World;
  rs_replica : Z → Replica
}.

Definition set_replica (p : Z) (r : Replica) (f : Z → Replica) : Z → Replica := λ q,
  if decide (q = p) then r else f q.

Inductive replicas_step : Replicas → Replicas → Prop :=
  | rs_poll p st w f :
      rp_phase (f p) = Polling →
      replicas_step {| rs_locks := st; rs_world := w; rs_replica := f |}
        {| rs_locks := (poll p (f p) st).2; rs_world := w;
           rs_replica := set_replica p (poll p (f p) st).1 f |}
  | rs_advance p st w f r w' :
      advance (f p) w = Some (r, w') →
      replicas_step {| rs_locks := st; rs_world := w; rs_replica := f |}
        {| rs_locks := st; rs_world := w'; rs_replica := set_replica p r f |}
  | rs_signal p st w f :
      replicas_step {| rs_locks := st; rs_world := w; rs_replica := f |}
        {| rs_locks := st; rs_world := w; rs_replica := set_replica p (handle_signal (f p)) f |}
  | rs_restart p ss st w f :      (* killed, its sessions [ss] end; and started again *)
      (∀ s, s ∈ ss → s.1 = p) →
      replicas_step {| rs_locks := st; rs_world := w; rs_replica := f |}
        {| rs_locks := foldr pg_drop st ss; rs_world := w;
           rs_replica := set_replica p start_replica f |}
  | rs_drop s st w f :            (* a session dies, its replica does not know *)
      replicas_step {| rs_locks := st; rs_world := w; rs_replica := f |}
        {| rs_locks := pg_drop s st; rs_world := w; rs_replica := f |}
  | rs_time st w f t :
      w_clock w ≤ t →
      replicas_step {| rs_locks := st; rs_world := w; rs_replica := f |}
        {| rs_locks := st; rs_world := with_clock t w; rs_replica := f |}
  | rs_faults st w f fs :
      replicas_step {| rs_locks := st; rs_world := w; rs_replica := f |}
        {| rs_locks := st; rs_world := with_faults fs w; rs_replica := f |}.

Definition replicas_start (st : lock_state) (w : World) : Replicas :=
  {| rs_locks := st; rs_world := w; rs_replica := λ _, start_replica |}.

(** ** Invariant *)

Definition phase_prog (ph : Phase) : prog unit :=
  match ph with Starting p | Ticking p => p | Polling | Stopped => Ret tt end.

Record replica_ok (st : lock_state) (p : Z) (r : Replica) : Prop := {
  ro_leader : leader_ok st p (rp_leader r);
  ro_ticking : ∀ q, rp_phase r = Ticking q → is_leader (rp_leader r) = true;
  ro_stopped : rp_phase r = Stopped → rp_leader r = new_leader;
  ro_starting : ∀ q, rp_phase r = Starting q → rp_leader r = new_leader;
  ro_gauge : rp_gauge r = if is_leader (rp_leader r) then 1 else 0;
  ro_presp : presp evolves (phase_prog (rp_phase r));
  ro_ptidy : ptidy (phase_prog (rp_phase r))
}.

Lemma ensure_group_respects : respects evolves ensure_group.
Proof. unfold ensure_group. respect. Qed.

Lemma ensure_group_tidy : tidy ensure_group.
Proof. unfold ensure_group. tidy. Qed.

Lemma start_replica_ok st p : replica_ok st p start_replica.
Proof.
  split; try done; simpl.
  - apply presp_call, ensure_group_respects.
  - apply ptidy_call, ensure_group_tidy.
Qed.

Lemma replica_ok_frame p q r st st' :
  q ≠ p → lock_frame p st st' → replica_ok st q r → replica_ok st' q r.
Proof. intros Hne Hfr []. split; try done. by eapply leader_ok_frame. Qed.

Lemma poll_ok p r st :
  rp_phase r = Polling → replica_ok st p r →
  replica_ok (poll p r st).2 p (poll p r st).1 ∧ lock_frame p st (poll p r st).2.
Proof.
  intros Hph [Hl _ _ _ _ _ _]. unfold poll. destruct (rp_stop r).
  - destruct (release_ok p _ st Hl) as [Hnew Hfr]. destruct (release (rp_leader r) st) as [l st'].
    simpl in *. subst l. split; [|done]. by split.
  - destruct (acquire_ok p _ st Hl) as (Hl' & Hfr & Hb & _).
    destruct (acquire p (rp_leader r) st) as [[b l] st']. simpl in *. split; [|done].
    split; simpl; try by destruct b.
    + by rewrite Hb.
    + destruct b; [apply (scheduler_turn_respects true)|done].
    + destruct b; [apply (started_tidy _ (start_scheduler true))|done].
Qed.

Lemma advance_ok p r st w r' w' :
  advance r w = Some (r', w') → clean w → replica_ok st p r →
  replica_ok st p r' ∧ clean w' ∧ evolves (w_db w) (w_db w').
Proof.
  intros E Hc [Hl Ht Hs Hst Hg Hp Hd]. unfold advance in E.
  destruct (rp_phase r) as [[[]|e|B m k]| |[[]|e|B m k]|] eqn:Hph; simplify_eq; simpl in Hp, Hd.
  all: try (split; [split; simpl; try done; eauto|by split]; fail).
  all: destruct Hp as [Hm Hk], Hd as [Hm' Hk'];
    split; [split; simpl; [done|intros ? [=]; eauto|done|intros ? [=]; eauto|done|apply Hk|apply Hk']|].
  all: split; [by apply Hm'|by apply respects_evolves].
Qed.

Definition replicas_ok (s : Replicas) : Prop :=
  clean (rs_world s) ∧ ∀ p, replica_ok (rs_locks s) p (rs_replica s p).

Lemma replicas_ok_update p r st st' w f :
  clean w → replica_ok st' p r → lock_frame p st st' → (∀ q, replica_ok st q (f q)) →
  replicas_ok {| rs_locks := st'; rs_world := w; rs_replica := set_replica p r f |}.
Proof.
  intros Hc Hr Hfr Hall. split; [done|]. intros q. simpl. unfold set_replica. case_decide; [by subst|].
  by eapply replica_ok_frame.
Qed.

Lemma replicas_step_ok s s' :
  replicas_step s s' → replicas_ok s →
  replicas_ok s' ∧ evolves (w_db (rs_world s)) (w_db (rs_world s')).
Proof.
  intros Hstep [Hc Hok].
  destruct Hstep as [p st w f Hph|p st w f r w' E|p st w f|p ss st w f Hss|s st w f|st w f t|st w f fs];
    simpl in *.
  - destruct (poll_ok p (f p) st Hph (Hok p)). split; [by eapply replicas_ok_update|reflexivity].
  - destruct (advance_ok p _ _ _ _ _ E Hc (Hok p)) as (Hr & Hc' & Hev). split; [|done].
    eapply replicas_ok_update; [done|done|apply lock_frame_refl|done].
  - split; [|reflexivity]. eapply replicas_ok_update; [done| |apply lock_frame_refl|done].
    destruct (Hok p). by split.
  - split; [|reflexivity]. eapply replicas_ok_update; [done|apply start_replica_ok| |done].
    by apply drops_frame.
  - split; [split; [done|]|reflexivity]. intros p. simpl. destruct (Hok p).
    split; try done. by apply leader_ok_drop.
  - split; [by split|reflexivity].
  - split; [by split|reflexivity].
Qed.

Lemma replicas_steps_ok s s' :
  rtc replicas_step s s' → replicas_ok s →
  replicas_ok s' ∧ evolves (w_db (rs_world s)) (w_db (rs_world s')).
Proof.
  induction 1 as [s|s1 s2 s3 Hstep _ IH]; intros Hok; [split; [done|reflexivity]|].
  destruct (replicas_step_ok _ _ Hstep Hok) as [Hok2 Hev].
  destruct (IH Hok2) as [Hok3 Hev']. split; [done|by etrans].
Qed.

Lemma replicas_start_ok st w : clean w → replicas_ok (replicas_start st w).
Proof. intros Hc. split; [done|]. intros p. apply start_replica_ok. Qed.

(** The session with which a replica leads. *)
Definition leads_with (r : Replica) (s : session) : Prop :=
  is_leader (rp_leader r) = true ∧ conn (rp_leader r) = Some s.

Definition is_ticking (r : Replica) : bool :=
  match rp_phase r with Ticking _ => true | _ => false end.

(** C12: Replicas of the scheduler, however their turns and the actions of their ticks
    interleave and whatever fails, is killed or restarted in between: a replica is in the
    middle of a tick only as leader; if two are, the session of at most one of them is
    alive; the gauge of each says whether it leads; and the tables move forward, so that
    even two ticks at once never start the same tick of a job twice. *)
Theorem replicas_exclusive st w s p q c c' :
  clean w → db_wf (w_db w) → rtc replicas_step (replicas_start st w) s → p ≠ q →
  (is_ticking (rs_replica s p) = true → ∃ c, leads_with (rs_replica s p) c) ∧
  (is_ticking (rs_replica s p) = true → is_ticking (rs_replica s q) = true →
     leads_with (rs_replica s p) c → leads_with (rs_replica s q) c' →
     ¬ (alive (rs_locks s) c ∧ alive (rs_locks s) c')) ∧
  rp_gauge (rs_replica s p) = (if is_leader (rp_leader (rs_replica s p)) then 1 else 0) ∧
  evolves (w_db w) (w_db (rs_world s)) ∧
  ∀ i i' r r' t, runs (w_db (rs_world s)) !! i = Some r → runs (w_db (rs_world s)) !! i' = Some r' →
    run_job_id r = run_job_id r' → scheduled_for r = Some t → scheduled_for r' = Some t → i = i'.
Proof.
  intros Hc W Hs Hne. destruct (replicas_steps_ok _ _ Hs (replicas_start_ok st w Hc)) as [[_ Hok] Hev].
  simpl in Hev. split; [|split; [|split; [|split]]].
  - intros Ht. unfold is_ticking in Ht. destruct (rs_replica s p) as [l ph st' g] eqn:Er.
    pose proof (Hok p) as Hp. rewrite Er in Hp. destruct Hp as [Hl Htick _ _ _ _ _]. simpl in *.
    destruct ph as [| |tp|]; try done. specialize (Htick tp eq_refl).
    destruct (proj2 Hl Htick) as (c0 & Hc0 & _). by exists c0.
  - intros _ _ [Lp Cp] [Lq Cq] [Ap Aq].
    destruct (ro_leader _ _ _ (Hok p)) as [Op Hp], (ro_leader _ _ _ (Hok q)) as [Oq Hq].
    destruct (Hp Lp) as (? & ? & Hhp), (Hq Lq) as (? & ? & Hhq). simplify_eq.
    rewrite (Hhp Ap) in Hhq. specialize (Hhq Aq). simplify_eq.
    apply Hne. rewrite <-(Op c') by done. by apply Oq.
  - apply (ro_gauge _ _ _ (Hok p)).
  - exact Hev.
  - exact (wf_tick _ (ev_wf _ _ Hev W)).
Qed.

(** A restarted or standing-by replica, once polled with the lock free, leads and has a
    whole tick ahead of it; the gauge follows. *)
Lemma standby_takes_over p r st s st2 b st3 old :
  rp_phase r = Polling → rp_stop r = false → rp_leader r = new_leader → holder st = Some old →
  pg_connect p (pg_drop old st) = (Some s, st2) → pg_try_lock s st2 = (Some b, st3) →
  poll p r (pg_drop old st) =
    ({| rp_leader := {| conn := Some s; is_leader := true |};
        rp_phase := Ticking (scheduler_turn true); rp_stop := false; rp_gauge := 1 |}, st3) ∧
  holder st3 = Some s.
Proof.
  intros Hph Hst Hl Hh E1 E2.
  destruct (leader_failover p new_leader old s st st2 b st3 eq_refl eq_refl Hh E1 E2) as [E Hs].
  split; [|done]. unfold poll. by rewrite Hst, Hl, E.
Qed.

(** ** Evaluation *)

Definition advanced (p : Z) (s : Replicas) : Replicas :=
  match advance (rs_replica s p) (rs_world s) with
  | Some (r, w) => {| rs_locks := rs_locks s; rs_world := w; rs_replica := set_replica p r (rs_replica s) |}
  | None => s
  end.
Definition polled (p : Z) (s : Replicas) : Replicas :=
  {| rs_locks := (poll p (rs_replica s p) (rs_locks s)).2; rs_world := rs_world s;
     rs_replica := set_replica p (poll p (rs_replica s p) (rs_locks s)).1 (rs_replica s) |}.
Definition dropped (c : session) (s : Replicas) : Replicas :=
  {| rs_locks := pg_drop c (rs_locks s); rs_world := rs_world s; rs_replica := rs_replica s |}.

Lemma advanced_reach p s0 s : rtc replicas_step s0 s → rtc replicas_step s0 (advanced p s).
Proof.
  unfold advanced. destruct s as [st w f]. simpl. intros Hs.
  destruct (advance (f p) w) as [[r w']|] eqn:E; [|done]. eapply rtc_r; [done|]. by apply rs_advance.
Qed.
Definition is_polling (r : Replica) : bool := match rp_phase r with Polling => true | _ => false end.
Lemma polled_reach p s0 s :
  is_polling (rs_replica s p) = true → rtc replicas_step s0 s → rtc replicas_step s0 (polled p s).
Proof.
  destruct s as [st w f]. intros Hp Hs. eapply rtc_r; [exact Hs|]. apply rs_poll.
  revert Hp. unfold is_polling. simpl. by destruct (rp_phase (f p)).
Qed.
Lemma dropped_reach c s0 s : rtc replicas_step s0 s → rtc replicas_step s0 (dropped c s).
Proof. destruct s as [st w f]. intros Hs. eapply rtc_r; [done|]. apply rs_drop. Qed.

End replicas.

#[local] Existing Instances echo_executors plain_exc_text plain_validation_text reference_locks.

(** Replica 1 starts, leads and begins a tick; its session dies; replica 2 starts, leads
    and begins a tick while replica 1 is still in its own. *)
Definition one_leads : Replicas :=
  polled 1 (advanced 1 (advanced 1 (replicas_start locks_start world_store))).
Definition both_tick : Replicas :=
  polled 2 (advanced 2 (advanced 2 (dropped (1, 0) (advanced 1 one_leads)))).

Lemma both_tick_reachable : rtc replicas_step (replicas_start locks_start world_store) both_tick.
Proof.
  apply (polled_reach 2); [vm_compute; reflexivity|].
  apply (advanced_reach 2), (advanced_reach 2), (dropped_reach (1, 0)), (advanced_reach 1).
  apply (polled_reach 1); [vm_compute; reflexivity|].
  apply (advanced_reach 1), (advanced_reach 1), rtc_refl.
Qed.

Lemma replicas_exclusive_witness :
  is_ticking (rs_replica both_tick 1) = true ∧ is_ticking (rs_replica both_tick 2) = true ∧
  ¬ (alive (rs_locks both_tick) (1, 0) ∧ alive (rs_locks both_tick) (2, 1)).
Proof.
  split; [vm_compute; reflexivity|]. split; [vm_compute; reflexivity|].
  destruct (replicas_exclusive locks_start world_store both_tick 1 2 (1, 0) (2, 1)
    clean_store wf_store both_tick_reachable ltac:(lia)) as (_ & Hex & _).
  apply Hex; [vm_compute; reflexivity..|split; vm_compute; reflexivity|split; vm_compute; reflexivity].
Defined.
