(* ===== verification/Cancellation.v ===== *)
(** * Canceling a run, from the request to the worker

    The listener of worker/main.py on the cancellation channel, and what a cancellation
    does across the API, Redis, the worker's memory and the database: the task it stops,
    the run that stays canceled, and the window in which a failed run is retried all the
    same. *)

From S2P Require Import Prelude PyBase Models RedisServer Effects Database RedisQueue Cron Retry.
From S2P Require Import Demo Scheduler Store Executor Careful Runner WorkerMain Schemas Crud JobsApi RunsApi.
From S2P Require Import System.

Section cancellation.
Context `{RedisServer, Postgres, Settings, Croniter, !Executors, ExcText, ValidationText}.

(** ** The listener

    A subscription receives, in order, the messages published after it was made:
    [Listening n] has received the first [n] messages of the channel. *)

Inductive Listener := Subscribing | Listening (n : nat) | Ended.

Definition subscribe_cmd : M nat :=
  fault_point RedisError;; read (λ w, length (rv_published (view (w_redis w)))).

(** [pubsub.get_message(timeout=1.0)]: [None] when no message comes in time. *)
Definition get_message (n : nat) : M (option string) :=
  fault_point RedisError;; read (λ w, rv_published (view (w_redis w)) !! n).

(** One turn of the loop: the next state, and the task that is canceled. *)
Definition listener_turn (worker : string) (n : nat) : M (Listener * option Z) :=
  message ← get_message n;
  match message with
  | None => mret (Listening n, None)
  | Some data => t ← cancel_target worker data; mret (Listening (S n), t)
  end.

(** [_cancel_listener] up to its next [await]; an exception ends it, after [finally]
    has closed the subscription. *)
Definition cancel_listener (worker : string) (stop : bool) (l : Listener) : M (Listener * option Z) :=
  match l with
  | Subscribing =>
      try_except (n ← subscribe_cmd; mret (Listening n, None)) (λ _, mret (Ended, None))
  | Listening n =>
      if stop then mret (Ended, None)
      else try_except (listener_turn worker n) (λ _, mret (Ended, None))
  | Ended => mret (Ended, None)
  end.

(** Several turns, with the value of [stop] at each: the tasks canceled. *)
Fixpoint listen (worker : string) (stops : list bool) (l : Listener) : M (Listener * list Z) :=
  match stops with
  | [] => mret (l, [])
  | stop :: stops =>
      o ← cancel_listener worker stop l;
      o' ← listen worker stops o.1;
      mret (o'.1, match o.2 with Some t => t :: o'.2 | None => o'.2 end)
  end.

(** The task that the message [data] cancels. *)
Definition target (m : WorkerMem) (data : string) : option Z :=
  run ← py_int data; t ← inflight_by_run m !! run;
  if decide (is_Some (inflight m !! t)) then Some t else None.

Lemma listener_turn_eq worker n w :
  w_faults w = [] →
  cancel_listener worker false (Listening n) w =
    match rv_published (view (w_redis w)) !! n with
    | Some data => (Ok (Listening (S n), target (mem_of worker w) data), w)
    | None => (Ok (Listening n, None), w)
    end.
Proof.
  intros Hf. unfold cancel_listener, listener_turn, get_message, try_except, mbind, M_bind, fault_point.
  rewrite Hf. unfold read, cancel_target. cbn. by destruct (_ !! n).
Qed.

Lemma listen_ended worker stops w : listen worker stops Ended w = (Ok (Ended, []), w).
Proof.
  induction stops as [|stop stops IH]; [done|]. simpl. erewrite bind_ok by done. cbn [fst snd].
  by rewrite (bind_ok _ _ _ _ _ IH).
Qed.

Lemma listen_all worker n w :
  w_faults w = [] → (n ≤ length (rv_published (view (w_redis w))))%nat →
  let left := drop n (rv_published (view (w_redis w))) in
  listen worker (replicate (length left) false) (Listening n) w =
    (Ok (Listening (length (rv_published (view (w_redis w)))), omap (target (mem_of worker w)) left), w).
Proof.
  intros Hf. remember (drop n _) as left eqn:Hl. revert n Hl.
  induction left as [|data left IH]; intros n Hl Hn; cbv zeta.
  - simpl. assert (n = length (rv_published (view (w_redis w)))) as -> by
      (apply (f_equal length) in Hl; rewrite length_drop in Hl; simpl in Hl; lia). done.
  - simpl. assert (rv_published (view (w_redis w)) !! n = Some data) as Hd.
    { pose proof (lookup_drop (rv_published (view (w_redis w))) n 0) as E.
      rewrite <-Hl, Nat.add_0_r in E. by rewrite <-E. }
    pose proof (listener_turn_eq worker n w Hf) as Et. rewrite Hd in Et.
    rewrite (bind_ok _ _ _ _ _ Et). cbn [fst snd].
    assert (left = drop (S n) (rv_published (view (w_redis w)))) as Hl'.
    { rewrite <-Nat.add_1_r, <-drop_drop, <-Hl. done. }
    specialize (IH (S n) Hl' (lookup_lt_Some _ _ _ Hd)). cbv zeta in IH.
    rewrite (bind_ok _ _ _ _ _ IH). cbn [fst snd]. csimpl. by destruct (target _ data).
Qed.

(** C21: The listener.  Without errors it handles every message of the channel once and in
    order, each canceling exactly the task that is in flight for the run it names; but the
    first error of Redis ends it for good, and from then on no cancellation reaches the
    worker. *)
Theorem listener_exact worker n w :
  (w_faults w = [] → (n ≤ length (rv_published (view (w_redis w))))%nat →
     let left := drop n (rv_published (view (w_redis w))) in
     listen worker (replicate (length left) false) (Listening n) w =
       (Ok (Listening (length (rv_published (view (w_redis w)))), omap (target (mem_of worker w)) left), w)) ∧
  (∀ fs stops w', w_faults w = true :: fs →
     listen worker (false :: stops) (Listening n) w =
       (Ok (Ended, []), with_faults fs w) ∧
     listen worker stops Ended w' = (Ok (Ended, []), w')).
Proof.
  split; [intros Hf Hn; by apply listen_all|]. intros fs stops w' Hf. split; [|apply listen_ended].
  simpl. assert (cancel_listener worker false (Listening n) w = (Ok (Ended, None), with_faults fs w)) as E.
  { unfold cancel_listener, listener_turn, get_message, try_except, mbind, M_bind, fault_point.
    by rewrite Hf. }
  unfold cancel_listener in E. rewrite (bind_ok _ _ _ _ _ E). cbn [fst snd].
  by rewrite (bind_ok _ _ _ _ _ (listen_ended worker stops _)).
Qed.

(** ** From the request to the worker *)

(** A thread that runs to its end without interruption. *)
Lemma sys_runs (p : prog unit) w w' ts n :
  ts !! n = Some p → run p w = (Ok tt, w') →
  rtc sys_step {| sys_world := w; sys_threads := ts |}
    {| sys_world := w'; sys_threads := <[n := Ret tt]> ts |}.
Proof.
  revert w ts. induction p as [[]|e|B m k IH]; intros w ts Hn Hrun; simpl in Hrun.
  - injection Hrun as <-. by rewrite list_insert_id.
  - done.
  - eapply rtc_l; [by apply (sys_exec w ts n B m k)|].
    rewrite <-(list_insert_insert_eq ts n (Ret tt) (k (m w).1)).
    apply (IH (m w).1); [|exact Hrun]. apply list_lookup_insert_eq. by eapply lookup_lt_Some.
Qed.

(** A program that is started, and runs to its end without interruption. *)
Lemma sys_executes (p : prog unit) s w' :
  started p → run p (sys_world s) = (Ok tt, w') →
  rtc sys_step s {| sys_world := w'; sys_threads := sys_threads s ++ [Ret tt] |}.
Proof.
  destruct s as [w ts]. simpl. intros Hp Hrun. eapply rtc_l; [by apply sys_spawn|].
  assert (ts ++ [Ret tt] = <[length ts := Ret tt]> (ts ++ [p]))%list as ->.
  { by rewrite <-(Nat.add_0_r (length ts)), insert_app_r. }
  eapply sys_runs; [|exact Hrun]. by rewrite lookup_app_r, Nat.sub_diag.
Qed.

Lemma after_cancel_wf i user r w :
  db_wf (w_db w) → visible (w_db w) user i r → status r ∉ TERMINAL →
  db_wf (w_db (after_cancel i r w)) ∧
  runs (w_db (after_cancel i r w)) !! i = Some (canceled_row (w_clock w) r).
Proof.
  intros W [Hi Ho] Hs. split; [|apply lookup_insert_eq].
  eapply ev_wf, W. apply (evolves_put_run _ _ r); [done|]. by apply cancel_evolves, not_terminal_active.
Qed.

(** C13: A cancellation from end to end.  In any state that the system reaches, a user
    cancels a run of hers that has not ended, while a worker executes it and its listener is
    up to date: the run is canceled, the next turn of the listener cancels exactly the task
    that executes it, and in every state that the system reaches afterwards the run is as
    the cancellation left it, or its job is deleted, and no worker can claim it, not even by
    a reclaim.  The exception is a [create_dependency_run] that had read the run as pending
    and puts it back into the queue (see [promotion_revives_canceled]). *)
Theorem cancellation_stops_run (w0 : World) (s : Sys) (i t : Z) (x : Task) (user : User) (r : JobRun)
    (worker : string) :
  clean w0 → db_wf (w_db w0) → rtc sys_step (sys_start w0) s →
  let w := sys_world s in
  w_faults w = [] → visible (w_db w) user i r → status r ∉ TERMINAL →
  registered (mem_of worker w) → inflight_by_run (mem_of worker w) !! i = Some t →
  inflight (mem_of worker w) !! t = Some x →
  let n := length (rv_published (view (w_redis w))) in
  let r' := canceled_row (w_clock w) r in
  ∃ w', let s1 := {| sys_world := w'; sys_threads := sys_threads s ++ [Ret tt] |} in
    run (api_cancel_run i user) w = (Ok r', w') ∧ rtc sys_step s s1 ∧
    listen worker [false] (Listening n) w' = (Ok (Listening (S n), [t]), w') ∧ t_run x = i ∧
    ∀ s', rtc sys_step s1 s' →
      (run_at s' i = None ∨ run_at s' i = Some r') ∧
        (∀ worker' b c, (claim_run i worker' b (sys_world s')).1 ≠ Ok (Some c)) ∨
      stale_promotion w0 s1 s' i.
Proof.
  intros Hc0 W0 Hs0 w Hf Hv Hs Hreg Hrun Hin n r'. destruct (sys_reached_ok w0 s Hc0 W0 Hs0) as [_ Hc W _]. fold w in Hc, W.
  exists (after_cancel i r w). cbv zeta. set (s1 := {| sys_world := after_cancel i r w; sys_threads := _ |}).
  destruct (after_cancel_wf i user r w W Hv Hs) as [W' Hi'].
  pose proof (cancel_request_run i user r w Hc Hf W Hv Hs) as Ereq.
  assert (rtc sys_step s s1) as Hs1.
  { apply (sys_executes (api_cancel_run i user;; Ret tt)); [apply start_request, req_cancel|].
    fold w. by rewrite (run_then _ _ _ _ _ Ereq). }
  split; [done|]. split; [done|]. split; [|split].
  - assert (cancel_listener worker false (Listening n) (after_cancel i r w) =
      (Ok (Listening (S n), Some t), after_cancel i r w)) as E.
    { rewrite listener_turn_eq by done. simpl. rewrite publish_view. simpl.
      rewrite lookup_app_r by done. rewrite Nat.sub_diag. simpl.
      unfold target. rewrite py_int_str. simpl.
      change (mem_of worker (after_cancel i r w)) with (mem_of worker w).
      rewrite Hrun. simpl. by rewrite decide_True by eauto. }
    unfold listen. by rewrite (bind_ok _ _ _ _ _ E).
  - by apply (proj2 Hreg i t).
  - intros s' Hs'. pose proof (sys_reached_ok w0 s1 Hc0 W0 ltac:(by etrans)) as Hok1.
    destruct (sys_steps_ok w0 _ _ Hs' Hok1) as (Hok' & Hp & Hcase).
    destruct (Hcase i) as [Hev|?]; [left|by right].
    assert (run_at s' i = None ∨ run_at s' i = Some r') as Hrow.
    { unfold run_at. pose proof (ea_run _ _ _ Hev W') as Hre. simpl in Hre. rewrite lookup_insert_eq in Hre.
      destruct (runs (w_db (sys_world s')) !! i) as [r2|]; [right|by left].
      by rewrite (ev_canceled _ _ Hre). }
    split; [done|]. intros worker' b c E.
    destruct (claim_run i worker' b (sys_world s')) as [o w2] eqn:Ec. simpl in E. subst o.
    destruct (claim_run_inv _ _ _ _ _ _ (ok_wf _ _ Hok') Ec) as (r2 & _ & Hi2 & Hs2 & _).
    unfold run_at in Hrow. rewrite Hi2 in Hrow. destruct Hrow as [|[= ->]]; [done|].
    destruct b; simpl in Hs2; set_solver.
Qed.

(** ** A cancellation while a failure is handled *)

(** What is left of [on_failure] once it has seen that the run is not canceled. *)
Definition failure_rest (c : Claimed) (res : ExecResult) : prog unit :=
  if bool_decide (er_status res ∈ RETRYABLE) && should_retry (c_attempt c) (c_max_retries c)
  then
    let delay := backoff_seconds (c_attempt c) (c_retry_backoff_sec c) in
    new_id ← call (create_retry_run (c_job_id c) (c_attempt c + 1));
    now ← call utcnow;
    schedule_delayed_async new_id (now + delay * usec);;
    call (finish_run (c_run_id c) (er_status res) (er_exit_code res) (er_result res)
            (Some (retry_error c res delay new_id)))
  else
    call (finish_run (c_run_id c) (er_status res) (er_exit_code res) (er_result res)
            (er_error res)).

Lemma failure_rest_canceled c res r w :
  clean w → w_faults w = [] → db_wf (w_db w) → is_Some (jobs (w_db w) !! c_job_id c) →
  runs (w_db w) !! c_run_id c = Some r → status r = CANCELED →
  er_status res ∈ RETRYABLE → c_attempt c ≤ c_max_retries c →
  outcome_ok (er_result res) (er_error res) = true →
  run (failure_rest c res) w =
    (Ok tt, committed (with_retry (c_job_id c) (c_attempt c + 1) (w_clock w) (w_db w))
       (with_redis (zadd (py_str (runs_seq (w_db w)))
          (w_clock w + backoff_seconds (c_attempt c) (c_retry_backoff_sec c) * usec) (w_redis w)) w)).
Proof.
  intros Hc Hf W Hj Hi Hs Hre Hle Hok. unfold failure_rest, should_retry.
  rewrite bool_decide_eq_true_2 by done. rewrite (proj2 (Z.leb_le _ _) Hle). cbn [andb].
  pose proof (create_retry_run_eq (c_job_id c) (c_attempt c + 1) w Hc Hf Hj) as E1. cbv zeta in E1.
  rewrite (run_step _ _ _ _ _ E1). rewrite (run_step utcnow _ _ _ _ eq_refl).
  erewrite run_then by (by apply run_schedule_delayed). rewrite run_call.
  apply scope_unchanged; [done..|]. rewrite finish_body.
  - simpl. rewrite lookup_insert_ne by (pose proof (proj2 (wf_run_key _ W _ _ Hi)); lia).
    rewrite Hi. by rewrite decide_False by (rewrite Hs; tauto).
  - simpl. apply (ev_wf (w_db w)); [|done]. by apply evolves_insert_run.
  - unfold outcome_ok in *. simpl. by rewrite retry_error_ok.
Qed.

(** A worker that is about to handle the failure of a run. *)
Definition failing (c : Claimed) (res : ExecResult) (w : World) : Sys :=
  {| sys_world := w; sys_threads := [on_failure c res] |}.

(** A canceled run can be retried.  A worker that handles the failure of a run with
    retries left looks once whether the run was canceled; a cancellation that arrives after
    that, by a request of the run's owner, is answered with success, and still the retry is
    created and waits in the delayed set. *)
Theorem canceled_run_retried (c : Claimed) (res : ExecResult) (user : User) (r : JobRun) (w : World) :
  clean w → w_faults w = [] → db_wf (w_db w) → is_Some (jobs (w_db w) !! c_job_id c) →
  visible (w_db w) user (c_run_id c) r → status r ∉ TERMINAL →
  er_status res ∈ RETRYABLE → c_attempt c ≤ c_max_retries c →
  outcome_ok (er_result res) (er_error res) = true →
  let new := runs_seq (w_db w) in
  ∃ s, rtc sys_step (failing c res w) s ∧
    sys_threads s = [Ret tt; Ret tt] ∧
    runs (w_db (sys_world s)) !! c_run_id c = Some (canceled_row (w_clock w) r) ∧
    runs (w_db (sys_world s)) !! new =
      Some (new_run new (c_job_id c) RETRY QUEUED (c_attempt c + 1) None (w_clock w)) ∧
    is_Some (rv_delayed (view (w_redis (sys_world s))) !! py_str new).
Proof.
  intros Hc Hf W Hj Hv Hs Hre Hle Hok new. pose proof Hv as [Hi _].
  assert (status r ≠ CANCELED) as Hnc by (intros E; apply Hs; rewrite E; set_solver).
  destruct (after_cancel_wf _ user r w W Hv Hs) as [W' Hi'].
  set (w1 := after_cancel (c_run_id c) r w) in *.
  pose proof (failure_rest_canceled c res _ w1 eq_refl Hf W' Hj Hi' eq_refl Hre Hle Hok) as Erest.
  eexists. split; [|split; [|split; [|split]]].
  - eapply rtc_l.
    { apply (sys_exec w [on_failure c res] 0 bool (is_run_canceled (c_run_id c))). reflexivity. }
    rewrite (not_canceled_eq _ _ _ Hc Hf W Hi Hnc). cbn [fst snd list_insert insert].
    change (if bool_decide _ && _ then _ else _) with (failure_rest c res).
    eapply rtc_l; [by apply (sys_spawn _ _ _ (start_request _ (req_cancel (c_run_id c) user)))|].
    etrans; [eapply (sys_runs (api_cancel_run (c_run_id c) user;; Ret tt) w w1 _ 1); [reflexivity|]|].
    { by rewrite (run_then _ _ _ _ _ (cancel_request_run _ _ _ _ Hc Hf W Hv Hs)). }
    eapply (sys_runs (failure_rest c res) w1 _ _ 0); [reflexivity|exact Erest].
  - reflexivity.
  - simpl. rewrite lookup_insert_ne; [exact Hi'|].
    pose proof (proj2 (wf_run_key _ W _ _ Hi)). lia.
  - simpl. apply lookup_insert_eq.
  - simpl. rewrite zadd_view. simpl. rewrite lookup_insert_eq. eauto.
Qed.

End cancellation.

(** ** Evaluations *)

#[local] Existing Instances echo_executors plain_exc_text plain_validation_text.

Lemma running_row :
  ∃ r, visible (w_db world_running) (demo_user "ann" 1) 1 r ∧ status r ∉ TERMINAL.
Proof.
  eexists. split; [split; [vm_compute; reflexivity|]|].
  - eexists. split; vm_compute; reflexivity.
  - vm_compute. set_solver.
Qed.

Lemma failed_retryable : er_status (exec_failed "boom" None None) ∈ RETRYABLE.
Proof. unfold RETRYABLE. simpl. set_solver. Qed.
Lemma demo_attempt : c_attempt demo_claimed ≤ c_max_retries demo_claimed.
Proof. simpl. lia. Qed.

Lemma canceled_run_retried_witness :
  ∃ s, rtc sys_step (failing demo_claimed (exec_failed "boom" None None) world_running) s ∧
    is_Some (rv_delayed (view (w_redis (sys_world s))) !! py_str (runs_seq (w_db world_running))).
Proof.
  destruct running_row as (r & Hv & Hs).
  pose proof (canceled_run_retried demo_claimed (exec_failed "boom" None None) (demo_user "ann" 1) r
    world_running clean_running quiet_running wf_running running_job Hv Hs failed_retryable demo_attempt eq_refl) as Hex.
  cbv zeta in Hex. destruct Hex as (s & Hr & _ & _ & _ & Hd). exists s. split; [exact Hr|exact Hd].
Defined.

(** A worker whose task 0 executes run 1. *)
Definition world_executing : World := (register "w1" 1 0 (spawn "w1" 1 1 false world_running).2).2.

Lemma executing_registered : registered (mem_of "w1" world_executing).
Proof.
  eapply registered_register; [|vm_compute; reflexivity|reflexivity].
  apply registered_spawn. unfold mem_of. simpl. apply registered_empty.
Qed.
Lemma executing_run : inflight_by_run (mem_of "w1" world_executing) !! 1 = Some 0.
Proof. vm_compute. reflexivity. Qed.
Lemma executing_task :
  inflight (mem_of "w1" world_executing) !! 0 = Some {| t_message := 1; t_run := 1; t_reclaim := false |}.
Proof. vm_compute. reflexivity. Qed.
Lemma executing_clean : clean world_executing.
Proof. exact clean_running. Qed.
Lemma executing_quiet : w_faults world_executing = [].
Proof. exact quiet_running. Qed.
Lemma executing_wf : db_wf (w_db world_executing).
Proof. exact wf_running. Qed.
Lemma executing_row :
  ∃ r, visible (w_db world_executing) (demo_user "ann" 1) 1 r ∧ status r ∉ TERMINAL.
Proof. exact running_row. Qed.

Lemma executing_not_pending r : visible (w_db world_executing) (demo_user "ann" 1) 1 r →
  status r ≠ PENDING.
Proof.
  intros [Hi _] Hp. assert ((status <$> runs (w_db world_executing) !! 1) = Some RUNNING) as E
    by (vm_compute; reflexivity).
  rewrite Hi in E. simpl in E. congruence.
Qed.

Lemma cancellation_stops_run_witness :
  ∃ r w', run (api_cancel_run 1 (demo_user "ann" 1)) world_executing = (Ok r, w') ∧
    listen "w1" [false] (Listening (length (rv_published (view (w_redis world_executing))))) w' =
      (Ok (Listening (S (length (rv_published (view (w_redis world_executing))))), [0]), w') ∧
    ∀ s', rtc sys_step {| sys_world := w'; sys_threads := [Ret tt] |} s' →
      ∀ worker' b c, (claim_run 1 worker' b (sys_world s')).1 ≠ Ok (Some c).
Proof.
  destruct executing_row as (r & Hv & Hs).
  pose proof (cancellation_stops_run world_executing (sys_start world_executing) 1 0 _ (demo_user "ann" 1) r
    "w1" executing_clean executing_wf (rtc_refl _ _) executing_quiet Hv Hs executing_registered
    executing_run executing_task) as Hex.
  cbv zeta in Hex. destruct Hex as (w' & E & _ & El & _ & Hafter).
  eexists _, w'. split; [exact E|]. split; [exact El|]. intros s' Hs'.
  destruct (Hafter s' Hs') as [[_ Hno]|Hstale]; [exact Hno|].
  destruct (never_stale world_executing _ s' 1 r executing_clean executing_wf (proj1 Hv)
    (executing_not_pending r Hv) Hstale).
Defined.

(** The channel holds the cancellation of run 1, and two messages that name no task. *)
Definition world_canceling : World :=
  with_redis (publish_msg "1" (publish_msg "x" (publish_msg "7" (w_redis world_executing)))) world_executing.
Lemma canceling_quiet : w_faults world_canceling = [].
Proof. exact quiet_running. Qed.
Lemma canceling_length : (0 ≤ length (rv_published (view (w_redis world_canceling))))%nat.
Proof. lia. Qed.

Lemma listener_exact_witness :
  listen "w1" (replicate (length (drop 0 (rv_published (view (w_redis world_canceling))))) false)
      (Listening 0) world_canceling =
    (Ok (Listening (length (rv_published (view (w_redis world_canceling)))),
         omap (target (mem_of "w1" world_canceling)) (drop 0 (rv_published (view (w_redis world_canceling))))),
     world_canceling) ∧
  omap (target (mem_of "w1" world_canceling)) (drop 0 (rv_published (view (w_redis world_canceling)))) = [0].
Proof.
  split; [|vm_compute; reflexivity].
  exact (proj1 (listener_exact "w1" 0 world_canceling) canceling_quiet canceling_length).
Defined.
