(* ===== verification/Application.v ===== *)
(** * The HTTP application: api/main.py and the decorators of api/routers

    The table of routes as the routers declare it, the dispatch of a request to its
    endpoint (path, query and body parameters, the dependency on the current user,
    the response models) and what holds of every request: each route is reached by
    its own URLs, nothing behind authentication runs without a user, and a request
    that is refused leaves no trace. *)

From S2P Require Import Prelude PyBase PyCodec PyText Models RedisServer Effects Database RedisQueue Cron.
From S2P Require Import Demo Store Executor Runner Monitoring WorkerMain Schemas Crud Responses.
From S2P Require Import JobsApi RunsApi Auth System.
From Stdlib Require Import Ascii DecimalString.

Local Open Scope string_scope.
Local Open Scope Z_scope.
Local Open Scope list_scope.

(** ** Routes *)

Inductive Endpoint :=
  | ep_healthz | ep_readyz | ep_register | ep_login | ep_me
  | ep_create_job | ep_list_jobs | ep_list_recent_jobs | ep_create_job_draft_from_file
  | ep_get_job | ep_update_job | ep_delete_job | ep_trigger_job
  | ep_get_latest_job_run | ep_get_latest_job_run_logs | ep_list_job_runs
  | ep_list_runs | ep_get_run | ep_get_run_logs | ep_retry_run | ep_cancel_run
  | ep_metrics | ep_root.

#[global] Instance Endpoint_eq_dec : EqDecision Endpoint.
Proof. solve_decision. Defined.

(** [@router.get(path, status_code=...)] and the like, on a function. *)
Record Route := {
  rt_method : string;
  rt_path : string;
  rt_endpoint : Endpoint;
  rt_status : Z
}.

#[global] Instance Route_eq_dec : EqDecision Route.
Proof. solve_decision. Defined.

Definition route (m p : string) (e : Endpoint) (st : Z) : Route :=
  {| rt_method := m; rt_path := p; rt_endpoint := e; rt_status := st |}.

(** [APIRouter(prefix=...)] *)
Definition prefixed (prefix : string) (l : list Route) : list Route :=
  (λ r, route (rt_method r) (prefix ++ rt_path r) (rt_endpoint r) (rt_status r)) <$> l.

Definition health_router : list Route :=
  [route "GET" "/healthz" ep_healthz 200; route "GET" "/readyz" ep_readyz 200].

Definition auth_router : list Route := prefixed "/api/v1/auth"
  [route "POST" "/register" ep_register 201;
   route "POST" "/login" ep_login 200;
   route "GET" "/me" ep_me 200].

Definition jobs_router : list Route := prefixed "/api/v1/jobs"
  [route "POST" "" ep_create_job 201;
   route "GET" "" ep_list_jobs 200;
   route "GET" "/recent" ep_list_recent_jobs 200;
   route "POST" "/drafts/from-file" ep_create_job_draft_from_file 200;
   route "GET" "/{job_id}" ep_get_job 200;
   route "PUT" "/{job_id}" ep_update_job 200;
   route "DELETE" "/{job_id}" ep_delete_job 204;
   route "POST" "/{job_id}/trigger" ep_trigger_job 202;
   route "GET" "/{job_id}/latest-run" ep_get_latest_job_run 200;
   route "GET" "/{job_id}/logs" ep_get_latest_job_run_logs 200;
   route "GET" "/{job_id}/runs" ep_list_job_runs 200].

Definition runs_router : list Route := prefixed "/api/v1/runs"
  [route "GET" "" ep_list_runs 200;
   route "GET" "/{run_id}" ep_get_run 200;
   route "GET" "/{run_id}/logs" ep_get_run_logs 200;
   route "POST" "/{run_id}/retry" ep_retry_run 202;
   route "POST" "/{run_id}/cancel" ep_cancel_run 200].

(** The endpoints of main.py itself. *)
Definition app_routes : list Route :=
  [route "GET" "/metrics" ep_metrics 200; route "GET" "/" ep_root 200].

(** In the order of [include_router]. *)
Definition routes : list Route :=
  health_router ++ auth_router ++ jobs_router ++ runs_router ++ app_routes.

(** ** Paths *)

Notation params := (list (string * string)).

Fixpoint param (k : string) (ps : params) : option string :=
  match ps with
  | [] => None
  | (k', v) :: ps => if String.eqb k k' then Some v else param k ps
  end.

(** The name of a template's segment [{name}]. *)
Definition segment_param (s : string) : option string :=
  match s with
  | String "{" s =>
      match String.length s with
      | O => None
      | S n => if String.eqb (String.substring n 1 s) "}" then Some (String.substring 0 n s) else None
      end
  | _ => None
  end.

(** A path fits a template when its fixed segments agree and every parameter gets a
    segment that is not empty. *)
Fixpoint path_params (template path : list string) : option params :=
  match template, path with
  | [], [] => Some []
  | t :: template, s :: path =>
      match segment_param t with
      | Some n =>
          if String.eqb s "" then None else ps ← path_params template path; Some ((n, s) :: ps)
      | None => if String.eqb t s then path_params template path else None
      end
  | _, _ => None
  end.

(** The first route in the order of declaration whose method and path fit. *)
Fixpoint first_match (rs : list Route) (method path : string) : option (Route * params) :=
  match rs with
  | [] => None
  | r :: rs =>
      if String.eqb (rt_method r) method then
        match path_params (split_on "/" (rt_path r)) (split_on "/" path) with
        | Some ps => Some (r, ps)
        | None => first_match rs method path
        end
      else first_match rs method path
  end.

(** ** Requests *)

Record Request := {
  rq_method : string;
  rq_path : string;
  rq_query : params;
  rq_credentials : option (string * string);   (* scheme and token, as [HTTPBearer] reads them *)
  rq_body : string
}.

(** What the application uses of FastAPI: the choice of the route, the conversion of
    parameters and bodies to the declared types ([None] is a validation error), the
    answer when no route fits, and whether a request that is not valid is refused
    before its dependencies are asked. *)
Class Fastapi := {
  find_route : list Route → string → string → option (Route * params);
  find_route_first : ∀ rs m p, find_route rs m p = first_match rs m p;
  parse_int : string → option Z;
  parse_int_str : ∀ n, parse_int (py_str n) = Some n;
  parse_bool : string → option bool;
  body_job : string → option JobBase;
  body_update : string → option JobUpdate;
  body_user : string → option UserCreate;
  body_login : string → option (string * string);
  body_file : string → option (option string * string);
  unmatched : string → string → Z;
  refused_early : Request → bool
}.

(** Bodies of answers. *)
Inductive Answer :=
  | a_json (v : json)
  | a_none
  | a_metrics
  | a_token (access_token : string) (expires_in : Z) (user : UserOut)
  | a_user (u : UserOut)
  | a_job (j : JobOut)
  | a_jobs (js : list JobOut)
  | a_recent (l : list JobRecentOut)
  | a_draft (d : JobDraftOut)
  | a_run (r : JobRunOut)
  | a_maybe_run (r : option JobRunOut)
  | a_runs (rs : list JobRunOut)
  | a_logs (ls : list JobRunLogOut).

(** [{"detail": ...}] *)
Definition a_detail (msg : string) : Answer := a_json (JObj [("detail", JStr msg)]).

(** A request that does not fit the declared parameters. *)
Definition validation_error : exn := HTTPException 422 "validation error".
(** A result that does not fit the response model. *)
Definition response_error : exn := ValueError "ResponseValidationError".

Definition user_login_valid (p : string * string) : bool :=
  length_ok 1 255 p.1 && length_ok 1 128 p.2.

(** How an endpoint is called: without a user, or with the one of
    [Depends(get_current_user)]; [None] when the parameters are not valid. *)
Inductive Handler `{RedisServer} :=
  | Public (p : option (prog (Z * Answer)))
  | Protected (p : option (User → prog (Z * Answer))).

Section application.
Context `{RedisServer, Postgres, Settings, Croniter, ValidationText, Digests, ExcText, !Probes, Fastapi}.
Implicit Types (w : World) (rq : Request).

(** [name: int = Query(default=d, ge=lo, le=hi)] *)
Definition query_int (name : string) (d lo : Z) (hi : option Z) rq : option Z :=
  match param name (rq_query rq) with
  | None => Some d
  | Some s =>
      n ← parse_int s;
      if (lo <=? n) && match hi with None => true | Some hi => n <=? hi end then Some n else None
  end.
(** [enabled: bool | None = Query(default=None)] *)
Definition query_bool (name : string) rq : option (option bool) :=
  match param name (rq_query rq) with None => Some None | Some s => b ← parse_bool s; Some (Some b) end.
(** [name: int] in the path *)
Definition path_int (name : string) (ps : params) : option Z := param name ps ≫= parse_int.

(** The answer of a response model. *)
Definition render {A} (st : Z) (o : option A) (f : A → Answer) : prog (Z * Answer) :=
  match o with Some a => Ret (st, f a) | None => Throw response_error end.
Definition render_run (st : Z) (r : JobRun) : prog (Z * Answer) := render st (run_out r) a_run.

Definition root : json :=
  JObj [("service", JStr "job-scheduler-api"); ("version", JStr "0.1.0"); ("docs", JStr "/docs");
        ("openapi", JStr "/openapi.json")].

(** ** Dispatch *)

(** The function of the endpoint [e] with its parameters: [st] is the declared status,
    [salt] what [hash_password] draws. *)
Definition handler (salt : string) (e : Endpoint) (st : Z) (ps : params) rq : Handler :=
  match e with
  | ep_healthz => Public (Some (Ret (st, a_json healthz)))
  | ep_readyz => Public (Some (o ← call readyz; Ret (o.1, a_json o.2)))
  | ep_metrics => Public (Some (Ret (st, a_metrics)))
  | ep_root => Public (Some (Ret (st, a_json root)))
  | ep_register => Public (
      p ← body_user (rq_body rq);
      if user_create_valid p then Some (
        t ← call (register p salt);
        Ret (st, a_token (access_token t) (expires_in t) (user_out (tok_user t))))
      else None)
  | ep_login => Public (
      p ← body_login (rq_body rq);
      if user_login_valid p then Some (
        t ← call (login p.1 p.2);
        Ret (st, a_token (access_token t) (expires_in t) (user_out (tok_user t))))
      else None)
  | ep_me => Protected (Some (λ u, Ret (st, a_user (user_out u))))
  | ep_create_job => Protected (
      p ← body_job (rq_body rq);
      if job_base_valid p then Some (λ u, j ← call (api_create_job p u); Ret (st, a_job j)) else None)
  | ep_list_jobs => Protected (
      en ← query_bool "enabled" rq;
      limit ← query_int "limit" 50 1 (Some 500) rq;
      offset ← query_int "offset" 0 0 None rq;
      Some (λ u, js ← call (api_list_jobs en limit offset u); Ret (st, a_jobs js)))
  | ep_list_recent_jobs => Protected (
      limit ← query_int "limit" 10 1 (Some 50) rq;
      Some (λ u, l ← call (list_recent_jobs limit u); render st (mapM job_recent_out l) a_recent))
  | ep_create_job_draft_from_file => Protected (
      f ← body_file (rq_body rq);
      Some (λ u, d ← call (lift (create_job_draft_from_file f.1 f.2)); Ret (st, a_draft d)))
  | ep_get_job => Protected (
      i ← path_int "job_id" ps;
      Some (λ u, j ← call (api_get_job i u); Ret (st, a_job j)))
  | ep_update_job => Protected (
      i ← path_int "job_id" ps;
      p ← body_update (rq_body rq);
      if job_update_valid p then Some (λ u, j ← call (api_update_job i p u); Ret (st, a_job j)) else None)
  | ep_delete_job => Protected (
      i ← path_int "job_id" ps;
      Some (λ u, call (api_delete_job i u);; Ret (st, a_none)))
  | ep_trigger_job => Protected (
      i ← path_int "job_id" ps;
      Some (λ u, r ← trigger_job i u; render_run st r))
  | ep_get_latest_job_run => Protected (
      i ← path_int "job_id" ps;
      Some (λ u, o ← call (session_scope (get_latest_job_run i u));
                 match o with
                 | None => Ret (st, a_maybe_run None)
                 | Some r => render st (run_out r) (λ v, a_maybe_run (Some v))
                 end))
  | ep_get_latest_job_run_logs => Protected (
      i ← path_int "job_id" ps;
      limit ← query_int "limit" 500 1 (Some 5000) rq;
      offset ← query_int "offset" 0 0 None rq;
      Some (λ u, ls ← call (get_latest_job_run_logs i limit offset u); Ret (st, a_logs (log_out <$> ls))))
  | ep_list_job_runs => Protected (
      i ← path_int "job_id" ps;
      limit ← query_int "limit" 50 1 (Some 500) rq;
      offset ← query_int "offset" 0 0 None rq;
      Some (λ u, rs ← call (list_job_runs i (param "status" (rq_query rq)) limit offset u);
                 render st (mapM run_out rs) a_runs))
  | ep_list_runs => Protected (
      limit ← query_int "limit" 50 1 (Some 500) rq;
      offset ← query_int "offset" 0 0 None rq;
      Some (λ u, rs ← call (list_runs (param "status" (rq_query rq)) limit offset u);
                 render st (mapM run_out rs) a_runs))
  | ep_get_run => Protected (
      i ← path_int "run_id" ps;
      Some (λ u, r ← call (get_run i u); render_run st r))
  | ep_get_run_logs => Protected (
      i ← path_int "run_id" ps;
      limit ← query_int "limit" 500 1 (Some 5000) rq;
      offset ← query_int "offset" 0 0 None rq;
      Some (λ u, ls ← call (get_run_logs i limit offset u); Ret (st, a_logs (log_out <$> ls))))
  | ep_retry_run => Protected (
      i ← path_int "run_id" ps;
      Some (λ u, r ← api_retry_run i u; render_run st r))
  | ep_cancel_run => Protected (
      i ← path_int "run_id" ps;
      Some (λ u, r ← api_cancel_run i u; render_run st r))
  end.

(** The dependencies are solved before the endpoint runs; the user is read in the
    session of the request. *)
Definition call_endpoint (h : Handler) rq : prog (Z * Answer) :=
  match h with
  | Public None => Throw validation_error
  | Public (Some p) => p
  | Protected o =>
      if refused_early rq && bool_decide (o = None) then Throw validation_error
      else
        u ← call (in_session (get_current_user (rq_credentials rq)));
        match o with None => Throw validation_error | Some f => f u end
  end.

(** The handler of [HTTPException]. *)
Definition http_errors (p : prog (Z * Answer)) : prog (Z * Answer) :=
  ptry p (λ e, match e with HTTPException c msg => Ret (c, a_detail msg) | e => Throw e end).

(** The router of the application. *)
Definition serve (salt : string) rq : prog (Z * Answer) :=
  match find_route routes (rq_method rq) (rq_path rq) with
  | None => Ret (unmatched (rq_method rq) (rq_path rq), a_detail "")
  | Some (rt, ps) =>
      http_errors (call_endpoint (handler salt (rt_endpoint rt) (rt_status rt) ps rq) rq)
  end.

(** A request alone, with the middleware and the handler of all other exceptions. *)
Definition application (salt : string) rq : MM (Z * Answer) :=
  app a_json (rq_method rq) ((λ r, rt_path r.1) <$> find_route routes (rq_method rq) (rq_path rq))
    (plain (run (serve salt rq))).

(** ** Every route is reached *)

(** The URL of a route for the number [i]. *)
Definition fill_segment (i : Z) (t : string) : string :=
  match segment_param t with Some _ => py_str i | None => t end.
Definition url (rt : Route) (i : Z) : string :=
  py_join "/" (fill_segment i <$> split_on "/" (rt_path rt)).

(** The parameters it is read as. *)
Definition url_params (rt : Route) (i : Z) : params :=
  omap (λ t, n ← segment_param t; Some (n, py_str i)) (split_on "/" (rt_path rt)).

(** An integer's digits contain no slash, and no name is an integer. *)
Lemma split_on_cons c s t : no_char c s → split_on c (s ++ String c t)%string = s :: split_on c t.
Proof.
  unfold no_char. induction s as [|a s IH]; simpl; [by rewrite Ascii.eqb_refl|].
  intros [Ha Hs]%andb_true_iff. apply negb_true_iff in Ha. by rewrite Ha, IH.
Qed.

Lemma split_join c l : l ≠ [] → Forall (no_char c) l → split_on c (py_join (String c "") l) = l.
Proof.
  unfold py_join. intros Hne Hl. induction Hl as [|s l Hs Hl IH]; [done|].
  destruct l as [|s' l]; [by apply split_on_whole|].
  change (String.concat (String c "") (s :: s' :: l))
    with (s ++ String c (String.concat (String c "") (s' :: l)))%string.
  by rewrite split_on_cons, IH.
Qed.

Lemma split_on_nonnil c s : split_on c s ≠ [].
Proof. destruct s as [|a s]; simpl; [done|]. destruct (Ascii.eqb a c); [done|]. by destruct (split_on c s). Qed.

Lemma py_str_no_slash i : no_char "/" (py_str i).
Proof.
  unfold no_char, py_str. assert (∀ u, string_forallb (λ a, negb (Ascii.eqb a "/")) (NilZero.string_of_uint u) = true) as Hu.
  { intros u. apply (string_forallb_impl is_digit).
    - intros a Ha. apply negb_true_iff, Ascii.eqb_neq. by intros ->.
    - destruct u; try done; apply string_of_uint_digits. }
  destruct (Z.to_int i) as [u|u]; simpl; apply Hu.
Qed.

Lemma split_url rt i : split_on "/" (url rt i) = fill_segment i <$> split_on "/" (rt_path rt).
Proof.
  unfold url. apply (split_join "/").
  - pose proof (split_on_nonnil "/" (rt_path rt)). by destruct (split_on "/" (rt_path rt)).
  - apply Forall_fmap, Forall_forall. intros t Ht%split_on_parts.
    unfold compose, fill_segment. destruct (segment_param t); [apply py_str_no_slash|done].
Qed.

(** The same search on the segments of the path. *)
Fixpoint first_segments (rs : list Route) (method : string) (path : list string) : option (Route * params) :=
  match rs with
  | [] => None
  | r :: rs =>
      if String.eqb (rt_method r) method then
        match path_params (split_on "/" (rt_path r)) path with
        | Some ps => Some (r, ps)
        | None => first_segments rs method path
        end
      else first_segments rs method path
  end.

Lemma first_match_segments rs m p : first_match rs m p = first_segments rs m (split_on "/" p).
Proof. induction rs as [|r rs IH]; simpl; [done|]. by rewrite IH. Qed.

(** Paths with a number left open: [None] is the number. *)
Definition shape : Type := list (option string).
Definition with_number (i : Z) (o : option string) : string := default (py_str i) o.

Definition number_params (i : Z) (ps : list (string * option string)) : params :=
  (λ p, (p.1, with_number i p.2)) <$> ps.

Fixpoint shape_params (template : list string) (path : shape) : option (list (string * option string)) :=
  match template, path with
  | [], [] => Some []
  | t :: template, o :: path =>
      match segment_param t with
      | Some n =>
          if bool_decide (o = Some "") then None
          else ps ← shape_params template path; Some ((n, o) :: ps)
      | None => if bool_decide (o = Some t) then shape_params template path else None
      end
  | _, _ => None
  end.

Fixpoint first_shape (rs : list Route) (method : string) (path : shape) :
    option (Route * list (string * option string)) :=
  match rs with
  | [] => None
  | r :: rs =>
      if String.eqb (rt_method r) method then
        match shape_params (split_on "/" (rt_path r)) path with
        | Some ps => Some (r, ps)
        | None => first_shape rs method path
        end
      else first_shape rs method path
  end.

(** No fixed segment is a number. *)
Definition named (rt : Route) : Prop := Forall (λ t, py_int t = None) (split_on "/" (rt_path rt)).

Lemma routes_named : Forall named routes.
Proof. unfold named. apply (bool_decide_unpack _). by vm_compute. Qed.

Lemma py_str_not s i : py_int s = None → py_str i ≠ s.
Proof. intros Hs E. rewrite <- E in Hs. by rewrite py_int_str in Hs. Qed.

Lemma path_params_shape i template path :
  Forall (λ t, py_int t = None) template →
  path_params template (with_number i <$> path) =
    number_params i <$> shape_params template path.
Proof.
  intros Ht. revert path. induction Ht as [|t template Ht _ IH]; intros [|o path]; try done.
  cbn [path_params shape_params fmap list_fmap].
  assert (∀ c, py_int c = None → String.eqb (with_number i o) c = bool_decide (o = Some c)) as Ho.
  { intros c Hc. destruct o as [s|]; simpl.
    - destruct (String.eqb s c) eqn:E; [apply String.eqb_eq in E|apply String.eqb_neq in E];
        symmetry; [apply bool_decide_eq_true|apply bool_decide_eq_false]; congruence.
    - by apply String.eqb_neq, py_str_not. }
  destruct (segment_param t) as [n|].
  - rewrite Ho by done. destruct (bool_decide _); [done|]. rewrite IH. by destruct (shape_params template path).
  - rewrite String.eqb_sym, Ho by done. destruct (bool_decide _); [apply IH|done].
Qed.

Lemma first_segments_shape i rs m path :
  Forall named rs →
  first_segments rs m (with_number i <$> path) =
    prod_map id (number_params i) <$> first_shape rs m path.
Proof.
  induction 1 as [|r rs Hr _ IH]; [done|]. simpl. destruct (String.eqb _ m); [|done].
  rewrite path_params_shape by done. by destruct (shape_params _ path).
Qed.

(** The shape of a route's own URLs. *)
Definition open_segment (t : string) : option string :=
  match segment_param t with Some _ => None | None => Some t end.
Definition own_params (rt : Route) : list (string * option string) :=
  omap (λ t, n ← segment_param t; Some (n, None)) (split_on "/" (rt_path rt)).

Lemma own_shape :
  Forall (λ rt, first_shape routes (rt_method rt) (open_segment <$> split_on "/" (rt_path rt)) =
                Some (rt, own_params rt)) routes.
Proof. unfold routes at 2. by repeat (constructor; [vm_compute; reflexivity|]). Qed.

Lemma url_found (rt : Route) (i : Z) :
  rt ∈ routes → find_route routes (rt_method rt) (url rt i) = Some (rt, url_params rt i).
Proof.
  intros Hin. rewrite find_route_first, first_match_segments, split_url.
  assert (fill_segment i <$> split_on "/" (rt_path rt) =
    with_number i <$> (open_segment <$> split_on "/" (rt_path rt))) as ->.
  { rewrite <- list_fmap_compose. apply list_fmap_ext. intros _ t _.
    unfold fill_segment, compose, open_segment. by destruct (segment_param t). }
  rewrite (first_segments_shape _ _ _ _ routes_named).
  rewrite (proj1 (Forall_forall _ _) own_shape rt Hin). simpl. do 2 f_equal.
  unfold own_params, url_params, number_params. induction (split_on "/" (rt_path rt)) as [|t l IH]; [done|]. simpl.
  destruct (segment_param t); simpl; [by f_equal|done].
Qed.

(** C29: No route hides another.  Whatever number is put into the path of an endpoint,
    the router takes the request to this endpoint and to none declared before it
    ([/jobs/recent] is no job), and reads the number back from the path. *)
Theorem url_routed (rt : Route) (i : Z) :
  rt ∈ routes →
  find_route routes (rt_method rt) (url rt i) = Some (rt, url_params rt i) ∧
  ∀ t n, t ∈ split_on "/" (rt_path rt) → segment_param t = Some n →
    path_int n (url_params rt i) = Some i.
Proof.
  intros Hin. split; [by apply url_found|].
  intros t n Ht Hn. unfold path_int, url_params.
  assert (param n (omap (λ t, n ← segment_param t; Some (n, py_str i)) (split_on "/" (rt_path rt)))
    = Some (py_str i)) as ->; [|apply parse_int_str].
  induction (split_on "/" (rt_path rt)) as [|t' l IH]; [set_solver|]. simpl.
  apply elem_of_cons in Ht as [->|Ht]; [rewrite Hn; simpl; by rewrite String.eqb_refl|].
  destruct (segment_param t') as [n'|]; simpl; [|by apply IH].
  destruct (String.eqb n n'); [done|by apply IH].
Qed.

(** ** Authentication *)

(** The endpoints that take no [current_user]. *)
Definition public : list Endpoint :=
  [ep_healthz; ep_readyz; ep_register; ep_login; ep_metrics; ep_root].

Lemma handler_protected salt e st ps rq :
  e ∉ public → ∃ o, handler salt e st ps rq = Protected o.
Proof. intros He. destruct e; try (by eexists); exfalso; apply He; unfold public; set_solver. Qed.

Lemma decode_access_token_reads t k w :
  ∃ o, decode_access_token t k w = (o, w) ∧
    match o with Ok _ => True | Raise e => is_exception e = true ∧ ∀ c msg, e ≠ HTTPException c msg end.
Proof.
  unfold decode_access_token. destruct (split_once "." t) as [[a b]|]; [|by eexists].
  destruct (is_ascii a); [|by eexists]. destruct (is_ascii b); [|by eexists].
  destruct (String.eqb _ b); [|by eexists]. simpl.
  destruct (b64decode a ≫= json_loads) as [[]|]; by eexists.
Qed.

Lemma get_current_user_eq c w :
  (get_current_user c w).2 = w ∧
  match (get_current_user c w).1 with
  | Ok u => ∃ i, users (w_db w) !! i = Some u ∧ is_active u = true
  | Raise (HTTPException c _) => c = 401
  | Raise e => is_exception e = true
  end.
Proof.
  unfold get_current_user. destruct c as [[scheme token]|]; [|done].
  destruct (negb _); [done|].
  destruct (decode_access_token_reads token auth_secret_key w) as (o & E & Ho). destruct o as [o|e].
  2: { rewrite (bind_raise _ _ _ _ _ E). destruct Ho as [He Hne]. split; [done|].
       destruct e; try done. by edestruct Hne. }
  rewrite (bind_ok _ _ _ _ _ E). destruct o as [payload|]; [|done].
  destruct (dict_get "sub" payload ≫= json_int) as [i|]; [|done].
  destruct (gate_id users i w) as [Eb|Eb]; [|by rewrite (bind_raise _ _ _ _ _ Eb)].
  rewrite (bind_ok _ _ _ _ _ Eb), (bind_ok (get_user_row i) _ w _ w eq_refl).
  destruct (users (w_db w) !! i) as [u|] eqn:Hi; [|done].
  destruct (is_active u) eqn:Ha; [|done]. simpl. eauto.
Qed.

Lemma in_session_reads {A} (m : M A) w : clean w → (m w).2 = w → in_session m w = m w.
Proof.
  intros Hc Hm. destruct (m w) as [[a|e] w'] eqn:E; simpl in Hm; subst w'.
  - unfold in_session, try_except. by rewrite E.
  - by apply in_session_raise.
Qed.

(** A request that reaches the endpoint. *)
Lemma serve_protected salt rq rt ps o w :
  clean w → find_route routes (rq_method rq) (rq_path rq) = Some (rt, ps) →
  handler salt (rt_endpoint rt) (rt_status rt) ps rq = Protected o →
  run (serve salt rq) w =
    run (http_errors
      (if refused_early rq && bool_decide (o = None) then Throw validation_error
       else match (get_current_user (rq_credentials rq) w).1 with
            | Ok u => match o with None => Throw validation_error | Some f => f u end
            | Raise e => Throw e
            end)) w.
Proof.
  intros Hc Hr Hh. unfold serve. rewrite Hr, Hh. unfold http_errors, call_endpoint. rewrite !run_try.
  unfold try_except. destruct (_ && _); [done|].
  rewrite run_bind. unfold mbind, M_bind. rewrite run_call.
  destruct (get_current_user_eq (rq_credentials rq) w) as [Hw _].
  rewrite in_session_reads by done. destruct (get_current_user _ w) as [[u|e] w']; simpl in *; by subst.
Qed.

(** C27: Nothing behind authentication without a user.  A request to any endpoint but
    the six public ones whose credentials do not identify an active user is answered
    401 (422 if its parameters are not valid either and are looked at first, 500 if
    the token is not ASCII, no JSON object or names no [BIGINT]), and changes neither tables nor queue;
    with credentials of an active user the endpoint runs, on unchanged tables, as
    that user. *)
Theorem authentication_exact (salt : string) rq (rt : Route) (ps : params) w (r : Registry) :
  clean w → find_route routes (rq_method rq) (rq_path rq) = Some (rt, ps) → rt_endpoint rt ∉ public →
  match (get_current_user (rq_credentials rq) w).1 with
  | Ok u =>
      (∃ i, users (w_db w) !! i = Some u ∧ is_active u = true) ∧
      ∀ f, handler salt (rt_endpoint rt) (rt_status rt) ps rq = Protected (Some f) →
        run (serve salt rq) w = run (http_errors (f u)) w
  | Raise e =>
      ∃ c a, erase (application salt rq) w r = (Ok (c, a), w) ∧
        (c = 401 ∨ c = 422 ∧ handler salt (rt_endpoint rt) (rt_status rt) ps rq = Protected None ∨
         c = 500 ∧ ∀ c' msg, e ≠ HTTPException c' msg)
  end.
Proof.
  intros Hc Hr He. destruct (handler_protected salt (rt_endpoint rt) (rt_status rt) ps rq He) as [o Ho].
  pose proof (serve_protected salt rq rt ps o w Hc Hr Ho) as E.
  destruct (get_current_user_eq (rq_credentials rq) w) as [_ Hu].
  destruct (get_current_user (rq_credentials rq) w).1 as [u|e] eqn:Eu.
  - split; [done|]. intros f Hf. rewrite Ho in Hf. injection Hf as ->. rewrite E.
    by rewrite bool_decide_false, andb_false_r by done.
  - pose proof (app_exact a_json (rq_method rq)
      ((λ r, rt_path r.1) <$> find_route routes (rq_method rq) (rq_path rq)) (run (serve salt rq)) w r) as Happ.
    fold (application salt rq) in Happ. unfold erase.
    destruct (application salt rq (w, r)) as [out [w' r']]. simpl.
    destruct Happ as (-> & -> & _). rewrite E. clear E.
    destruct (refused_early rq && bool_decide (o = None)) eqn:Hearly.
    + apply andb_true_iff in Hearly as [_ ->%bool_decide_eq_true]. eexists _, _.
      split; [reflexivity|]. auto.
    + destruct e; simpl in Hu; try done; eexists _, _; (split; [reflexivity|]); subst; auto.
      all: right; right; split; [done|by intros].
Qed.

End application.

(** ** Rendering *)

Section rendering.
Context `{RedisServer, Postgres, Settings, Croniter, !Executors, ExcText, ValidationText}.

Lemma run_out_inv r out :
  run_out r = Some out → ro_id out = run_id r ∧ ro_status out = status_str (status r).
Proof. unfold run_out. destruct (dict_or_none _); simpl; [by intros [= <-]|done]. Qed.

(** C34: Every run can be shown.  In every state that any interleaving of workers,
    schedulers and requests reaches, with failures and crashes anywhere, each stored
    run fits the response model of the API, and so does every list of runs: no
    answer about runs ever fails because of what an executor returned. *)
Theorem stored_runs_render (w : World) (s : Sys) :
  clean w → db_wf (w_db w) → results_plain (w_db w) → rtc sys_step (sys_start w) s →
  (∀ i r st, runs (w_db (sys_world s)) !! i = Some r →
     ∃ out, render_run st r = Ret (st, a_run out) ∧ ro_id out = i ∧ ro_status out = status_str (status r)) ∧
  (∀ l st, (∀ r, r ∈ l → ∃ i, runs (w_db (sys_world s)) !! i = Some r) →
     ∃ outs, render st (mapM run_out l) a_runs = Ret (st, a_runs outs) ∧ ro_id <$> outs = run_id <$> l).
Proof.
  intros Hc W Hp Hs. destruct (sys_steps_ok w _ _ Hs (sys_start_ok w Hc W)) as (_ & Hpers & _).
  simpl in Hpers. pose proof (ps_wf _ _ Hpers W) as W'. pose proof (ps_results _ _ Hpers W Hp) as Hp'.
  assert (∀ i r, runs (w_db (sys_world s)) !! i = Some r →
    ∃ out, run_out r = Some out ∧ ro_id out = i ∧ ro_status out = status_str (status r)) as Hone.
  { intros i r Hi. destruct (plain_result_renders r (Hp' i r Hi)) as [out Ho]. exists out.
    destruct (run_out_inv _ _ Ho) as [-> ->]. split; [done|]. split; [|done]. by apply (wf_run_key _ W'). }
  split.
  { intros i r st Hi. destruct (Hone i r Hi) as (out & Ho & Hr). exists out. unfold render_run. by rewrite Ho. }
  intros l st Hl. enough (∃ outs, mapM run_out l = Some outs ∧ ro_id <$> outs = run_id <$> l)
    as (outs & Hm & Hids) by (exists outs; by rewrite Hm).
  induction l as [|r l IH]; [by exists []|].
  destruct (Hl r) as [i Hi]; [set_solver|]. destruct (Hone i r Hi) as (out & Ho & _).
  destruct IH as (outs & Hm & Hids); [intros; apply Hl; set_solver|].
  exists (out :: outs). simpl. rewrite Ho. simpl. rewrite Hm. split; [done|].
  simpl. f_equal; [by apply run_out_inv|exact Hids].
Qed.

End rendering.

(** ** Evaluation *)

#[local] Existing Instances echo_executors plain_exc_text plain_validation_text plain_digests.

(** The documented choice of the route, and bodies that hold a script's text. *)
Definition plain_fastapi : Fastapi :=
  {| find_route := first_match; find_route_first _ _ _ := eq_refl;
     parse_int := py_int; parse_int_str := py_int_str;
     parse_bool s := if String.eqb s "true" then Some true else if String.eqb s "false" then Some false else None;
     body_job _ := None; body_update _ := None; body_user _ := None; body_login _ := None;
     body_file s := Some (Some "a.sh"%string, s);
     unmatched _ _ := 404; refused_early _ := false |}.

Definition quiet_probes `{RedisServer} : Probes :=
  {| select_1 := mret tt; redis_ping := mret tt; redis_close := mret tt |}.
#[local] Existing Instances plain_fastapi quiet_probes.

Definition get_request (path : string) : Request :=
  {| rq_method := "GET"; rq_path := path; rq_query := []; rq_credentials := None; rq_body := "" |}.

Definition job_route : Route := route "GET" "/api/v1/jobs/{job_id}" ep_get_job 200.

Lemma job_route_in : job_route ∈ routes.
Proof. apply (bool_decide_unpack _). vm_compute. exact I. Qed.

Lemma url_routed_witness :
  find_route routes "GET" (url job_route 7) = Some (job_route, [("job_id", "7")]) ∧
  url job_route 7 = "/api/v1/jobs/7".
Proof. split; [exact (proj1 (url_routed job_route 7 job_route_in))|vm_compute; reflexivity]. Defined.

Lemma job_request_route :
  find_route routes (rq_method (get_request "/api/v1/jobs/7")) (rq_path (get_request "/api/v1/jobs/7")) =
    Some (job_route, [("job_id", "7")]).
Proof. vm_compute. reflexivity. Qed.

Lemma get_job_protected : rt_endpoint job_route ∉ public.
Proof. apply (bool_decide_unpack _). vm_compute. exact I. Qed.

Definition empty_registry : Registry := {| counters := ∅; gauges := ∅; observations := ∅ |}.

Lemma authentication_exact_witness :
  ∃ c a, erase (application "salt" (get_request "/api/v1/jobs/7")) world_store empty_registry =
           (Ok (c, a), world_store) ∧ c ≠ 200.
Proof.
  destruct (authentication_exact "salt" (get_request "/api/v1/jobs/7") job_route [("job_id", "7")]
    world_store empty_registry clean_store job_request_route get_job_protected) as (c & a & E & Hc).
  exists c, a. split; [exact E|]. destruct Hc as [->|[[-> _]|[-> _]]]; discriminate.
Defined.

Lemma store_plain : results_plain (w_db world_store).
Proof.
  intros i r Hi. unfold plain_result. cut (result r = None); [by intros ->|].
  refine (rows_decide (λ r, result r = None) (runs (w_db world_store)) _ i r Hi).
  vm_compute. reflexivity.
Qed.

Lemma stored_runs_render_witness :
  ∃ r out, runs (w_db world_store) !! 1 = Some r ∧ render_run 200 r = Ret (200, a_run out) ∧
    ro_status out = "succeeded".
Proof.
  destruct store_run_1 as (r & Hi & Hs). exists r.
  destruct (proj1 (stored_runs_render world_store (sys_start world_store) clean_store wf_store store_plain
    (rtc_refl _ _)) 1 r 200 Hi) as (out & Ho & _ & Hst).
  exists out. split; [exact Hi|]. split; [exact Ho|]. rewrite Hst, Hs. reflexivity.
Defined.

(** The user ann. *)
Definition ann_credentials : option (string * string) := Some ("Bearer", ann_token).
