(* ===== verification/Refusals.v ===== *)
(** * Refused requests leave no trace

    An endpoint refuses a request by raising [HTTPException], or [CrudError] that
    becomes one.  Three kinds of actions make this compositional: those that write
    nothing another process can see, those that never refuse, and those that refuse
    only before they have written ([early]).  Every endpoint is early up to its
    commit and does not refuse after it; the transaction around it takes the rest
    back. *)

From S2P Require Import Prelude PyBase PyCodec PyText Models RedisServer Effects Database RedisQueue Cron.
From S2P Require Import Demo Store Executor Runner Monitoring Schemas Crud Responses.
From S2P Require Import JobsApi RunsApi Auth System Application.

Local Open Scope list_scope.

Create HintDb early discriminated.

Section early.
Context `{RedisServer}.

Definition refusal (e : exn) : bool :=
  match e with HTTPException _ _ | CrudError _ => true | _ => false end.

(** Committed tables and Redis are the same. *)
Definition unwritten (w w' : World) : Prop := w_saved w' = w_saved w ∧ w_redis w' = w_redis w.

Definition uncommitted {A} (m : M A) : Prop := ∀ w, unwritten w (m w).2.
Definition unrefusing {A} (m : M A) : Prop := ∀ w e, (m w).1 = Raise e → refusal e = false.
Definition early {A} (m : M A) : Prop :=
  ∀ w e, (m w).1 = Raise e → refusal e = true → unwritten w (m w).2.

Lemma unwritten_refl w : unwritten w w.
Proof. done. Qed.

Lemma unwritten_trans w1 w2 w3 : unwritten w1 w2 → unwritten w2 w3 → unwritten w1 w3.
Proof. intros [] []. split; congruence. Qed.

Lemma uncommitted_early {A} (m : M A) : uncommitted m → early m.
Proof. intros Hm w e _ _. apply Hm. Qed.

Lemma unrefusing_early {A} (m : M A) : unrefusing m → early m.
Proof. intros Hm w e E Hr. rewrite (Hm w e E) in Hr. done. Qed.

(** ** Sequences *)

Lemma uncommitted_bind {A B} (m : M A) (f : A → M B) :
  uncommitted m → (∀ a, uncommitted (f a)) → uncommitted (m ≫= f).
Proof.
  intros Hm Hf w. specialize (Hm w). unfold mbind, M_bind. destruct (m w) as [[a|e] w']; [|done].
  eapply unwritten_trans; [exact Hm|apply Hf].
Qed.

Lemma unrefusing_bind {A B} (m : M A) (f : A → M B) :
  unrefusing m → (∀ a, unrefusing (f a)) → unrefusing (m ≫= f).
Proof.
  intros Hm Hf w e. specialize (Hm w). unfold mbind, M_bind.
  destruct (m w) as [[a|e'] w']; [apply Hf|]. intros [= <-]. by apply Hm.
Qed.

(** Nothing is written before the rest, or the rest does not refuse. *)
Lemma early_bind {A B} (m : M A) (f : A → M B) :
  uncommitted m → (∀ a, early (f a)) → early (m ≫= f).
Proof.
  intros Hm Hf w e. specialize (Hm w). unfold mbind, M_bind.
  destruct (m w) as [[a|e'] w']; [|done]. intros E Hr.
  eapply unwritten_trans; [exact Hm|by eapply Hf].
Qed.

Lemma early_bind_end {A B} (m : M A) (f : A → M B) :
  early m → (∀ a, unrefusing (f a)) → early (m ≫= f).
Proof.
  intros Hm Hf w e. specialize (Hm w). unfold mbind, M_bind.
  destruct (m w) as [[a|e'] w']; [|intros [= <-]; by apply Hm].
  intros E Hr. by rewrite (Hf a w' e E) in Hr.
Qed.

Lemma early_crud_errors {A} code (m : M A) : early m → early (crud_errors code m).
Proof.
  intros Hm w e. specialize (Hm w). unfold crud_errors, try_except.
  destruct (m w) as [[a|e'] w']; [done|]. simpl in *. intros E Hr.
  destruct e'; try (injection E as <-; done); by eapply Hm.
Qed.

(** ** Statements *)

Lemma uncommitted_ret {A} (a : A) : uncommitted (mret a).
Proof. done. Qed.
Lemma uncommitted_raise {A} e : uncommitted (raise (A := A) e).
Proof. done. Qed.
Lemma uncommitted_lift {A} (r : Res A) : uncommitted (lift r).
Proof. done. Qed.
Lemma uncommitted_read {A} (g : World → A) : uncommitted (read g).
Proof. done. Qed.
Lemma uncommitted_scalar {A} (l : list A) : uncommitted (scalar_one_or_none l).
Proof. by destruct l as [|? []]. Qed.

Lemma unrefusing_ret {A} (a : A) : unrefusing (mret a).
Proof. done. Qed.
Lemma unrefusing_raise {A} e : refusal e = false → unrefusing (raise (A := A) e).
Proof. by intros He w e' [= <-]. Qed.
Lemma unrefusing_read {A} (g : World → A) : unrefusing (read g).
Proof. done. Qed.
Lemma unrefusing_scalar {A} (l : list A) : unrefusing (scalar_one_or_none l).
Proof. destruct l as [|? []]; [done..|]. by intros w e [= <-]. Qed.
Lemma unrefusing_fault_point e : refusal e = false → unrefusing (fault_point e).
Proof. intros He w e'. unfold fault_point. destruct (w_faults w) as [|[] ?]; simpl; congruence. Qed.
Lemma unrefusing_modify_redis f : unrefusing (modify_redis f).
Proof. done. Qed.
Lemma unrefusing_commit : unrefusing commit.
Proof. apply unrefusing_bind; [by apply unrefusing_fault_point|done]. Qed.

Lemma uncommitted_insert_run j tt st att s : uncommitted (insert_run j tt st att s).
Proof. intros w. unfold insert_run. by case_decide. Qed.
Lemma unrefusing_insert_run j tt st att s : unrefusing (insert_run j tt st att s).
Proof. intros w e. unfold insert_run. case_decide; [done|]. by intros [= <-]. Qed.
Lemma uncommitted_insert_job mk : uncommitted (insert_job mk).
Proof. intros w. unfold insert_job. destruct (stored_job _ _); [by case_decide|done]. Qed.
Lemma uncommitted_update_job_row i f : uncommitted (update_job_row i f).
Proof.
  intros w. unfold update_job_row. destruct (_ !! i); [|done]. case_decide; [done|].
  by destruct (stored_job _ _).
Qed.
Lemma uncommitted_insert_dep j p : uncommitted (insert_dep j p).
Proof. intros w. unfold insert_dep. by case_decide. Qed.
Lemma uncommitted_insert_user mk : uncommitted (insert_user mk).
Proof. intros w. unfold insert_user. by case_decide. Qed.
Lemma uncommitted_modify_db (m : M unit) : (∀ w, ∃ d, m w = (Ok tt, with_db d w)) → uncommitted m.
Proof. intros Hm w. destruct (Hm w) as [d ->]. done. Qed.

Lemma uncommitted_bind_text s : uncommitted (bind_text s).
Proof. intros w. by destruct (gate_text s w) as [-> | ->]. Qed.
Lemma uncommitted_bind_offset n : uncommitted (bind_offset n).
Proof. intros w. by destruct (gate_offset n w) as [-> | ->]. Qed.
Lemma uncommitted_bind_id {A} (table : Db → gmap Z A) i : uncommitted (bind_id table i).
Proof. intros w. by destruct (gate_id table i w) as [-> | ->]. Qed.
Lemma uncommitted_bind_filter f : uncommitted (bind_filter f).
Proof. destruct f; [apply uncommitted_bind_text|done]. Qed.

Lemma uncommitted_for_each {A} (l : list A) f : (∀ x, uncommitted (f x)) → uncommitted (for_each l f).
Proof. intros Hf. induction l as [|x l IH]; [done|]. by apply uncommitted_bind. Qed.
Lemma uncommitted_map_each {A B} (f : A → M B) l : (∀ x, uncommitted (f x)) → uncommitted (map_each f l).
Proof.
  intros Hf. induction l as [|x l IH]; [done|]. simpl. apply uncommitted_bind; [done|]. intros y.
  by apply uncommitted_bind.
Qed.

End early.

#[export] Hint Resolve uncommitted_ret uncommitted_raise uncommitted_lift uncommitted_read uncommitted_scalar
  uncommitted_insert_run uncommitted_insert_job uncommitted_insert_dep uncommitted_insert_user
  uncommitted_update_job_row uncommitted_bind_text uncommitted_bind_offset uncommitted_bind_id
  uncommitted_bind_filter
  unrefusing_ret unrefusing_raise unrefusing_read unrefusing_scalar unrefusing_fault_point
  unrefusing_modify_redis unrefusing_commit unrefusing_insert_run early_crud_errors : early.

(** Walks through an action; a sequence is early because its head writes nothing, or
    because what follows does not refuse. *)
Ltac early_step :=
  first
    [ solve [eauto 3 with early]
    | lazymatch goal with
      | |- uncommitted (@mbind _ _ _ _ _ _) => apply uncommitted_bind; [|intros ?]
      | |- uncommitted (for_each _ _) => apply uncommitted_for_each; intros ?
      | |- uncommitted (map_each _ _) => apply uncommitted_map_each; intros ?
      | |- unrefusing (@mbind _ _ _ _ _ _) => apply unrefusing_bind; [|intros ?]
      | |- early (crud_errors _ _) => apply early_crud_errors
      | |- early (@mbind _ _ _ _ _ _) =>
          first [ apply early_bind; [solve [repeat early_step]|intros ?]
                | apply early_bind_end; [|intros ?; solve [repeat early_step]] ]
      end
    | case_match
    | apply uncommitted_early; solve [repeat early_step]
    | apply unrefusing_early; solve [repeat early_step] ].
Ltac early := repeat early_step.

Section endpoints.
Context `{RedisServer, Postgres, Settings, Croniter, ValidationText, Digests, ExcText, !Probes, Fastapi}.

(** ** Parts of endpoints *)

Lemma dependency_ids_uncommitted i : uncommitted (dependency_ids i).
Proof. unfold dependency_ids, select_deps. early. Qed.
Lemma job_to_dict_uncommitted j : uncommitted (job_to_dict j).
Proof. unfold job_to_dict, dependency_ids, select_deps. early. Qed.
Lemma job_to_dict_unrefusing j : unrefusing (job_to_dict j).
Proof. unfold job_to_dict, dependency_ids, select_deps. early. Qed.
Lemma refresh_job_unrefusing i : unrefusing (refresh_job i).
Proof. unfold refresh_job, get_job_row. early. Qed.
Lemma refresh_run_unrefusing i : unrefusing (refresh_run i).
Proof. unfold refresh_run, get_run_row. early. Qed.
#[local] Hint Resolve dependency_ids_uncommitted job_to_dict_uncommitted job_to_dict_unrefusing
  refresh_job_unrefusing refresh_run_unrefusing : early.

Lemma validate_dependencies_uncommitted job o ds : uncommitted (validate_dependencies job o ds).
Proof. unfold validate_dependencies, select_jobs. early. Qed.
Lemma set_dependencies_uncommitted job ds : uncommitted (set_dependencies job ds).
Proof. unfold set_dependencies. early. by apply uncommitted_modify_db; eexists. Qed.
Lemma delete_job_row_uncommitted i : uncommitted (delete_job_row i).
Proof. by apply uncommitted_modify_db; eexists. Qed.
#[local] Hint Resolve validate_dependencies_uncommitted set_dependencies_uncommitted
  delete_job_row_uncommitted : early.

Lemma owned_job_uncommitted i u : uncommitted (owned_job i u).
Proof. unfold owned_job, get_job, select_jobs. early. Qed.
Lemma owned_run_uncommitted i u : uncommitted (owned_run i u).
Proof. unfold owned_run, get_owned_run, select_owned_runs. early. Qed.
Lemma active_run_uncommitted k : uncommitted (active_run k).
Proof. unfold active_run, select_runs. early. Qed.
Lemma latest_run_uncommitted k : uncommitted (latest_run k).
Proof. unfold latest_run, select_runs. early. Qed.
#[local] Hint Resolve owned_job_uncommitted owned_run_uncommitted active_run_uncommitted
  latest_run_uncommitted : early.

Lemma create_job_early p o : early (create_job p o).
Proof. unfold create_job, select_jobs, utcnow. early. Qed.
Lemma update_job_early j u : early (update_job j u).
Proof. unfold update_job. early. Qed.
Lemma delete_job_early j : early (delete_job j).
Proof. unfold delete_job. early. Qed.
#[local] Hint Resolve create_job_early update_job_early delete_job_early : early.

Lemma prepare_trigger_run_uncommitted fuel i tt q stack :
  uncommitted (prepare_trigger_run fuel i tt q stack).
Proof.
  revert i tt q stack. induction fuel as [|fuel IH]; intros i tt q stack; simpl; [early|].
  assert (∀ ids q', uncommitted (prepare_dependencies
    (λ k q, prepare_trigger_run fuel k DEPENDENCY q (stack ++ [i])) ids q')) as Hdeps.
  { induction ids as [|k ids IHids]; intros q'; simpl; early; apply IH || apply IHids. }
  unfold create_run. early; apply Hdeps.
Qed.
#[local] Hint Resolve prepare_trigger_run_uncommitted : early.

Lemma retry_body_early i u : early (retry_body i u).
Proof. unfold retry_body, create_run. early. Qed.
Lemma trigger_session_early i u :
  early (o ← trigger_body i u; r ← refresh_run (run_id o.1); mret (r, o.2)).
Proof. unfold trigger_body. early. Qed.
Lemma register_early p salt :
  early (bind_text (uc_username p);; bind_text (default "" (uc_email p));;
         existing ← (rows ← select_users (λ u, username u = uc_username p ∨
                                               uc_email p ≠ None ∧ email u = uc_email p);
                     scalar_one_or_none rows);
         match existing with
         | Some _ => raise (HTTPException 409 "username or email already exists")
         | None =>
             now ← utcnow;
             u ← insert_user (new_user p (hash_password (uc_password p) salt) now);
             commit;;
             u ← refresh_user (user_id u);
             token_for_user u
         end).
Proof.
  unfold select_users, utcnow, refresh_user, get_user_row, token_for_user, create_access_token, utcnow. early.
Qed.

(** ** Transactions *)

(** The tables are those of before (sequences may have moved), nothing was sent. *)
Definition undone (w w' : World) : Prop :=
  clean w' ∧ same_tables (w_db w) (w_db w') ∧ w_redis w' = w_redis w.

Lemma undone_refl w : clean w → undone w w.
Proof. by repeat split. Qed.

Lemma undone_rollback w w1 : clean w → unwritten w w1 → undone w (rollback w1).2.
Proof. intros Hc [Hs Hr]. unfold rollback, undone, clean in *. simpl. rewrite Hs, <- Hc. by repeat split. Qed.

Definition refuses {A} (m : M A) : Prop := ∀ w c msg w',
  clean w → m w = (Raise (HTTPException c msg), w') → undone w w'.

Lemma refuses_in_session {A} (m : M A) : early m → refuses (in_session m).
Proof.
  intros Hm w c msg w' Hc. specialize (Hm w). unfold in_session, try_except.
  destruct (m w) as [[a|e] w1]; [done|]. intros [= -> <-].
  apply undone_rollback; [done|]. by eapply Hm.
Qed.

Lemma refuses_scope {A} (m : M A) : early m → refuses (session_scope m).
Proof.
  intros Hm. assert (early (a ← m; commit;; mret a)) as He by (apply early_bind_end; [done|intros a; early]).
  intros w c msg w' Hc E. by apply (refuses_in_session _ He w c msg w' Hc).
Qed.

(** ** Programs *)

Definition prefuses (w : World) {A} (p : prog A) : Prop := ∀ c msg w',
  run p w = (Raise (HTTPException c msg), w') → undone w w'.
Definition punrefusing {A} (p : prog A) : Prop := ∀ w e, (run p w).1 = Raise e → refusal e = false.

Lemma prefuses_call w {A} (m : M A) : clean w → refuses m → prefuses w (call m).
Proof. intros Hc Hm c msg w'. rewrite run_call. by apply Hm. Qed.

Lemma prefuses_bind w {A B} (p : prog A) (f : A → prog B) :
  prefuses w p → (∀ a, punrefusing (f a)) → prefuses w (p ≫= f).
Proof.
  intros Hp Hf c msg w'. rewrite run_bind. unfold mbind, M_bind.
  destruct (run p w) as [[a|e] w1] eqn:E; [|intros [= -> <-]; by eapply Hp].
  intros E'. exfalso. assert ((run (f a) w1).1 = Raise (HTTPException c msg)) as Hr by by rewrite E'.
  by apply Hf in Hr.
Qed.

Lemma punrefusing_ret {A} (a : A) : punrefusing (Ret a).
Proof. done. Qed.
Lemma punrefusing_throw {A} e : refusal e = false → punrefusing (Throw (A := A) e).
Proof. by intros He w e' [= <-]. Qed.
Lemma punrefusing_call {A} (m : M A) : unrefusing m → punrefusing (call m).
Proof. intros Hm w e. rewrite run_call. apply Hm. Qed.
Lemma punrefusing_bind {A B} (p : prog A) (f : A → prog B) :
  punrefusing p → (∀ a, punrefusing (f a)) → punrefusing (p ≫= f).
Proof.
  intros Hp Hf w e. rewrite run_bind. specialize (Hp w). unfold mbind, M_bind.
  destruct (run p w) as [[a|e'] w']; [apply Hf|]. intros [= <-]. by apply Hp.
Qed.

Lemma publish_unrefusing r : punrefusing (publish r).
Proof.
  unfold publish, enqueue_run, update_queue_gauges.
  repeat (apply punrefusing_bind; [|intros ?]); try apply punrefusing_ret;
    apply punrefusing_call; unfold xadd_cmd, xlen_cmd, zcard_cmd; early.
Qed.

Lemma publish_all_unrefusing l : punrefusing (pfor_each l publish).
Proof.
  induction l as [|r l IH]; [done|]. apply punrefusing_bind; [apply publish_unrefusing|done].
Qed.

Lemma in_session_commit_unrefusing : unrefusing (in_session commit).
Proof.
  intros w e. pose proof (unrefusing_commit w) as Hc. unfold in_session, try_except.
  destruct (commit w) as [[a|e'] w']; [done|]. intros [= <-]. by apply Hc.
Qed.

Lemma render_unrefusing {A} st (o : option A) f : punrefusing (render st o f).
Proof. by destruct o; [|apply punrefusing_throw]. Qed.

(** ** Requests on runs *)

Lemma trigger_refuses w i u : clean w → prefuses w (trigger_job i u).
Proof.
  intros Hc. apply prefuses_bind.
  - apply prefuses_call, refuses_in_session, trigger_session_early. done.
  - intros o. apply punrefusing_bind; [apply publish_all_unrefusing|intros []].
    apply punrefusing_bind; [apply punrefusing_call, in_session_commit_unrefusing|done].
Qed.

Lemma retry_refuses w i u : clean w → prefuses w (api_retry_run i u).
Proof.
  intros Hc. apply prefuses_bind.
  - apply prefuses_call, refuses_in_session, retry_body_early. done.
  - intros r. apply punrefusing_bind; [apply publish_unrefusing|intros []].
    apply punrefusing_bind; [apply punrefusing_call, in_session_commit_unrefusing|done].
Qed.

Lemma cancelable_run_reads i u w : (cancelable_run i u w).2 = w.
Proof.
  unfold cancelable_run, owned_run, get_owned_run, select_owned_runs, scalar_one_or_none, mbind, M_bind.
  destruct (gate_id runs i w) as [-> | ->]; [|done]. unfold read. destruct (filter _ _) as [|r []]; simpl; [done| |done]. by case_decide.
Qed.

(** A canceled run still belongs to its user. *)
Lemma cancel_then_visible i u w ok w1 :
  db_wf (w_db w) → clean w → cancel_run i w = (Ok ok, w1) →
  if (ok : bool) then db_wf (w_db w1) ∧ ∀ r, visible (w_db w) u i r → ∃ r', visible (w_db w1) u i r'
  else undone w w1.
Proof.
  intros W Hc (w2 & E & Hd & Hs & Hr & _)%session_scope_inv. rewrite (cancel_body i w W) in E.
  destruct (runs (w_db w) !! i) as [r|] eqn:Hi; [case_decide as Hst|]; injection E as <- <-; simpl in *.
  2,3: split; [by unfold clean; congruence|]; split; [rewrite Hd; by repeat split|done].
  rewrite Hd. split.
  - by apply (db_wf_put_run _ _ r).
  - intros r0 [Hr0 Ho]. rewrite Hi in Hr0. injection Hr0 as <-.
    eexists. split; [apply lookup_insert_eq|exact Ho].
Qed.

Lemma publish_cancel_db i w o w1 : run (publish_cancel i) w = (o, w1) → w_db w1 = w_db w.
Proof.
  unfold publish_cancel. rewrite run_call. unfold publish_cmd, mbind, M_bind, fault_point.
  destruct (w_faults w) as [|[] fs]; by intros [= _ <-].
Qed.

Lemma cancel_refuses w i u : clean w → db_wf (w_db w) → prefuses w (api_cancel_run i u).
Proof.
  intros Hc W c msg w'. unfold api_cancel_run. rewrite run_bind.
  pose proof (cancelable_run_reads i u w) as Hw. unfold mbind at 1, M_bind at 1.
  rewrite run_call, in_session_reads by done.
  destruct (cancelable_run i u w) as [[r|e] w0] eqn:E; simpl in Hw; subst w0;
    [|intros [= -> <-]; by apply undone_refl].
  assert (∃ r, visible (w_db w) u i r) as [r0 Hv].
  { unfold cancelable_run in E. apply bind_ok_inv in E as (r1 & w1 & E1 & _).
    rewrite owned_run_eq in E1 by done. destruct (runs (w_db w) !! i) as [r2|] eqn:Hi; [|done].
    case_decide as Ho; [|done]. by exists r2. }
  rewrite run_bind. unfold mbind at 1, M_bind at 1. rewrite run_call.
  destruct (cancel_run i w) as [[ok|e] w1] eqn:E1; [|intros [= -> <-]].
  2: { refine (refuses_scope _ _ w c msg w1 Hc E1). unfold utcnow. early. by intros ?. }
  pose proof (cancel_then_visible i u w ok w1 W Hc E1) as Hok.
  destruct ok; [|intros [= <- <- <-]; exact Hok]. destruct Hok as [W1 Hv1].
  destruct (Hv1 r0 Hv) as [r1 Hr1]. rewrite run_bind. unfold mbind at 1, M_bind at 1.
  destruct (run (publish_cancel i) w1) as [[[]|e] w2] eqn:E2.
  2: { intros [= -> <-]. exfalso. assert (punrefusing (publish_cancel i)) as Hp
         by (apply punrefusing_call; unfold publish_cmd; early).
       by specialize (Hp w1 _ (f_equal fst E2)). }
  pose proof (publish_cancel_db _ _ _ _ E2) as Hd.
  rewrite run_bind. unfold mbind at 1, M_bind at 1. rewrite run_call.
  unfold in_session at 1, try_except at 1. rewrite (owned_run_ok i u w2 r1) by (by rewrite Hd).
  intros E3. exfalso. revert E3. rewrite run_bind. unfold mbind, M_bind. rewrite run_call.
  pose proof (in_session_commit_unrefusing w2) as Hp.
  destruct (in_session commit w2) as [[[]|e] w3]; [done|]. intros [= -> _]. by specialize (Hp _ eq_refl).
Qed.

(** ** Every endpoint *)

(** An endpoint that is one transaction with an early body. *)
Lemma prefuses_scope w {A B} (m : M A) (f : A → prog B) :
  clean w → early m → (∀ a, punrefusing (f a)) → prefuses w (call (session_scope m) ≫= f).
Proof. intros Hc Hm Hf. apply prefuses_bind; [by apply prefuses_call, refuses_scope|done]. Qed.

Lemma prefuses_ret w {A} (a : A) : prefuses w (Ret a).
Proof. done. Qed.

Lemma login_early name password :
  early (bind_text name;;
         user ← (rows ← select_users (λ u, username u = name ∨ email u = Some name);
                 scalar_one_or_none rows);
         match user with
         | None => unauthorized "invalid username or password"
         | Some u =>
             if is_active u then
               ok ← lift (verify_password password (password_hash u));
               if (ok : bool) then token_for_user u else unauthorized "invalid username or password"
             else unauthorized "invalid username or password"
         end).
Proof.
  unfold select_users, unauthorized, token_for_user, create_access_token, utcnow. early.
Qed.

#[local] Hint Resolve render_unrefusing punrefusing_ret prefuses_ret trigger_refuses retry_refuses
  cancel_refuses register_early login_early : early.

(** What every way into an endpoint satisfies. *)
Definition handler_all (P : prog (Z * Answer) → Prop) (h : Handler) : Prop :=
  match h with
  | Public (Some p) => P p
  | Protected (Some f) => ∀ u, P (f u)
  | _ => True
  end.

Lemma public_bind {A} P (o : option A) f :
  (∀ a, handler_all P (Public (f a))) → handler_all P (Public (o ≫= f)).
Proof. intros Hf. destruct o as [x|]; [exact (Hf x)|done]. Qed.
Lemma public_if P (b : bool) p : P p → handler_all P (Public (if b then Some p else None)).
Proof. by destruct b. Qed.
Lemma protected_bind {A} P (o : option A) f :
  (∀ a, handler_all P (Protected (f a))) → handler_all P (Protected (o ≫= f)).
Proof. intros Hf. destruct o as [x|]; [exact (Hf x)|done]. Qed.
Lemma protected_if P (b : bool) f : (∀ u, P (f u)) → handler_all P (Protected (if b then Some f else None)).
Proof. by destruct b. Qed.
Lemma protected_some P f : (∀ u, P (f u)) → handler_all P (Protected (Some f)).
Proof. done. Qed.

(** Brings the goal to the program of the endpoint. *)
Ltac endpoint :=
  cbn [handler];
  repeat first [ apply public_bind; intros ? | apply protected_bind; intros ?
               | apply public_if | apply protected_if; intros ? | apply protected_some; intros ? ].

Lemma draft_refuses w f : clean w → refuses (lift (create_job_draft_from_file f.1 f.2)).
Proof. intros _ w0 c msg w' Hc [= _ <-]. by apply undone_refl. Qed.

Lemma handler_refuses salt e st ps rq w :
  clean w → db_wf (w_db w) → e ≠ ep_readyz → handler_all (prefuses w) (handler salt e st ps rq).
Proof.
  intros Hc W He. destruct e; try done; endpoint; try done; apply prefuses_bind.
  all: try (intros ?; unfold render_run; try case_match; solve [eauto with early]).
  all: try solve [eauto with early].
  all: apply prefuses_call; [done|].
  all: try by apply draft_refuses with w.
  all: apply refuses_scope.
  all: unfold api_create_job, list_jobs, select_jobs, recent_out, get_latest_job_run, select_run_logs,
    select_runs, select_logs, select_owned_runs.
  all: try solve [eauto with early].
  all: early.
Qed.

(** An endpoint that returns answers with its declared status. *)
Lemma handler_status salt e st ps rq :
  e ≠ ep_readyz → handler_all (returns (λ o, o.1 = st)) (handler salt e st ps rq).
Proof.
  intros He. destruct e; try done; endpoint; try done; apply returns_bind; intros ?;
    unfold render_run, render; by repeat case_match.
Qed.

Lemma first_match_elem rs m p rt ps : first_match rs m p = Some (rt, ps) → rt ∈ rs.
Proof.
  induction rs as [|r rs IH]; simpl; [done|]. destruct (String.eqb _ m); [|intros ?; right; auto].
  destruct (path_params _ _); [intros [= <- _]; left|intros ?; right; auto].
Qed.

Lemma routes_status rt : rt ∈ routes → rt_status rt < 400.
Proof.
  intros Hin. refine (proj1 (Forall_forall (λ rt, rt_status rt < 400) routes) _ rt Hin).
  apply (bool_decide_unpack _). by vm_compute.
Qed.

(** [readyz] refuses nobody, as long as closing the client raises no [HTTPException]. *)
Lemma check_unrefusing probe : unrefusing (check probe).
Proof.
  intros w e. unfold check. destruct (probe w) as [[a|e'] w']; [done|].
  destruct (is_exception e') eqn:He; simpl; [done|]. intros [= <-]. by destruct e'.
Qed.

Lemma readyz_answers w c v w' : run (o ← call readyz; Ret (o.1, a_json o.2)) w = (Ok (c, v), w') → c = 200 ∨ c = 503.
Proof.
  rewrite run_bind. unfold mbind at 1, M_bind at 1. rewrite run_call. unfold readyz, mbind, M_bind.
  destruct (check select_1 w) as [[[b t]|e] w1]; [|done].
  destruct (and_close (check redis_ping) w1) as [[[b' t']|e] w2]; [|done].
  intros [= <- _ _]. destruct (b && b'); auto.
Qed.

Lemma readyz_unrefusing :
  unrefusing redis_close → punrefusing (o ← call readyz; Ret (o.1, a_json o.2)).
Proof.
  intros Hclose. apply punrefusing_bind; [apply punrefusing_call|done]. unfold readyz.
  apply unrefusing_bind; [apply check_unrefusing|intros [b t]].
  apply unrefusing_bind; [|by intros [b' t']]. intros w e. unfold and_close.
  pose proof (check_unrefusing redis_ping w) as Hp. destruct (check redis_ping w) as [o w1].
  specialize (Hclose w1). unfold mbind, M_bind. destruct (redis_close w1) as [[[]|e'] w2];
    [apply Hp|]. intros [= <-]. by apply Hclose.
Qed.

Lemma endpoint_outcome salt rt ps rq w :
  unrefusing redis_close → clean w → db_wf (w_db w) → rt ∈ routes →
  handler_all (λ p, prefuses w p ∧ ∀ c a w', run p w = (Ok (c, a), w') → c < 400 ∨ c = 503)
    (handler salt (rt_endpoint rt) (rt_status rt) ps rq).
Proof.
  intros Hclose Hc W Hin. apply routes_status in Hin. destruct (decide (rt_endpoint rt = ep_readyz)) as [->|He].
  - split; [|intros c a w' Hrun; destruct (readyz_answers _ _ _ _ Hrun); lia].
    intros c msg w' E. by pose proof (readyz_unrefusing Hclose w _ (f_equal fst E)).
  - pose proof (handler_refuses salt _ (rt_status rt) ps rq w Hc W He) as Hr.
    pose proof (handler_status salt _ (rt_status rt) ps rq He) as Hs.
    destruct (handler _ _ _ _ _) as [[p|]|[f|]]; try done.
    + split; [done|]. intros c a w' E. pose proof (returns_run _ _ _ _ _ Hs E) as Hst. simpl in Hst. lia.
    + intros u. split; [apply Hr|]. intros c a w' E.
      pose proof (returns_run _ _ _ _ _ (Hs u) E) as Hst. simpl in Hst. lia.
Qed.

Lemma http_errors_undone p w c a w' :
  (prefuses w p ∧ ∀ c a w', run p w = (Ok (c, a), w') → c < 400 ∨ c = 503) →
  run (http_errors p) w = (Ok (c, a), w') → 400 ≤ c < 500 → undone w w'.
Proof.
  intros [Hr Hs] E Hcode. unfold http_errors in E. rewrite run_try in E. unfold try_except in E.
  destruct (run p w) as [[[c0 a0]|e] w1] eqn:E1.
  - injection E as <- <- <-. destruct (Hs _ _ _ eq_refl); lia.
  - destruct e; try done. injection E as _ _ <-. by eapply Hr.
Qed.

Lemma throw_outcome w : clean w →
  prefuses w (Throw (A := Z * Answer) validation_error) ∧
  ∀ c a w', run (Throw (A := Z * Answer) validation_error) w = (Ok (c, a), w') → c < 400 ∨ c = 503.
Proof. intros Hc. split; [|done]. intros c msg w' [= _ _ <-]. by apply undone_refl. Qed.

(** C26: A refused request leaves no trace.  Whatever is asked of whichever endpoint, by
    whomever, and whichever commits and Redis commands fail: if the answer has a
    status of the 400s, then the tables are what they were, no message was sent or
    moved and no transaction is left open, although an endpoint may have inserted
    rows before it found the request to be impossible. *)
Theorem refused_without_trace (salt : string) (rq : Request) (w w' : World) (c : Z) (a : Answer) :
  unrefusing redis_close → clean w → db_wf (w_db w) →
  run (serve salt rq) w = (Ok (c, a), w') → 400 ≤ c < 500 → undone w w'.
Proof.
  intros Hclose Hc W E Hcode. unfold serve in E.
  destruct (find_route routes (rq_method rq) (rq_path rq)) as [[rt ps]|] eqn:Hr;
    [|injection E as _ _ <-; by apply undone_refl].
  rewrite find_route_first in Hr. apply first_match_elem in Hr.
  pose proof (endpoint_outcome salt rt ps rq w Hclose Hc W Hr) as Hend.
  pose proof (throw_outcome w Hc) as Hthrow.
  destruct (handler _ _ _ _ _) as [[p|]|o];
    [exact (http_errors_undone _ _ _ _ _ Hend E Hcode)|exact (http_errors_undone _ _ _ _ _ Hthrow E Hcode)|].
  unfold call_endpoint in E. destruct (refused_early rq && bool_decide (o = None)); [exact (http_errors_undone _ _ _ _ _ Hthrow E Hcode)|].
  unfold http_errors in E. rewrite run_try in E. unfold try_except in E. rewrite run_bind in E.
  unfold mbind, M_bind in E. rewrite run_call in E.
  destruct (get_current_user_eq (rq_credentials rq) w) as [Hw _].
  rewrite in_session_reads in E by done.
  destruct (get_current_user (rq_credentials rq) w) as [[u|e] w1]; simpl in Hw; subst w1.
  - destruct o as [f|]; [refine (http_errors_undone (f u) _ _ _ _ (Hend u) _ Hcode)
      |refine (http_errors_undone (Throw validation_error) _ _ _ _ Hthrow _ Hcode)];
      unfold http_errors; by rewrite run_try.
  - destruct e; try done. injection E as _ _ <-. by apply undone_refl.
Qed.

End endpoints.

(** ** Evaluation *)

#[local] Existing Instances plain_exc_text plain_validation_text plain_digests plain_fastapi quiet_probes.

(** Ann asks to retry a run that has not ended. *)
Definition retry_request : Request :=
  {| rq_method := "POST"; rq_path := "/api/v1/runs/2/retry"; rq_query := [];
     rq_credentials := ann_credentials; rq_body := "" |}.

Lemma retry_request_status :
  match (run (serve "salt" retry_request) world_store).1 with Ok (c, _) => c | Raise _ => 0 end = 409.
Proof. vm_compute. reflexivity. Qed.

Lemma quiet_close : unrefusing redis_close.
Proof. apply (unrefusing_ret tt). Qed.

Lemma refused_without_trace_witness :
  ∃ a w', run (serve "salt" retry_request) world_store = (Ok (409, a), w') ∧ undone world_store w'.
Proof.
  pose proof retry_request_status as Hs.
  destruct (run (serve "salt" retry_request) world_store) as [[[c a]|e] w'] eqn:E; [|discriminate Hs].
  simpl in Hs. subst c. exists a, w'. split; [reflexivity|].
  apply (refused_without_trace "salt" retry_request world_store w' 409 a quiet_close
    clean_store wf_store E).
  split; [discriminate|reflexivity].
Defined.
