(* ===== verification/EndToEnd.v ===== *)
(** * From a request to its result

    The life of a run through all components: the HTTP request that triggers a job,
    the message on the stream, the worker's loop that takes it, the task that executes
    it, and the HTTP request that shows its outcome. *)

From S2P Require Import Prelude PyBase PyCodec PyText Models RedisServer Effects Database RedisQueue Cron.
From S2P Require Import Retry Demo Store Executor Careful Runner Monitoring WorkerMain Schemas Crud Responses.
From S2P Require Import JobsApi RunsApi Auth System Application.

Local Open Scope string_scope.
Local Open Scope Z_scope.
Local Open Scope list_scope.

(** ** The worker leaves the jobs alone *)

Definition same_jobs (d d' : Db) : Prop := jobs d' = jobs d.

#[global] Instance same_jobs_dbrel : DbRel same_jobs.
Proof.
  split; [|done]. split; [done|]. intros d1 d2 d3 E1 E2. unfold same_jobs in *. congruence.
Qed.

Section jobs.
Context `{RedisServer, Postgres, Settings, Croniter, !Executors, ExcText, ValidationText}.

(** A statement that writes another table. *)
Lemma steps_jobs {A} (m : M A) :
  (∀ w, w_saved (m w).2 = w_saved w ∧ jobs (w_db (m w).2) = jobs (w_db w)) → respects same_jobs m.
Proof. intros Hm. apply steps_respects; [apply _|exact Hm]. Qed.

Lemma insert_run_jobs j tt st att s : respects same_jobs (insert_run j tt st att s).
Proof. apply steps_jobs. intros w. unfold insert_run. by case_decide. Qed.
Lemma insert_log_jobs r s l : respects same_jobs (insert_log r s l).
Proof. apply steps_jobs. intros w. unfold insert_log. destruct (negb _); [done|by case_decide]. Qed.
Lemma bind_id_jobs {A} (table : Db → gmap Z A) i : respects same_jobs (bind_id table i).
Proof. apply steps_jobs. intros w. by rewrite bind_id_eq. Qed.
Lemma bind_outcome_jobs v e : respects same_jobs (bind_outcome v e).
Proof. apply steps_jobs. intros w. unfold bind_outcome. by destruct (outcome_ok v e). Qed.
Lemma update_runs_jobs (P : JobRun → Prop) `{∀ r, Decision (P r)} f : respects same_jobs (update_runs P f).
Proof. by apply steps_jobs. Qed.
Lemma set_run_status_jobs i st : respects same_jobs (set_run_status i st).
Proof. by apply steps_jobs. Qed.
Lemma set_buf_jobs b l : respects same_jobs (set_buf b l).
Proof. by apply steps_jobs. Qed.
Lemma new_buf_jobs : respects same_jobs new_buf.
Proof. by apply steps_jobs. Qed.
Lemma update_mem_jobs worker f : respects same_jobs (update_mem worker f).
Proof. by apply steps_jobs. Qed.
Lemma scalar_jobs {A} (l : list A) : respects same_jobs (scalar_one_or_none l).
Proof. apply steps_jobs. by destruct l as [|? []]. Qed.
#[local] Hint Resolve insert_run_jobs insert_log_jobs update_runs_jobs set_run_status_jobs set_buf_jobs
  new_buf_jobs update_mem_jobs scalar_jobs bind_id_jobs bind_outcome_jobs : respect.

Lemma claim_run_jobs i worker b : respects same_jobs (claim_run i worker b).
Proof. unfold claim_run, utcnow, get_run_row, get_job_row. respect. Qed.
Lemma append_logs_jobs i es : respects same_jobs (append_logs i es).
Proof. unfold append_logs. respect. Qed.
Lemma is_run_canceled_jobs i : respects same_jobs (is_run_canceled i).
Proof. unfold is_run_canceled, select_runs. respect. Qed.
Lemma finish_run_jobs i st c v e : respects same_jobs (finish_run i st c v e).
Proof. unfold finish_run, utcnow. respect. Qed.
Lemma create_retry_run_jobs j att : respects same_jobs (create_retry_run j att).
Proof. unfold create_retry_run. respect. Qed.
Lemma has_dispatched_run_jobs j : respects same_jobs (has_dispatched_run j).
Proof. unfold has_dispatched_run, select_runs. respect. Qed.
Lemma pending_run_jobs j : respects same_jobs (pending_run j).
Proof. unfold pending_run, select_runs. respect. Qed.
#[local] Hint Resolve has_dispatched_run_jobs pending_run_jobs : respect.
Lemma create_dependency_run_jobs j : presp same_jobs (create_dependency_run j).
Proof. unfold create_dependency_run, promotion, insertion, promote_run, get_run_row. respect. Qed.
Lemma dependents_ready_jobs j : respects same_jobs (dependents_ready j).
Proof.
  unfold dependents_ready, select_deps. apply respects_session_scope; [apply _|].
  apply respects_bind; [apply _|respect|]. intros rows. apply steps_jobs. intros w. by rewrite ready_loop_read.
Qed.
#[local] Hint Resolve claim_run_jobs append_logs_jobs is_run_canceled_jobs finish_run_jobs
  create_retry_run_jobs create_dependency_run_jobs dependents_ready_jobs : respect.

Lemma flush_batch_jobs i l : presp same_jobs (flush_batch i l).
Proof. unfold flush_batch. respect. Qed.
#[local] Hint Resolve flush_batch_jobs : respect.
Lemma log_write_jobs b i s l : presp same_jobs (log_write b i s l).
Proof. unfold log_write, buf_push, buf_take. respect. Qed.
Lemma log_flush_jobs b i : presp same_jobs (log_flush b i).
Proof. unfold log_flush, buf_take. respect. Qed.
#[local] Hint Resolve log_write_jobs log_flush_jobs : respect.

Lemma execute_task_jobs c b i : presp same_jobs (execute_task c b i).
Proof.
  unfold execute_task. apply presp_try; [|intros e; respect].
  destruct (get_executor (c_task_type c)) as [x|] eqn:Hx; [|done].
  apply (executors_through_log x); [by eapply get_executor_elem|apply log_write_jobs|].
  intros B m Hm. apply steps_jobs. intros w. by destruct (Hm w) as (t & -> & _).
Qed.
#[local] Hint Resolve execute_task_jobs : respect.

Lemma process_run_jobs i b worker : presp same_jobs (process_run i b worker).
Proof.
  unfold process_run, on_success, on_failure, start_dependent, enqueue_run_async, utcnow,
    schedule_delayed_async, update_queue_gauges_async, xadd_cmd, zadd_cmd, xlen_cmd, zcard_cmd. respect.
Qed.

Lemma task_jobs worker t m i b : presp same_jobs (task worker t m i b).
Proof.
  unfold task, handle, discard, register, unregister, xack_cmd, xdel_cmd.
  pose proof (process_run_jobs i b worker). respect.
Qed.

(** ** Triggering a job without dependencies *)

Definition triggered_run (i : Z) (w : World) : JobRun :=
  new_run (runs_seq (w_db w)) i MANUAL QUEUED 1 None (w_clock w).

Lemma trigger_leaf i user w :
  clean w → w_faults w = [] → db_wf (w_db w) → owned (w_db w) (Some (user_id user)) i → leaf (w_db w) i →
  let r := triggered_run i w in
  ∃ s', run (trigger_job i user) w = (Ok r, with_redis s' (committed (add_run (w_db w) r) w)) ∧
    appended (view (w_redis w)) [py_str (run_id r)] (view s').
Proof.
  intros Hc Hf W Ho Hl r. destruct (owned_job_ok i user w W Ho) as [j Ej].
  assert (is_Some (jobs (w_db w) !! i)) as Hi by (destruct Ho as (? & ? & _); eauto).
  destruct (dependency_ids_spec i w) as (ids & Ed & Hids).
  assert (ids = []) as ->.
  { destruct ids as [|k ids]; [done|]. destruct (proj1 (leaf_edge _ _) Hl k). apply Hids. set_solver. }
  assert (create_run i MANUAL None 1 QUEUED w = (Ok r, with_db (add_run (w_db w) r) w)) as Er.
  { unfold create_run, insert_run. by rewrite decide_True. }
  set (w1 := committed (add_run (w_db w) r) w).
  assert (prepare_trigger_run (trigger_fuel w) i MANUAL [] [] w =
    (Ok (r, [r]), with_db (add_run (w_db w) r) w)) as Ep.
  { unfold trigger_fuel. cbn [prepare_trigger_run]. rewrite decide_False by set_solver.
    rewrite (bind_ok _ _ _ _ _ Ed). by rewrite (bind_ok _ _ _ _ _ Er). }
  assert (trigger_body i user w = (Ok (r, [r]), w1)) as Et.
  { unfold trigger_body. rewrite (bind_ok _ _ _ _ _ Ej). erewrite bind_ok by done.
    rewrite (bind_ok _ _ _ _ _ Ep). unfold commit, mbind, M_bind, fault_point. simpl. by rewrite Hf. }
  destruct (run_publish_all [r] w1 Hf) as (s' & Epub & Happ & _). exists s'. split; [|exact Happ].
  unfold trigger_job. erewrite run_step.
  2: { unfold in_session, try_except. rewrite (bind_ok _ _ _ _ _ Et). unfold refresh_run, get_run_row,
         mbind, M_bind, read. simpl. by rewrite lookup_insert_eq. }
  cbn [snd fst]. rewrite (run_then _ _ _ _ _ Epub). cbn beta.
  by erewrite run_step by by apply in_session_commit.
Qed.

(** ** The queue at rest *)

(** Everything on the stream is delivered, and nothing is pending. *)
Definition queue_idle (v : RedisView) : Prop :=
  rv_pel v = [] ∧ Forall (λ e, e.1 ≤ rv_read v) (rv_entries v) ∧ rv_read v ≤ rv_top v.

Lemma idle_appended v m v' count :
  queue_idle v → appended v [m] v' → 0 < count →
  rv_pel v' = [] ∧ ∃ k, new_entries count v' = [(k, run_fields m)].
Proof.
  intros (Hp & He & Hr) [(ids & Hlen & Hent & _ & Hids) _ Hpel Hread _] Hcount.
  split; [by rewrite Hpel|]. destruct ids as [|k [|]]; try done. exists k.
  specialize (Hids k ltac:(set_solver)). unfold new_entries. rewrite Hent, Hread, filter_app.
  assert (filter (λ e, rv_read v < e.1) (rv_entries v) = []) as ->.
  { destruct (filter _ (rv_entries v)) as [|e l] eqn:E; [done|]. exfalso.
    assert (e ∈ filter (λ e, rv_read v < e.1) (rv_entries v)) as [Hlt Hin]%list_elem_of_filter
      by (rewrite E; set_solver).
    rewrite Forall_forall in He. specialize (He e Hin). lia. }
  cbn [zip_with fmap list_fmap app]. rewrite filter_cons_True, filter_nil by (simpl; lia).
  apply take_ge. simpl. lia.
Qed.

(** With nothing pending there is nothing to reclaim. *)
Lemma reclaim_nothing worker count w :
  w_faults w = [] → mem_ok (mem_of worker w) → rv_pel (view (w_redis w)) = [] →
  ∃ w', run (reclaim_stale worker count) w = (Ok tt, w') ∧
    new_entries count (view (w_redis w')) = new_entries count (view (w_redis w)).
Proof.
  intros Hf Hm Hp. destruct (run_reclaim worker count w Hf Hm) as (w' & E & Ha). exists w'. split; [done|].
  set (x := xautoclaim _ _ _ _ _) in *.
  assert (x.1 = []) as Hx.
  { destruct x.1 as [|e l] eqn:Hx; [done|].
    destruct (xautoclaim_sound worker (claim_min_idle_ms * 1000) count (w_clock w) (w_redis w) e) as (_ & p & Hpin & _).
    - fold x. rewrite Hx. set_solver.
    - rewrite Hp in Hpin. set_solver. }
  rewrite Hx in Ha. unfold new_entries. rewrite (ac_entries _ _ _ _ _ Ha), (ac_read _ _ _ _ _ Ha).
  destruct (xautoclaim_view worker (claim_min_idle_ms * 1000) count (w_clock w) (w_redis w)) as (gone & _ & Hv).
  simpl. fold x in Hv. rewrite Hv. simpl. f_equal. f_equal. apply list_filter_id. set_solver.
Qed.

End jobs.

(** ** Requests *)

Definition trigger_route : Route := route "POST" "/api/v1/jobs/{job_id}/trigger" ep_trigger_job 202.
Definition run_route : Route := route "GET" "/api/v1/runs/{run_id}" ep_get_run 200.

Lemma trigger_route_in : trigger_route ∈ routes.
Proof. apply (bool_decide_unpack _). vm_compute. exact I. Qed.
Lemma run_route_in : run_route ∈ routes.
Proof. apply (bool_decide_unpack _). vm_compute. exact I. Qed.

(** The request to the route [rt] for the number [i]. *)
Definition request_to (rt : Route) (i : Z) (credentials : option (string * string)) : Request :=
  {| rq_method := rt_method rt; rq_path := url rt i; rq_query := []; rq_credentials := credentials;
     rq_body := "" |}.

Section end_to_end.
Context `{RedisServer, Postgres, Settings, Croniter, !Executors, ExcText, ValidationText, Digests}.
Context `{!Probes, Fastapi}.

Lemma serve_as salt rt i c u f w :
  clean w → rt ∈ routes → (get_current_user c w).1 = Ok u →
  handler salt (rt_endpoint rt) (rt_status rt) (url_params rt i) (request_to rt i c) = Protected (Some f) →
  run (serve salt (request_to rt i c)) w = run (http_errors (f u)) w.
Proof.
  intros Hc Hin Hu Hh.
  rewrite (serve_protected salt (request_to rt i c) rt (url_params rt i) (Some f) w Hc (url_found rt i Hin) Hh).
  simpl rq_credentials. by rewrite Hu, bool_decide_false, andb_false_r by done.
Qed.

Lemma http_errors_ok p w o w' : run p w = (Ok o, w') → run (http_errors p) w = (Ok o, w').
Proof. intros E. unfold http_errors. rewrite run_try. unfold try_except. by rewrite E. Qed.

(** Triggering over HTTP: 202 and the queued run, which is in the table and on the
    stream. *)
Lemma trigger_request salt i c u w :
  clean w → w_faults w = [] → db_wf (w_db w) → (get_current_user c w).1 = Ok u →
  owned (w_db w) (Some (user_id u)) i → leaf (w_db w) i →
  let r := triggered_run i w in
  ∃ out s', run_out r = Some out ∧
    run (serve salt (request_to trigger_route i c)) w =
      (Ok (202, a_run out), with_redis s' (committed (add_run (w_db w) r) w)) ∧
    appended (view (w_redis w)) [py_str (run_id r)] (view s').
Proof.
  intros Hc Hf W Hu Ho Hl r. destruct (trigger_leaf i u w Hc Hf W Ho Hl) as (s' & E & Ha).
  fold r in E, Ha. destruct (run_out r) as [out|] eqn:Hout; [|done]. exists out, s'.
  split; [done|]. split; [|done].
  rewrite (serve_as salt trigger_route i c u (λ u, r ← trigger_job i u; render_run 202 r) w Hc trigger_route_in Hu).
  - apply http_errors_ok. rewrite (run_then _ _ _ _ _ E). unfold render_run, render. by rewrite Hout.
  - simpl. unfold path_int. change (url_params trigger_route i) with [("job_id", py_str i)]. simpl.
    by rewrite parse_int_str.
Qed.

(** Showing a run over HTTP. *)
Lemma show_request salt k c u r out w :
  clean w → w_faults w = [] → db_wf (w_db w) → (get_current_user c w).1 = Ok u →
  visible (w_db w) u k r → run_out r = Some out →
  (run (serve salt (request_to run_route k c)) w).1 = Ok (200, a_run out).
Proof.
  intros Hc Hf W Hu Hv Hout.
  rewrite (serve_as salt run_route k c u (λ u, r ← call (get_run k u); render_run 200 r) w Hc run_route_in Hu).
  - assert (get_run k u w = (Ok r, with_saved (w_db w) w)) as E
      by (apply session_scope_quiet; [by apply owned_run_ok|done]).
    rewrite (http_errors_ok _ w (200, a_run out) (with_saved (w_db w) w)); [done|].
    rewrite (run_step _ _ _ _ _ E). unfold render_run, render. by rewrite Hout.
  - simpl. unfold path_int. change (url_params run_route k) with [("run_id", py_str k)]. simpl.
    by rewrite parse_int_str.
Qed.

(** ** The worker *)

(** The worker's next round takes the one new message of an idle queue. *)
Lemma poll_takes worker m w v :
  clean w → w_faults w = [] → mem_ok (mem_of worker w) →
  Z.of_nat (size (inflight (mem_of worker w))) < worker_concurrency → 0 < worker_read_batch →
  queue_idle v → appended v [py_str m] (view (w_redis w)) →
  ∃ w' t k, run (poll_once worker) w = (Ok tt, w') ∧ w_db w' = w_db w ∧ w_faults w' = [] ∧ clean w' ∧
    inflight (mem_of worker w') !! t = Some {| t_message := k; t_run := m; t_reclaim := false |}.
Proof.
  intros Hc Hf Hm Hn Hb Hidle Ha.
  set (count := Z.min (worker_concurrency - Z.of_nat (size (inflight (mem_of worker w)))) worker_read_batch).
  assert (0 < count) as Hcount by (unfold count; lia).
  destruct (idle_appended v _ _ count Hidle Ha Hcount) as (Hp & k & Hk).
  destruct (proj2 (poll_once_dispatches worker w Hf Hm (Z.lt_le_incl _ _ Hb)) Hn)
    as (w1 & w' & E1 & E & Hd & Hf' & _ & _ & Hnew & _). fold count in E1, Hnew.
  destruct (reclaim_nothing worker count w Hf Hm Hp) as (w1' & E1' & Hent).
  rewrite E1 in E1'. injection E1' as <-.
  destruct (Hnew (k, run_fields (py_str m)) m) as [t Ht].
  - rewrite Hent, Hk. set_solver.
  - apply parse_run_fields.
  - exists w', t, k. split; [done|]. split; [done|]. split; [done|]. split; [|exact Ht].
    pose proof (run_tidy (poll_once worker) w (started_tidy _ (start_worker worker)) Hc) as Ht'.
    by rewrite E in Ht'.
Qed.

(** The task brings the run to an outcome and keeps its job. *)
Lemma task_ends worker t k m r j w :
  clean w → w_faults w = [] → db_wf (w_db w) → results_plain (w_db w) →
  runs (w_db w) !! m = Some r → jobs (w_db w) !! run_job_id r = Some j → status r = QUEUED →
  ∃ o w' r', run (task worker t k m false) w = (o, w') ∧ clean w' ∧ w_faults w' = [] ∧
    db_wf (w_db w') ∧ jobs (w_db w') = jobs (w_db w) ∧ runs (w_db w') !! m = Some r' ∧
    run_job_id r' = run_job_id r ∧ plain_result (result r') ∧ message_gone k (view (w_redis w')) ∧
    (o = Ok tt ∧ outcome_status (status r') ∨ o = Raise CancelledError ∧ status r' = RUNNING ∨
     o = Ok tt ∧ status r' = RUNNING ∧ ¬ plain_task (claimed_of r j)).
Proof.
  intros Hc Hf W Hp Hr Hjob Hs.
  destruct (handle_ends worker t k m false r j w Hc Hf W Hr Hjob) as (o & w1 & r' & E & Hf1 & Hr' & Hg & _ & Ho);
    [rewrite Hs; simpl; set_solver|].
  assert (run (task worker t k m false) w = (o, (discard worker t w1).2)) as Et
    by (apply (run_finally _ _ _ _ w1); [exact E|by rewrite run_call]).
  exists o, (discard worker t w1).2, r'.
  pose proof (run_tidy (task worker t k m false) w (started_tidy _ (start_task worker t k m false)) Hc) as Hc'.
  pose proof (run_careful _ (λ _, True) w (task_careful worker t k m false (λ _, True))
    (started_tidy _ (start_task worker t k m false)) Hc) as Hev.
  destruct (run_presp same_jobs _ w (task_jobs worker t k m false)) as [Hj _]; [by rewrite Hc|].
  rewrite Et in Hc', Hev, Hj. unfold clean in Hc'. rewrite <- Hc, <- Hc' in Hj. simpl in Hev, Hj.
  destruct (persists_gone _ _ _ _ W Hev Hr) as [Hn|(r2 & Hr2 & Hre)]; [simpl in Hr'; congruence|].
  rewrite Hr' in Hr2. injection Hr2 as <-.
  split; [done|]. split; [done|]. split; [done|]. split; [by apply (ps_wf _ _ Hev)|].
  split; [exact Hj|]. split; [done|]. split; [apply Hre|].
  split; [by apply (ps_results _ _ Hev W Hp m)|]. by split.
Qed.

(** C3: From the request to the result, when no call fails.  A user triggers a job of theirs that depends
    on nothing, while the queue is idle and a worker has a free slot: the answer is
    202 with a queued run; the worker's next round takes exactly this run off the
    stream; its task executes the run and leaves no message behind; and when the task
    has not been canceled, asking for the run answers 200 with this run as succeeded,
    failed or timed out, to whatever credentials identify the user by then; only if the
    output of the task cannot be stored, the run is shown as running. *)
Theorem triggered_run_is_shown (salt worker : string) (i : Z) (c : option (string * string))
    (u : User) (w : World) :
  clean w → w_faults w = [] → db_wf (w_db w) → results_plain (w_db w) →
  (get_current_user c w).1 = Ok u → owned (w_db w) (Some (user_id u)) i → leaf (w_db w) i →
  queue_idle (view (w_redis w)) → mem_ok (mem_of worker w) →
  Z.of_nat (size (inflight (mem_of worker w))) < worker_concurrency → 0 < worker_read_batch →
  ∃ out w1, run (serve salt (request_to trigger_route i c)) w = (Ok (202, a_run out), w1) ∧
    ro_job_id out = i ∧ ro_status out = "queued" ∧
  ∃ w2 t m, run (poll_once worker) w1 = (Ok tt, w2) ∧
    inflight (mem_of worker w2) !! t =
      Some {| t_message := m; t_run := ro_id out; t_reclaim := false |} ∧
  ∃ o w3, run (task worker t m (ro_id out) false) w2 = (o, w3) ∧ message_gone m (view (w_redis w3)) ∧
    (o = Raise CancelledError ∨ o = Ok tt ∧
     ∀ c', (get_current_user c' w3).1 = Ok u →
       ∃ out', (run (serve salt (request_to run_route (ro_id out) c')) w3).1 = Ok (200, a_run out') ∧
         ro_id out' = ro_id out ∧ ro_job_id out' = i ∧
         (ro_status out' ∈ ["succeeded"; "failed"; "timed_out"] ∨
          ro_status out' = "running" ∧
          ∃ j, jobs (w_db w) !! i = Some j ∧ ¬ plain_task (claimed_of (triggered_run i w) j))).
Proof.
  intros Hc Hf W Hp Hu Ho Hl Hidle Hm Hn Hb.
  destruct (trigger_request salt i c u w Hc Hf W Hu Ho Hl) as (out & s' & Hout & E1 & Ha).
  set (r := triggered_run i w) in *. set (w1 := with_redis s' (committed (add_run (w_db w) r) w)) in *.
  exists out, w1. split; [done|]. injection Hout as <-. split; [done|]. split; [done|].
  assert (evolves (w_db w) (w_db w1)) as Hev.
  { apply evolves_insert_run; [done| |done|done]. by destruct Ho as (j & Hj & _); exists j. }
  pose proof (ev_wf _ _ Hev W) as W1. pose proof (ev_results _ _ Hev W Hp) as Hp1.
  destruct (poll_takes worker (run_id r) w1 (view (w_redis w))) as (w2 & t & m & E2 & Hd2 & Hf2 & Hc2 & Ht);
    [done..|]. exists w2, t, m. split; [done|]. split; [exact Ht|].
  assert (runs (w_db w2) !! run_id r = Some r) as Hr2 by (rewrite Hd2; apply lookup_insert_eq).
  destruct Ho as (j & Hj & Hown).
  destruct (task_ends worker t m (run_id r) r j w2) as
    (o & w3 & r' & E3 & Hc3 & Hf3 & W3 & Hj3 & Hr3 & Hjob & Hp3 & Hg & Hoc); [done|done|by rewrite Hd2..|done|
    by rewrite Hd2|done|].
  exists o, w3. split; [exact E3|]. split; [done|].
  assert (o = Raise CancelledError ∨ o = Ok tt ∧
    (outcome_status (status r') ∨ status r' = RUNNING ∧ ¬ plain_task (claimed_of r j))) as [->|[-> Hst]]
    by (destruct Hoc as [[-> ?]|[[-> _]|(-> & ? & ?)]]; auto); [by left|]. right. split; [done|]. intros c' Hu'.
  destruct (plain_result_renders r' Hp3) as [out' Hout']. exists out'.
  destruct (run_out_inv _ _ Hout') as [Hid' Hst'].
  split.
  - apply (show_request salt (run_id r) c' u r'); try done. split; [done|]. rewrite Hjob.
    exists j. split; [|done]. by rewrite Hj3, Hd2.
  - rewrite Hid', Hst'. split; [by apply (wf_run_key _ W3)|]. split.
    + unfold run_out in Hout'. destruct (dict_or_none _); [|done]. injection Hout' as <-. exact Hjob.
    + destruct Hst as [Hst|[-> Hpt]]; [left|right; split; [done|by exists j]].
      unfold outcome_status in Hst. rewrite !elem_of_cons, elem_of_nil in Hst.
      destruct Hst as [->|[->|[->|[]]]]; simpl; set_solver.
Qed.

End end_to_end.

(** ** Evaluation *)

#[local] Existing Instances echo_executors plain_exc_text plain_validation_text plain_digests plain_fastapi
  quiet_probes.

Lemma ann_is_user : (get_current_user ann_credentials world_store).1 = Ok (demo_user "ann" 1).
Proof. vm_compute. reflexivity. Qed.

Lemma ann_owns_1 : owned (w_db world_store) (Some (user_id (demo_user "ann" 1))) 1.
Proof. eexists. split; vm_compute; reflexivity. Qed.

Lemma job_1_leaf : leaf (w_db world_store) 1.
Proof. apply (bool_decide_unpack _). vm_compute. exact I. Qed.

Lemma store_queue_idle : queue_idle (view (w_redis world_store)).
Proof. split; [reflexivity|]. split; [constructor|discriminate]. Qed.

Lemma store_mem_ok : mem_ok (mem_of "w1" world_store).
Proof. intros t x Hx. discriminate Hx. Qed.

Lemma triggered_run_is_shown_witness :
  ∃ out w1 w2 t m, run (serve "salt" (request_to trigger_route 1 ann_credentials)) world_store =
      (Ok (202, a_run out), w1) ∧
    run (poll_once "w1") w1 = (Ok tt, w2) ∧
    inflight (mem_of "w1" w2) !! t = Some {| t_message := m; t_run := ro_id out; t_reclaim := false |}.
Proof.
  destruct (triggered_run_is_shown "salt" "w1" 1 ann_credentials (demo_user "ann" 1) world_store clean_store
    quiet_store wf_store store_plain ann_is_user ann_owns_1 job_1_leaf store_queue_idle store_mem_ok
    eq_refl eq_refl) as (out & w1 & E1 & _ & _ & w2 & t & m & E2 & Ht & _).
  exists out, w1, w2, t, m. split; [exact E1|]. split; [exact E2|exact Ht].
Defined.
